(** * Aerosim track synthesis and scenario assembly: a shallow embedding

    The development follows three source files of the repository:
    - [examples/utils/aerosim_utils/artificial_tracks.py]
      (maneuver generators and their orchestration), modules
      [BaseTrackGenerator] .. [ArtificialTrackGenerator];
    - [examples/utils/aerosim_utils/utils.py]
      (WGS84 coordinate transforms), module [Geo];
    - [aerosim/src/aerosim/utils/scenario_generator.py]
      (scenario assembly), module [Scenario].

    Python floats are idealised as real numbers ([R]); Python integers are
    [Z]; strings are byte strings.  Exceptions are values of [exn] carried
    by [result]; code that draws from [random] runs in the monad [M], which
    threads the generator state and may raise. *)

From Stdlib Require Import Reals ZArith QArith Bool String Ascii List.
From Stdlib Require Import Lia Lra Psatz.
From Stdlib Require Import DecimalString HexadecimalString.
From Stdlib Require Import Orders Sorted Permutation Mergesort.
Import ListNotations.

Set Implicit Arguments.
Local Open Scope Z_scope.
Local Open Scope R_scope.
Local Open Scope string_scope.

(* ================================================================== *)
(** * Part I: the programs *)
(* ================================================================== *)

(** ** Python runtime: exceptions, strings, numbers *)

Module Py.

Inductive exn : Type :=
| ZeroDivisionError
| ValueError (msg : string)
| TypeError
| KeyError (key : string)
| IndexError
| FileNotFoundError (path : string)
| JSONDecodeError.

Inductive result (A : Type) : Type :=
| Ok (a : A)
| Raise (e : exn).

Arguments Ok {A} a.
Arguments Raise {A} e.

Definition rbind {A B} (r : result A) (k : A -> result B) : result B :=
  match r with
  | Ok a => k a
  | Raise e => Raise e
  end.

(** [str.lower()] on byte strings: [A-Z] is mapped to [a-z]. *)
Definition lower_ascii (c : ascii) : ascii :=
  let n := nat_of_ascii c in
  if ((65 <=? n) && (n <=? 90))%nat then ascii_of_nat (n + 32) else c.

Fixpoint lower (s : string) : string :=
  match s with
  | EmptyString => EmptyString
  | String c s' => String (lower_ascii c) (lower s')
  end.

(** [str(n)] for an integer. *)
Definition str_int (z : Z) : string :=
  DecimalString.NilZero.string_of_int (Z.to_int z).

Fixpoint zeros (n : nat) : string :=
  match n with
  | O => EmptyString
  | S n' => String "0" (zeros n')
  end.

(** [f"{z:05d}"]: sign first, then zeros up to a total width of five. *)
Definition fmt05d (z : Z) : string :=
  let digits := DecimalString.NilZero.string_of_uint (N.to_uint (Z.abs_N z)) in
  if (z <? 0)%Z
  then String "-" (zeros (4 - String.length digits) ++ digits)
  else zeros (5 - String.length digits) ++ digits.

(** [format(z, 'x')] for a non-negative integer. *)
Definition fmt_hex (z : Z) : string :=
  HexadecimalString.NilZero.string_of_uint (N.to_hex_uint (Z.to_N z)).

(** [math.radians], [math.degrees]. *)
Definition radians (x : R) : R := x * (PI / 180).
Definition degrees (x : R) : R := x * (180 / PI).

(** [math.atan2(y, x)], without signed zeros. *)
Definition atan2 (y x : R) : R :=
  if Rlt_dec 0 x then atan (y / x)
  else if Rlt_dec x 0 then
    if Rle_dec 0 y then atan (y / x) + PI else atan (y / x) - PI
  else
    if Rlt_dec 0 y then PI / 2
    else if Rlt_dec y 0 then - (PI / 2)
    else 0.

(** [int(x)] on a float: truncation towards zero. *)
Definition trunc (x : R) : Z :=
  if Rle_dec 0 x then Int_part x else (- Int_part (- x))%Z.

(** Float [x % y]: the result takes the sign of the divisor. *)
Definition fmod (x y : R) : R := x - y * IZR (Int_part (x / y)).

(** True division [x / n] by an integer: raises on a zero divisor. *)
Definition truediv (x : R) (n : Z) : result R :=
  if (n =? 0)%Z then Raise ZeroDivisionError else Ok (x / IZR n).

(** Floor division [a // b] of integers. *)
Definition floordiv (a b : Z) : result Z :=
  if (b =? 0)%Z then Raise ZeroDivisionError else Ok (a / b)%Z.

(** [range(n)]. *)
Definition range (n : Z) : list Z := map Z.of_nat (seq 0 (Z.to_nat n)).

(** [enumerate(l)]. *)
Definition enumerate {A} (l : list A) : list (Z * A) :=
  combine (range (Z.of_nat (List.length l))) l.

(** [l[::step]] for a positive step: the elements at 0, step, 2*step, ... *)
Fixpoint every_nth {A} (skip step : nat) (l : list A) : list A :=
  match l with
  | [] => []
  | x :: l' =>
      match skip with
      | O => x :: every_nth (step - 1) step l'
      | S k => every_nth k step l'
      end
  end.

Definition slice_step {A} (l : list A) (step : Z) : list A :=
  every_nth 0 (Z.to_nat step) l.

End Py.

Import Py.

(** ** The [random] module

    The generator state is a cursor into the sequence of values that the
    underlying generator is going to produce.  Every run of the program
    corresponds to one such sequence; [random.random()] yields a float in
    the half-open unit interval, which the type records. *)

Module Rand.

Record RNG : Type := mkRNG {
  floats : nat -> R;
  ints : nat -> Z;
  pos : nat;
  floats_unit : forall k : nat, 0 <= floats k < 1
}.

Definition advance (g : RNG) : RNG :=
  {| floats := floats g; ints := ints g; pos := S (pos g);
     floats_unit := floats_unit g |}.

(** Computations that draw random numbers and may raise. *)
Definition M (A : Type) : Type := RNG -> result (A * RNG).

Definition ret {A} (a : A) : M A := fun g => Ok (a, g).

Definition bind {A B} (c : M A) (k : A -> M B) : M B :=
  fun g =>
    match c g with
    | Ok (a, g') => k a g'
    | Raise e => Raise e
    end.

Definition lift {A} (r : result A) : M A :=
  fun g =>
    match r with
    | Ok a => Ok (a, g)
    | Raise e => Raise e
    end.

Declare Scope monad_scope.
Delimit Scope monad_scope with monad.
Notation "x <- c ;; k" := (bind c (fun x => k))
  (at level 61, c at next level, right associativity) : monad_scope.
Local Open Scope monad_scope.

(** [random.random()]. *)
Definition random : M R := fun g => Ok (floats g (pos g), advance g).

(** [random.uniform(a, b)] is [a + (b - a) * random()]. *)
Definition uniform (a b : R) : M R :=
  u <- random ;; ret (a + (b - a) * u).

(** [random.randint(a, b)] is [a + _randbelow(b - a + 1)]. *)
Definition randbelow (n : Z) : M Z :=
  fun g => Ok ((ints g (pos g) mod n)%Z, advance g).

Definition randint (a b : Z) : M Z :=
  k <- randbelow (b - a + 1) ;; ret (a + k)%Z.

(** A [for] loop that appends one result per element. *)
Fixpoint mapM {A B} (f : A -> M B) (l : list A) : M (list B) :=
  match l with
  | [] => ret []
  | x :: l' => y <- f x ;; ys <- mapM f l' ;; ret (y :: ys)
  end.

End Rand.

Import Rand.
Local Open Scope monad_scope.

(** ** artificial_tracks.py *)

(** The dictionary built by [_create_track_point]; [timestamp] is kept as
    seconds on the clock's scale rather than as its ISO-8601 rendering. *)
Record TrackPoint : Type := mkTrackPoint {
  eventName : string;
  trackId : string;
  sourceId : string;
  trackType : string;
  timestamp : R;
  data : string;
  altitudeReference : string;
  sourceTrackId : string;
  longitude : R;
  latitude : R;
  altitude : R;
  aglAltitude : R;
  mslAltitude : R;
  wgs84Altitude : R;
  distance_m : R
}.

(** A point of a reference trajectory, as far as the code reads it: the
    keys "time", "lat", "lon", "alt" and the alternates "latitude",
    "longitude", "altitude"; [None] is an absent key. *)
Record RefSample : Type := mkRefSample {
  rs_time : option R;
  rs_lat : option R;
  rs_lon : option R;
  rs_alt : option R;
  rs_latitude : option R;
  rs_longitude : option R;
  rs_altitude : option R
}.

(** A track point read back as a reference sample. *)
Definition sample_of_point (p : TrackPoint) : RefSample :=
  mkRefSample None None None None
    (Some (latitude p)) (Some (longitude p)) (Some (altitude p)).

(** [d.get(k1, d.get(k2))]. *)
Definition get2 (first second : option R) : option R :=
  match first with
  | Some v => Some v
  | None => second
  end.

(** Arithmetic on a missing value raises [TypeError]. *)
Definition as_float (v : option R) : result R :=
  match v with
  | Some x => Ok x
  | None => Raise TypeError
  end.

Definition haversine (lon1 lat1 lon2 lat2 : R) : R :=
  let R0 := 6371000 in
  let phi1 := radians lat1 in
  let phi2 := radians lat2 in
  let d_phi := radians (lat2 - lat1) in
  let d_lambda := radians (lon2 - lon1) in
  let a := (sin (d_phi / 2)) ^ 2
           + cos phi1 * cos phi2 * (sin (d_lambda / 2)) ^ 2 in
  let c := 2 * atan2 (sqrt a) (sqrt (1 - a)) in
  R0 * c.

(** What the file system and the parsing libraries give. *)
Record Env : Type := mkEnv {
  read_file : string -> option string;
  json_load : string -> option (list RefSample);
  csv_reader : string -> list (list string);
  float_of_string : string -> option R
}.

Definition unsupported_format : string :=
  "Unsupported ownship format. Use 'json' or 'csv'.".

Definition open_file (env : Env) (file_path : string) : result string :=
  match read_file env file_path with
  | Some text => Ok text
  | None => Raise (FileNotFoundError file_path)
  end.

(** [float(s)]. *)
Definition float (env : Env) (s : string) : result R :=
  match float_of_string env s with
  | Some x => Ok x
  | None => Raise (ValueError ("could not convert string to float: " ++ s))
  end.

Definition normalize_keys (pt : RefSample) : RefSample :=
  mkRefSample (rs_time pt)
    (get2 (rs_lat pt) (rs_latitude pt))
    (get2 (rs_lon pt) (rs_longitude pt))
    (get2 (rs_alt pt) (rs_altitude pt))
    (rs_latitude pt) (rs_longitude pt) (rs_altitude pt).

(** One row of the CSV loop: [None] is the [continue] of the handler. *)
Definition csv_row (env : Env) (i : Z) (row : list string)
  : result (option RefSample) :=
  match nth_error row 0, nth_error row 1, nth_error row 2 with
  | Some c0, Some c1, Some c2 =>
      match float env c0, float env c1, float env c2 with
      | Ok lat, Ok lon, Ok alt =>
          rbind (match nth_error row 3 with
                 | Some c3 => float env c3
                 | None => Ok (IZR i)
                 end)
            (fun time_val =>
               Ok (Some (mkRefSample (Some time_val) (Some lat) (Some lon)
                           (Some alt) None None None)))
      | _, _, _ => Ok None
      end
  | _, _, _ => Ok None
  end.

Fixpoint csv_rows (env : Env) (rows : list (Z * list string))
  : result (list RefSample) :=
  match rows with
  | [] => Ok []
  | (i, row) :: rest =>
      rbind (csv_row env i row) (fun r =>
      rbind (csv_rows env rest) (fun trajectory =>
      Ok (match r with
          | Some pt => pt :: trajectory
          | None => trajectory
          end)))
  end.

Definition load_ownship_trajectory (env : Env) (file_path file_format : string)
  : result (list RefSample) :=
  if lower file_format =? "json" then
    rbind (open_file env file_path) (fun text =>
    match json_load env text with
    | Some data => Ok (map normalize_keys data)
    | None => Raise JSONDecodeError
    end)
  else if lower file_format =? "csv" then
    rbind (open_file env file_path) (fun text =>
    csv_rows env (enumerate (csv_reader env text)))
  else Raise (ValueError unsupported_format).

(** Keyword arguments accepted by [BaseTrackGenerator.__init__]. *)
Record kwargs : Type := mkKwargs {
  kw_min_alt : option R;
  kw_max_alt : option R;
  kw_track_id : Z;
  kw_source_id : string;
  kw_track_type : string;
  kw_altitude_reference : string
}.

Definition default_kwargs : kwargs :=
  mkKwargs None None 10000 "ARTIFICIAL" "Surveillance" "MSL".

Module BaseTrackGenerator.

Record t : Type := mk {
  center_lat : R;
  center_lon : R;
  center_alt : R;
  min_alt : R;
  max_alt : R;
  track_id : Z;
  source_id : string;
  track_type : string;
  altitude_reference : string;
  source_track_id : string;
  start_time : R
}.

(** [__init__]; [now] is the clock reading taken by the constructor. *)
Definition init (now : R) (center_lat center_lon center_alt : R) (kw : kwargs)
  : t :=
  mk center_lat center_lon center_alt
    (match kw_min_alt kw with Some a => a | None => center_alt end)
    (match kw_max_alt kw with Some a => a | None => center_alt end)
    (kw_track_id kw) (kw_source_id kw) (kw_track_type kw)
    (kw_altitude_reference kw)
    (kw_source_id kw ++ "::" ++ str_int (kw_track_id kw))
    now.

Definition set_start_time (self : t) (start_time : R) : t :=
  mk (center_lat self) (center_lon self) (center_alt self)
    (min_alt self) (max_alt self) (track_id self) (source_id self)
    (track_type self) (altitude_reference self) (source_track_id self)
    start_time.

Definition _create_track_point (self : t) (lon lat alt time_delta : R)
  : M TrackPoint :=
  let timestamp := start_time self + time_delta in
  icao <- randint 1048576 16777215 ;;
  let data_field :=
    "Hex-ICAO:" ++ fmt_hex icao ++ "|Alt-Baro:" ++ str_int (trunc alt) in
  let distance := haversine (center_lon self) (center_lat self) lon lat in
  ret (mkTrackPoint "track.appended" (fmt05d (track_id self))
         (source_id self) (track_type self) timestamp data_field
         (altitude_reference self) (source_track_id self)
         lon lat alt (alt * 0.35) alt (alt - 50) distance).

Definition _get_altitude (self : t) : M R :=
  uniform (min_alt self) (max_alt self).

End BaseTrackGenerator.

Import BaseTrackGenerator.

(** *** The maneuver generators *)

Module RandomTrackGenerator.

Record t : Type := mk { base : BaseTrackGenerator.t }.

Definition init (now center_lat center_lon center_alt : R) (kw : kwargs) : t :=
  mk (BaseTrackGenerator.init now center_lat center_lon center_alt kw).

Definition generate (self : t) (num_points : Z) (interval_seconds : R)
  : M (list TrackPoint) :=
  mapM (fun i : Z =>
    delta_lat <- uniform (-0.01) 0.01 ;;
    delta_lon <- uniform (-0.01) 0.01 ;;
    let lat := center_lat (base self) + delta_lat in
    let lon := center_lon (base self) + delta_lon in
    alt <- _get_altitude (base self) ;;
    let time_delta := IZR i * interval_seconds in
    _create_track_point (base self) lon lat alt time_delta)
  (range num_points).

End RandomTrackGenerator.

Module CircularTrackGenerator.

Record t : Type := mk { base : BaseTrackGenerator.t; radius : R }.

Definition default_radius : R := 0.005.

Definition init (now center_lat center_lon center_alt radius : R)
  (kw : kwargs) : t :=
  mk (BaseTrackGenerator.init now center_lat center_lon center_alt kw) radius.

Definition generate (self : t) (num_points : Z) (interval_seconds : R)
  : M (list TrackPoint) :=
  mapM (fun i : Z =>
    w <- lift (truediv (2 * PI) num_points) ;;
    let angle := w * IZR i in
    let delta_lat := radius self * cos angle in
    let delta_lon := radius self * sin angle in
    let lat := center_lat (base self) + delta_lat in
    let lon := center_lon (base self) + delta_lon in
    alt <- _get_altitude (base self) ;;
    let time_delta := IZR i * interval_seconds in
    _create_track_point (base self) lon lat alt time_delta)
  (range num_points).

End CircularTrackGenerator.

Module EllipticalTrackGenerator.

Record t : Type := mk {
  base : BaseTrackGenerator.t;
  radius_x : R;
  radius_y : R
}.

Definition default_radius_x : R := 0.01.
Definition default_radius_y : R := 0.005.

Definition init (now center_lat center_lon center_alt radius_x radius_y : R)
  (kw : kwargs) : t :=
  mk (BaseTrackGenerator.init now center_lat center_lon center_alt kw)
    radius_x radius_y.

Definition generate (self : t) (num_points : Z) (interval_seconds : R)
  : M (list TrackPoint) :=
  mapM (fun i : Z =>
    w <- lift (truediv (2 * PI) num_points) ;;
    let angle := w * IZR i in
    let delta_lat := radius_y self * sin angle in
    let delta_lon := radius_x self * cos angle in
    let lat := center_lat (base self) + delta_lat in
    let lon := center_lon (base self) + delta_lon in
    alt <- _get_altitude (base self) ;;
    let time_delta := IZR i * interval_seconds in
    _create_track_point (base self) lon lat alt time_delta)
  (range num_points).

End EllipticalTrackGenerator.

Module FlybyTrackGenerator.

Record t : Type := mk {
  base : BaseTrackGenerator.t;
  approach_distance : R;
  exit_distance : R;
  bearing : R
}.

Definition default_approach_distance : R := 0.02.
Definition default_exit_distance : R := 0.02.
Definition default_bearing : R := 45.

(** The constructor stores the bearing in radians. *)
Definition init (now center_lat center_lon center_alt : R)
  (approach_distance exit_distance bearing : R) (kw : kwargs) : t :=
  mk (BaseTrackGenerator.init now center_lat center_lon center_alt kw)
    approach_distance exit_distance (radians bearing).

Definition generate (self : t) (num_points : Z) (interval_seconds : R)
  : M (list TrackPoint) :=
  let total_distance := approach_distance self + exit_distance self in
  mapM (fun i : Z =>
    frac <- lift (truediv (IZR i) (num_points - 1)) ;;
    let offset := - approach_distance self + total_distance * frac in
    let delta_lat := offset * cos (bearing self) in
    let delta_lon := offset * sin (bearing self) in
    let lat := center_lat (base self) + delta_lat in
    let lon := center_lon (base self) + delta_lon in
    alt <- _get_altitude (base self) ;;
    let time_delta := IZR i * interval_seconds in
    _create_track_point (base self) lon lat alt time_delta)
  (range num_points).

End FlybyTrackGenerator.

(** The path shared by the square and the rectangle: every corner followed
    by the midpoint of the edge to the next corner. *)
Definition perimeter_path (corners : list (R * R)) : list (R * R) :=
  flat_map (fun i : nat =>
    let corner := nth i corners (0, 0) in
    let next_corner :=
      nth ((i + 1) mod List.length corners)%nat corners (0, 0) in
    let mid_lat := (fst corner + fst next_corner) / 2 in
    let mid_lon := (snd corner + snd next_corner) / 2 in
    [corner; (mid_lat, mid_lon)])
  (seq 0 (List.length corners)).

(** The sampling loop shared by the square and the rectangle. *)
Definition sample_path (self : BaseTrackGenerator.t) (path : list (R * R))
  (num_points : Z) (interval_seconds : R) : M (list TrackPoint) :=
  q <- lift (floordiv (Z.of_nat (List.length path)) num_points) ;;
  let step := Z.max 1 q in
  mapM (fun ip : Z * (R * R) =>
    let '(i, (lat, lon)) := ip in
    alt <- _get_altitude self ;;
    let time_delta := IZR i * interval_seconds in
    _create_track_point self lon lat alt time_delta)
  (enumerate (slice_step path step)).

Module SquareTrackGenerator.

Record t : Type := mk { base : BaseTrackGenerator.t; side_length : R }.

Definition default_side_length : R := 0.02.

Definition init (now center_lat center_lon center_alt side_length : R)
  (kw : kwargs) : t :=
  mk (BaseTrackGenerator.init now center_lat center_lon center_alt kw)
    side_length.

Definition corners (self : t) : list (R * R) :=
  let half := side_length self / 2 in
  [ (center_lat (base self) - half, center_lon (base self) - half);
    (center_lat (base self) - half, center_lon (base self) + half);
    (center_lat (base self) + half, center_lon (base self) + half);
    (center_lat (base self) + half, center_lon (base self) - half) ].

Definition generate (self : t) (num_points : Z) (interval_seconds : R)
  : M (list TrackPoint) :=
  let path := perimeter_path (corners self) in
  sample_path (base self) path num_points interval_seconds.

End SquareTrackGenerator.

Module RectangleTrackGenerator.

Record t : Type := mk { base : BaseTrackGenerator.t; width : R; height : R }.

Definition default_width : R := 0.03.
Definition default_height : R := 0.01.

Definition init (now center_lat center_lon center_alt width height : R)
  (kw : kwargs) : t :=
  mk (BaseTrackGenerator.init now center_lat center_lon center_alt kw)
    width height.

Definition corners (self : t) : list (R * R) :=
  let half_w := width self / 2 in
  let half_h := height self / 2 in
  [ (center_lat (base self) - half_h, center_lon (base self) - half_w);
    (center_lat (base self) - half_h, center_lon (base self) + half_w);
    (center_lat (base self) + half_h, center_lon (base self) + half_w);
    (center_lat (base self) + half_h, center_lon (base self) - half_w) ].

Definition generate (self : t) (num_points : Z) (interval_seconds : R)
  : M (list TrackPoint) :=
  let path := perimeter_path (corners self) in
  sample_path (base self) path num_points interval_seconds.

End RectangleTrackGenerator.

Module ZigzagTrackGenerator.

Record t : Type := mk {
  base : BaseTrackGenerator.t;
  direction : R;
  amplitude : R;
  frequency : R
}.

Definition default_direction : R := 0.
Definition default_amplitude : R := 0.005.
Definition default_frequency : R := 2.

(** The constructor stores the heading in radians. *)
Definition init (now center_lat center_lon center_alt : R)
  (direction amplitude frequency : R) (kw : kwargs) : t :=
  mk (BaseTrackGenerator.init now center_lat center_lon center_alt kw)
    (radians direction) amplitude frequency.

Definition generate (self : t) (num_points : Z) (interval_seconds : R)
  : M (list TrackPoint) :=
  let total_distance := 0.01 in
  mapM (fun i : Z =>
    fraction <- (if (1 <? num_points)%Z
                 then lift (truediv (IZR i) (num_points - 1))
                 else ret 0) ;;
    let main_offset := total_distance * fraction in
    let lateral_offset :=
      amplitude self * sin (2 * PI * frequency self * fraction) in
    let delta_lat_main := main_offset * cos (direction self) in
    let delta_lon_main := main_offset * sin (direction self) in
    let delta_lat_perp := lateral_offset * cos (direction self + PI / 2) in
    let delta_lon_perp := lateral_offset * sin (direction self + PI / 2) in
    let lat := center_lat (base self) + delta_lat_main + delta_lat_perp in
    let lon := center_lon (base self) + delta_lon_main + delta_lon_perp in
    alt <- _get_altitude (base self) ;;
    let time_delta := IZR i * interval_seconds in
    _create_track_point (base self) lon lat alt time_delta)
  (range num_points).

End ZigzagTrackGenerator.

Module SpiralTrackGenerator.

Record t : Type := mk {
  base : BaseTrackGenerator.t;
  initial_radius : R;
  radius_increment : R;
  rotations : R
}.

Definition default_initial_radius : R := 0.002.
Definition default_radius_increment : R := 0.001.
Definition default_rotations : R := 3.

Definition init (now center_lat center_lon center_alt : R)
  (initial_radius radius_increment rotations : R) (kw : kwargs) : t :=
  mk (BaseTrackGenerator.init now center_lat center_lon center_alt kw)
    initial_radius radius_increment rotations.

Definition generate (self : t) (num_points : Z) (interval_seconds : R)
  : M (list TrackPoint) :=
  mapM (fun i : Z =>
    q <- lift (truediv (IZR i) num_points) ;;
    let angle := 2 * PI * rotations self * q in
    let radius := initial_radius self + radius_increment self * IZR i in
    let delta_lat := radius * cos angle in
    let delta_lon := radius * sin angle in
    let lat := center_lat (base self) + delta_lat in
    let lon := center_lon (base self) + delta_lon in
    alt <- _get_altitude (base self) ;;
    let time_delta := IZR i * interval_seconds in
    _create_track_point (base self) lon lat alt time_delta)
  (range num_points).

End SpiralTrackGenerator.

(** *** The ownship-relative generator *)

Module OwnshipRelativeTrackGenerator.

Record t : Type := mk {
  base : BaseTrackGenerator.t;
  ownship_track : list RefSample;
  separation_distance : R;
  relative_direction : string;
  alt_offset : R
}.

Definition init (now : R) (ownship_track : list RefSample)
  (separation_distance : R) (relative_direction : string) (alt_offset : R)
  (kw : kwargs) : t :=
  mk (BaseTrackGenerator.init now 0 0 0 kw) ownship_track
    separation_distance (lower relative_direction) alt_offset.

Definition compute_bearing (lat1 lon1 lat2 lon2 : R) : R :=
  let lat1 := radians lat1 in
  let lon1 := radians lon1 in
  let lat2 := radians lat2 in
  let lon2 := radians lon2 in
  let d_lon := lon2 - lon1 in
  let x := sin d_lon * cos lat2 in
  let y := cos lat1 * sin lat2 - sin lat1 * cos lat2 * cos d_lon in
  let bearing := atan2 x y in
  if Rlt_dec bearing 0 then bearing + 2 * PI else bearing.

Definition destination_point (lat lon bearing distance : R) : R * R :=
  let R0 := 6371000 in
  let lat_rad := radians lat in
  let lon_rad := radians lon in
  let angular_distance := distance / R0 in
  let new_lat :=
    asin (sin lat_rad * cos angular_distance
          + cos lat_rad * sin angular_distance * cos bearing) in
  let new_lon :=
    lon_rad + atan2 (sin bearing * sin angular_distance * cos lat_rad)
                (cos angular_distance - sin lat_rad * sin new_lat) in
  (degrees new_lat, degrees new_lon).

(** The bearing and distance along which a sample is displaced. *)
Definition offset_of (relative_direction : string) (bearing separation : R)
  : R * R :=
  if relative_direction =? "ahead" then (bearing, separation)
  else if relative_direction =? "behind" then (bearing, - separation)
  else if relative_direction =? "opposite"
       then (fmod (bearing + PI) (2 * PI), separation)
  else (bearing, separation).

(** [ownship[i]]. *)
Definition item (ownship : list RefSample) (i : Z) : result RefSample :=
  match nth_error ownship (Z.to_nat i) with
  | Some pt => Ok pt
  | None => Raise IndexError
  end.

(** The body of the loop of [generate], from index [i] on;
    [previous_bearing] is the loop-carried variable of that name. *)
Fixpoint generate_from (self : t) (n : Z) (pts : list (Z * RefSample))
  (previous_bearing : option R) : M (list TrackPoint) :=
  match pts with
  | [] => ret []
  | (i, pt) :: rest =>
      lat <- lift (as_float (get2 (rs_lat pt) (rs_latitude pt))) ;;
      lon <- lift (as_float (get2 (rs_lon pt) (rs_longitude pt))) ;;
      alt <- lift (as_float (get2 (rs_alt pt) (rs_altitude pt))) ;;
      let time_delta :=
        match rs_time pt with
        | Some time => time
        | None => IZR (i * 10)
        end in
      bp <- (if (i <? n - 1)%Z then
               next_pt <- lift (item (ownship_track self) (i + 1)) ;;
               lat2 <- lift (as_float
                               (get2 (rs_lat next_pt) (rs_latitude next_pt))) ;;
               lon2 <- lift (as_float
                               (get2 (rs_lon next_pt) (rs_longitude next_pt))) ;;
               let bearing := compute_bearing lat lon lat2 lon2 in
               ret (bearing, Some bearing)
             else
               match previous_bearing with
               | Some b => ret (b, previous_bearing)
               | None => ret (0, previous_bearing)
               end) ;;
      let bearing := fst bp in
      let off := offset_of (relative_direction self) bearing
                   (separation_distance self) in
      let new_pos := destination_point lat lon (fst off) (snd off) in
      let new_alt := alt + alt_offset self in
      track_point <- _create_track_point (base self) (snd new_pos)
                       (fst new_pos) new_alt time_delta ;;
      points <- generate_from self n rest (snd bp) ;;
      ret (track_point :: points)
  end.

Definition generate (self : t) : M (list TrackPoint) :=
  let ownship := ownship_track self in
  let n := Z.of_nat (List.length ownship) in
  generate_from self n (enumerate ownship) None.

End OwnshipRelativeTrackGenerator.

(** *** Orchestration *)

(** The object returned by [_select_generator]. *)
Inductive Generator : Type :=
| GenRandom (g : RandomTrackGenerator.t)
| GenCircular (g : CircularTrackGenerator.t)
| GenElliptical (g : EllipticalTrackGenerator.t)
| GenFlyby (g : FlybyTrackGenerator.t)
| GenSquare (g : SquareTrackGenerator.t)
| GenRectangle (g : RectangleTrackGenerator.t)
| GenZigzag (g : ZigzagTrackGenerator.t)
| GenSpiral (g : SpiralTrackGenerator.t).

Definition generator_base (gen : Generator) : BaseTrackGenerator.t :=
  match gen with
  | GenRandom g => RandomTrackGenerator.base g
  | GenCircular g => CircularTrackGenerator.base g
  | GenElliptical g => EllipticalTrackGenerator.base g
  | GenFlyby g => FlybyTrackGenerator.base g
  | GenSquare g => SquareTrackGenerator.base g
  | GenRectangle g => RectangleTrackGenerator.base g
  | GenZigzag g => ZigzagTrackGenerator.base g
  | GenSpiral g => SpiralTrackGenerator.base g
  end.

(** [generator.start_time = start_time]. *)
Definition generator_set_start_time (gen : Generator) (start_time : R)
  : Generator :=
  match gen with
  | GenRandom g =>
      GenRandom (RandomTrackGenerator.mk
        (set_start_time (RandomTrackGenerator.base g) start_time))
  | GenCircular g =>
      GenCircular (CircularTrackGenerator.mk
        (set_start_time (CircularTrackGenerator.base g) start_time)
        (CircularTrackGenerator.radius g))
  | GenElliptical g =>
      GenElliptical (EllipticalTrackGenerator.mk
        (set_start_time (EllipticalTrackGenerator.base g) start_time)
        (EllipticalTrackGenerator.radius_x g)
        (EllipticalTrackGenerator.radius_y g))
  | GenFlyby g =>
      GenFlyby (FlybyTrackGenerator.mk
        (set_start_time (FlybyTrackGenerator.base g) start_time)
        (FlybyTrackGenerator.approach_distance g)
        (FlybyTrackGenerator.exit_distance g)
        (FlybyTrackGenerator.bearing g))
  | GenSquare g =>
      GenSquare (SquareTrackGenerator.mk
        (set_start_time (SquareTrackGenerator.base g) start_time)
        (SquareTrackGenerator.side_length g))
  | GenRectangle g =>
      GenRectangle (RectangleTrackGenerator.mk
        (set_start_time (RectangleTrackGenerator.base g) start_time)
        (RectangleTrackGenerator.width g)
        (RectangleTrackGenerator.height g))
  | GenZigzag g =>
      GenZigzag (ZigzagTrackGenerator.mk
        (set_start_time (ZigzagTrackGenerator.base g) start_time)
        (ZigzagTrackGenerator.direction g)
        (ZigzagTrackGenerator.amplitude g)
        (ZigzagTrackGenerator.frequency g))
  | GenSpiral g =>
      GenSpiral (SpiralTrackGenerator.mk
        (set_start_time (SpiralTrackGenerator.base g) start_time)
        (SpiralTrackGenerator.initial_radius g)
        (SpiralTrackGenerator.radius_increment g)
        (SpiralTrackGenerator.rotations g))
  end.

(** [generator.generate(num_points=..., interval_seconds=...)]. *)
Definition generator_generate (gen : Generator) (num_points : Z)
  (interval_seconds : R) : M (list TrackPoint) :=
  match gen with
  | GenRandom g => RandomTrackGenerator.generate g num_points interval_seconds
  | GenCircular g =>
      CircularTrackGenerator.generate g num_points interval_seconds
  | GenElliptical g =>
      EllipticalTrackGenerator.generate g num_points interval_seconds
  | GenFlyby g => FlybyTrackGenerator.generate g num_points interval_seconds
  | GenSquare g => SquareTrackGenerator.generate g num_points interval_seconds
  | GenRectangle g =>
      RectangleTrackGenerator.generate g num_points interval_seconds
  | GenZigzag g => ZigzagTrackGenerator.generate g num_points interval_seconds
  | GenSpiral g => SpiralTrackGenerator.generate g num_points interval_seconds
  end.

(** A track held by the orchestrator: the ownship read from a file is a
    list of raw samples, every other track a list of track points. *)
Inductive Track : Type :=
| Loaded (samples : list RefSample)
| Generated (points : list TrackPoint).

Definition reference_samples (tr : Track) : list RefSample :=
  match tr with
  | Loaded samples => samples
  | Generated points => map sample_of_point points
  end.

(** [range(a, b)]. *)
Definition range_from (a b : Z) : list Z :=
  map (fun k : nat => (a + Z.of_nat k)%Z) (seq 0 (Z.to_nat (b - a))).

Module ArtificialTrackGenerator.

Record t : Type := mk {
  num_tracks : Z;
  track_generator_class : string;
  center_lat : R;
  center_lon : R;
  center_alt : R;
  separation_distance : R;
  time_delay : R;
  min_alt : R;
  max_alt : R;
  fly_along : bool;
  initial_track_id : Z;
  ownship_trajectory_file : option string;
  ownship_format : string;
  num_points : Z;
  interval_seconds : R;
  tracks : list Track
}.

Definition init (num_tracks : Z) (track_generator_class : string)
  (center_lat center_lon center_alt separation_distance time_delay : R)
  (min_alt max_alt : option R) (fly_along : bool)
  (ownship_trajectory_file : option string) (ownship_format : string)
  (num_points : Z) (interval_seconds : R) : t :=
  mk num_tracks (lower track_generator_class)
    center_lat center_lon center_alt separation_distance time_delay
    (match min_alt with Some a => a | None => center_alt end)
    (match max_alt with Some a => a | None => center_alt end)
    fly_along 10000 ownship_trajectory_file ownship_format
    num_points interval_seconds [].

Definition set_tracks (self : t) (tracks : list Track) : t :=
  mk (num_tracks self) (track_generator_class self) (center_lat self)
    (center_lon self) (center_alt self) (separation_distance self)
    (time_delay self) (min_alt self) (max_alt self) (fly_along self)
    (initial_track_id self) (ownship_trajectory_file self)
    (ownship_format self) (num_points self) (interval_seconds self) tracks.

(** [_select_generator]: its keyword arguments are the center and [kw];
    [now] is the clock reading of the constructor. *)
Definition _select_generator (self : t) (now c_lat c_lon c_alt : R)
  (kw : kwargs) : Generator :=
  let gen_class := track_generator_class self in
  if gen_class =? "random" then
    GenRandom (RandomTrackGenerator.init now c_lat c_lon c_alt kw)
  else if gen_class =? "circular" then
    GenCircular (CircularTrackGenerator.init now c_lat c_lon c_alt
                   CircularTrackGenerator.default_radius kw)
  else if gen_class =? "elliptical" then
    GenElliptical (EllipticalTrackGenerator.init now c_lat c_lon c_alt
                     EllipticalTrackGenerator.default_radius_x
                     EllipticalTrackGenerator.default_radius_y kw)
  else if gen_class =? "flyby" then
    GenFlyby (FlybyTrackGenerator.init now c_lat c_lon c_alt
                FlybyTrackGenerator.default_approach_distance
                FlybyTrackGenerator.default_exit_distance
                FlybyTrackGenerator.default_bearing kw)
  else if gen_class =? "square" then
    GenSquare (SquareTrackGenerator.init now c_lat c_lon c_alt
                 SquareTrackGenerator.default_side_length kw)
  else if gen_class =? "rectangle" then
    GenRectangle (RectangleTrackGenerator.init now c_lat c_lon c_alt
                    RectangleTrackGenerator.default_width
                    RectangleTrackGenerator.default_height kw)
  else if gen_class =? "zigzag" then
    GenZigzag (ZigzagTrackGenerator.init now c_lat c_lon c_alt
                 ZigzagTrackGenerator.default_direction
                 ZigzagTrackGenerator.default_amplitude
                 ZigzagTrackGenerator.default_frequency kw)
  else if gen_class =? "spiral" then
    GenSpiral (SpiralTrackGenerator.init now c_lat c_lon c_alt
                 SpiralTrackGenerator.default_initial_radius
                 SpiralTrackGenerator.default_radius_increment
                 SpiralTrackGenerator.default_rotations kw)
  else
    GenRandom (RandomTrackGenerator.init now c_lat c_lon c_alt kw).

Definition generate_track (self : t) (now : R) (track_id : Z)
  (c_lat c_lon start_time : R) : M (list TrackPoint) :=
  let kw := mkKwargs (Some (min_alt self)) (Some (max_alt self)) track_id
              (kw_source_id default_kwargs) (kw_track_type default_kwargs)
              (kw_altitude_reference default_kwargs) in
  let generator := _select_generator self now c_lat c_lon (center_alt self) kw in
  let generator := generator_set_start_time generator start_time in
  generator_generate generator (num_points self) (interval_seconds self).

(** Truth value of [self.ownship_trajectory_file]. *)
Definition file_given (f : option string) : option string :=
  match f with
  | Some "" => None
  | other => other
  end.

(** [generate]; [now] is the clock reading bound to [base_start_time]. *)
Definition generate (env : Env) (self : t) (now : R)
  : M (t * list Track) :=
  let base_start_time := now in
  tracks <-
    (if fly_along self then
       ownship_track <-
         (match file_given (ownship_trajectory_file self) with
          | Some file =>
              samples <- lift (load_ownship_trajectory env file
                                 (ownship_format self)) ;;
              ret (Loaded samples)
          | None =>
              points <- generate_track self now (initial_track_id self)
                          (center_lat self) (center_lon self)
                          base_start_time ;;
              ret (Generated points)
          end) ;;
       others <-
         mapM (fun i : Z =>
           let track_start_time := base_start_time + IZR i * time_delay self in
           let relative_generator :=
             OwnshipRelativeTrackGenerator.init now
               (reference_samples ownship_track)
               (separation_distance self * 111000) "ahead" 0
               (mkKwargs None None (initial_track_id self + i)
                  "ARTIFICIAL" "Surveillance" "MSL") in
           let relative_generator :=
             OwnshipRelativeTrackGenerator.mk
               (set_start_time
                  (OwnshipRelativeTrackGenerator.base relative_generator)
                  track_start_time)
               (OwnshipRelativeTrackGenerator.ownship_track
                  relative_generator)
               (OwnshipRelativeTrackGenerator.separation_distance
                  relative_generator)
               (OwnshipRelativeTrackGenerator.relative_direction
                  relative_generator)
               (OwnshipRelativeTrackGenerator.alt_offset
                  relative_generator) in
           points <- OwnshipRelativeTrackGenerator.generate
                       relative_generator ;;
           ret (Generated points))
         (range_from 1 (num_tracks self)) ;;
       ret (ownship_track :: others)
     else
       mapM (fun i : Z =>
         let offset_deg := separation_distance self * IZR i in
         let track_center_lat := center_lat self + offset_deg in
         let track_center_lon := center_lon self in
         let track_start_time := base_start_time + IZR i * time_delay self in
         points <- generate_track self now (initial_track_id self + i)
                     track_center_lat track_center_lon track_start_time ;;
         ret (Generated points))
       (range (num_tracks self))) ;;
  ret (set_tracks self tracks, tracks).

End ArtificialTrackGenerator.

(** ** utils.py: WGS84 coordinate transforms

    [numpy] arithmetic does not raise, so the functions are total. *)

Module Geo.

(** WGS84 ellipsoid constants. *)
Definition A : R := 6378137.0.
Definition E_SQ : R := 6.69437999014e-3.

Definition geodetic_to_ecef (lat lon alt : R) : R * R * R :=
  let lat_rad := radians lat in
  let lon_rad := radians lon in
  let N := A / sqrt (1 - E_SQ * (sin lat_rad) ^ 2) in
  let x := (N + alt) * cos lat_rad * cos lon_rad in
  let y := (N + alt) * cos lat_rad * sin lon_rad in
  let z := (N * (1 - E_SQ) + alt) * sin lat_rad in
  (x, y, z).

(** One pass of the refinement loop on the pair [(lat, alt)]. *)
Definition refine_step (p z : R) (la : R * R) : R * R :=
  let lat := fst la in
  let N := A / sqrt (1 - E_SQ * (sin lat) ^ 2) in
  let alt := p / cos lat - N in
  let lat := atan2 (z + E_SQ * N * sin lat) p in
  (lat, alt).

Fixpoint refine (k : nat) (p z : R) (la : R * R) : R * R :=
  match k with
  | O => la
  | S k' => refine k' p z (refine_step p z la)
  end.

Definition ecef_to_geodetic (x y z : R) : R * R * R :=
  let lon := atan2 y x in
  let p := sqrt (x * x + y * y) in
  let lat := atan2 z (p * (1 - E_SQ)) in
  let alt := 0 in
  let la := refine 5 p z (lat, alt) in
  (degrees (fst la), degrees lon, snd la).

Definition ecef_to_ned (dx dy dz ref_lat ref_lon : R) : R * R * R :=
  let lat_rad := radians ref_lat in
  let lon_rad := radians ref_lon in
  let north := - sin lat_rad * cos lon_rad * dx
               - sin lat_rad * sin lon_rad * dy + cos lat_rad * dz in
  let east := - sin lon_rad * dx + cos lon_rad * dy in
  let down := - cos lat_rad * cos lon_rad * dx
              - cos lat_rad * sin lon_rad * dy - sin lat_rad * dz in
  (north, east, down).

Definition ned_to_ecef (north east down ref_lat ref_lon : R) : R * R * R :=
  let lat_rad := radians ref_lat in
  let lon_rad := radians ref_lon in
  let dx := - sin lat_rad * cos lon_rad * north - sin lon_rad * east
            - cos lat_rad * cos lon_rad * down in
  let dy := - sin lat_rad * sin lon_rad * north + cos lon_rad * east
            - cos lat_rad * sin lon_rad * down in
  let dz := cos lat_rad * north - sin lat_rad * down in
  (dx, dy, dz).

Definition lla_to_ned (lat lon alt ref_lat ref_lon ref_alt : R) : R * R * R :=
  let '(target_x, target_y, target_z) := geodetic_to_ecef lat lon alt in
  let '(ref_x, ref_y, ref_z) := geodetic_to_ecef ref_lat ref_lon ref_alt in
  let dx := target_x - ref_x in
  let dy := target_y - ref_y in
  let dz := target_z - ref_z in
  ecef_to_ned dx dy dz ref_lat ref_lon.

Definition ned_to_lla (north east down ref_lat ref_lon ref_alt : R)
  : R * R * R :=
  let '(ref_x, ref_y, ref_z) := geodetic_to_ecef ref_lat ref_lon ref_alt in
  let '(dx, dy, dz) := ned_to_ecef north east down ref_lat ref_lon in
  let x := ref_x + dx in
  let y := ref_y + dy in
  let z := ref_z + dz in
  ecef_to_geodetic x y z.

Definition haversine_distance (lat1 lon1 lat2 lon2 : R) : R :=
  let R0 := A in
  let lat1_rad := radians lat1 in
  let lon1_rad := radians lon1 in
  let lat2_rad := radians lat2 in
  let lon2_rad := radians lon2 in
  let dlat := lat2_rad - lat1_rad in
  let dlon := lon2_rad - lon1_rad in
  let a_val := (sin (dlat / 2)) ^ 2
               + cos lat1_rad * cos lat2_rad * (sin (dlon / 2)) ^ 2 in
  let c_val := 2 * atan2 (sqrt a_val) (sqrt (1 - a_val)) in
  R0 * c_val.

Definition euclidean_distance_lla (lat1 lon1 alt1 lat2 lon2 alt2 : R) : R :=
  let '(x1, y1, z1) := geodetic_to_ecef lat1 lon1 alt1 in
  let '(x2, y2, z2) := geodetic_to_ecef lat2 lon2 alt2 in
  sqrt ((x2 - x1) ^ 2 + (y2 - y1) ^ 2 + (z2 - z1) ^ 2).

Definition bearing_between_points (lat1 lon1 lat2 lon2 : R) : R :=
  let lat1_rad := radians lat1 in
  let lon1_rad := radians lon1 in
  let lat2_rad := radians lat2 in
  let lon2_rad := radians lon2 in
  let dlon := lon2_rad - lon1_rad in
  let x := sin dlon * cos lat2_rad in
  let y := cos lat1_rad * sin lat2_rad
           - sin lat1_rad * cos lat2_rad * cos dlon in
  let bearing_rad := atan2 x y in
  fmod (degrees bearing_rad + 360) 360.

End Geo.

(** ** scenario_generator.py *)

Module StringOrder <: TotalLeBool.
Definition t : Type := string.
Definition leb : t -> t -> bool := String.leb.
Lemma leb_total : forall a1 a2 : t, leb a1 a2 = true \/ leb a2 a1 = true.
Proof. exact String.leb_total. Qed.
End StringOrder.

(** [list.sort()] on file names. *)
Module StringSort := Sort StringOrder.

Module Scenario.

(** A record of a trajectory file; JSON numbers are kept exact. *)
Record Waypoint : Type := mkWaypoint {
  wp_time : option Q;
  wp_lat : option Q;
  wp_lon : option Q;
  wp_alt : option Q
}.

(** A directory: the names in the order [os.listdir] reports them, each
    with the parsed content of the file. *)
Definition Folder : Type := list (string * list Waypoint).

Record Origin : Type := mkOrigin {
  origin_latitude : Q;
  origin_longitude : Q;
  origin_altitude : Q
}.

Record SyncTopic : Type := mkSyncTopic {
  sync_topic : string;
  interval_ms : Z
}.

(** An actor entry; the fixed transform blocks are left out. *)
Record Actor : Type := mkActor {
  actor_name : string;
  actor_asset : string;
  actor_parent : string;
  actor_description : string;
  state_topic : string;
  effector_id : string;
  effector_topic : string;
  trajectory_visualization_topic : string
}.

(** A sensor configuration, with the fields the assembler reads or writes. *)
Record SensorConfig : Type := mkSensorConfig {
  sensor_name : string;
  sensor_type : string;
  sensor_parent : option string
}.

Record FmuModel : Type := mkFmuModel {
  fmu_id : string;
  fmu_model_path : string;
  component_type : option string;
  component_input_topics : list string;
  component_output_topics : list string;
  fmu_initial_vals : list (string * string)
}.

Record Renderer : Type := mkRenderer {
  renderer_id : string;
  role : string;
  renderer_sensors : list string
}.

(** The scenario document; [origin = None] is the empty object. *)
Record ScenarioDoc : Type := mkScenario {
  description : string;
  weather_preset : string;
  origin : option Origin;
  sync_topics : list SyncTopic;
  actors : list Actor;
  sensors : list SensorConfig;
  renderers : list Renderer;
  fmu_models : list FmuModel
}.

Definition default_sensor_configs : list SensorConfig :=
  [mkSensorConfig "rgb_camera_0" "sensors/cameras/rgb_camera" None].

(** [s.endswith(suffix)]. *)
Definition endswith (s suffix : string) : bool :=
  let n := String.length s in
  let m := String.length suffix in
  (m <=? n)%nat && (substring (n - m) m s =? suffix).

(** [s.split('_')[0]]. *)
Fixpoint before_underscore (s : string) : string :=
  match s with
  | EmptyString => EmptyString
  | String c s' =>
      if Ascii.eqb c "_"%char then EmptyString
      else String c (before_underscore s')
  end.

(** [os.path.join(folder, file)] for a relative file name. *)
Definition path_join (folder file : string) : string :=
  if folder =? "" then file
  else if endswith folder "/" then folder ++ file
  else folder ++ "/" ++ file.

(** Reading and parsing the file of that name. *)
Fixpoint load (folder : Folder) (name : string) : list Waypoint :=
  match folder with
  | [] => []
  | (f, waypoints) :: rest =>
      if f =? name then waypoints else load rest name
  end.

(** [d[key]] on a waypoint. *)
Definition field (key : string) (v : option Q) : result Q :=
  match v with
  | Some q => Ok q
  | None => Raise (KeyError key)
  end.

Definition trajectory_files (folder : Folder) : list string :=
  StringSort.sort
    (filter (fun f => endswith f "_trajectory.json") (map fst folder)).

(** The state of the loop: the document and the list
    [add_sensors_to_vehicles], which the loop appends to. *)
Definition state : Type := (ScenarioDoc * list string)%type.

Definition sensor_fmu (kind : string) (vehicle_topic actor : string)
  : FmuModel :=
  mkFmuModel (kind ++ "_publisher")
    ("fmu/" ++ kind ++ "_sensor_fmu_model.fmu") (Some "sensor")
    [vehicle_topic] []
    [("output_" ++ kind ++ "_topic_name",
      "aerosim." ++ actor ++ ".sensor." ++ kind)].

(** One iteration of the loop over the trajectory files. *)
Definition step (folder : Folder) (trajectories_folder fmu_path : string)
  (sensor_configs : list SensorConfig) (st : state)
  (it : Z * string) : result state :=
  let '(scenario, add_sensors_to_vehicles) := st in
  let '(idx, traj_file) := it in
  let track_id := before_underscore traj_file in
  let traj_path := path_join trajectories_folder traj_file in
  let waypoints := load folder traj_file in
  match waypoints with
  | [] => Ok st
  | first_waypoint :: _ =>
      rbind
        (if (idx =? 1)%Z then
           rbind (field "lat" (wp_lat first_waypoint)) (fun lat =>
           rbind (field "lon" (wp_lon first_waypoint)) (fun lon =>
           Ok (Some (mkOrigin lat lon
                       (match wp_alt first_waypoint with
                        | Some alt => alt
                        | None => 116.09%Q
                        end)))))
         else Ok (origin scenario))
        (fun new_origin =>
      let actor := "actor" ++ track_id in
      let vehicle_topic := "aerosim." ++ actor ++ ".vehicle_state" in
      let trajectory_vis_topic :=
        "aerosim." ++ actor ++ ".trajectory_visualization" in
      let effector := "aerosim." ++ actor ++ ".effector1.state" in
      let new_sync :=
        (sync_topics scenario ++ [mkSyncTopic vehicle_topic 20])%list in
      let new_actors :=
        (actors scenario ++
         [mkActor actor "vehicles/generic_airplane/generic_airplane" ""
            ("Trajectory follower " ++ track_id) vehicle_topic
            "propeller_front" effector trajectory_vis_topic])%list in
      let add_sensors_to_vehicles :=
        if (idx =? 1)%Z && match add_sensors_to_vehicles with
                           | [] => true
                           | _ => false
                           end
        then (add_sensors_to_vehicles ++ [actor])%list
        else add_sensors_to_vehicles in
      let new_sensors :=
        if existsb (String.eqb actor) add_sensors_to_vehicles
        then (sensors scenario ++
              map (fun s => mkSensorConfig (sensor_name s) (sensor_type s)
                              (Some actor)) sensor_configs)%list
        else sensors scenario in
      let traj_follower_fmu :=
        mkFmuModel ("trajectory_follower_" ++ track_id) fmu_path None []
          [vehicle_topic; trajectory_vis_topic]
          [("waypoints_json_path", traj_path)] in
      let new_fmus :=
        (fmu_models scenario ++ [traj_follower_fmu] ++
         (if (idx =? 1)%Z
          then [sensor_fmu "gnss" vehicle_topic actor;
                sensor_fmu "adsb" vehicle_topic actor;
                sensor_fmu "imu" vehicle_topic actor]
          else []))%list in
      Ok (mkScenario (description scenario) (weather_preset scenario)
            new_origin new_sync new_actors new_sensors
            (renderers scenario) new_fmus,
          add_sensors_to_vehicles))
  end.

Fixpoint run (folder : Folder) (trajectories_folder fmu_path : string)
  (sensor_configs : list SensorConfig) (st : state)
  (items : list (Z * string)) : result state :=
  match items with
  | [] => Ok st
  | it :: rest =>
      rbind (step folder trajectories_folder fmu_path sensor_configs st it)
        (fun st' =>
           run folder trajectories_folder fmu_path sensor_configs st' rest)
  end.

(** [enumerate(l, start=1)]. *)
Definition enumerate_from_1 {A} (l : list A) : list (Z * A) :=
  combine (map (fun k => Z.of_nat (S k)) (seq 0 (List.length l))) l.

(** [generate_scenario_json]: the document that is written to the output
    file.  [sensor_configs] and [add_sensors_to_vehicles] are [None] when
    the caller leaves them out. *)
Definition generate_scenario_json (folder : Folder)
  (trajectories_folder fmu_path : string)
  (sensor_configs : option (list SensorConfig))
  (add_sensors_to_vehicles : option (list string))
  (weather : string) : result ScenarioDoc :=
  let sensor_configs :=
    match sensor_configs with
    | Some l => l
    | None => default_sensor_configs
    end in
  let add_sensors_to_vehicles :=
    match add_sensors_to_vehicles with
    | Some l => l
    | None => []
    end in
  let scenario :=
    mkScenario "Multi-intruder scenario generated from trajectories."
      weather None [] [] []
      [mkRenderer "0" "primary" (map sensor_name sensor_configs)] [] in
  rbind (run folder trajectories_folder fmu_path sensor_configs
           (scenario, add_sensors_to_vehicles)
           (enumerate_from_1 (trajectory_files folder)))
    (fun st => Ok (fst st)).

End Scenario.

Unset Implicit Arguments.

(** ** Vocabulary of the statements *)

(** The selectors that [_select_generator] tests for. *)
Definition known_maneuvers : list string :=
  ["random"; "circular"; "elliptical"; "flyby"; "square"; "rectangle";
   "zigzag"; "spiral"].



(** *** Tracks and their points *)

(** The two readers, as the branches of [load_ownship_trajectory] run them. *)
Definition read_json (env : Env) (file_path : string)
  : result (list RefSample) :=
  rbind (open_file env file_path) (fun text =>
    match json_load env text with
    | Some data => Ok (map normalize_keys data)
    | None => Raise JSONDecodeError
    end).

Definition read_csv (env : Env) (file_path : string)
  : result (list RefSample) :=
  rbind (open_file env file_path) (fun text =>
    csv_rows env (enumerate (csv_reader env text))).

(** The stride chosen for an eight-point path. *)
Definition stride (num_points : Z) : Z := Z.max 1 (8 / num_points).

(** What every generated point carries, whatever the maneuver: an altitude
    drawn from the band, the identity and clock of its generator, and its
    distance from the generator's center. *)
Record point_ok (self : BaseTrackGenerator.t) (interval_seconds : R) (i : Z)
  (p : TrackPoint) : Prop := mk_point_ok {
  ok_altitude :
    min_alt self <= max_alt self ->
    min_alt self <= altitude p <= max_alt self;
  ok_trackId : trackId p = fmt05d (track_id self);
  ok_timestamp : timestamp p = start_time self + IZR i * interval_seconds;
  ok_distance :
    distance_m p
    = haversine (center_lon self) (center_lat self)
        (longitude p) (latitude p)
}.

(** [point_ok] at every position of a track. *)
Definition indexed_ok (self : BaseTrackGenerator.t) (interval_seconds : R)
  (pts : list TrackPoint) : Prop :=
  forall (j : nat) (p : TrackPoint),
    nth_error pts j = Some p -> point_ok self interval_seconds (Z.of_nat j) p.

(** The altitude band of a generator. *)
Definition in_band (self : BaseTrackGenerator.t) (p : TrackPoint) : Prop :=
  min_alt self <= altitude p <= max_alt self.


(** *** The ownship-relative displacement, in the words of its description

    A reference sample is well formed when its latitude, longitude and
    altitude are present under either key.  [bearing_at] is the bearing
    used at sample [i]: towards the next sample, or, at the last sample,
    the bearing of the previous segment (0 when the track has one sample). *)

Definition coord (first second : option R) : R :=
  match get2 first second with
  | Some v => v
  | None => 0
  end.

Definition ref_lat (pt : RefSample) : R := coord (rs_lat pt) (rs_latitude pt).
Definition ref_lon (pt : RefSample) : R := coord (rs_lon pt) (rs_longitude pt).
Definition ref_alt (pt : RefSample) : R := coord (rs_alt pt) (rs_altitude pt).

Definition ref_time (pt : RefSample) (i : nat) : R :=
  match rs_time pt with
  | Some time => time
  | None => IZR (Z.of_nat i * 10)
  end.

Definition well_formed (pt : RefSample) : Prop :=
  get2 (rs_lat pt) (rs_latitude pt) <> None
  /\ get2 (rs_lon pt) (rs_longitude pt) <> None
  /\ get2 (rs_alt pt) (rs_altitude pt) <> None.

Definition no_sample : RefSample :=
  mkRefSample None None None None None None None.

Definition sample_at (ownship : list RefSample) (i : nat) : RefSample :=
  nth i ownship no_sample.

Definition segment_bearing (ownship : list RefSample) (i : nat) : R :=
  OwnshipRelativeTrackGenerator.compute_bearing
    (ref_lat (sample_at ownship i)) (ref_lon (sample_at ownship i))
    (ref_lat (sample_at ownship (S i))) (ref_lon (sample_at ownship (S i))).

Definition bearing_at (ownship : list RefSample) (i : nat) : R :=
  if (S i <? List.length ownship)%nat then segment_bearing ownship i
  else if (1 <=? i)%nat then segment_bearing ownship (i - 1)
  else 0.


(** What the generator writes at position [i] for the reference sample
    [pt] found there. *)
Record relative_point_ok (self : OwnshipRelativeTrackGenerator.t) (i : nat)
  (pt : RefSample) (p : TrackPoint) : Prop := mk_relative_point_ok {
  rel_position :
    let off :=
      OwnshipRelativeTrackGenerator.offset_of
        (OwnshipRelativeTrackGenerator.relative_direction self)
        (bearing_at (OwnshipRelativeTrackGenerator.ownship_track self) i)
        (OwnshipRelativeTrackGenerator.separation_distance self) in
    (latitude p, longitude p)
    = OwnshipRelativeTrackGenerator.destination_point
        (ref_lat pt) (ref_lon pt) (fst off) (snd off);
  rel_altitude :
    altitude p = ref_alt pt + OwnshipRelativeTrackGenerator.alt_offset self;
  rel_timestamp :
    timestamp p
    = start_time (OwnshipRelativeTrackGenerator.base self) + ref_time pt i;
  rel_trackId :
    trackId p
    = fmt05d (track_id (OwnshipRelativeTrackGenerator.base self))
}.


(** *** The world origin, in the words of its description

    [first_nonempty_origin] is the origin the description asks for: the
    first waypoint of the first non-empty trajectory in the sorted order of
    the file names, the altitude falling back to 116.09. *)

Definition origin_of_waypoint (w : Scenario.Waypoint) : option Scenario.Origin :=
  match Scenario.wp_lat w, Scenario.wp_lon w with
  | Some lat, Some lon =>
      Some (Scenario.mkOrigin lat lon
              (match Scenario.wp_alt w with
               | Some alt => alt
               | None => 116.09%Q
               end))
  | _, _ => None
  end.

Fixpoint first_nonempty (folder : Scenario.Folder) (names : list string)
  : option Scenario.Waypoint :=
  match names with
  | [] => None
  | f :: rest =>
      match Scenario.load folder f with
      | w :: _ => Some w
      | [] => first_nonempty folder rest
      end
  end.

Definition first_nonempty_origin (folder : Scenario.Folder)
  : option Scenario.Origin :=
  match first_nonempty folder (Scenario.trajectory_files folder) with
  | Some w => origin_of_waypoint w
  | None => None
  end.

(** What the loop computes instead: the first waypoint of the first file
    of the sorted order, if that file is not empty. *)
Definition first_file_origin (folder : Scenario.Folder)
  : option Scenario.Origin :=
  match Scenario.trajectory_files folder with
  | [] => None
  | f :: _ =>
      match Scenario.load folder f with
      | w :: _ => origin_of_waypoint w
      | [] => None
      end
  end.


(** *** The latitude refinement, in the tangent of the latitude

    With [u] the tangent of the current latitude estimate, one pass of the
    loop of [ecef_to_geodetic] maps [u] to [tan_step p z u] and computes
    the altitude [alt_of p u]. *)

Definition Phi (u : R) : R := sqrt (1 + u * u).

Definition Sb (u : R) : R := sqrt (1 + (1 - Geo.E_SQ) * (u * u)).

Definition tan_step (p z u : R) : R :=
  (z + Geo.E_SQ * Geo.A * (u / Sb u)) / p.

Definition alt_of (p u : R) : R := p * Phi u - Geo.A * (Phi u / Sb u).

Fixpoint tan_iter (k : nat) (p z u : R) : R :=
  match k with
  | O => u
  | S k' => tan_iter k' p z (tan_step p z u)
  end.

(** The quantities that [ecef_to_geodetic] starts from, for a point at
    altitude [h] whose latitude has tangent [t]: the distance [p_of t h]
    from the polar axis, the height [z_of t h] above the equator and the
    tangent [u0_of t h] of the initial guess. *)
Definition p_of (t h : R) : R := Geo.A / Sb t + h / Phi t.

Definition z_of (t h : R) : R :=
  (1 - Geo.E_SQ) * t * (Geo.A / Sb t) + h / Phi t * t.

Definition u0_of (t h : R) : R := z_of t h / (p_of t h * (1 - Geo.E_SQ)).

(** The round trip of the claim and its tolerance. *)
Definition ned_round_trip (lat lon alt ref_lat ref_lon ref_alt : R)
  : R * R * R :=
  let '(north, east, down) :=
    Geo.lla_to_ned lat lon alt ref_lat ref_lon ref_alt in
  Geo.ned_to_lla north east down ref_lat ref_lon ref_alt.

Definition within_tolerance (out : R * R * R) (lat lon alt : R) : Prop :=
  let '(lat', lon', alt') := out in
  Rabs (lat' - lat) <= 1e-6 /\ Rabs (lon' - lon) <= 1e-6
  /\ Rabs (alt' - alt) <= 1e-3.

(** ** Sample inputs used by the examples below *)

Module Samples.

Lemma half_unit : forall k : nat, 0 <= (fun _ : nat => 1 / 2) k < 1.
Proof. intros k; lra. Qed.

(** A generator whose every float is one half and whose [k]-th raw
    integer is [k]. *)
Definition rng0 : RNG :=
  {| floats := fun _ => 1 / 2; ints := Z.of_nat; pos := 0;
     floats_unit := half_unit |}.

(** An environment with no files. *)
Definition env0 : Env :=
  mkEnv (fun _ => None) (fun _ => None) (fun _ => []) (fun _ => None).

(** Three independent circular tracks of 20 points, 10 s apart. *)
Definition three_circular : ArtificialTrackGenerator.t :=
  ArtificialTrackGenerator.init 3 "circular" 33.75 (-118.25) 1000 0.005 30
    None None false None "json" 20 10.

(** A two-sample reference track flying north along a meridian, and the
    relative generator that the orchestrator builds for it in fly-along
    mode (separation 555 m, ahead, no altitude offset, default band). *)
Definition ownship2 : list RefSample :=
  [ mkRefSample (Some 0) (Some 10) (Some 20) (Some 1000) None None None;
    mkRefSample (Some 10) (Some 11) (Some 20) (Some 1200) None None None ].

Definition relative_gen : OwnshipRelativeTrackGenerator.t :=
  OwnshipRelativeTrackGenerator.init 0 ownship2 555 "ahead" 0
    (mkKwargs None None 10001 "ARTIFICIAL" "Surveillance" "MSL").

(** A random-maneuver generator whose altitude bounds are swapped. *)
Definition swapped_gen : RandomTrackGenerator.t :=
  RandomTrackGenerator.init 0 33.75 (-118.25) 1000
    (mkKwargs (Some 10) (Some 0) 10000 "ARTIFICIAL" "Surveillance" "MSL").

(** A fly-by and a zigzag generator with the constructor defaults. *)
Definition flyby_gen : FlybyTrackGenerator.t :=
  FlybyTrackGenerator.init 0 33.75 (-118.25) 1000
    FlybyTrackGenerator.default_approach_distance
    FlybyTrackGenerator.default_exit_distance
    FlybyTrackGenerator.default_bearing default_kwargs.

Definition zigzag_gen : ZigzagTrackGenerator.t :=
  ZigzagTrackGenerator.init 0 33.75 (-118.25) 1000
    ZigzagTrackGenerator.default_direction
    ZigzagTrackGenerator.default_amplitude
    ZigzagTrackGenerator.default_frequency default_kwargs.

(** A trajectory directory whose first file, in sorted order, is empty. *)
Definition folder_empty_first : Scenario.Folder :=
  [ ("10001_trajectory.json",
     [ Scenario.mkWaypoint (Some 0%Q) (Some 34.2%Q) (Some (-118.5)%Q) None;
       Scenario.mkWaypoint (Some 10%Q) (Some 34.3%Q) (Some (-118.5)%Q)
         None ]);
    ("10000_trajectory.json", []) ].

End Samples.



(** ** artificial_tracks.py: [save_to_csv]

    The file that [csv.DictWriter] writes is kept as its header and its
    rows.  A row is written from a dictionary.  A generated point has
    exactly the keys of [fieldnames].  A sample of a loaded ownship has
    the keys of [RefSample]: "latitude", "longitude" and "altitude" are
    field names, "time", "lat", "lon" and "alt" are not, and the writer
    raises [ValueError] on a dictionary with a key that is not a field
    name. *)

Definition fieldnames : list string :=
  [ "eventName"; "trackId"; "sourceId"; "trackType"; "timestamp"; "data";
    "altitudeReference"; "sourceTrackId"; "longitude"; "latitude";
    "altitude"; "aglAltitude"; "mslAltitude"; "wgs84Altitude";
    "distance_m" ].

Inductive CsvRow : Type :=
| PointRow (p : TrackPoint)
| SampleRow (latitude longitude altitude : option R).

Record CsvFile : Type := mkCsvFile {
  csv_header : list string;
  csv_body : list CsvRow
}.

Definition key_if (v : option R) (key : string) : list string :=
  match v with
  | Some _ => [key]
  | None => []
  end.

(** [rowdict.keys() - self.fieldnames]. *)
Definition wrong_fields (pt : RefSample) : list string :=
  (key_if (rs_time pt) "time" ++ key_if (rs_lat pt) "lat"
   ++ key_if (rs_lon pt) "lon" ++ key_if (rs_alt pt) "alt")%list.

(** [", ".join(repr(x) for x in fields)]; the writer takes the names from
    a set, so their order in the message is not fixed. *)
Fixpoint join_reprs (fields : list string) : string :=
  match fields with
  | [] => ""
  | [x] => "'" ++ x ++ "'"
  | x :: rest => "'" ++ x ++ "', " ++ join_reprs rest
  end.

(** The dictionaries handed to [writer.writerow], track after track. *)
Definition track_dicts (tr : Track) : list (TrackPoint + RefSample) :=
  match tr with
  | Generated points => map inl points
  | Loaded samples => map inr samples
  end.

(** [writer.writerow(point)]. *)
Definition writerow (d : TrackPoint + RefSample) : result CsvRow :=
  match d with
  | inl p => Ok (PointRow p)
  | inr pt =>
      match wrong_fields pt with
      | [] =>
          Ok (SampleRow (rs_latitude pt) (rs_longitude pt) (rs_altitude pt))
      | fields =>
          Raise (ValueError ("dict contains fields not in fieldnames: "
                             ++ join_reprs fields))
      end
  end.

(** The two loops: the rows written, and how the loops ended. *)
Fixpoint write_rows (dicts : list (TrackPoint + RefSample))
  (written : list CsvRow) : list CsvRow * result unit :=
  match dicts with
  | [] => (written, Ok tt)
  | d :: rest =>
      match writerow d with
      | Ok r => write_rows rest (written ++ [r])
      | Raise e => (written, Raise e)
      end
  end.

(** [save_to_csv]: the file it leaves, if it opens one, and its outcome. *)
Definition save_to_csv (self : ArtificialTrackGenerator.t) (filepath : string)
  : option (string * CsvFile) * result unit :=
  match ArtificialTrackGenerator.tracks self with
  | [] => (None, Ok tt)
  | tracks =>
      let '(rows, outcome) := write_rows (flat_map track_dicts tracks) [] in
      (Some (filepath, mkCsvFile fieldnames rows), outcome)
  end.

(** ** utils.py: [process_trajectory] and [process_single_point]

    A [pandas] data frame is kept as its column labels and its rows, every
    row with one cell per column; a cell is a number or a text.  Labels of
    a frame that [read_csv] returns are distinct. *)

Inductive cell : Type :=
| Num (x : R)
| Text (s : string).

Record DataFrame : Type := mkDataFrame {
  df_columns : list string;
  df_rows : list (list cell)
}.

(** What the file system and [pandas] give: [None] is a failure of
    [pd.read_csv]. *)
Record Pandas : Type := mkPandas {
  read_csv_frame : string -> option DataFrame
}.

(** [numpy] arithmetic on a text raises [TypeError]. *)
Definition number (c : cell) : result R :=
  match c with
  | Num x => Ok x
  | Text _ => Raise TypeError
  end.

(** [str.isspace] on ASCII. *)
Definition is_space (c : ascii) : bool :=
  let n := nat_of_ascii c in
  (((9 <=? n) && (n <=? 13)) || ((28 <=? n) && (n <=? 32)))%nat.

Fixpoint lstrip (s : string) : string :=
  match s with
  | EmptyString => EmptyString
  | String c s' => if is_space c then lstrip s' else s
  end.

Fixpoint rstrip (s : string) : string :=
  match s with
  | EmptyString => EmptyString
  | String c s' =>
      match rstrip s' with
      | EmptyString => if is_space c then EmptyString
                       else String c EmptyString
      | r => String c r
      end
  end.

(** [s.strip()]. *)
Definition strip (s : string) : string := rstrip (lstrip s).

(** [sub in s]. *)
Fixpoint contains (sub s : string) : bool :=
  String.prefix sub s
  || match s with
     | EmptyString => false
     | String _ s' => contains sub s'
     end.

Definition is_none {A} (o : option A) : bool :=
  match o with
  | None => true
  | Some _ => false
  end.

(** One pass of the loop that looks for the three columns. *)
Definition detect_step (st : option Z * option Z * option Z)
  (ic : Z * string) : option Z * option Z * option Z :=
  let '(lat_idx, lon_idx, alt_idx) := st in
  let '(i, col) := ic in
  if contains "lat" col && is_none lat_idx then (Some i, lon_idx, alt_idx)
  else if (contains "lon" col || contains "long" col) && is_none lon_idx
       then (lat_idx, Some i, alt_idx)
  else if contains "alt" col && is_none alt_idx
       then (lat_idx, lon_idx, Some i)
  else st.

Definition detect_columns (cols_lower : list string)
  : option Z * option Z * option Z :=
  fold_left detect_step (enumerate cols_lower) (None, None, None).

(** [df[df.columns[j]]]. *)
Definition column (df : DataFrame) (j : Z) : result (list cell) :=
  match nth_error (df_columns df) (Z.to_nat j) with
  | Some _ =>
      Ok (map (fun row => nth (Z.to_nat j) row (Text "")) (df_rows df))
  | None => Raise IndexError
  end.

(** [series.iloc[0]]. *)
Definition iloc0 (series : list cell) : result cell :=
  match series with
  | c :: _ => Ok c
  | [] => Raise IndexError
  end.

Fixpoint index_of (name : string) (labels : list string) : option nat :=
  match labels with
  | [] => None
  | l :: rest =>
      if l =? name then Some O
      else match index_of name rest with
           | Some k => Some (S k)
           | None => None
           end
  end.

Fixpoint replace_nth {A} (k : nat) (v : A) (l : list A) : list A :=
  match l, k with
  | [], _ => []
  | _ :: rest, O => v :: rest
  | x :: rest, S k' => x :: replace_nth k' v rest
  end.

(** [df[name] = values], for as many values as the frame has rows: an
    existing column is overwritten, a new one is appended. *)
Definition set_column (df : DataFrame) (name : string) (values : list R)
  : DataFrame :=
  match index_of name (df_columns df) with
  | Some k =>
      mkDataFrame (df_columns df)
        (map (fun rv => replace_nth k (Num (snd rv)) (fst rv))
           (combine (df_rows df) values))
  | None =>
      mkDataFrame (df_columns df ++ [name])
        (map (fun rv => (fst rv ++ [Num (snd rv)])%list)
           (combine (df_rows df) values))
  end.

(** The three series that the function works on: the columns found by
    name, or the first three columns when one of the names is missing. *)
Definition select_series (df : DataFrame)
  : result (list cell * list cell * list cell) :=
  let cols_lower := map (fun col => lower (strip col)) (df_columns df) in
  let '(lat_idx, lon_idx, alt_idx) := detect_columns cols_lower in
  let pick (a b c : Z) :=
    rbind (column df a) (fun lat_series =>
    rbind (column df b) (fun lon_series =>
    rbind (column df c) (fun alt_series =>
    Ok (lat_series, lon_series, alt_series)))) in
  match lat_idx, lon_idx, alt_idx with
  | Some a, Some b, Some c => pick a b c
  | _, _, _ => pick 0%Z 1%Z 2%Z
  end.

(** The reference point: the one given, or the first waypoint when one of
    its three values is missing. *)
Definition select_reference (ref_lat ref_lon ref_alt : option R)
  (lat_series lon_series alt_series : list cell)
  : result (cell * cell * cell) :=
  match ref_lat, ref_lon, ref_alt with
  | Some a, Some b, Some c => Ok (Num a, Num b, Num c)
  | _, _, _ =>
      rbind (iloc0 lat_series) (fun a =>
      rbind (iloc0 lon_series) (fun b =>
      rbind (iloc0 alt_series) (fun c =>
      Ok (a, b, c))))
  end.

(** The loop over the waypoints. *)
Fixpoint ned_rows (ref_x ref_y ref_z ref_lat ref_lon : R)
  (waypoints : list (cell * cell * cell)) : result (list (R * R * R)) :=
  match waypoints with
  | [] => Ok []
  | (lat, lon, alt) :: rest =>
      rbind (number lat) (fun lat =>
      rbind (number lon) (fun lon =>
      rbind (number alt) (fun alt =>
      let '(x, y, z) := Geo.geodetic_to_ecef lat lon alt in
      let dx := x - ref_x in
      let dy := y - ref_y in
      let dz := z - ref_z in
      let ned := Geo.ecef_to_ned dx dy dz ref_lat ref_lon in
      rbind (ned_rows ref_x ref_y ref_z ref_lat ref_lon rest) (fun tl =>
      Ok (ned :: tl)))))
  end.

(** [process_trajectory]: the file it writes, [None] when the input could
    not be read. *)
Definition process_trajectory (pd : Pandas) (input_file : string)
  (output_file : option string) (ref_lat ref_lon ref_alt : option R)
  : result (option (string * DataFrame)) :=
  match read_csv_frame pd input_file with
  | None => Ok None
  | Some df =>
      rbind (select_series df) (fun series =>
      let '(lat_series, lon_series, alt_series) := series in
      rbind (select_reference ref_lat ref_lon ref_alt
               lat_series lon_series alt_series) (fun ref =>
      let '(ref_lat, ref_lon, ref_alt) := ref in
      rbind (number ref_lat) (fun ref_lat =>
      rbind (number ref_lon) (fun ref_lon =>
      rbind (number ref_alt) (fun ref_alt =>
      let '(ref_x, ref_y, ref_z) :=
        Geo.geodetic_to_ecef ref_lat ref_lon ref_alt in
      rbind (ned_rows ref_x ref_y ref_z ref_lat ref_lon
               (combine (combine lat_series lon_series) alt_series))
        (fun ned =>
      let df := set_column df "north" (map (fun v => fst (fst v)) ned) in
      let df := set_column df "east" (map (fun v => snd (fst v)) ned) in
      let df := set_column df "down" (map (fun v => snd v) ned) in
      let output_file :=
        match output_file with
        | Some f => f
        | None => "ned_output.csv"
        end in
      Ok (Some (output_file, df))))))))
  end.

(** [process_single_point]: the coordinates it prints and the one-row
    file it writes when an output file is named. *)
Definition process_single_point (lat lon alt ref_lat ref_lon ref_alt : R)
  (output_file : option string)
  : (R * R * R) * option (string * DataFrame) :=
  let '(north, east, down) :=
    Geo.lla_to_ned lat lon alt ref_lat ref_lon ref_alt in
  ((north, east, down),
   match output_file with
   | Some f =>
       Some (f, mkDataFrame ["lat"; "lon"; "alt"; "north"; "east"; "down"]
                  [[Num lat; Num lon; Num alt;
                    Num north; Num east; Num down]])
   | None => None
   end).

(** ** Vocabulary of the further properties *)

(** *** Great-circle geometry

    The angle at the centre of the sphere between two positions given in
    degrees (spherical law of cosines). *)

Definition central_cosine (lat1 lon1 lat2 lon2 : R) : R :=
  sin (radians lat1) * sin (radians lat2)
  + cos (radians lat1) * cos (radians lat2)
    * cos (radians lon2 - radians lon1).

Definition great_circle_angle (lat1 lon1 lat2 lon2 : R) : R :=
  acos (central_cosine lat1 lon1 lat2 lon2).

(** The outward unit normal of the ellipsoid at a geodetic position. *)
Definition unit_normal (lat lon : R) : R * R * R :=
  (cos (radians lat) * cos (radians lon),
   cos (radians lat) * sin (radians lon),
   sin (radians lat)).

(** The Euclidean norm of a triple. *)
Definition norm3 (v : R * R * R) : R :=
  let '(a, b, c) := v in sqrt (a * a + b * b + c * c).

(** *** Track shapes *)

(** The number of points that the square and the rectangle return for a
    request of [num_points] other than zero. *)
Definition perimeter_count (num_points : Z) : nat :=
  if (num_points <? 0)%Z then 8
  else if (num_points =? 1)%Z then 1
  else if (num_points =? 2)%Z then 2
  else if (num_points <=? 4)%Z then 4
  else 8.

(** A position lies on the boundary of the axis-parallel rectangle with
    the given center and half sides. *)
Definition on_rectangle (c_lat c_lon half_lat half_lon : R) (pos : R * R)
  : Prop :=
  (Rabs (fst pos - c_lat) = Rabs half_lat
   /\ Rabs (snd pos - c_lon) <= Rabs half_lon)
  \/ (Rabs (snd pos - c_lon) = Rabs half_lon
      /\ Rabs (fst pos - c_lat) <= Rabs half_lat).

(** The fraction of the way that the zigzag has made at point [i]. *)
Definition zigzag_fraction (num_points i : Z) : R :=
  if (1 <? num_points)%Z then IZR i / IZR (num_points - 1) else 0.

(** *** Fly-along mode

    [follows] is what fly-along mode writes at position [j] of the track
    of index [k] for the reference sample [pt] found at that position:
    the identifier of the track, the altitude of the sample, the start of
    the track plus the time of the sample, and the position of the sample
    moved ahead by the separation, which the orchestrator converts from
    degrees at 111000 m per degree. *)
Definition follows (samples : list RefSample)
  (separation time_delay now : R) (first_id k : Z) (j : nat)
  (pt : RefSample) (p : TrackPoint) : Prop :=
  trackId p = fmt05d (first_id + k)
  /\ altitude p = ref_alt pt
  /\ timestamp p = now + IZR k * time_delay + ref_time pt j
  /\ (latitude p, longitude p)
     = OwnshipRelativeTrackGenerator.destination_point
         (ref_lat pt) (ref_lon pt) (bearing_at samples j)
         (separation * 111000).

(** The tracks of index 1 to [num_tracks - 1] all follow the reference. *)
Definition relative_tracks_follow (samples : list RefSample)
  (separation time_delay now : R) (first_id num_tracks : Z)
  (others : list Track) : Prop :=
  List.length others = Z.to_nat (num_tracks - 1)
  /\ forall k : Z,
      (1 <= k < num_tracks)%Z ->
      exists pts : list TrackPoint,
        nth_error others (Z.to_nat (k - 1)) = Some (Generated pts)
        /\ List.length pts = List.length samples
        /\ forall (j : nat) (pt : RefSample),
            nth_error samples j = Some pt ->
            exists p : TrackPoint,
              nth_error pts j = Some p
              /\ follows samples separation time_delay now first_id k j pt p.

(** *** Rows of an ownship CSV file

    [csv_cells] is the reading of the first three cells of a row, [None]
    when there are fewer than three or one of them is not a number (the
    loop then skips the row); [csv_time] is the time of the row at index
    [i] of the file: its fourth cell, or [i] when it has only three. *)

Definition csv_cells (env : Env) (row : list string) : option (R * R * R) :=
  match nth_error row 0, nth_error row 1, nth_error row 2 with
  | Some c0, Some c1, Some c2 =>
      match float_of_string env c0, float_of_string env c1,
            float_of_string env c2 with
      | Some lat, Some lon, Some alt => Some (lat, lon, alt)
      | _, _, _ => None
      end
  | _, _, _ => None
  end.

Definition csv_time (env : Env) (i : nat) (row : list string) : option R :=
  match nth_error row 3 with
  | Some c3 => float_of_string env c3
  | None => Some (IZR (Z.of_nat i))
  end.

Definition csv_sample (time lat lon alt : R) : RefSample :=
  mkRefSample (Some time) (Some lat) (Some lon) (Some alt) None None None.

(** *** Saved tracks *)

(** The points of the generated tracks, in the order of the tracks. *)
Definition generated_points (tracks : list Track) : list TrackPoint :=
  flat_map (fun tr =>
              match tr with
              | Generated points => points
              | Loaded _ => []
              end) tracks.

Definition is_generated (tr : Track) : Prop :=
  exists points : list TrackPoint, tr = Generated points.

(** *** Columns of a trajectory frame *)

(** What the search for a column that stands at index [x] has found when
    the loop has passed the indices below [bound]. *)
Definition found_before (x bound : nat) : option Z :=
  if (x <? bound)%nat then Some (Z.of_nat x) else None.

(** The reference point that [process_trajectory] uses for numeric series:
    the one given, or the first waypoint when one of the three values is
    missing. *)
Definition reference_point (ref_lat ref_lon ref_alt : option R)
  (lats lons alts : list R) : option (R * R * R) :=
  match ref_lat, ref_lon, ref_alt with
  | Some a, Some b, Some c => Some (a, b, c)
  | _, _, _ =>
      match lats, lons, alts with
      | a :: _, b :: _, c :: _ => Some (a, b, c)
      | _, _, _ => None
      end
  end.

(** A row with the NED coordinates of its waypoint appended. *)
Definition with_ned (rlat rlon ralt : R) (rw : list cell * (R * R * R))
  : list cell :=
  let '(row, (lat, lon, alt)) := rw in
  let '(north, east, down) := Geo.lla_to_ned lat lon alt rlat rlon ralt in
  (row ++ [Num north; Num east; Num down])%list.

(** *** The scenario document *)

(** The name of the actor that a trajectory file gets. *)
Definition actor_of (traj_file : string) : string :=
  "actor" ++ Scenario.before_underscore traj_file.

Definition has_waypoints (folder : Scenario.Folder) (traj_file : string)
  : bool :=
  match Scenario.load folder traj_file with
  | [] => false
  | _ :: _ => true
  end.

(** The trajectory files that hold waypoints, each with its index, from 1,
    in the sorted order of all trajectory files. *)
Definition live_files (folder : Scenario.Folder) : list (Z * string) :=
  filter (fun it => has_waypoints folder (snd it))
    (Scenario.enumerate_from_1 (Scenario.trajectory_files folder)).

(** The vehicles that get the sensors: those that the caller names, or,
    when the caller names none, the actor of the first trajectory file of
    the sorted order if that file holds waypoints. *)
Definition sensor_vehicles (folder : Scenario.Folder)
  (add_sensors_to_vehicles : option (list string)) : list string :=
  match add_sensors_to_vehicles with
  | Some (v :: vs) => v :: vs
  | _ =>
      match Scenario.trajectory_files folder with
      | f :: _ => if has_waypoints folder f then [actor_of f] else []
      | [] => []
      end
  end.

(** What one trajectory file adds to the lists of the document. *)
Definition sync_of (it : Z * string) : Scenario.SyncTopic :=
  Scenario.mkSyncTopic ("aerosim." ++ actor_of (snd it) ++ ".vehicle_state")
    20.

Definition fmu_ids_of (it : Z * string) : list string :=
  ("trajectory_follower_" ++ Scenario.before_underscore (snd it))
  :: (if (fst it =? 1)%Z
      then ["gnss_publisher"; "adsb_publisher"; "imu_publisher"]
      else []).

Definition sensors_of (sensor_configs : list Scenario.SensorConfig)
  (vehicles : list string) (it : Z * string) : list Scenario.SensorConfig :=
  if existsb (String.eqb (actor_of (snd it))) vehicles
  then map (fun s => Scenario.mkSensorConfig (Scenario.sensor_name s)
                       (Scenario.sensor_type s) (Some (actor_of (snd it))))
         sensor_configs
  else [].

(** The first waypoint of the first trajectory file of the sorted order,
    if that file holds any. *)
Definition first_waypoint (folder : Scenario.Folder)
  : option Scenario.Waypoint :=
  match Scenario.trajectory_files folder with
  | f :: _ =>
      match Scenario.load folder f with
      | w :: _ => Some w
      | [] => None
      end
  | [] => None
  end.

(** ** Further sample inputs *)

Module Fixtures.

(** A directory listed out of order: two trajectory files with waypoints
    and a file of another kind. *)
Definition folder_two : Scenario.Folder :=
  [ ("20002_trajectory.json",
     [ Scenario.mkWaypoint (Some 0%Q) (Some 34.3%Q) (Some (-118.4)%Q)
         (Some 300%Q) ]);
    ("notes.txt", []);
    ("10001_trajectory.json",
     [ Scenario.mkWaypoint (Some 0%Q) (Some 34.2%Q) (Some (-118.5)%Q) None;
       Scenario.mkWaypoint (Some 10%Q) (Some 34.3%Q) (Some (-118.5)%Q)
         None ]) ].

(** The same directory listed in another order. *)
Definition folder_two_listed_again : Scenario.Folder :=
  [ nth 2 folder_two ("", []); nth 0 folder_two ("", []);
    nth 1 folder_two ("", []) ].

(** An ownship CSV file: a header row, a row of three cells and a row of
    four. *)
Definition env_csv : Env :=
  mkEnv (fun _ => Some "ownship")
    (fun _ => None)
    (fun _ => [ ["lat"; "lon"; "alt"]; ["34"; "-118"; "100"];
                ["35"; "-118"; "200"; "7"] ])
    (fun s =>
       if s =? "34" then Some 34
       else if s =? "35" then Some 35
       else if s =? "-118" then Some (-118)
       else if s =? "100" then Some 100
       else if s =? "200" then Some 200
       else if s =? "7" then Some 7
       else None).

(** A frame of two waypoints under the usual labels. *)
Definition frame_lla : DataFrame :=
  mkDataFrame ["Latitude"; "Longitude"; "Altitude (m)"]
    [ [Num 34; Num (-118); Num 100]; [Num 34; Num (-118); Num 150] ].

Definition pandas_lla : Pandas := mkPandas (fun _ => Some frame_lla).

End Fixtures.
(* ================================================================== *)
(** * Part II: properties *)
(* ================================================================== *)

(** ** The monad *)

Lemma bind_Ok {A B} (c : M A) (k : A -> M B) (g : RNG) (r : B * RNG) :
  bind c k g = Ok r ->
  exists (a : A) (g1 : RNG), c g = Ok (a, g1) /\ k a g1 = Ok r.
Proof.
  unfold bind. destruct (c g) as [[a g1] | e]; [ | discriminate ].
  intros H. exists a, g1. split; [ reflexivity | exact H ].
Qed.

Lemma bind_step {A B} (c : M A) (k : A -> M B) (g g1 : RNG) (a : A) :
  c g = Ok (a, g1) -> bind c k g = k a g1.
Proof. unfold bind. intros ->. reflexivity. Qed.

Lemma bind_Raise {A B} (c : M A) (k : A -> M B) (g : RNG) (e : exn) :
  c g = Raise e -> bind c k g = Raise e.
Proof. unfold bind. intros ->. reflexivity. Qed.

Lemma bind_assoc {A B C} (c : M A) (k1 : A -> M B) (k2 : B -> M C)
  (g : RNG) :
  bind (bind c k1) k2 g = bind c (fun a => bind (k1 a) k2) g.
Proof. unfold bind. destruct (c g) as [[a g1] | e]; reflexivity. Qed.

Section MonadFacts.

Context {A B : Type}.

Lemma mapM_cons_Ok (f : A -> M B) (x : A) (l : list A) (g g' : RNG)
  (ys : list B) :
  mapM f (x :: l) g = Ok (ys, g') ->
  exists (y : B) (g1 : RNG) (ys' : list B),
    f x g = Ok (y, g1) /\ mapM f l g1 = Ok (ys', g') /\ ys = y :: ys'.
Proof.
  simpl. intros H.
  apply bind_Ok in H. destruct H as (y & g1 & Hy & H).
  apply bind_Ok in H. destruct H as (ys' & g2 & Hys & H).
  unfold ret in H. inversion H; subst.
  exists y, g1, ys'. auto.
Qed.

(** Every output of the loop comes from the body run on the element at
    the same position. *)
Lemma mapM_Forall2 (f : A -> M B) (Q : A -> B -> Prop) (l : list A) :
  (forall x g y g1, In x l -> f x g = Ok (y, g1) -> Q x y) ->
  forall g ys g', mapM f l g = Ok (ys, g') -> Forall2 Q l ys.
Proof.
  induction l as [ | x l IH ]; intros HQ g ys g' H.
  - simpl in H. unfold ret in H. inversion H. constructor.
  - apply mapM_cons_Ok in H.
    destruct H as (y & g1 & ys' & Hy & Hys & ->).
    constructor.
    + apply (HQ x g y g1); [ left; reflexivity | exact Hy ].
    + apply (IH (fun x0 g0 y0 g2 Hin => HQ x0 g0 y0 g2 (or_intror Hin))
               g1 ys' g' Hys).
Qed.

Lemma mapM_length (f : A -> M B) (l : list A) (g g' : RNG) (ys : list B) :
  mapM f l g = Ok (ys, g') -> List.length ys = List.length l.
Proof.
  intros H.
  assert (F : Forall2 (fun _ _ => True) l ys).
  { apply (mapM_Forall2 f (fun _ _ => True) l) with (g := g) (g' := g');
      auto. }
  symmetry. exact (Forall2_length F).
Qed.

(** A loop whose body never raises returns. *)
Lemma mapM_total (f : A -> M B) (l : list A) :
  (forall x g, In x l -> exists y g1, f x g = Ok (y, g1)) ->
  forall g, exists ys g', mapM f l g = Ok (ys, g').
Proof.
  induction l as [ | x l IH ]; intros Hf g.
  - exists [], g. reflexivity.
  - destruct (Hf x g (or_introl eq_refl)) as (y & g1 & Hy).
    destruct (IH (fun x0 g0 Hin => Hf x0 g0 (or_intror Hin)) g1)
      as (ys & g' & Hys).
    exists (y :: ys), g'. simpl.
    rewrite (bind_step _ _ _ _ _ Hy). rewrite (bind_step _ _ _ _ _ Hys).
    reflexivity.
Qed.

(** A loop whose body raises on its first element raises. *)
Lemma mapM_Raise_head (f : A -> M B) (x : A) (l : list A) (g : RNG)
  (e : exn) :
  f x g = Raise e -> mapM f (x :: l) g = Raise e.
Proof. intros H. simpl. apply bind_Raise. exact H. Qed.

End MonadFacts.

(** ** Strings *)

Lemma eqb_false_of_neq (s1 s2 : string) : s1 <> s2 -> (s1 =? s2) = false.
Proof. intros H. apply String.eqb_neq. exact H. Qed.

(** ** Generator selection *)

(** C7: a selector outside the eight known names (after lowercasing) makes
    [_select_generator] return the random-maneuver generator; the selection
    is a total function, and a track generated under that selector is the
    track generated under "random". *)
Theorem select_generator_unknown_falls_back_to_random :
  forall (sel : string) (num_tracks : Z)
    (center_lat center_lon center_alt separation_distance time_delay : R)
    (min_alt max_alt : option R) (fly_along : bool)
    (file : option string) (format : string) (num_points : Z)
    (interval_seconds : R),
    ~ In (lower sel) known_maneuvers ->
    let self :=
      ArtificialTrackGenerator.init num_tracks sel center_lat center_lon
        center_alt separation_distance time_delay min_alt max_alt fly_along
        file format num_points interval_seconds in
    let self_random :=
      ArtificialTrackGenerator.init num_tracks "random" center_lat
        center_lon center_alt separation_distance time_delay min_alt max_alt
        fly_along file format num_points interval_seconds in
    (forall (now c_lat c_lon c_alt : R) (kw : kwargs),
        ArtificialTrackGenerator._select_generator self now c_lat c_lon
          c_alt kw
        = GenRandom (RandomTrackGenerator.init now c_lat c_lon c_alt kw)
        /\ ArtificialTrackGenerator._select_generator self now c_lat c_lon
             c_alt kw
           = ArtificialTrackGenerator._select_generator self_random now
               c_lat c_lon c_alt kw)
    /\ (forall (now : R) (track_id : Z) (c_lat c_lon start_time : R),
           ArtificialTrackGenerator.generate_track self now track_id c_lat
             c_lon start_time
           = ArtificialTrackGenerator.generate_track self_random now
               track_id c_lat c_lon start_time).
Proof.
  intros sel nt clat clon calt sep delay mn mx fly file fmt np iv Hsel
    self self_random.
  assert (Hsel' :
    forall now a b c kw,
      ArtificialTrackGenerator._select_generator self now a b c kw
      = GenRandom (RandomTrackGenerator.init now a b c kw)).
  { intros now a b c kw.
    unfold ArtificialTrackGenerator._select_generator, self,
      ArtificialTrackGenerator.init.
    cbn [ArtificialTrackGenerator.track_generator_class].
    unfold known_maneuvers in Hsel.
    repeat match goal with
    | |- context [ (lower sel =? ?k) ] =>
        rewrite (@eqb_false_of_neq (lower sel) k)
          by (intros E; apply Hsel; rewrite E; simpl; tauto)
    end.
    destruct (lower sel =? "random"); reflexivity. }
  split.
  - intros now a b c kw. split; [ apply Hsel' | ].
    rewrite Hsel'. reflexivity.
  - intros now tid a b st.
    unfold ArtificialTrackGenerator.generate_track.
    rewrite Hsel'. reflexivity.
Qed.

Lemma select_generator_unknown_witness :
  ArtificialTrackGenerator._select_generator
    (ArtificialTrackGenerator.init 3 "Helix" 33.75 (-118.25) 1000 0.005 30
       None None false None "json" 10 10)
    0 1 2 3 default_kwargs
  = GenRandom (RandomTrackGenerator.init 0 1 2 3 default_kwargs).
Proof.
  assert (H : ~ In (lower "Helix") known_maneuvers).
  { simpl. intros H.
    repeat (destruct H as [H | H]; [ discriminate H | ]). exact H. }
  exact (proj1 (proj1 (select_generator_unknown_falls_back_to_random
                         "Helix" 3 33.75 (-118.25) 1000 0.005 30 None None
                         false None "json" 10 10 H)
                  0 1 2 3 default_kwargs)).
Defined.

(** ** Loading the ownship trajectory *)

Lemma float_Raise (env : Env) (s : string) (e : exn) :
  float env s = Raise e ->
  e = ValueError ("could not convert string to float: " ++ s).
Proof.
  unfold float. destruct (float_of_string env s); [ discriminate | ].
  intros H. inversion H. reflexivity.
Qed.

Lemma csv_row_Raise (env : Env) (i : Z) (row : list string) (e : exn) :
  csv_row env i row = Raise e ->
  exists s : string,
    e = ValueError ("could not convert string to float: " ++ s).
Proof.
  unfold csv_row.
  destruct (nth_error row 0); [ | discriminate ].
  destruct (nth_error row 1); [ | discriminate ].
  destruct (nth_error row 2); [ | discriminate ].
  destruct (float env s); [ | discriminate ].
  destruct (float env s0); [ | discriminate ].
  destruct (float env s1); [ | discriminate ].
  destruct (nth_error row 3) as [ c3 | ]; [ | discriminate ].
  destruct (float env c3) eqn:E; [ discriminate | ].
  simpl. intros H. inversion H; subst.
  exists c3. exact (float_Raise _ _ _ E).
Qed.

Lemma csv_rows_Raise (env : Env) (rows : list (Z * list string)) (e : exn) :
  csv_rows env rows = Raise e ->
  exists s : string,
    e = ValueError ("could not convert string to float: " ++ s).
Proof.
  induction rows as [ | [i row] rest IH ]; simpl; [ discriminate | ].
  destruct (csv_row env i row) as [ r | e0 ] eqn:E; simpl.
  - destruct (csv_rows env rest) as [ tr | e1 ]; simpl; [ discriminate | ].
    intros H. inversion H; subst. apply IH. reflexivity.
  - intros H. inversion H; subst. exact (csv_row_Raise _ _ _ _ E).
Qed.

Lemma read_json_not_unsupported (env : Env) (file_path : string) :
  read_json env file_path <> Raise (ValueError unsupported_format).
Proof.
  unfold read_json, open_file.
  destruct (read_file env file_path) as [ text | ]; simpl; [ | discriminate ].
  destruct (json_load env text); discriminate.
Qed.

Lemma read_csv_not_unsupported (env : Env) (file_path : string) :
  read_csv env file_path <> Raise (ValueError unsupported_format).
Proof.
  unfold read_csv, open_file.
  destruct (read_file env file_path) as [ text | ]; simpl; [ | discriminate ].
  intros H. apply csv_rows_Raise in H. destruct H as (s & H).
  unfold unsupported_format in H. simpl in H. discriminate H.
Qed.

(** C8: [load_ownship_trajectory] raises the unsupported-format
    [ValueError] exactly when the format, lowercased, is neither "json" nor
    "csv"; for "json" and "csv" in any casing it runs the reader of that
    format on the file, so no format is replaced by another one. *)
Theorem load_ownship_trajectory_format_check :
  forall (env : Env) (file_path file_format : string),
    (load_ownship_trajectory env file_path file_format
     = Raise (ValueError unsupported_format)
     <-> lower file_format <> "json" /\ lower file_format <> "csv")
    /\ (lower file_format = "json" ->
        load_ownship_trajectory env file_path file_format
        = read_json env file_path)
    /\ (lower file_format = "csv" ->
        load_ownship_trajectory env file_path file_format
        = read_csv env file_path).
Proof.
  intros env file_path file_format.
  unfold load_ownship_trajectory.
  fold (read_json env file_path). fold (read_csv env file_path).
  destruct (String.eqb_spec (lower file_format) "json") as [ Hj | Hj ].
  - split; [ split | split ].
    + intros H. exfalso. exact (read_json_not_unsupported _ _ H).
    + intros [Hn _]. contradiction.
    + reflexivity.
    + rewrite Hj. discriminate.
  - destruct (String.eqb_spec (lower file_format) "csv") as [ Hc | Hc ].
    + split; [ split | split ].
      * intros H. exfalso. exact (read_csv_not_unsupported _ _ H).
      * intros [_ Hn]. contradiction.
      * intros H. contradiction.
      * reflexivity.
    + split; [ split | split ].
      * intros _. split; assumption.
      * reflexivity.
      * intros H. contradiction.
      * intros H. contradiction.
Qed.

Lemma load_ownship_trajectory_format_check_witness :
  load_ownship_trajectory Samples.env0 "ownship.dat" "XML"
  = Raise (ValueError unsupported_format)
  /\ load_ownship_trajectory Samples.env0 "ownship.json" "JSON"
     = read_json Samples.env0 "ownship.json"
  /\ load_ownship_trajectory Samples.env0 "ownship.csv" "Csv"
     = read_csv Samples.env0 "ownship.csv".
Proof.
  split; [ | split ].
  - apply (proj1 (load_ownship_trajectory_format_check
                    Samples.env0 "ownship.dat" "XML")).
    simpl. split; discriminate.
  - apply (proj1 (proj2 (load_ownship_trajectory_format_check
                           Samples.env0 "ownship.json" "JSON"))).
    reflexivity.
  - apply (proj2 (proj2 (load_ownship_trajectory_format_check
                           Samples.env0 "ownship.csv" "Csv"))).
    reflexivity.
Defined.

(** ** Track points *)

Lemma create_track_point_Ok (self : BaseTrackGenerator.t)
  (lon lat alt time_delta : R) (g : RNG) :
  exists p : TrackPoint,
    _create_track_point self lon lat alt time_delta g = Ok (p, advance g)
    /\ longitude p = lon /\ latitude p = lat /\ altitude p = alt
    /\ timestamp p = start_time self + time_delta
    /\ trackId p = fmt05d (track_id self)
    /\ distance_m p
       = haversine (center_lon self) (center_lat self) lon lat.
Proof.
  unfold _create_track_point, randint, randbelow, bind, ret.
  eexists. split; [ reflexivity | ]. simpl. repeat split.
Qed.

Lemma get_altitude_Ok (self : BaseTrackGenerator.t) (g : RNG) :
  _get_altitude self g
  = Ok (min_alt self + (max_alt self - min_alt self) * floats g (pos g),
        advance g).
Proof. reflexivity. Qed.

Lemma uniform_Ok (a b : R) (g : RNG) :
  uniform a b g = Ok (a + (b - a) * floats g (pos g), advance g).
Proof. reflexivity. Qed.

Lemma uniform_between (a b : R) (g : RNG) :
  a <= b ->
  a <= a + (b - a) * floats g (pos g) <= b.
Proof.
  intros Hab. pose proof (floats_unit g (pos g)) as Hu. nra.
Qed.

(** ** Lists: [range], [enumerate] and strided slices *)

Lemma range_length (n : Z) : List.length (range n) = Z.to_nat n.
Proof. unfold range. rewrite length_map, length_seq. reflexivity. Qed.

Lemma range_nth_error (n : Z) (k : nat) :
  (k < Z.to_nat n)%nat -> nth_error (range n) k = Some (Z.of_nat k).
Proof.
  intros Hk. unfold range. rewrite nth_error_map.
  rewrite nth_error_seq.
  destruct (Nat.ltb_spec k (Z.to_nat n)) as [ _ | H ]; [ | lia ].
  reflexivity.
Qed.

Lemma range_In (n i : Z) : In i (range n) -> (0 <= i < n)%Z.
Proof.
  unfold range. rewrite in_map_iff. intros (k & <- & Hk).
  apply in_seq in Hk. lia.
Qed.

Lemma enumerate_length {A} (l : list A) :
  List.length (enumerate l) = List.length l.
Proof.
  unfold enumerate. rewrite length_combine, range_length. lia.
Qed.

Lemma combine_nth_error {A B} (l1 : list A) (l2 : list B) :
  forall (k : nat) (a : A) (b : B),
    nth_error l1 k = Some a -> nth_error l2 k = Some b ->
    nth_error (combine l1 l2) k = Some (a, b).
Proof.
  revert l2. induction l1 as [ | a1 l1 IH ]; intros l2 k a b Ha Hb.
  - destruct k; discriminate.
  - destruct l2 as [ | b1 l2 ]; [ destruct k; discriminate | ].
    destruct k as [ | k ]; simpl in *.
    + inversion Ha; inversion Hb; subst. reflexivity.
    + apply IH; assumption.
Qed.

Lemma enumerate_nth_error {A} (l : list A) (k : nat) (x : A) :
  nth_error l k = Some x ->
  nth_error (enumerate l) k = Some (Z.of_nat k, x).
Proof.
  intros Hx.
  assert (Hk : (k < List.length l)%nat).
  { apply nth_error_Some. rewrite Hx. discriminate. }
  unfold enumerate. apply combine_nth_error; [ | exact Hx ].
  apply range_nth_error. lia.
Qed.

(** The length of a strided slice depends on the length of the list only. *)
Lemma every_nth_length {A} (l : list A) :
  forall skip step : nat,
    List.length (every_nth skip step l)
    = List.length (every_nth skip step (repeat tt (List.length l))).
Proof.
  induction l as [ | x l IH ]; intros skip step; simpl; [ reflexivity | ].
  destruct skip; simpl; rewrite IH; reflexivity.
Qed.

Lemma stride_cases (n : Z) :
  (1 <= n)%Z ->
  (n = 1 /\ stride n = 8)%Z \/ (n = 2 /\ stride n = 4)%Z
  \/ ((n = 3 \/ n = 4) /\ stride n = 2)%Z \/ (5 <= n /\ stride n = 1)%Z.
Proof.
  intros Hn. unfold stride.
  destruct (Z.eq_dec n 1) as [ -> | ]; [ left; split; reflexivity | ].
  destruct (Z.eq_dec n 2) as [ -> | ];
    [ right; left; split; reflexivity | ].
  destruct (Z.eq_dec n 3) as [ -> | ];
    [ right; right; left; split; [ tauto | reflexivity ] | ].
  destruct (Z.eq_dec n 4) as [ -> | ];
    [ right; right; left; split; [ tauto | reflexivity ] | ].
  right; right; right. split; [ lia | ].
  destruct (Z_lt_le_dec 8 n) as [ Hbig | Hsmall ].
  - rewrite Z.div_small by lia. reflexivity.
  - assert (H : (n = 5 \/ n = 6 \/ n = 7 \/ n = 8)%Z) by lia.
    destruct H as [ -> | [ -> | [ -> | -> ] ] ]; reflexivity.
Qed.

(** How many points a stride leaves of eight. *)
Lemma sliced_length_8 {A} (path : list A) (n : Z) :
  List.length path = 8%nat -> (1 <= n)%Z ->
  Z.of_nat (List.length (slice_step path (stride n)))
  = ((8 + stride n - 1) / stride n)%Z.
Proof.
  intros Hlen Hn. unfold slice_step.
  rewrite every_nth_length, Hlen.
  destruct (stride_cases n Hn)
    as [ [_ ->] | [ [_ ->] | [ [_ ->] | [_ ->] ] ] ]; reflexivity.
Qed.

(** ** The square and the rectangle *)

Lemma sample_path_Ok (self : BaseTrackGenerator.t) (path : list (R * R))
  (num_points : Z) (interval_seconds : R) (g : RNG) :
  num_points <> 0%Z ->
  exists (pts : list TrackPoint) (g' : RNG),
    sample_path self path num_points interval_seconds g = Ok (pts, g')
    /\ List.length pts
       = List.length
           (slice_step path
              (Z.max 1 (Z.of_nat (List.length path) / num_points))).
Proof.
  intros Hn. unfold sample_path, floordiv.
  destruct (Z.eqb_spec num_points 0) as [ E | _ ]; [ contradiction | ].
  unfold lift at 1. unfold bind at 1.
  match goal with
  | |- context [ mapM ?f ?l g ] =>
      destruct (@mapM_total _ _ f l) with (g := g) as (pts & g' & H)
  end.
  - intros [i [lat lon]] g0 _.
    rewrite (bind_step _ _ _ _ _ (get_altitude_Ok self g0)).
    destruct (create_track_point_Ok self lon lat
                (min_alt self
                 + (max_alt self - min_alt self) * floats g0 (pos g0))
                (IZR i * interval_seconds) (advance g0)) as (p & Hp & _).
    exists p, (advance (advance g0)). exact Hp.
  - exists pts, g'. split; [ exact H | ].
    rewrite (mapM_length _ _ _ _ _ H). apply enumerate_length.
Qed.

Lemma sample_path_zero (self : BaseTrackGenerator.t) (path : list (R * R))
  (interval_seconds : R) (g : RNG) :
  sample_path self path 0 interval_seconds g = Raise ZeroDivisionError.
Proof. reflexivity. Qed.

Lemma square_path_length (self : SquareTrackGenerator.t) :
  List.length (perimeter_path (SquareTrackGenerator.corners self)) = 8%nat.
Proof. reflexivity. Qed.

Lemma rectangle_path_length (self : RectangleTrackGenerator.t) :
  List.length (perimeter_path (RectangleTrackGenerator.corners self)) = 8%nat.
Proof. reflexivity. Qed.

(** The corners and the edge midpoints, in the order of the path. *)
Lemma square_path (self : SquareTrackGenerator.t) :
  let c := SquareTrackGenerator.corners self in
  let mid (a b : R * R) := ((fst a + fst b) / 2, (snd a + snd b) / 2) in
  perimeter_path c
  = [ nth 0 c (0, 0); mid (nth 0 c (0, 0)) (nth 1 c (0, 0));
      nth 1 c (0, 0); mid (nth 1 c (0, 0)) (nth 2 c (0, 0));
      nth 2 c (0, 0); mid (nth 2 c (0, 0)) (nth 3 c (0, 0));
      nth 3 c (0, 0); mid (nth 3 c (0, 0)) (nth 0 c (0, 0)) ].
Proof. reflexivity. Qed.

(** What the two generators return for a request of [num_points >= 1]:
    the path has eight points, the stride is [max(1, 8 // num_points)], and
    the track has [ceil(8 / stride)] points. *)
Lemma square_generate_count (self : SquareTrackGenerator.t) (num_points : Z)
  (interval_seconds : R) (g : RNG) :
  (1 <= num_points)%Z ->
  exists (pts : list TrackPoint) (g' : RNG),
    SquareTrackGenerator.generate self num_points interval_seconds g
    = Ok (pts, g')
    /\ Z.of_nat (List.length pts)
       = ((8 + stride num_points - 1) / stride num_points)%Z.
Proof.
  intros Hn. unfold SquareTrackGenerator.generate.
  destruct (@sample_path_Ok (SquareTrackGenerator.base self)
              (perimeter_path (SquareTrackGenerator.corners self))
              num_points interval_seconds g) as (pts & g' & H & Hlen);
    [ lia | ].
  exists pts, g'. split; [ exact H | ].
  rewrite Hlen, square_path_length.
  apply (sliced_length_8 _ _ (square_path_length self) Hn).
Qed.

Lemma rectangle_generate_count (self : RectangleTrackGenerator.t)
  (num_points : Z) (interval_seconds : R) (g : RNG) :
  (1 <= num_points)%Z ->
  exists (pts : list TrackPoint) (g' : RNG),
    RectangleTrackGenerator.generate self num_points interval_seconds g
    = Ok (pts, g')
    /\ Z.of_nat (List.length pts)
       = ((8 + stride num_points - 1) / stride num_points)%Z.
Proof.
  intros Hn. unfold RectangleTrackGenerator.generate.
  destruct (@sample_path_Ok (RectangleTrackGenerator.base self)
              (perimeter_path (RectangleTrackGenerator.corners self))
              num_points interval_seconds g) as (pts & g' & H & Hlen);
    [ lia | ].
  exists pts, g'. split; [ exact H | ].
  rewrite Hlen, rectangle_path_length.
  apply (sliced_length_8 _ _ (rectangle_path_length self) Hn).
Qed.

(** The requested count is met for 1, 2, 4 and 8 points and for no other
    request. *)
Lemma stride_count_meets_request (n : Z) :
  (1 <= n)%Z ->
  (((8 + stride n - 1) / stride n = n)%Z
   <-> (n = 1 \/ n = 2 \/ n = 4 \/ n = 8)%Z).
Proof.
  intros Hn.
  destruct (stride_cases n Hn)
    as [ [-> ->] | [ [-> ->] | [ [[-> | ->] ->] | [H5 ->] ] ] ].
  - split; [ intros _; tauto | reflexivity ].
  - split; [ intros _; tauto | reflexivity ].
  - split; [ intros H; discriminate H | intros H; lia ].
  - split; [ intros _; tauto | reflexivity ].
  - change ((8 + 1 - 1) / 1)%Z with 8%Z. lia.
Qed.

(** C3 (failing input): asked for the default 12 points, the square and
    the rectangle generators return the 8 points of the path, not 12. *)
Theorem square_rectangle_generate_12_returns_8 :
  forall (sq : SquareTrackGenerator.t) (rc : RectangleTrackGenerator.t)
    (interval_seconds : R) (g : RNG),
    (exists (pts : list TrackPoint) (g' : RNG),
        SquareTrackGenerator.generate sq 12 interval_seconds g = Ok (pts, g')
        /\ List.length pts = 8%nat)
    /\ (exists (pts : list TrackPoint) (g' : RNG),
           RectangleTrackGenerator.generate rc 12 interval_seconds g
           = Ok (pts, g')
           /\ List.length pts = 8%nat).
Proof.
  intros sq rc iv g. split.
  - destruct (@square_generate_count sq 12 iv g) as (pts & g' & H & Hlen);
      [ lia | ].
    exists pts, g'. split; [ exact H | ].
    change ((8 + stride 12 - 1) / stride 12)%Z with 8%Z in Hlen. lia.
  - destruct (@rectangle_generate_count rc 12 iv g) as (pts & g' & H & Hlen);
      [ lia | ].
    exists pts, g'. split; [ exact H | ].
    change ((8 + stride 12 - 1) / stride 12)%Z with 8%Z in Hlen. lia.
Qed.

(** ** The per-point tail shared by all loop bodies *)

Lemma create_track_point_inv (self : BaseTrackGenerator.t)
  (lon lat alt time_delta : R) (g g' : RNG) (p : TrackPoint) :
  _create_track_point self lon lat alt time_delta g = Ok (p, g') ->
  longitude p = lon /\ latitude p = lat /\ altitude p = alt
  /\ timestamp p = start_time self + time_delta
  /\ trackId p = fmt05d (track_id self)
  /\ distance_m p = haversine (center_lon self) (center_lat self) lon lat.
Proof.
  destruct (create_track_point_Ok self lon lat alt time_delta g)
    as (p0 & -> & H).
  intros E. inversion E; subst. exact H.
Qed.

Lemma get_altitude_inv (self : BaseTrackGenerator.t) (g g' : RNG) (a : R) :
  _get_altitude self g = Ok (a, g') ->
  min_alt self <= max_alt self -> min_alt self <= a <= max_alt self.
Proof.
  rewrite get_altitude_Ok. intros E Hle. inversion E; subst.
  apply uniform_between. exact Hle.
Qed.

Lemma tail_inv (self : BaseTrackGenerator.t) (lon lat time_delta : R)
  (g g' : RNG) (p : TrackPoint) :
  (alt <- _get_altitude self ;;
   _create_track_point self lon lat alt time_delta) g = Ok (p, g') ->
  longitude p = lon /\ latitude p = lat
  /\ (min_alt self <= max_alt self ->
      min_alt self <= altitude p <= max_alt self)
  /\ timestamp p = start_time self + time_delta
  /\ trackId p = fmt05d (track_id self)
  /\ distance_m p
     = haversine (center_lon self) (center_lat self)
         (longitude p) (latitude p).
Proof.
  intros H. apply bind_Ok in H. destruct H as (a & g1 & Ha & Hp).
  apply create_track_point_inv in Hp.
  destruct Hp as (Hlon & Hlat & Halt & Hts & Hid & Hd).
  rewrite Hlon, Hlat, Halt.
  repeat split; try assumption; try reflexivity.
  - apply (get_altitude_inv _ _ _ _ Ha); assumption.
  - apply (get_altitude_inv _ _ _ _ Ha); assumption.
Qed.

Lemma tail_point_ok (self : BaseTrackGenerator.t) (lon lat : R) (i : Z)
  (interval_seconds : R) (g g' : RNG) (p : TrackPoint) :
  (alt <- _get_altitude self ;;
   _create_track_point self lon lat alt (IZR i * interval_seconds)) g
  = Ok (p, g') ->
  point_ok self interval_seconds i p.
Proof.
  intros H. apply tail_inv in H.
  destruct H as (_ & _ & Ha & Hts & Hid & Hd).
  constructor; assumption.
Qed.

Lemma tail_total (self : BaseTrackGenerator.t) (lon lat time_delta : R)
  (g : RNG) :
  exists (p : TrackPoint) (g' : RNG),
    (alt <- _get_altitude self ;;
     _create_track_point self lon lat alt time_delta) g = Ok (p, g').
Proof.
  rewrite (bind_step _ _ _ _ _ (get_altitude_Ok self g)).
  destruct (create_track_point_Ok self lon lat
              (min_alt self
               + (max_alt self - min_alt self) * floats g (pos g))
              time_delta (advance g)) as (p & Hp & _).
  exists p, (advance (advance g)). exact Hp.
Qed.

Lemma lift_Ok_bind {A B} (r : result A) (a : A) (k : A -> M B) (g : RNG) :
  r = Ok a -> bind (lift r) k g = k a g.
Proof. intros ->. reflexivity. Qed.

Lemma lift_bind_Ok {A B} (r : result A) (k : A -> M B) (g : RNG)
  (out : B * RNG) :
  bind (lift r) k g = Ok out -> exists a : A, r = Ok a /\ k a g = Ok out.
Proof.
  unfold bind, lift. destruct r as [ a | e ]; [ | discriminate ].
  intros H. exists a. split; [ reflexivity | exact H ].
Qed.

Lemma truediv_Ok (x : R) (n : Z) : n <> 0%Z -> truediv x n = Ok (x / IZR n).
Proof.
  intros Hn. unfold truediv.
  destruct (Z.eqb_spec n 0); [ contradiction | reflexivity ].
Qed.

Lemma truediv_inv (x : R) (n : Z) (q : R) :
  truediv x n = Ok q -> n <> 0%Z /\ q = x / IZR n.
Proof.
  unfold truediv. destruct (Z.eqb_spec n 0); [ discriminate | ].
  intros H. inversion H. auto.
Qed.

(** Reading a loop's output by position. *)
Lemma Forall2_nth_error {A B} (Q : A -> B -> Prop) (l : list A)
  (ys : list B) :
  Forall2 Q l ys ->
  forall (j : nat) (x : A) (y : B),
    nth_error l j = Some x -> nth_error ys j = Some y -> Q x y.
Proof.
  induction 1 as [ | x0 y0 l l' Hxy F IH ]; intros j x y Hx Hy.
  - destruct j; discriminate.
  - destruct j as [ | j ]; simpl in *.
    + inversion Hx; inversion Hy; subst. exact Hxy.
    + exact (IH j x y Hx Hy).
Qed.

Lemma Forall2_range_nth {B} (Q : Z -> B -> Prop) (n : Z) (ys : list B) :
  Forall2 Q (range n) ys ->
  forall (j : nat) (y : B), nth_error ys j = Some y -> Q (Z.of_nat j) y.
Proof.
  intros F j y Hy.
  assert (Hj : (j < Z.to_nat n)%nat).
  { rewrite <- range_length, (Forall2_length F).
    apply nth_error_Some. rewrite Hy. discriminate. }
  exact (Forall2_nth_error _ _ _ F j _ _ (range_nth_error n j Hj) Hy).
Qed.

(** ** Every maneuver generator, point by point *)

Lemma ret_bind {A B} (a : A) (k : A -> M B) (g : RNG) :
  bind (ret a) k g = k a g.
Proof. reflexivity. Qed.

Ltac range_loop_ok H :=
  intros j p Hp;
  refine (Forall2_range_nth (fun i q => point_ok _ _ i q) _ _ _ j p Hp);
  refine (mapM_Forall2 _ _ _ _ _ _ _ H);
  clear; intros i g0 y g1 _ Hbody.

Lemma random_generate_points (self : RandomTrackGenerator.t) (n : Z)
  (iv : R) (g g' : RNG) (pts : list TrackPoint) :
  RandomTrackGenerator.generate self n iv g = Ok (pts, g') ->
  indexed_ok (RandomTrackGenerator.base self) iv pts.
Proof.
  unfold RandomTrackGenerator.generate. intros H. range_loop_ok H.
  rewrite (bind_step _ _ _ _ _ (uniform_Ok _ _ g0)) in Hbody.
  rewrite (bind_step _ _ _ _ _ (uniform_Ok _ _ (advance g0))) in Hbody.
  exact (tail_point_ok _ _ _ _ _ _ _ _ Hbody).
Qed.

Lemma circular_generate_points (self : CircularTrackGenerator.t) (n : Z)
  (iv : R) (g g' : RNG) (pts : list TrackPoint) :
  CircularTrackGenerator.generate self n iv g = Ok (pts, g') ->
  indexed_ok (CircularTrackGenerator.base self) iv pts.
Proof.
  unfold CircularTrackGenerator.generate. intros H. range_loop_ok H.
  apply lift_bind_Ok in Hbody. destruct Hbody as (w & _ & Hbody).
  exact (tail_point_ok _ _ _ _ _ _ _ _ Hbody).
Qed.

Lemma elliptical_generate_points (self : EllipticalTrackGenerator.t) (n : Z)
  (iv : R) (g g' : RNG) (pts : list TrackPoint) :
  EllipticalTrackGenerator.generate self n iv g = Ok (pts, g') ->
  indexed_ok (EllipticalTrackGenerator.base self) iv pts.
Proof.
  unfold EllipticalTrackGenerator.generate. intros H. range_loop_ok H.
  apply lift_bind_Ok in Hbody. destruct Hbody as (w & _ & Hbody).
  exact (tail_point_ok _ _ _ _ _ _ _ _ Hbody).
Qed.

Lemma flyby_generate_points (self : FlybyTrackGenerator.t) (n : Z)
  (iv : R) (g g' : RNG) (pts : list TrackPoint) :
  FlybyTrackGenerator.generate self n iv g = Ok (pts, g') ->
  indexed_ok (FlybyTrackGenerator.base self) iv pts.
Proof.
  unfold FlybyTrackGenerator.generate. intros H. range_loop_ok H.
  apply lift_bind_Ok in Hbody. destruct Hbody as (w & _ & Hbody).
  exact (tail_point_ok _ _ _ _ _ _ _ _ Hbody).
Qed.

Lemma zigzag_generate_points (self : ZigzagTrackGenerator.t) (n : Z)
  (iv : R) (g g' : RNG) (pts : list TrackPoint) :
  ZigzagTrackGenerator.generate self n iv g = Ok (pts, g') ->
  indexed_ok (ZigzagTrackGenerator.base self) iv pts.
Proof.
  unfold ZigzagTrackGenerator.generate. intros H. range_loop_ok H.
  destruct (1 <? n)%Z; cbv iota in Hbody.
  - apply lift_bind_Ok in Hbody. destruct Hbody as (w & _ & Hbody).
    exact (tail_point_ok _ _ _ _ _ _ _ _ Hbody).
  - rewrite ret_bind in Hbody.
    exact (tail_point_ok _ _ _ _ _ _ _ _ Hbody).
Qed.

Lemma spiral_generate_points (self : SpiralTrackGenerator.t) (n : Z)
  (iv : R) (g g' : RNG) (pts : list TrackPoint) :
  SpiralTrackGenerator.generate self n iv g = Ok (pts, g') ->
  indexed_ok (SpiralTrackGenerator.base self) iv pts.
Proof.
  unfold SpiralTrackGenerator.generate. intros H. range_loop_ok H.
  apply lift_bind_Ok in Hbody. destruct Hbody as (w & _ & Hbody).
  exact (tail_point_ok _ _ _ _ _ _ _ _ Hbody).
Qed.

Lemma sample_path_points (self : BaseTrackGenerator.t) (path : list (R * R))
  (n : Z) (iv : R) (g g' : RNG) (pts : list TrackPoint) :
  sample_path self path n iv g = Ok (pts, g') ->
  indexed_ok self iv pts.
Proof.
  unfold sample_path. intros H.
  apply lift_bind_Ok in H. destruct H as (q & _ & H).
  intros j p Hp.
  assert (F : Forall2 (fun (ip : Z * (R * R)) y => point_ok self iv (fst ip) y)
                (enumerate (slice_step path (Z.max 1 q))) pts).
  { refine (mapM_Forall2 _ _ _ _ _ _ _ H).
    clear. intros [i [lat lon]] g0 y g1 _ Hbody.
    exact (tail_point_ok _ _ _ _ _ _ _ _ Hbody). }
  assert (Hj : (j < List.length (slice_step path (Z.max 1 q)))%nat).
  { rewrite <- enumerate_length, (Forall2_length F).
    apply nth_error_Some. rewrite Hp. discriminate. }
  destruct (nth_error (slice_step path (Z.max 1 q)) j) as [ x | ] eqn:Ex.
  - exact (Forall2_nth_error _ _ _ F j _ _ (enumerate_nth_error _ _ _ Ex) Hp).
  - apply nth_error_None in Ex. lia.
Qed.

(** Whatever generator [_select_generator] returned, the track it
    generates satisfies [point_ok] at every position. *)
Lemma generator_generate_points (gen : Generator) (n : Z) (iv : R)
  (g g' : RNG) (pts : list TrackPoint) :
  generator_generate gen n iv g = Ok (pts, g') ->
  indexed_ok (generator_base gen) iv pts.
Proof.
  destruct gen as [ s | s | s | s | s | s | s | s ]; simpl; intros H.
  - exact (random_generate_points _ _ _ _ _ _ H).
  - exact (circular_generate_points _ _ _ _ _ _ H).
  - exact (elliptical_generate_points _ _ _ _ _ _ H).
  - exact (flyby_generate_points _ _ _ _ _ _ H).
  - exact (sample_path_points _ _ _ _ _ _ _ H).
  - exact (sample_path_points _ _ _ _ _ _ _ H).
  - exact (zigzag_generate_points _ _ _ _ _ _ H).
  - exact (spiral_generate_points _ _ _ _ _ _ H).
Qed.

(** ** Which requests return *)

Ltac range_loop_total :=
  match goal with
  | |- exists pts g', mapM ?f ?l ?g = Ok (pts, g') /\ _ =>
      let Hm := fresh "Hm" in
      let pts := fresh "pts" in
      let g' := fresh "g'" in
      assert (Hm : exists pts g', mapM f l g = Ok (pts, g'));
      [ apply mapM_total; intros i g0 Hin; apply range_In in Hin
      | destruct Hm as (pts & g' & Hm); exists pts, g';
        split; [ exact Hm | rewrite (mapM_length _ _ _ _ _ Hm);
                            apply range_length ] ]
  end.

Lemma random_generate_total (self : RandomTrackGenerator.t) (n : Z)
  (iv : R) (g : RNG) :
  exists (pts : list TrackPoint) (g' : RNG),
    RandomTrackGenerator.generate self n iv g = Ok (pts, g')
    /\ List.length pts = Z.to_nat n.
Proof.
  unfold RandomTrackGenerator.generate. range_loop_total.
  rewrite (bind_step _ _ _ _ _ (uniform_Ok _ _ g0)).
  rewrite (bind_step _ _ _ _ _ (uniform_Ok _ _ (advance g0))).
  apply tail_total.
Qed.

Lemma circular_generate_total (self : CircularTrackGenerator.t) (n : Z)
  (iv : R) (g : RNG) :
  exists (pts : list TrackPoint) (g' : RNG),
    CircularTrackGenerator.generate self n iv g = Ok (pts, g')
    /\ List.length pts = Z.to_nat n.
Proof.
  unfold CircularTrackGenerator.generate. range_loop_total.
  rewrite (lift_Ok_bind _ _ _ _ (truediv_Ok (2 * PI) (n) ltac:(lia))).
  apply tail_total.
Qed.

Lemma elliptical_generate_total (self : EllipticalTrackGenerator.t) (n : Z)
  (iv : R) (g : RNG) :
  exists (pts : list TrackPoint) (g' : RNG),
    EllipticalTrackGenerator.generate self n iv g = Ok (pts, g')
    /\ List.length pts = Z.to_nat n.
Proof.
  unfold EllipticalTrackGenerator.generate. range_loop_total.
  rewrite (lift_Ok_bind _ _ _ _ (truediv_Ok (2 * PI) (n) ltac:(lia))).
  apply tail_total.
Qed.

Lemma spiral_generate_total (self : SpiralTrackGenerator.t) (n : Z)
  (iv : R) (g : RNG) :
  exists (pts : list TrackPoint) (g' : RNG),
    SpiralTrackGenerator.generate self n iv g = Ok (pts, g')
    /\ List.length pts = Z.to_nat n.
Proof.
  unfold SpiralTrackGenerator.generate. range_loop_total.
  rewrite (lift_Ok_bind _ _ _ _ (truediv_Ok (IZR i) (n) ltac:(lia))).
  apply tail_total.
Qed.

Lemma flyby_generate_total (self : FlybyTrackGenerator.t) (n : Z)
  (iv : R) (g : RNG) :
  n <> 1%Z ->
  exists (pts : list TrackPoint) (g' : RNG),
    FlybyTrackGenerator.generate self n iv g = Ok (pts, g')
    /\ List.length pts = Z.to_nat n.
Proof.
  intros Hn. unfold FlybyTrackGenerator.generate. range_loop_total.
  rewrite (lift_Ok_bind _ _ _ _ (truediv_Ok (IZR i) (n - 1) ltac:(lia))).
  apply tail_total.
Qed.

Lemma zigzag_generate_total (self : ZigzagTrackGenerator.t) (n : Z)
  (iv : R) (g : RNG) :
  exists (pts : list TrackPoint) (g' : RNG),
    ZigzagTrackGenerator.generate self n iv g = Ok (pts, g')
    /\ List.length pts = Z.to_nat n.
Proof.
  unfold ZigzagTrackGenerator.generate. range_loop_total.
  destruct (Z.ltb_spec 1 n); cbv iota.
  - rewrite (lift_Ok_bind _ _ _ _
               (truediv_Ok (IZR i) (n - 1) ltac:(lia))).
    apply tail_total.
  - rewrite ret_bind. apply tail_total.
Qed.

(** ** Fly-by and zigzag on a single point *)

Lemma flyby_generate_one (self : FlybyTrackGenerator.t) (iv : R) (g : RNG) :
  FlybyTrackGenerator.generate self 1 iv g = Raise ZeroDivisionError.
Proof. reflexivity. Qed.

(** C10: [FlybyTrackGenerator.generate] divides by [num_points - 1]
    unguarded: with one point it raises [ZeroDivisionError], with two or
    more it returns [num_points] points; among the requests of at least one
    point it returns exactly for those of at least two.
    [ZigzagTrackGenerator.generate] guards the same division and returns a
    single point for a request of one. *)
Theorem flyby_needs_two_points_zigzag_guards :
  forall (fly : FlybyTrackGenerator.t) (zig : ZigzagTrackGenerator.t)
    (interval_seconds : R) (g : RNG),
    FlybyTrackGenerator.generate fly 1 interval_seconds g
    = Raise ZeroDivisionError
    /\ (forall num_points : Z,
           (2 <= num_points)%Z ->
           exists (pts : list TrackPoint) (g' : RNG),
             FlybyTrackGenerator.generate fly num_points interval_seconds g
             = Ok (pts, g')
             /\ Z.of_nat (List.length pts) = num_points)
    /\ (forall num_points : Z,
           (1 <= num_points)%Z ->
           ((exists out,
                FlybyTrackGenerator.generate fly num_points
                  interval_seconds g = Ok out)
            <-> (2 <= num_points)%Z))
    /\ (exists (p : TrackPoint) (g' : RNG),
           ZigzagTrackGenerator.generate zig 1 interval_seconds g
           = Ok ([p], g')).
Proof.
  intros fly zig iv g. split; [ reflexivity | ]. split; [ | split ].
  - intros n Hn.
    destruct (@flyby_generate_total fly n iv g) as (pts & g' & H & Hlen);
      [ lia | ].
    exists pts, g'. split; [ exact H | lia ].
  - intros n Hn. split.
    + intros (out & H).
      destruct (Z.eq_dec n 1) as [ -> | ]; [ | lia ].
      rewrite flyby_generate_one in H. discriminate H.
    + intros H2.
      destruct (@flyby_generate_total fly n iv g) as (pts & g' & H & _);
        [ lia | ].
      exists (pts, g'). exact H.
  - destruct (zigzag_generate_total zig 1 iv g) as (pts & g' & H & Hlen).
    destruct pts as [ | p [ | q pts ] ]; try discriminate Hlen.
    exists p, g'. exact H.
Qed.

Lemma flyby_needs_two_points_zigzag_guards_witness :
  FlybyTrackGenerator.generate Samples.flyby_gen 1 10 Samples.rng0
  = Raise ZeroDivisionError
  /\ (exists (pts : list TrackPoint) (g' : RNG),
         FlybyTrackGenerator.generate Samples.flyby_gen 2 10 Samples.rng0
         = Ok (pts, g')
         /\ Z.of_nat (List.length pts) = 2%Z)
  /\ (exists (p : TrackPoint) (g' : RNG),
         ZigzagTrackGenerator.generate Samples.zigzag_gen 1 10 Samples.rng0
         = Ok ([p], g')).
Proof.
  destruct (flyby_needs_two_points_zigzag_guards Samples.flyby_gen
              Samples.zigzag_gen 10 Samples.rng0) as (H1 & H2 & _ & H4).
  split; [ exact H1 | ]. split; [ | exact H4 ].
  apply H2. lia.
Defined.

(** ** Orchestration: one track *)

Lemma generator_base_set_start_time (gen : Generator) (st : R) :
  generator_base (generator_set_start_time gen st)
  = set_start_time (generator_base gen) st.
Proof. destruct gen; reflexivity. Qed.

Lemma select_generator_base (self : ArtificialTrackGenerator.t)
  (now c_lat c_lon c_alt : R) (kw : kwargs) :
  generator_base
    (ArtificialTrackGenerator._select_generator self now c_lat c_lon c_alt kw)
  = BaseTrackGenerator.init now c_lat c_lon c_alt kw.
Proof.
  unfold ArtificialTrackGenerator._select_generator.
  repeat match goal with
  | |- context [ if ?b then _ else _ ] => destruct b; [ reflexivity | ]
  end.
  reflexivity.
Qed.

(** The points of a track made by [generate_track] carry the track id,
    the clock and the center that were passed in. *)
Lemma generate_track_points (self : ArtificialTrackGenerator.t)
  (now : R) (track_id : Z) (c_lat c_lon start_time : R) (g g' : RNG)
  (pts : list TrackPoint) :
  ArtificialTrackGenerator.generate_track self now track_id c_lat c_lon
    start_time g = Ok (pts, g') ->
  forall (j : nat) (p : TrackPoint),
    nth_error pts j = Some p ->
    trackId p = fmt05d track_id
    /\ timestamp p
       = start_time
         + IZR (Z.of_nat j) * ArtificialTrackGenerator.interval_seconds self
    /\ distance_m p = haversine c_lon c_lat (longitude p) (latitude p)
    /\ (ArtificialTrackGenerator.min_alt self
        <= ArtificialTrackGenerator.max_alt self ->
        ArtificialTrackGenerator.min_alt self <= altitude p
        <= ArtificialTrackGenerator.max_alt self).
Proof.
  unfold ArtificialTrackGenerator.generate_track. intros H j p Hp.
  apply generator_generate_points in H.
  specialize (H j p Hp).
  rewrite generator_base_set_start_time, select_generator_base in H.
  destruct H as [Ha Hid Hts Hd]. simpl in *.
  repeat split; try assumption; apply Ha; assumption.
Qed.

Lemma generator_generate_total (gen : Generator) (n : Z) (iv : R) (g : RNG) :
  (2 <= n)%Z ->
  exists (pts : list TrackPoint) (g' : RNG),
    generator_generate gen n iv g = Ok (pts, g').
Proof.
  intros Hn.
  destruct gen as [ s | s | s | s | s | s | s | s ]; simpl.
  - destruct (random_generate_total s n iv g) as (pts & g' & H & _); eauto.
  - destruct (circular_generate_total s n iv g) as (pts & g' & H & _); eauto.
  - destruct (elliptical_generate_total s n iv g) as (pts & g' & H & _);
      eauto.
  - destruct (flyby_generate_total s n iv g) as (pts & g' & H & _);
      [ lia | eauto ].
  - destruct (square_generate_count s n iv g) as (pts & g' & H & _);
      [ lia | eauto ].
  - destruct (rectangle_generate_count s n iv g) as (pts & g' & H & _);
      [ lia | eauto ].
  - destruct (zigzag_generate_total s n iv g) as (pts & g' & H & _); eauto.
  - destruct (spiral_generate_total s n iv g) as (pts & g' & H & _); eauto.
Qed.

Lemma generate_track_total (self : ArtificialTrackGenerator.t)
  (now : R) (track_id : Z) (c_lat c_lon start_time : R) (g : RNG) :
  (2 <= ArtificialTrackGenerator.num_points self)%Z ->
  exists (pts : list TrackPoint) (g' : RNG),
    ArtificialTrackGenerator.generate_track self now track_id c_lat c_lon
      start_time g = Ok (pts, g').
Proof.
  intros Hn. unfold ArtificialTrackGenerator.generate_track.
  apply generator_generate_total. exact Hn.
Qed.

(** ** Orchestration: independent mode *)

(** C9: in independent mode, whenever [generate] returns, it returns
    [num_tracks] tracks, and track [i] is the track made by
    [generate_track] with id [10000 + i], center latitude
    [center_lat + separation_distance * i], the unchanged center longitude
    and start time [now + time_delay * i]; accordingly every point of track
    [i] carries the five-digit rendering of [10000 + i], point [j] is stamped
    [j * interval_seconds] after the track's own start, and its distance is
    measured from the shifted center.  With at least two points requested,
    [generate] does return. *)
Theorem independent_mode_tracks :
  forall (env : Env) (num_tracks : Z) (sel : string)
    (center_lat center_lon center_alt separation_distance time_delay : R)
    (min_alt max_alt : option R) (file : option string) (format : string)
    (num_points : Z) (interval_seconds : R) (now : R) (g : RNG),
    let self :=
      ArtificialTrackGenerator.init num_tracks sel center_lat center_lon
        center_alt separation_distance time_delay min_alt max_alt false
        file format num_points interval_seconds in
    (forall (self' : ArtificialTrackGenerator.t) (tracks : list Track)
        (g' : RNG),
        ArtificialTrackGenerator.generate env self now g
        = Ok ((self', tracks), g') ->
        List.length tracks = Z.to_nat num_tracks
        /\ ArtificialTrackGenerator.tracks self' = tracks
        /\ forall i : Z,
            (0 <= i < num_tracks)%Z ->
            exists (pts : list TrackPoint) (g1 g2 : RNG),
              nth_error tracks (Z.to_nat i) = Some (Generated pts)
              /\ ArtificialTrackGenerator.generate_track self now
                   (10000 + i) (center_lat + separation_distance * IZR i)
                   center_lon (now + IZR i * time_delay) g1
                 = Ok (pts, g2)
              /\ forall (j : nat) (p : TrackPoint),
                  nth_error pts j = Some p ->
                  trackId p = fmt05d (10000 + i)
                  /\ timestamp p
                     = (now + IZR i * time_delay)
                       + IZR (Z.of_nat j) * interval_seconds
                  /\ distance_m p
                     = haversine center_lon
                         (center_lat + separation_distance * IZR i)
                         (longitude p) (latitude p))
    /\ ((2 <= num_points)%Z ->
        exists (self' : ArtificialTrackGenerator.t) (tracks : list Track)
          (g' : RNG),
          ArtificialTrackGenerator.generate env self now g
          = Ok ((self', tracks), g')).
Proof.
  intros env nt sel clat clon calt sep delay mn mx file fmt np iv now g self.
  split.
  - intros self' tracks g' H.
    unfold ArtificialTrackGenerator.generate in H.
    change (ArtificialTrackGenerator.fly_along self) with false in H.
    cbv iota in H.
    change (ArtificialTrackGenerator.num_tracks self) with nt in H.
    change (ArtificialTrackGenerator.initial_track_id self) with 10000%Z in H.
    change (ArtificialTrackGenerator.center_lat self) with clat in H.
    change (ArtificialTrackGenerator.center_lon self) with clon in H.
    change (ArtificialTrackGenerator.separation_distance self) with sep in H.
    change (ArtificialTrackGenerator.time_delay self) with delay in H.
    apply bind_Ok in H. destruct H as (trs & g1 & Hloop & Hret).
    unfold ret in Hret. inversion Hret; subst self' tracks g1. clear Hret.
    pose proof (mapM_length _ _ _ _ _ Hloop) as Hlen.
    rewrite range_length in Hlen.
    split; [ exact Hlen | ]. split; [ reflexivity | ].
    intros i Hi.
    assert (F : Forall2
      (fun (i : Z) (tr : Track) =>
         exists (pts : list TrackPoint) (g1 g2 : RNG),
           tr = Generated pts
           /\ ArtificialTrackGenerator.generate_track self now (10000 + i)
                (clat + sep * IZR i) clon (now + IZR i * delay) g1
              = Ok (pts, g2))
      (range nt) trs).
    { refine (mapM_Forall2 _ _ _ _ _ _ _ Hloop).
      clear. intros i g0 tr g1 _ Hbody.
      apply bind_Ok in Hbody. destruct Hbody as (pts & g2 & Hgen & Hret).
      unfold ret in Hret. inversion Hret; subst.
      exists pts, g0, g1. split; [ reflexivity | exact Hgen ]. }
    destruct (nth_error trs (Z.to_nat i)) as [ tr | ] eqn:Etr.
    + pose proof (Forall2_range_nth _ _ _ F _ _ Etr) as Hq.
      rewrite Z2Nat.id in Hq by lia.
      destruct Hq as (pts & g1 & g2 & -> & Hgen).
      exists pts, g1, g2. split; [ reflexivity | ]. split; [ exact Hgen | ].
      intros j p Hp.
      destruct (generate_track_points _ _ _ _ _ _ _ _ _ Hgen j p Hp)
        as (Hid & Hts & Hd & _).
      repeat split; assumption.
    + apply nth_error_None in Etr. lia.
  - intros Hnp.
    unfold ArtificialTrackGenerator.generate.
    change (ArtificialTrackGenerator.fly_along self) with false.
    cbv iota.
    change (ArtificialTrackGenerator.num_tracks self) with nt.
    change (ArtificialTrackGenerator.initial_track_id self) with 10000%Z.
    change (ArtificialTrackGenerator.center_lat self) with clat.
    change (ArtificialTrackGenerator.center_lon self) with clon.
    change (ArtificialTrackGenerator.separation_distance self) with sep.
    change (ArtificialTrackGenerator.time_delay self) with delay.
    match goal with
    | |- context [ mapM ?f ?l ] =>
        destruct (mapM_total f l) with (g := g) as (trs & g' & Hloop)
    end.
    + intros i g0 _.
      destruct (generate_track_total self now (10000 + i)
                  (clat + sep * IZR i) clon (now + IZR i * delay) g0 Hnp)
        as (pts & g1 & Hgen).
      exists (Generated pts), g1.
      rewrite (bind_step _ _ _ _ _ Hgen). reflexivity.
    + exists (ArtificialTrackGenerator.set_tracks self trs), trs, g'.
      rewrite (bind_step _ _ _ _ _ Hloop). reflexivity.
Qed.

Lemma generate_track_circular_length (self : ArtificialTrackGenerator.t)
  (now : R) (track_id : Z) (c_lat c_lon start_time : R) (g g' : RNG)
  (pts : list TrackPoint) :
  ArtificialTrackGenerator.track_generator_class self = "circular" ->
  ArtificialTrackGenerator.generate_track self now track_id c_lat c_lon
    start_time g = Ok (pts, g') ->
  List.length pts = Z.to_nat (ArtificialTrackGenerator.num_points self).
Proof.
  unfold ArtificialTrackGenerator.generate_track,
    ArtificialTrackGenerator._select_generator.
  intros ->. simpl. intros H.
  match type of H with
  | CircularTrackGenerator.generate ?s ?n ?iv g = _ =>
      destruct (circular_generate_total s n iv g) as (pts' & g'' & H' & Hlen)
  end.
  rewrite H in H'. inversion H'; subst. exact Hlen.
Qed.

(** Three independent circular tracks of 20 points at 10 s: the ids are
    10000, 10001 and 10002, and each track is stamped 0, 10, ..., 190
    seconds after its own start. *)
Lemma independent_mode_tracks_witness :
  exists (self' : ArtificialTrackGenerator.t) (t0 t1 t2 : list TrackPoint)
    (g' : RNG),
    ArtificialTrackGenerator.generate Samples.env0 Samples.three_circular
      0 Samples.rng0
    = Ok ((self', [Generated t0; Generated t1; Generated t2]), g')
    /\ (List.length t0 = 20 /\ List.length t1 = 20
        /\ List.length t2 = 20)%nat
    /\ (forall (j : nat) (p : TrackPoint),
           nth_error t0 j = Some p ->
           trackId p = "10000"
           /\ timestamp p = (0 + 0 * 30) + IZR (Z.of_nat j) * 10)
    /\ (forall (j : nat) (p : TrackPoint),
           nth_error t1 j = Some p ->
           trackId p = "10001"
           /\ timestamp p = (0 + 1 * 30) + IZR (Z.of_nat j) * 10)
    /\ (forall (j : nat) (p : TrackPoint),
           nth_error t2 j = Some p ->
           trackId p = "10002"
           /\ timestamp p = (0 + 2 * 30) + IZR (Z.of_nat j) * 10).
Proof.
  destruct (independent_mode_tracks Samples.env0 3 "circular" 33.75
              (-118.25) 1000 0.005 30 None None None "json" 20 10 0
              Samples.rng0) as [Hshape Hret].
  destruct Hret as (self' & tracks & g' & Hgen); [ lia | ].
  destruct (Hshape self' tracks g' Hgen) as (Hlen & _ & Htr).
  destruct (Htr 0%Z ltac:(lia)) as (p0 & a0 & b0 & E0 & G0 & P0).
  destruct (Htr 1%Z ltac:(lia)) as (p1 & a1 & b1 & E1 & G1 & P1).
  destruct (Htr 2%Z ltac:(lia)) as (p2 & a2 & b2 & E2 & G2 & P2).
  destruct tracks as [ | x0 [ | x1 [ | x2 [ | x3 tracks ] ] ] ];
    try discriminate Hlen.
  simpl in E0, E1, E2. inversion E0; inversion E1; inversion E2; subst.
  exists self', p0, p1, p2, g'.
  split; [ exact Hgen | ]. split.
  - repeat split.
    + exact (generate_track_circular_length Samples.three_circular _ _ _ _ _ _ _ _ eq_refl G0).
    + exact (generate_track_circular_length Samples.three_circular _ _ _ _ _ _ _ _ eq_refl G1).
    + exact (generate_track_circular_length Samples.three_circular _ _ _ _ _ _ _ _ eq_refl G2).
  - split; [ | split ]; intros j p Hp.
    + destruct (P0 j p Hp) as (Hid & Hts & _). split; assumption.
    + destruct (P1 j p Hp) as (Hid & Hts & _). split; assumption.
    + destruct (P2 j p Hp) as (Hid & Hts & _). split; assumption.
Defined.

(** ** The ownship-relative generator *)

Lemma as_float_well_formed (first second : option R) :
  get2 first second <> None ->
  as_float (get2 first second) = Ok (coord first second).
Proof.
  unfold coord. destruct (get2 first second); [ reflexivity | ].
  intros H. contradiction H. reflexivity.
Qed.

Lemma skipn_cons_nth {A} (l : list A) :
  forall (k : nat) (x : A) (r : list A),
    skipn k l = x :: r ->
    nth_error l k = Some x /\ skipn (S k) l = r
    /\ List.length l = (k + S (List.length r))%nat.
Proof.
  induction l as [ | a l IH ]; intros k x r H.
  - destruct k; discriminate H.
  - destruct k as [ | k ].
    + simpl in H. inversion H; subst. repeat split.
    + simpl in H. destruct (IH k x r H) as (Hn & Hs & Hl).
      repeat split; [ exact Hn | exact Hs | simpl; lia ].
Qed.

Lemma sample_at_nth_error (ownship : list RefSample) (i : nat)
  (pt : RefSample) :
  nth_error ownship i = Some pt -> sample_at ownship i = pt.
Proof. intros H. unfold sample_at. apply nth_error_nth. exact H. Qed.

(** The loop of [generate], entered at index [k] with the samples from
    [k] on still to do. *)
Lemma generate_from_spec (self : OwnshipRelativeTrackGenerator.t) :
  let ownship := OwnshipRelativeTrackGenerator.ownship_track self in
  Forall well_formed ownship ->
  forall (rest : list RefSample) (k : nat) (prev : option R) (g : RNG),
    skipn k ownship = rest ->
    (rest <> [] ->
     prev = if (k =? 0)%nat then None
            else Some (segment_bearing ownship (k - 1))) ->
    exists (pts : list TrackPoint) (g' : RNG),
      OwnshipRelativeTrackGenerator.generate_from self
        (Z.of_nat (List.length ownship))
        (combine (map Z.of_nat (seq k (List.length rest))) rest) prev g
      = Ok (pts, g')
      /\ Forall2 (fun (ip : nat * RefSample) (p : TrackPoint) =>
                    relative_point_ok self (fst ip) (snd ip) p)
           (combine (seq k (List.length rest)) rest) pts.
Proof.
  intros ownship Hwf rest.
  induction rest as [ | pt rest IH ]; intros k prev g Hskip Hprev.
  - exists [], g. split; [ reflexivity | constructor ].
  - destruct (skipn_cons_nth ownship k pt rest Hskip) as (Hnth & Hskip' & Hlen).
    assert (Hpt : well_formed pt).
    { rewrite Forall_forall in Hwf. apply Hwf.
      exact (nth_error_In _ _ Hnth). }
    destruct Hpt as (Hlat & Hlon & Halt).
    cbn [List.length seq map combine
           OwnshipRelativeTrackGenerator.generate_from].
    rewrite (lift_Ok_bind _ _ _ _ (as_float_well_formed _ _ Hlat)).
    rewrite (lift_Ok_bind _ _ _ _ (as_float_well_formed _ _ Hlon)).
    rewrite (lift_Ok_bind _ _ _ _ (as_float_well_formed _ _ Halt)).
    fold (ref_lat pt) (ref_lon pt) (ref_alt pt).
    (* the bearing chosen at index [k] *)
    assert (Hbp :
      forall (B : Type) (cont : R * option R -> M B) (g1 : RNG),
        bind
          (if (Z.of_nat k <? Z.of_nat (List.length ownship) - 1)%Z then
             next_pt <- lift (OwnshipRelativeTrackGenerator.item
                                (OwnshipRelativeTrackGenerator.ownship_track
                                   self) (Z.of_nat k + 1)) ;;
             lat2 <- lift (as_float
                             (get2 (rs_lat next_pt) (rs_latitude next_pt))) ;;
             lon2 <- lift (as_float
                             (get2 (rs_lon next_pt) (rs_longitude next_pt))) ;;
             let bearing :=
               OwnshipRelativeTrackGenerator.compute_bearing
                 (ref_lat pt) (ref_lon pt) lat2 lon2 in
             ret (bearing, Some bearing)
           else
             match prev with
             | Some b => ret (b, prev)
             | None => ret (0, prev)
             end) cont g1
        = cont (bearing_at ownship k,
                if (S k <? List.length ownship)%nat
                then Some (segment_bearing ownship k) else prev) g1).
    { intros B cont g1.
      unfold bearing_at.
      destruct (Nat.ltb_spec (S k) (List.length ownship)) as [ Hlt | Hge ].
      - destruct (Z.ltb_spec (Z.of_nat k) (Z.of_nat (List.length ownship) - 1))
          as [ _ | Hc ]; [ | lia ].
        destruct rest as [ | nx rest' ]; [ simpl in Hlen; lia | ].
        destruct (skipn_cons_nth ownship (S k) nx rest' Hskip')
          as (Hnx & _ & _).
        assert (Hwnx : well_formed nx).
        { rewrite Forall_forall in Hwf. apply Hwf.
          exact (nth_error_In _ _ Hnx). }
        destruct Hwnx as (Hlat2 & Hlon2 & _).
        unfold OwnshipRelativeTrackGenerator.item.
        replace (Z.to_nat (Z.of_nat k + 1)) with (S k) by lia.
        fold ownship. rewrite Hnx. cbv iota.
        rewrite bind_assoc.
        rewrite (lift_Ok_bind _ _ _ _ eq_refl).
        rewrite bind_assoc.
        rewrite (lift_Ok_bind _ _ _ _ (as_float_well_formed _ _ Hlat2)).
        rewrite bind_assoc.
        rewrite (lift_Ok_bind _ _ _ _ (as_float_well_formed _ _ Hlon2)).
        rewrite ret_bind.
        unfold segment_bearing.
        rewrite (sample_at_nth_error _ _ _ Hnth).
        rewrite (sample_at_nth_error _ _ _ Hnx).
        reflexivity.
      - destruct (Z.ltb_spec (Z.of_nat k) (Z.of_nat (List.length ownship) - 1))
          as [ Hc | _ ]; [ lia | ].
        rewrite (Hprev ltac:(discriminate)).
        destruct k as [ | k' ]; simpl.
        + reflexivity.
        + reflexivity. }
    rewrite Hbp. clear Hbp.
    cbn [fst snd].
    match goal with
    | |- context [ _create_track_point ?b ?lon ?lat ?alt ?td ] =>
        destruct (create_track_point_Ok b lon lat alt td g)
          as (p & Hp & Hplon & Hplat & Hpalt & Hpts & Hpid & _)
    end.
    match goal with
    | |- context [ OwnshipRelativeTrackGenerator.generate_from self ?n ?l ?pv ]
      => destruct (IH (S k) pv (advance g) Hskip') as (pts & g' & Hrec & F)
    end.
    { intros Hne.
      destruct (Nat.ltb_spec (S k) (List.length ownship)) as [ _ | Hge ].
      - simpl. rewrite Nat.sub_0_r. reflexivity.
      - destruct rest; [ contradiction Hne; reflexivity | simpl in Hlen; lia ]. }
    exists (p :: pts), g'. split.
    + rewrite (bind_step _ _ _ _ _ Hp).
      rewrite (bind_step _ _ _ _ _ Hrec). reflexivity.
    + constructor; [ | exact F ].
      constructor; cbn [fst snd].
      * cbv zeta. rewrite Hplat, Hplon.
        destruct (OwnshipRelativeTrackGenerator.destination_point _ _ _ _);
          reflexivity.
      * rewrite Hpalt. reflexivity.
      * rewrite Hpts. unfold ref_time. reflexivity.
      * exact Hpid.
Qed.

Lemma Forall2_combine_seq_nth {A B} (Q : nat * A -> B -> Prop) (l : list A)
  (ys : list B) (k : nat) :
  Forall2 Q (combine (seq k (List.length l)) l) ys ->
  List.length ys = List.length l
  /\ forall (i : nat) (x : A),
      nth_error l i = Some x ->
      exists y : B, nth_error ys i = Some y /\ Q ((k + i)%nat, x) y.
Proof.
  intros F.
  assert (Hlen : List.length ys = List.length l).
  { rewrite <- (Forall2_length F), length_combine, length_seq. lia. }
  split; [ exact Hlen | ].
  intros i x Hx.
  assert (Hi : (i < List.length l)%nat).
  { apply nth_error_Some. rewrite Hx. discriminate. }
  destruct (nth_error ys i) as [ y | ] eqn:Ey.
  - exists y. split; [ reflexivity | ].
    refine (Forall2_nth_error _ _ _ F i _ _ _ Ey).
    apply combine_nth_error; [ | exact Hx ].
    rewrite nth_error_seq.
    destruct (Nat.ltb_spec i (List.length l)); [ reflexivity | lia ].
  - apply nth_error_None in Ey. lia.
Qed.

(** [generate] on a well-formed reference track returns one point per
    sample, each satisfying [relative_point_ok]. *)
Lemma ownship_relative_generate_points
  (self : OwnshipRelativeTrackGenerator.t) (g : RNG) :
  let ownship := OwnshipRelativeTrackGenerator.ownship_track self in
  Forall well_formed ownship ->
  exists (pts : list TrackPoint) (g' : RNG),
    OwnshipRelativeTrackGenerator.generate self g = Ok (pts, g')
    /\ List.length pts = List.length ownship
    /\ forall (i : nat) (pt : RefSample),
        nth_error ownship i = Some pt ->
        exists p : TrackPoint,
          nth_error pts i = Some p /\ relative_point_ok self i pt p.
Proof.
  intros ownship Hwf.
  destruct (generate_from_spec self Hwf ownship 0 None g eq_refl)
    as (pts & g' & Hgen & F).
  { intros _. reflexivity. }
  exists pts, g'. split.
  - unfold OwnshipRelativeTrackGenerator.generate, enumerate, range.
    rewrite Nat2Z.id. exact Hgen.
  - exact (Forall2_combine_seq_nth _ _ _ _ F).
Qed.

Lemma bearing_at_inner (ownship : list RefSample) (i : nat) :
  (S i < List.length ownship)%nat ->
  bearing_at ownship i = segment_bearing ownship i.
Proof.
  intros H. unfold bearing_at.
  destruct (Nat.ltb_spec (S i) (List.length ownship)); [ reflexivity | lia ].
Qed.

Lemma bearing_at_last (ownship : list RefSample) (i : nat) :
  (1 <= i)%nat -> S i = List.length ownship ->
  bearing_at ownship i = segment_bearing ownship (i - 1).
Proof.
  intros H1 Hn. unfold bearing_at.
  destruct (Nat.ltb_spec (S i) (List.length ownship)); [ lia | ].
  destruct (Nat.leb_spec 1 i); [ reflexivity | lia ].
Qed.



(** ** The altitude band *)

Lemma indexed_ok_in_band (self : BaseTrackGenerator.t) (iv : R)
  (pts : list TrackPoint) :
  min_alt self <= max_alt self ->
  indexed_ok self iv pts -> Forall (in_band self) pts.
Proof.
  intros Hle Hok. apply Forall_forall. intros p Hin.
  destruct (In_nth_error _ _ Hin) as (j & Hj).
  destruct (Hok j p Hj) as [Ha _ _ _]. exact (Ha Hle).
Qed.

(** C1 (as amended): every point of a track produced by one of the eight
    maneuver generators has its altitude within [[min_alt, max_alt]]
    whenever [min_alt <= max_alt]; the ownship-relative generator does not
    draw from the band: the altitude of its point [i] is the altitude of
    reference sample [i] plus the altitude offset. *)
Theorem maneuver_altitudes_in_band_relative_altitude_offset :
  (forall (gen : Generator) (num_points : Z) (interval_seconds : R)
      (g g' : RNG) (pts : list TrackPoint),
      min_alt (generator_base gen) <= max_alt (generator_base gen) ->
      generator_generate gen num_points interval_seconds g = Ok (pts, g') ->
      Forall (in_band (generator_base gen)) pts)
  /\ (forall (self : OwnshipRelativeTrackGenerator.t) (g : RNG),
         Forall well_formed
           (OwnshipRelativeTrackGenerator.ownship_track self) ->
         exists (pts : list TrackPoint) (g' : RNG),
           OwnshipRelativeTrackGenerator.generate self g = Ok (pts, g')
           /\ forall (i : nat) (pt : RefSample),
               nth_error (OwnshipRelativeTrackGenerator.ownship_track self) i
               = Some pt ->
               exists p : TrackPoint,
                 nth_error pts i = Some p
                 /\ altitude p
                    = ref_alt pt
                      + OwnshipRelativeTrackGenerator.alt_offset self).
Proof.
  split.
  - intros gen n iv g g' pts Hle H.
    apply (indexed_ok_in_band _ iv _ Hle).
    exact (generator_generate_points _ _ _ _ _ _ H).
  - intros self g Hwf.
    destruct (ownship_relative_generate_points self g Hwf)
      as (pts & g' & Hgen & _ & Hpts).
    exists pts, g'. split; [ exact Hgen | ].
    intros i pt Hpt.
    destruct (Hpts i pt Hpt) as (p & Hp & [_ Halt _ _]).
    exists p. split; [ exact Hp | exact Halt ].
Qed.

Lemma maneuver_altitudes_in_band_witness :
  exists (pts : list TrackPoint) (g' : RNG),
    generator_generate
      (GenSpiral (SpiralTrackGenerator.init 0 33.75 (-118.25) 1000
                    0.002 0.001 3
                    (mkKwargs (Some 900) (Some 1100) 10000 "ARTIFICIAL"
                       "Surveillance" "MSL")))
      10 10 Samples.rng0 = Ok (pts, g')
    /\ Forall (fun p => 900 <= altitude p <= 1100) pts.
Proof.
  set (gen := GenSpiral (SpiralTrackGenerator.init 0 33.75 (-118.25) 1000
                           0.002 0.001 3
                           (mkKwargs (Some 900) (Some 1100) 10000
                              "ARTIFICIAL" "Surveillance" "MSL"))).
  destruct (generator_generate_total gen 10 10 Samples.rng0 ltac:(lia))
    as (pts & g' & H).
  exists pts, g'. split; [ exact H | ].
  refine (proj1 maneuver_altitudes_in_band_relative_altitude_offset
            gen 10%Z 10 Samples.rng0 g' pts _ H).
  simpl. lra.
Defined.

(** C1 (counterexample): the relative track that fly-along mode builds for
    a reference flying at 1000 m keeps that altitude, while the band of
    its generator is [[0, 0]]; and a maneuver generator whose bounds are
    swapped ([min_alt = 10], [max_alt = 0]) draws 5 from a generator whose
    floats are one half. *)
Lemma altitude_outside_band :
  (exists (pts : list TrackPoint) (g' : RNG) (p : TrackPoint),
      OwnshipRelativeTrackGenerator.generate Samples.relative_gen
        Samples.rng0 = Ok (pts, g')
      /\ In p pts
      /\ ~ in_band (OwnshipRelativeTrackGenerator.base Samples.relative_gen)
            p)
  /\ (exists (p : TrackPoint) (g' : RNG),
         RandomTrackGenerator.generate Samples.swapped_gen 1 10 Samples.rng0
         = Ok ([p], g')
         /\ ~ in_band (RandomTrackGenerator.base Samples.swapped_gen) p).
Proof.
  split.
  - assert (Hwf : Forall well_formed
                    (OwnshipRelativeTrackGenerator.ownship_track
                       Samples.relative_gen)).
    { repeat constructor; simpl; discriminate. }
    destruct (ownship_relative_generate_points Samples.relative_gen
                Samples.rng0 Hwf) as (pts & g' & Hgen & _ & Hpts).
    destruct (Hpts 0%nat _ eq_refl) as (p & Hp & [_ Halt _ _]).
    exists pts, g', p. split; [ exact Hgen | ].
    split; [ exact (nth_error_In _ _ Hp) | ].
    unfold in_band. rewrite Halt. simpl.
    unfold ref_alt, coord. simpl. lra.
  - eexists. eexists. split.
    + unfold RandomTrackGenerator.generate, range.
      cbn [Z.to_nat Pos.to_nat Pos.iter_op seq map mapM Nat.add].
      unfold bind, uniform, random, ret, _get_altitude, _create_track_point,
        randint, randbelow, bind, uniform, random, ret.
      cbn [floats pos advance Samples.rng0].
      reflexivity.
    + unfold in_band. cbn. lra.
Qed.

(** ** The circular generator *)

Lemma circular_generate_positions (self : CircularTrackGenerator.t) (n : Z)
  (iv : R) (g g' : RNG) (pts : list TrackPoint) :
  CircularTrackGenerator.generate self n iv g = Ok (pts, g') ->
  forall (j : nat) (p : TrackPoint),
    nth_error pts j = Some p ->
    let angle := 2 * PI / IZR n * IZR (Z.of_nat j) in
    latitude p
    = center_lat (CircularTrackGenerator.base self)
      + CircularTrackGenerator.radius self * cos angle
    /\ longitude p
       = center_lon (CircularTrackGenerator.base self)
         + CircularTrackGenerator.radius self * sin angle.
Proof.
  unfold CircularTrackGenerator.generate. intros H j p Hp.
  refine (Forall2_range_nth
            (fun i q =>
               latitude q
               = center_lat (CircularTrackGenerator.base self)
                 + CircularTrackGenerator.radius self
                   * cos (2 * PI / IZR n * IZR i)
               /\ longitude q
                  = center_lon (CircularTrackGenerator.base self)
                    + CircularTrackGenerator.radius self
                      * sin (2 * PI / IZR n * IZR i)) _ _ _ j p Hp).
  refine (mapM_Forall2 _ _ _ _ _ _ _ H).
  clear. intros i g0 y g1 _ Hbody.
  apply lift_bind_Ok in Hbody. destruct Hbody as (w & Hw & Hbody).
  apply truediv_inv in Hw. destruct Hw as (_ & ->).
  apply tail_inv in Hbody. destruct Hbody as (Hlon & Hlat & _).
  split; assumption.
Qed.

(** C5: for [num_points >= 1] the circular generator returns [num_points]
    points; point [i] lies at
    [(center_lat + radius * cos theta_i, center_lon + radius * sin theta_i)]
    with [theta_i = (2 pi / num_points) * i]; consecutive angles differ by
    [2 pi / num_points]; and the distance of every point from the center,
    in degree coordinates, is the radius (its absolute value, should the
    radius be negative). *)
Theorem circular_generate_on_circle :
  forall (self : CircularTrackGenerator.t) (num_points : Z)
    (interval_seconds : R) (g : RNG),
    (1 <= num_points)%Z ->
    let c_lat := center_lat (CircularTrackGenerator.base self) in
    let c_lon := center_lon (CircularTrackGenerator.base self) in
    let radius := CircularTrackGenerator.radius self in
    let theta (i : Z) := 2 * PI / IZR num_points * IZR i in
    exists (pts : list TrackPoint) (g' : RNG),
      CircularTrackGenerator.generate self num_points interval_seconds g
      = Ok (pts, g')
      /\ Z.of_nat (List.length pts) = num_points
      /\ forall i : Z,
          (0 <= i < num_points)%Z ->
          exists p : TrackPoint,
            nth_error pts (Z.to_nat i) = Some p
            /\ latitude p = c_lat + radius * cos (theta i)
            /\ longitude p = c_lon + radius * sin (theta i)
            /\ theta (i + 1)%Z - theta i = 2 * PI / IZR num_points
            /\ sqrt ((latitude p - c_lat) ^ 2 + (longitude p - c_lon) ^ 2)
               = Rabs radius
            /\ (0 <= radius ->
                sqrt ((latitude p - c_lat) ^ 2 + (longitude p - c_lon) ^ 2)
                = radius).
Proof.
  intros self n iv g Hn c_lat c_lon radius theta.
  destruct (circular_generate_total self n iv g) as (pts & g' & H & Hlen).
  exists pts, g'. split; [ exact H | ]. split; [ lia | ].
  intros i Hi.
  destruct (nth_error pts (Z.to_nat i)) as [ p | ] eqn:Ep.
  - exists p. split; [ reflexivity | ].
    destruct (circular_generate_positions _ _ _ _ _ _ H _ _ Ep)
      as (Hlat & Hlon).
    rewrite Z2Nat.id in Hlat, Hlon by lia.
    fold c_lat radius (theta i) in Hlat. fold c_lon radius (theta i) in Hlon.
    assert (Hsq : (latitude p - c_lat) ^ 2 + (longitude p - c_lon) ^ 2
                  = radius ^ 2).
    { rewrite Hlat, Hlon.
      pose proof (sin2_cos2 (theta i)) as Hsc. unfold Rsqr in Hsc.
      replace ((c_lat + radius * cos (theta i) - c_lat) ^ 2
               + (c_lon + radius * sin (theta i) - c_lon) ^ 2)
        with (radius ^ 2
              * (sin (theta i) * sin (theta i)
                 + cos (theta i) * cos (theta i))) by ring.
      rewrite Hsc. ring. }
    assert (Habs : sqrt ((latitude p - c_lat) ^ 2
                         + (longitude p - c_lon) ^ 2) = Rabs radius).
    { rewrite Hsq. replace (radius ^ 2) with (Rsqr radius)
        by (unfold Rsqr; ring).
      apply sqrt_Rsqr_abs. }
    repeat split; try assumption.
    + unfold theta. rewrite plus_IZR.
      assert (IZR n <> 0) by (apply not_0_IZR; lia).
      field. assumption.
    + intros Hr. rewrite Habs. apply Rabs_pos_eq. exact Hr.
  - apply nth_error_None in Ep. lia.
Qed.

Lemma circular_generate_on_circle_witness :
  exists (pts : list TrackPoint) (g' : RNG),
    CircularTrackGenerator.generate
      (CircularTrackGenerator.init 0 33.75 (-118.25) 1000 0.005
         default_kwargs)
      20 10 Samples.rng0 = Ok (pts, g')
    /\ Z.of_nat (List.length pts) = 20%Z.
Proof.
  destruct (circular_generate_on_circle
              (CircularTrackGenerator.init 0 33.75 (-118.25) 1000 0.005
                 default_kwargs)
              20 10 Samples.rng0 ltac:(lia))
    as (pts & g' & H & Hlen & _).
  exists pts, g'. split; [ exact H | exact Hlen ].
Defined.

(** ** Scenario assembly *)

Lemma ascii_compare_Eq (a b : ascii) : Ascii.compare a b = Eq -> a = b.
Proof.
  unfold Ascii.compare. intros H. apply N.compare_eq in H.
  rewrite <- (ascii_N_embedding a), <- (ascii_N_embedding b), H.
  reflexivity.
Qed.

Lemma ascii_compare_Lt_trans (a b c : ascii) :
  Ascii.compare a b = Lt -> Ascii.compare b c = Lt -> Ascii.compare a c = Lt.
Proof.
  unfold Ascii.compare. rewrite !N.compare_lt_iff. apply N.lt_trans.
Qed.

Lemma string_leb_trans (a b c : string) :
  String.leb a b = true -> String.leb b c = true -> String.leb a c = true.
Proof.
  unfold String.leb. revert b c.
  induction a as [ | x a IH ]; intros b c Hab Hbc.
  - destruct c; reflexivity.
  - destruct b as [ | y b ]; [ discriminate Hab | ].
    destruct c as [ | z c ]; [ discriminate Hbc | ].
    simpl in *.
    destruct (Ascii.compare x y) eqn:Exy; try discriminate Hab.
    + apply ascii_compare_Eq in Exy. subst y.
      destruct (Ascii.compare x z) eqn:Exz; try discriminate Hbc;
        [ exact (IH b c Hab Hbc) | reflexivity ].
    + destruct (Ascii.compare y z) eqn:Eyz; try discriminate Hbc.
      * apply ascii_compare_Eq in Eyz. subst z. rewrite Exy. reflexivity.
      * rewrite (ascii_compare_Lt_trans _ _ _ Exy Eyz). reflexivity.
Qed.

(** The actors are enumerated in lexicographic order of the file names. *)
Lemma trajectory_files_sorted (folder : Scenario.Folder) :
  StronglySorted (fun a b => is_true (String.leb a b))
    (Scenario.trajectory_files folder).
Proof.
  unfold Scenario.trajectory_files.
  apply StringSort.StronglySorted_sort.
  intros a b c Hab Hbc. exact (string_leb_trans a b c Hab Hbc).
Qed.

Lemma trajectory_files_permutation (folder : Scenario.Folder) :
  Permutation
    (filter (fun f => Scenario.endswith f "_trajectory.json")
       (map fst folder))
    (Scenario.trajectory_files folder).
Proof. unfold Scenario.trajectory_files. apply StringSort.Permuted_sort. Qed.

(** An iteration at an index other than 1 leaves the origin alone. *)
Lemma step_origin_later (folder : Scenario.Folder)
  (trajectories_folder fmu_path : string)
  (sensor_configs : list Scenario.SensorConfig) (st st' : Scenario.state)
  (idx : Z) (traj_file : string) :
  idx <> 1%Z ->
  Scenario.step folder trajectories_folder fmu_path sensor_configs st
    (idx, traj_file) = Ok st' ->
  Scenario.origin (fst st') = Scenario.origin (fst st).
Proof.
  intros Hidx. unfold Scenario.step.
  destruct st as [scenario add]. 
  destruct (Scenario.load folder traj_file) as [ | w ws ].
  - intros H. inversion H. reflexivity.
  - destruct (Z.eqb_spec idx 1) as [ E | _ ]; [ contradiction | ].
    simpl. intros H. inversion H. reflexivity.
Qed.

Lemma run_origin_later (folder : Scenario.Folder)
  (trajectories_folder fmu_path : string)
  (sensor_configs : list Scenario.SensorConfig)
  (items : list (Z * string)) :
  Forall (fun it => fst it <> 1%Z) items ->
  forall st st' : Scenario.state,
    Scenario.run folder trajectories_folder fmu_path sensor_configs st items
    = Ok st' ->
    Scenario.origin (fst st') = Scenario.origin (fst st).
Proof.
  induction 1 as [ | [idx f] items Hidx _ IH ]; intros st st' H.
  - simpl in H. inversion H. reflexivity.
  - simpl in H.
    destruct (Scenario.step folder trajectories_folder fmu_path
                sensor_configs st (idx, f)) as [ st1 | e ] eqn:E;
      [ | discriminate H ].
    simpl in H. rewrite (IH st1 st' H).
    exact (step_origin_later _ _ _ _ _ _ _ _ Hidx E).
Qed.

Lemma enumerate_from_1_tail {A} (x : A) (l : list A) :
  Scenario.enumerate_from_1 (x :: l)
  = (1%Z, x)
    :: combine (map (fun k => Z.of_nat (S k)) (seq 1 (List.length l))) l.
Proof. reflexivity. Qed.

Lemma later_indices {A} (l : list A) (k : nat) :
  (1 <= k)%nat ->
  Forall (fun it : Z * A => fst it <> 1%Z)
    (combine (map (fun k => Z.of_nat (S k)) (seq k (List.length l))) l).
Proof.
  revert k. induction l as [ | x l IH ]; intros k Hk; simpl.
  - constructor.
  - constructor; [ simpl; lia | apply IH; lia ].
Qed.

(** The origin written by [generate_scenario_json]: that of the first file
    of the sorted order, or none when that file is empty. *)
Lemma generate_scenario_json_origin (folder : Scenario.Folder)
  (trajectories_folder fmu_path : string)
  (sensor_configs : option (list Scenario.SensorConfig))
  (add_sensors_to_vehicles : option (list string)) (weather : string)
  (doc : Scenario.ScenarioDoc) :
  Scenario.generate_scenario_json folder trajectories_folder fmu_path
    sensor_configs add_sensors_to_vehicles weather = Ok doc ->
  Scenario.origin doc = first_file_origin folder.
Proof.
  unfold Scenario.generate_scenario_json, first_file_origin.
  destruct (Scenario.trajectory_files folder) as [ | f files ].
  - simpl. intros H. inversion H. reflexivity.
  - rewrite enumerate_from_1_tail.
    cbn [Scenario.run].
    match goal with
    | |- context [ Scenario.step ?a ?b ?c ?d ?st (1%Z, f) ] =>
        destruct (Scenario.step a b c d st (1%Z, f)) as [ st1 | e ] eqn:E
    end; [ | discriminate ].
    cbn [rbind].
    match goal with
    | |- context [ Scenario.run ?a ?b ?c ?d st1 ?items ] =>
        destruct (Scenario.run a b c d st1 items) as [ st2 | e ] eqn:E2
    end; [ | discriminate ].
    cbn [rbind]. intros H. inversion H; subst doc. clear H.
    rewrite (run_origin_later _ _ _ _ _ (later_indices files 1 (le_n 1))
               _ _ E2).
    unfold Scenario.step in E.
    destruct (Scenario.load folder f) as [ | w ws ].
    + inversion E. reflexivity.
    + unfold origin_of_waypoint. simpl in E.
      destruct (Scenario.wp_lat w); [ | discriminate E ].
      destruct (Scenario.wp_lon w); [ | discriminate E ].
      simpl in E. inversion E. reflexivity.
Qed.

(** When the first file of the sorted order is not empty, the origin is
    the one the description asks for. *)
Lemma first_file_origin_agrees (folder : Scenario.Folder) (f : string)
  (files : list string) :
  Scenario.trajectory_files folder = f :: files ->
  Scenario.load folder f <> [] ->
  first_file_origin folder = first_nonempty_origin folder.
Proof.
  unfold first_file_origin, first_nonempty_origin. intros -> Hne.
  simpl. destruct (Scenario.load folder f); [ contradiction | reflexivity ].
Qed.

(** C2 (failing input): in a directory whose first trajectory file in
    sorted order is empty and whose second holds waypoints, the assembled
    document has an actor for the second file but an empty origin, where
    the description asks for the first waypoint of that second file. *)
Theorem scenario_origin_missing_when_first_file_empty :
  exists doc : Scenario.ScenarioDoc,
    Scenario.generate_scenario_json Samples.folder_empty_first
      "trajectories" "trajectory_follower.fmu" None None "Cloudy" = Ok doc
    /\ Scenario.trajectory_files Samples.folder_empty_first
       = ["10000_trajectory.json"; "10001_trajectory.json"]
    /\ map Scenario.actor_name (Scenario.actors doc) = ["actor10001"]
    /\ Scenario.origin doc = None
    /\ first_nonempty_origin Samples.folder_empty_first
       = Some (Scenario.mkOrigin 34.2%Q (-118.5)%Q 116.09%Q).
Proof.
  eexists. split; [ vm_compute; reflexivity | ].
  repeat split; vm_compute; reflexivity.
Qed.

(** ** Coordinate transforms: NED and ECEF *)

(** The rotation into the local frame is undone exactly. *)
Lemma ned_to_ecef_ecef_to_ned (dx dy dz ref_lat ref_lon : R) :
  (let '(north, east, down) := Geo.ecef_to_ned dx dy dz ref_lat ref_lon in
   Geo.ned_to_ecef north east down ref_lat ref_lon) = (dx, dy, dz).
Proof.
  unfold Geo.ecef_to_ned, Geo.ned_to_ecef. cbv zeta.
  set (sl := sin (radians ref_lat)). set (cl := cos (radians ref_lat)).
  set (so := sin (radians ref_lon)). set (co := cos (radians ref_lon)).
  assert (Hl : sl * sl + cl * cl = 1).
  { pose proof (sin2_cos2 (radians ref_lat)) as H. unfold Rsqr in H. exact H. }
  assert (Ho : so * so + co * co = 1).
  { pose proof (sin2_cos2 (radians ref_lon)) as H. unfold Rsqr in H. exact H. }
  f_equal; [ f_equal | ].
  - transitivity (dx * ((sl * sl + cl * cl) * (co * co) + so * so)
                  + dy * (so * co * (sl * sl + cl * cl - 1))); [ ring | ].
    rewrite Hl. replace (1 * (co * co) + so * so) with (so * so + co * co)
      by ring. rewrite Ho. ring.
  - transitivity (dy * ((sl * sl + cl * cl) * (so * so) + co * co)
                  + dx * (so * co * (sl * sl + cl * cl - 1))); [ ring | ].
    rewrite Hl. replace (1 * (so * so) + co * co) with (so * so + co * co)
      by ring. rewrite Ho. ring.
  - transitivity (dz * (sl * sl + cl * cl)); [ ring | ].
    rewrite Hl. ring.
Qed.

(** Hence the round trip through any reference point is the round trip
    through ECEF: the reference cancels. *)
Lemma ned_round_trip_is_ecef_round_trip
  (lat lon alt ref_lat ref_lon ref_alt : R) :
  (let '(north, east, down) :=
     Geo.lla_to_ned lat lon alt ref_lat ref_lon ref_alt in
   Geo.ned_to_lla north east down ref_lat ref_lon ref_alt)
  = (let '(x, y, z) := Geo.geodetic_to_ecef lat lon alt in
     Geo.ecef_to_geodetic x y z).
Proof.
  unfold Geo.lla_to_ned, Geo.ned_to_lla.
  destruct (Geo.geodetic_to_ecef lat lon alt) as [[tx ty] tz].
  destruct (Geo.geodetic_to_ecef ref_lat ref_lon ref_alt) as [[rx ry] rz].
  pose proof (ned_to_ecef_ecef_to_ned (tx - rx) (ty - ry) (tz - rz)
                ref_lat ref_lon) as H.
  destruct (Geo.ecef_to_ned (tx - rx) (ty - ry) (tz - rz) ref_lat ref_lon)
    as [[north east] down].
  rewrite H.
  replace (rx + (tx - rx)) with tx by ring.
  replace (ry + (ty - ry)) with ty by ring.
  replace (rz + (tz - rz)) with tz by ring.
  reflexivity.
Qed.

(** ** [atan2] *)

Lemma atan2_pos (y x : R) : 0 < x -> atan2 y x = atan (y / x).
Proof.
  intros Hx. unfold atan2. destruct (Rlt_dec 0 x); [ reflexivity | lra ].
Qed.

Lemma atan_nonneg (v : R) : 0 <= v -> 0 <= atan v.
Proof.
  intros [Hv | <-]; [ | rewrite atan_0; lra ].
  pose proof (atan_increasing 0 v Hv) as H. rewrite atan_0 in H. lra.
Qed.

Lemma atan_nonpos (v : R) : v <= 0 -> atan v <= 0.
Proof.
  intros [Hv | ->]; [ | rewrite atan_0; lra ].
  pose proof (atan_increasing v 0 Hv) as H. rewrite atan_0 in H. lra.
Qed.

Lemma div_neg_sign (y x : R) :
  x < 0 -> (0 <= y -> y / x <= 0) /\ (y < 0 -> 0 < y / x).
Proof.
  intros Hx. assert (Hi : / x < 0) by (apply Rinv_neg; exact Hx).
  unfold Rdiv. split; intros Hy; nra.
Qed.

(** The result of [atan2] lies in [[-pi, pi]]. *)
Lemma atan2_bound (y x : R) : - PI <= atan2 y x <= PI.
Proof.
  unfold atan2. pose proof (atan_bound (y / x)) as Hb. pose proof PI_RGT_0.
  destruct (Rlt_dec 0 x); [ lra | ].
  destruct (Rlt_dec x 0) as [ Hx | ].
  - destruct (div_neg_sign y x Hx) as (Hge & Hlt).
    destruct (Rle_dec 0 y) as [ Hy | Hy ].
    + pose proof (atan_nonpos _ (Hge Hy)). lra.
    + assert (Hy' : y < 0) by lra.
      pose proof (atan_nonneg (y / x) (Rlt_le _ _ (Hlt Hy'))). lra.
  - destruct (Rlt_dec 0 y); [ lra | ].
    destruct (Rlt_dec y 0); lra.
Qed.

(** ** The refinement loop in the tangent of the latitude *)

Lemma E_SQ_range : 0 < Geo.E_SQ < 67 / 10000.
Proof. unfold Geo.E_SQ. lra. Qed.

Lemma A_value : Geo.A = 6378137.
Proof. unfold Geo.A. lra. Qed.

Lemma Phi_sqr (u : R) : Phi u * Phi u = 1 + u * u.
Proof. unfold Phi. apply sqrt_sqrt. nra. Qed.

Lemma Phi_ge_1 (u : R) : 1 <= Phi u.
Proof.
  unfold Phi. apply Rle_trans with (sqrt 1); [ rewrite sqrt_1; lra | ].
  apply sqrt_le_1_alt. nra.
Qed.

Lemma Sb_sqr (u : R) : Sb u * Sb u = 1 + (1 - Geo.E_SQ) * (u * u).
Proof. unfold Sb. apply sqrt_sqrt. pose proof E_SQ_range. nra. Qed.

Lemma Sb_ge_1 (u : R) : 1 <= Sb u.
Proof.
  unfold Sb. apply Rle_trans with (sqrt 1); [ rewrite sqrt_1; lra | ].
  apply sqrt_le_1_alt. pose proof E_SQ_range. nra.
Qed.

Lemma Sb_le_Phi (u : R) : Sb u <= Phi u.
Proof.
  unfold Sb, Phi. apply sqrt_le_1_alt. pose proof E_SQ_range. nra.
Qed.

Lemma Sb_mono (t u : R) : 0 <= t <= u -> Sb t <= Sb u.
Proof.
  intros H. unfold Sb. apply sqrt_le_1_alt. pose proof E_SQ_range.
  assert (Hsq : t * t <= u * u) by nra.
  apply Rplus_le_compat_l. apply Rmult_le_compat_l; lra.
Qed.

Lemma Phi_mono (t u : R) : 0 <= t <= u -> Phi t <= Phi u.
Proof. intros H. unfold Phi. apply sqrt_le_1_alt. nra. Qed.

Lemma Phi_opp (u : R) : Phi (- u) = Phi u.
Proof. unfold Phi. f_equal. ring. Qed.

Lemma Sb_opp (u : R) : Sb (- u) = Sb u.
Proof. unfold Sb. f_equal. ring. Qed.

Lemma div_nonneg (x y : R) : 0 <= x -> 0 < y -> 0 <= x / y.
Proof.
  intros Hx Hy. unfold Rdiv. apply Rmult_le_pos; [ exact Hx | ].
  apply Rlt_le, Rinv_0_lt_compat. exact Hy.
Qed.

(** [u / Sb u] grows, and no faster than [1 / Sb t ^ 3] past [t]. *)
Lemma G_increment (t u : R) :
  0 <= t <= u ->
  0 <= u / Sb u - t / Sb t <= (u - t) / (Sb t * Sb t * Sb t).
Proof.
  intros [Ht Htu].
  pose proof (Sb_ge_1 t) as Ha. pose proof (Sb_ge_1 u) as Hc.
  pose proof (Sb_mono t u (conj Ht Htu)) as Hac.
  pose proof (Sb_sqr t) as Ha2. pose proof (Sb_sqr u) as Hc2.
  pose proof E_SQ_range as He.
  set (a := Sb t) in *. set (c := Sb u) in *.
  assert (Hprod : (u * a - t * c) * (u * a + t * c) = (u - t) * (u + t)).
  { transitivity (u * u * (a * a) - t * t * (c * c)); [ ring | ].
    rewrite Ha2, Hc2. ring. }
  assert (Hnum : 0 <= u * a - t * c).
  { assert (Hsq : Rsqr (t * c) <= Rsqr (u * a)).
    { unfold Rsqr.
      replace (t * c * (t * c)) with (t * t * (c * c)) by ring.
      replace (u * a * (u * a)) with (u * u * (a * a)) by ring.
      rewrite Ha2, Hc2. nra. }
    apply Rsqr_incr_0_var in Hsq; [ lra | nra ]. }
  assert (Hup : (u * a - t * c) * a <= u - t).
  { destruct (Req_dec (u + t) 0) as [ Hz | Hnz ].
    - assert (u = 0) by lra. assert (t = 0) by lra. subst u t. nra.
    - assert (Hpos : 0 < u + t) by lra.
      assert (Hle : (u * a - t * c) * a * (u + t) <= (u - t) * (u + t)).
      { rewrite <- Hprod.
        replace ((u * a - t * c) * a * (u + t))
          with ((u * a - t * c) * (a * (u + t))) by ring.
        apply Rmult_le_compat_l; [ exact Hnum | nra ]. }
      apply Rmult_le_reg_r with (u + t); assumption. }
  assert (Heq : u / c - t / a = (u * a - t * c) / (a * c)).
  { field. split; lra. }
  rewrite Heq. split.
  - apply div_nonneg; [ exact Hnum | nra ].
  - apply Rle_trans with ((u * a - t * c) * a / (a * a * a)).
    + unfold Rdiv.
      replace ((u * a - t * c) * a * / (a * a * a))
        with ((u * a - t * c) * / (a * a)) by (field; lra).
      apply Rmult_le_compat_l; [ exact Hnum | ].
      apply Rinv_le_contravar; nra.
    + unfold Rdiv. apply Rmult_le_compat_r; [ | exact Hup ].
      apply Rlt_le, Rinv_0_lt_compat. nra.
Qed.

(** *** The iteration above a non-negative tangent *)

Section AboveEllipsoid.

Variables t h : R.
Hypothesis t_nonneg : 0 <= t.
Hypothesis h_nonneg : 0 <= h.

Let p : R := p_of t h.
Let z : R := z_of t h.

Lemma alpha_pos : 0 < Geo.A / Sb t.
Proof.
  apply Rdiv_lt_0_compat; [ rewrite A_value; lra | ].
  pose proof (Sb_ge_1 t). lra.
Qed.

Lemma m_nonneg : 0 <= h / Phi t.
Proof. apply div_nonneg; [ exact h_nonneg | ]. pose proof (Phi_ge_1 t). lra. Qed.

Lemma p_ge_alpha : Geo.A / Sb t <= p.
Proof. unfold p, p_of. pose proof m_nonneg. lra. Qed.

Lemma p_pos : 0 < p.
Proof. pose proof alpha_pos. pose proof p_ge_alpha. lra. Qed.

(** The true tangent is a fixed point of the step, with the true altitude. *)
Lemma tan_step_fixed : tan_step p z t = t.
Proof.
  unfold tan_step, z, z_of. pose proof p_pos as Hp. unfold p, p_of in *.
  pose proof (Sb_ge_1 t). pose proof (Phi_ge_1 t).
  field. repeat split; try lra.
  intros E. apply (Rlt_irrefl 0). rewrite <- E at 2.
  replace (Geo.A * Phi t + h * Sb t)
    with ((Geo.A / Sb t + h / Phi t) * (Sb t * Phi t)) by (field; lra).
  apply Rmult_lt_0_compat; [ exact Hp | nra ].
Qed.

Lemma alt_of_fixed : alt_of p t = h.
Proof.
  unfold alt_of, p, p_of. pose proof (Sb_ge_1 t). pose proof (Phi_ge_1 t).
  field. lra.
Qed.

(** One step from above: the error shrinks by the eccentricity squared,
    and, measured against [p], by the eccentricity squared times [A / Sb t]. *)
Lemma tan_step_contracts (u : R) :
  t <= u ->
  t <= tan_step p z u
  /\ tan_step p z u - t <= Geo.E_SQ * (u - t)
  /\ p * (tan_step p z u - t) <= Geo.E_SQ * (Geo.A / Sb t) * (u - t).
Proof.
  intros Htu.
  pose proof p_pos as Hp. pose proof p_ge_alpha as Hpa.
  pose proof alpha_pos as Hal. pose proof E_SQ_range as He.
  pose proof (Sb_ge_1 t) as Ha.
  destruct (G_increment t u (conj t_nonneg Htu)) as (Hlo & Hhi).
  assert (Hdiff : tan_step p z u - t
                  = Geo.E_SQ * Geo.A * (u / Sb u - t / Sb t) / p).
  { transitivity (tan_step p z u - tan_step p z t);
      [ rewrite tan_step_fixed; reflexivity | ].
    pose proof (Sb_ge_1 u). unfold tan_step. field. repeat split; lra. }
  set (d := u / Sb u - t / Sb t) in *.
  assert (Hd : Geo.A * d <= Geo.A / Sb t * (u - t)).
  { apply Rle_trans with (Geo.A * ((u - t) / (Sb t * Sb t * Sb t))).
    - apply Rmult_le_compat_l; [ rewrite A_value; lra | exact Hhi ].
    - replace (Geo.A * ((u - t) / (Sb t * Sb t * Sb t)))
        with (Geo.A / Sb t * ((u - t) * / (Sb t * Sb t))) by (field; lra).
      apply Rmult_le_compat_l; [ lra | ].
      rewrite <- (Rmult_1_r (u - t)) at 2.
      apply Rmult_le_compat_l; [ lra | ].
      rewrite <- Rinv_1. apply Rinv_le_contravar; nra. }
  assert (HAd : 0 <= Geo.A * d).
  { apply Rmult_le_pos; [ rewrite A_value; lra | exact Hlo ]. }
  assert (Hfine : p * (tan_step p z u - t) = Geo.E_SQ * (Geo.A * d)).
  { rewrite Hdiff. field. lra. }
  assert (Hge : 0 <= tan_step p z u - t).
  { rewrite Hdiff.
    apply div_nonneg; [ | exact Hp ].
    replace (Geo.E_SQ * Geo.A * d) with (Geo.E_SQ * (Geo.A * d)) by ring.
    apply Rmult_le_pos; lra. }
  split; [ lra | ]. split.
  - apply Rmult_le_reg_l with p; [ exact Hp | ].
    rewrite Hfine.
    apply Rle_trans with (Geo.E_SQ * (Geo.A / Sb t * (u - t))).
    + apply Rmult_le_compat_l; lra.
    + replace (p * (Geo.E_SQ * (u - t))) with (Geo.E_SQ * (p * (u - t)))
        by ring.
      apply Rmult_le_compat_l; [ lra | ].
      apply Rmult_le_compat_r; lra.
  - rewrite Hfine.
    replace (Geo.E_SQ * (Geo.A / Sb t) * (u - t))
      with (Geo.E_SQ * (Geo.A / Sb t * (u - t))) by ring.
    apply Rmult_le_compat_l; lra.
Qed.

(** The initial guess lies above the true tangent, by at most
    [E_SQ / (1 - E_SQ)] of it. *)
Lemma u0_above :
  t <= u0_of t h /\ u0_of t h - t <= Geo.E_SQ * t / (1 - Geo.E_SQ).
Proof.
  pose proof p_pos as Hp. pose proof E_SQ_range as He.
  pose proof m_nonneg as Hm. pose proof alpha_pos as Hal.
  pose proof (Sb_ge_1 t) as Ha. pose proof (Phi_ge_1 t) as HF.
  assert (Heq : u0_of t h - t
                = Geo.E_SQ * t / (1 - Geo.E_SQ) * (h / Phi t / p)).
  { unfold u0_of, z_of. fold p. unfold p, p_of in *. field.
    repeat split; try lra.
    intros E. apply (Rlt_irrefl 0). rewrite <- E at 2.
    replace (Geo.A * Phi t + h * Sb t)
      with ((Geo.A / Sb t + h / Phi t) * (Sb t * Phi t)) by (field; lra).
    apply Rmult_lt_0_compat; [ exact Hp | nra ]. }
  assert (Hq : 0 <= h / Phi t / p <= 1).
  { split.
    - apply div_nonneg; assumption.
    - apply Rmult_le_reg_r with p; [ exact Hp | ].
      replace (h / Phi t / p * p) with (h / Phi t) by (field; lra).
      unfold p, p_of. lra. }
  assert (Hc : 0 <= Geo.E_SQ * t / (1 - Geo.E_SQ)).
  { apply div_nonneg; [ nra | lra ]. }
  rewrite Heq. split; [ nra | ].
  rewrite <- (Rmult_1_r (Geo.E_SQ * t / (1 - Geo.E_SQ))) at 2.
  apply Rmult_le_compat_l; lra.
Qed.

(** Any number of steps from above. *)
Lemma tan_iter_contracts (k : nat) :
  forall u : R,
    t <= u ->
    t <= tan_iter k p z u
    /\ tan_iter k p z u - t <= Geo.E_SQ ^ k * (u - t).
Proof.
  pose proof E_SQ_range as He.
  induction k as [ | k IH ]; intros u Hu; simpl.
  - lra.
  - destruct (tan_step_contracts u Hu) as (H1 & H2 & _).
    destruct (IH _ H1) as (H3 & H4).
    split; [ exact H3 | ].
    apply Rle_trans with (Geo.E_SQ ^ k * (tan_step p z u - t));
      [ exact H4 | ].
    replace (Geo.E_SQ * Geo.E_SQ ^ k * (u - t))
      with (Geo.E_SQ ^ k * (Geo.E_SQ * (u - t))) by ring.
    apply Rmult_le_compat_l; [ apply pow_le; lra | exact H2 ].
Qed.

End AboveEllipsoid.

(** *** The iteration below the ellipsoid, down to 1000 km *)

Section BelowEllipsoid.

Variables t h : R.
Hypothesis t_nonneg : 0 <= t.
Hypothesis h_range : -1000000 <= h <= 0.

Let p : R := p_of t h.
Let z : R := z_of t h.

Lemma m_below : - (1000000 / Sb t) <= h / Phi t <= 0.
Proof.
  pose proof (Sb_ge_1 t) as Ha. pose proof (Phi_ge_1 t) as HF.
  pose proof (Sb_le_Phi t) as HaF.
  assert (Hi : 0 < / Phi t <= / Sb t).
  { split; [ apply Rinv_0_lt_compat; lra | ].
    apply Rinv_le_contravar; lra. }
  unfold Rdiv. split; nra.
Qed.

Lemma p_below :
  5378137 / 6378137 * (Geo.A / Sb t) <= p <= Geo.A / Sb t.
Proof.
  pose proof m_below as Hm. pose proof (Sb_ge_1 t) as Ha.
  unfold p, p_of. rewrite A_value.
  replace (5378137 / 6378137 * (6378137 / Sb t))
    with (6378137 / Sb t - 1000000 / Sb t) by (field; lra).
  lra.
Qed.

Lemma p_pos_below : 0 < p.
Proof.
  pose proof p_below as Hp. pose proof (alpha_pos t) as Hal. lra.
Qed.

Lemma tan_step_fixed_below : tan_step p z t = t.
Proof.
  unfold tan_step, z, z_of. pose proof p_pos_below as Hp.
  unfold p, p_of in *.
  pose proof (Sb_ge_1 t). pose proof (Phi_ge_1 t).
  field. repeat split; try lra.
  intros E. apply (Rlt_irrefl 0). rewrite <- E at 2.
  replace (Geo.A * Phi t + h * Sb t)
    with ((Geo.A / Sb t + h / Phi t) * (Sb t * Phi t)) by (field; lra).
  apply Rmult_lt_0_compat; [ exact Hp | nra ].
Qed.

(** The initial guess lies below the true tangent, by at most 0.13 % of
    it. *)
Lemma u0_below :
  (1 - 13 / 10000) * t <= u0_of t h <= t.
Proof.
  pose proof p_pos_below as Hp. pose proof E_SQ_range as He.
  pose proof m_below as Hm. pose proof (alpha_pos t) as Hal.
  pose proof p_below as Hpb.
  pose proof (Sb_ge_1 t) as Ha. pose proof (Phi_ge_1 t) as HF.
  assert (Heq : t - u0_of t h
                = Geo.E_SQ / (1 - Geo.E_SQ) * (- (h / Phi t) / p) * t).
  { unfold u0_of, z_of. fold p. unfold p, p_of in *. field.
    repeat split; try lra.
    intros E. apply (Rlt_irrefl 0). rewrite <- E at 2.
    replace (Geo.A * Phi t + h * Sb t)
      with ((Geo.A / Sb t + h / Phi t) * (Sb t * Phi t)) by (field; lra).
    apply Rmult_lt_0_compat; [ exact Hp | nra ]. }
  assert (Hq : 0 <= - (h / Phi t) / p <= 1000000 / 5378137).
  { split.
    - apply div_nonneg; [ lra | exact Hp ].
    - apply Rmult_le_reg_r with p; [ exact Hp | ].
      replace (- (h / Phi t) / p * p) with (- (h / Phi t)) by (field; lra).
      apply Rle_trans with (1000000 / Sb t); [ lra | ].
      apply Rle_trans
        with (1000000 / 5378137 * (5378137 / 6378137 * (Geo.A / Sb t))).
      + rewrite A_value. right. field. lra.
      + apply Rmult_le_compat_l; lra. }
  assert (Hc : 0 <= Geo.E_SQ / (1 - Geo.E_SQ) <= 67 / 9933).
  { split.
    - apply div_nonneg; lra.
    - apply Rmult_le_reg_r with (1 - Geo.E_SQ); [ lra | ].
      replace (Geo.E_SQ / (1 - Geo.E_SQ) * (1 - Geo.E_SQ)) with Geo.E_SQ
        by (field; lra).
      lra. }
  assert (Hprod : 0 <= Geo.E_SQ / (1 - Geo.E_SQ) * (- (h / Phi t) / p)
                    <= 13 / 10000).
  { split.
    - apply Rmult_le_pos; lra.
    - apply Rle_trans with (67 / 9933 * (1000000 / 5378137)); [ | lra ].
      apply Rmult_le_compat; lra. }
  assert (Hdiff : 0 <= t - u0_of t h <= 13 / 10000 * t).
  { rewrite Heq. split.
    - apply Rmult_le_pos; lra.
    - apply Rmult_le_compat_r; lra. }
  lra.
Qed.

Lemma Sb_below (u : R) :
  (1 - 13 / 10000) * t <= u -> (1 - 13 / 10000) * Sb t <= Sb u.
Proof.
  intros Hu. pose proof (Sb_ge_1 t) as Ha. pose proof (Sb_ge_1 u) as Hc.
  pose proof (Sb_sqr t) as Ha2. pose proof (Sb_sqr u) as Hc2.
  pose proof E_SQ_range as He.
  apply Rsqr_incr_0_var; [ | lra ]. unfold Rsqr. rewrite Hc2.
  replace ((1 - 13 / 10000) * Sb t * ((1 - 13 / 10000) * Sb t))
    with ((1 - 13 / 10000) * (1 - 13 / 10000) * (Sb t * Sb t)) by ring.
  rewrite Ha2.
  assert (Hsq : (1 - 13 / 10000) * t * ((1 - 13 / 10000) * t) <= u * u).
  { apply Rmult_le_compat; lra. }
  assert (Hb : 0 <= (1 - Geo.E_SQ) * (u * u
                      - (1 - 13 / 10000) * t * ((1 - 13 / 10000) * t))).
  { apply Rmult_le_pos; lra. }
  lra.
Qed.

(** One step from below: the estimate stays below the true tangent and
    the error shrinks by a factor of 125. *)
Lemma tan_step_contracts_below (u : R) :
  (1 - 13 / 10000) * t <= u <= t ->
  u <= tan_step p z u <= t
  /\ t - tan_step p z u <= / 125 * (t - u).
Proof.
  intros [Hlo Hhi].
  pose proof p_pos_below as Hp. pose proof p_below as Hpb.
  pose proof (alpha_pos t) as Hal. pose proof E_SQ_range as He.
  pose proof (Sb_ge_1 t) as Ha. pose proof (Sb_ge_1 u) as Hc.
  pose proof (Sb_below u Hlo) as Hcu.
  assert (Hu0 : 0 <= u) by nra.
  destruct (G_increment u t (conj Hu0 Hhi)) as (Hglo & Hghi).
  assert (Hdiff : t - tan_step p z u
                  = Geo.E_SQ * Geo.A * (t / Sb t - u / Sb u) / p).
  { transitivity (tan_step p z t - tan_step p z u);
      [ rewrite tan_step_fixed_below; reflexivity | ].
    unfold tan_step. field. repeat split; lra. }
  set (d := t / Sb t - u / Sb u) in *.
  (* [Sb u ^ 3] against [Sb t] *)
  assert (Hcube : 9961 / 10000 * Sb t <= Sb u * Sb u * Sb u).
  { apply Rle_trans with (Sb u); [ lra | ].
    rewrite <- (Rmult_1_l (Sb u)) at 1.
    apply Rmult_le_compat_r; [ lra | ].
    rewrite <- (Rmult_1_l 1). apply Rmult_le_compat; lra. }
  assert (Hd : Geo.A * d <= 10000 / 9961 * (Geo.A / Sb t) * (t - u)).
  { apply Rle_trans with (Geo.A * ((t - u) / (Sb u * Sb u * Sb u))).
    - apply Rmult_le_compat_l; [ rewrite A_value; lra | exact Hghi ].
    - replace (10000 / 9961 * (Geo.A / Sb t) * (t - u))
        with (Geo.A * ((t - u) * / (9961 / 10000 * Sb t)))
        by (field; lra).
      apply Rmult_le_compat_l; [ rewrite A_value; lra | ].
      unfold Rdiv. apply Rmult_le_compat_l; [ lra | ].
      apply Rinv_le_contravar; [ lra | exact Hcube ]. }
  assert (HAd : 0 <= Geo.A * d).
  { apply Rmult_le_pos; [ rewrite A_value; lra | exact Hglo ]. }
  assert (Hfine : p * (t - tan_step p z u) = Geo.E_SQ * (Geo.A * d)).
  { rewrite Hdiff. field. lra. }
  assert (Hge : 0 <= t - tan_step p z u).
  { rewrite Hdiff. apply div_nonneg; [ | exact Hp ].
    replace (Geo.E_SQ * Geo.A * d) with (Geo.E_SQ * (Geo.A * d)) by ring.
    apply Rmult_le_pos; lra. }
  assert (Hk : t - tan_step p z u <= / 125 * (t - u)).
  { apply Rmult_le_reg_l with p; [ exact Hp | ].
    rewrite Hfine.
    apply Rle_trans
      with (67 / 10000 * (10000 / 9961 * (Geo.A / Sb t) * (t - u))).
    - apply Rmult_le_compat; lra.
    - assert (Hx : 0 <= Geo.A / Sb t * (t - u)).
      { apply Rmult_le_pos; lra. }
      assert (Hy : 5378137 / 6378137 * (Geo.A / Sb t) * (t - u)
                   <= p * (t - u)).
      { apply Rmult_le_compat_r; lra. }
      replace (p * (/ 125 * (t - u))) with (/ 125 * (p * (t - u))) by ring.
      lra. }
  split; [ | exact Hk ]. lra.
Qed.

Lemma tan_iter_contracts_below (k : nat) :
  forall u : R,
    (1 - 13 / 10000) * t <= u <= t ->
    (1 - 13 / 10000) * t <= tan_iter k p z u <= t
    /\ t - tan_iter k p z u <= (/ 125) ^ k * (t - u).
Proof.
  induction k as [ | k IH ]; intros u Hu; simpl.
  - lra.
  - destruct (tan_step_contracts_below u Hu) as (H1 & H2).
    assert (H1' : (1 - 13 / 10000) * t <= tan_step p z u <= t) by lra.
    destruct (IH _ H1') as (H3 & H4).
    split; [ exact H3 | ].
    apply Rle_trans with ((/ 125) ^ k * (t - tan_step p z u));
      [ exact H4 | ].
    replace (/ 125 * (/ 125) ^ k * (t - u))
      with ((/ 125) ^ k * (/ 125 * (t - u))) by ring.
    apply Rmult_le_compat_l; [ apply pow_le; lra | exact H2 ].
Qed.

End BelowEllipsoid.

(** *** Increments of [atan], [Phi] and [Phi / Sb] *)

Lemma atan_increment (t u : R) :
  0 <= t <= u -> 0 <= atan u - atan t <= (u - t) / (1 + t * t).
Proof.
  intros [Ht [Htu | <-]].
  - destruct (MVT_cor2 atan (fun x => / (1 + x ^ 2)) t u Htu) as (c & Hc & Hin).
    { intros x _. apply derivable_pt_lim_atan. }
    rewrite Hc. unfold Rdiv. rewrite (Rmult_comm (u - t)).
    assert (Hinv : 0 < / (1 + c ^ 2) <= / (1 + t * t)).
    { split.
      - apply Rinv_0_lt_compat. nra.
      - apply Rinv_le_contravar; nra. }
    split.
    + apply Rmult_le_pos; lra.
    + apply Rmult_le_compat_r; lra.
  - rewrite !Rminus_diag. unfold Rdiv. rewrite Rmult_0_l. lra.
Qed.

Lemma Phi_ge_self (u : R) : 0 <= u -> u <= Phi u.
Proof.
  intros Hu. apply Rsqr_incr_0_var; [ | pose proof (Phi_ge_1 u); lra ].
  unfold Rsqr. rewrite Phi_sqr. lra.
Qed.

Lemma Phi_increment (t u : R) :
  0 <= t <= u -> 0 <= Phi u - Phi t <= u - t.
Proof.
  intros [Ht Htu].
  pose proof (Phi_mono t u (conj Ht Htu)) as Hm.
  pose proof (Phi_ge_self t Ht) as H1.
  pose proof (Phi_ge_self u ltac:(lra)) as H2.
  pose proof (Phi_sqr t) as Hst. pose proof (Phi_sqr u) as Hsu.
  split; [ lra | ].
  assert (Hprod : (Phi u - Phi t) * (Phi u + Phi t) = (u - t) * (u + t)).
  { transitivity (Phi u * Phi u - Phi t * Phi t); [ ring | ].
    rewrite Hst, Hsu. ring. }
  destruct (Req_dec (u + t) 0) as [ Hz | Hnz ].
  - assert (u = 0) by lra. assert (t = 0) by lra. subst u t. lra.
  - apply Rmult_le_reg_r with (u + t); [ lra | ].
    rewrite <- Hprod. apply Rmult_le_compat_l; lra.
Qed.

Lemma Psi_increment (t u : R) :
  0 <= t <= u ->
  0 <= Phi u / Sb u - Phi t / Sb t
    <= Geo.E_SQ * ((u - t) * (u + t)) / (2 * (Sb t * Sb t * Sb t * Sb t)).
Proof.
  intros [Ht Htu].
  pose proof E_SQ_range as He.
  pose proof (Sb_ge_1 t) as Ha. pose proof (Sb_ge_1 u) as Hc.
  pose proof (Sb_le_Phi t) as HaF. pose proof (Sb_le_Phi u) as HcF.
  pose proof (Sb_mono t u (conj Ht Htu)) as Hac.
  pose proof (Sb_sqr t) as Ha2. pose proof (Sb_sqr u) as Hc2.
  pose proof (Phi_sqr t) as HF2. pose proof (Phi_sqr u) as HG2.
  set (a := Sb t) in *. set (c := Sb u) in *.
  set (F := Phi t) in *. set (G := Phi u) in *.
  assert (H1t : 1 <= F / a).
  { apply Rmult_le_reg_r with a; [ lra | ].
    replace (F / a * a) with F by (field; lra). lra. }
  assert (H1u : 1 <= G / c).
  { apply Rmult_le_reg_r with c; [ lra | ].
    replace (G / c * c) with G by (field; lra). lra. }
  assert (Hprod : (G / c - F / a) * (G / c + F / a)
                  = Geo.E_SQ * ((u - t) * (u + t)) / (c * c * (a * a))).
  { transitivity ((G * G * (a * a) - F * F * (c * c)) / (c * c * (a * a)));
      [ field; split; lra | ].
    rewrite HF2, HG2, Ha2, Hc2. field.
    rewrite <- Ha2, <- Hc2. split; nra. }
  assert (Hnum : 0 <= Geo.E_SQ * ((u - t) * (u + t))).
  { apply Rmult_le_pos; [ lra | ]. apply Rmult_le_pos; lra. }
  assert (Hrhs : 0 <= Geo.E_SQ * ((u - t) * (u + t)) / (c * c * (a * a))).
  { apply div_nonneg; [ exact Hnum | ].
    repeat apply Rmult_lt_0_compat; lra. }
  assert (Hge : 0 <= G / c - F / a).
  { assert (Hsq : Rsqr (F / a) <= Rsqr (G / c)).
    { unfold Rsqr.
      assert (E : G / c * (G / c) - F / a * (F / a)
                  = (G / c - F / a) * (G / c + F / a)) by ring.
      lra. }
    apply Rsqr_incr_0_var in Hsq; lra. }
  split; [ exact Hge | ].
  apply Rle_trans with ((G / c - F / a) * (G / c + F / a) / 2).
  - apply Rmult_le_reg_r with 2; [ lra | ].
    replace ((G / c - F / a) * (G / c + F / a) / 2 * 2)
      with ((G / c - F / a) * (G / c + F / a)) by (field; split; lra).
    apply Rmult_le_compat_l; lra.
  - rewrite Hprod. unfold Rdiv.
    replace (Geo.E_SQ * ((u - t) * (u + t)) * / (c * c * (a * a)) * / 2)
      with (Geo.E_SQ * ((u - t) * (u + t)) * (/ (c * c * (a * a)) * / 2))
      by ring.
    apply Rmult_le_compat_l; [ exact Hnum | ].
    replace (/ (2 * (a * a * a * a))) with (/ (a * a * (a * a)) * / 2)
      by (field; lra).
    apply Rmult_le_compat_r; [ lra | ].
    apply Rinv_le_contravar.
    + repeat apply Rmult_lt_0_compat; lra.
    + apply Rmult_le_compat_r.
      * apply Rmult_le_pos; lra.
      * apply Rmult_le_compat; lra.
Qed.

(** *** Five passes from the initial guess *)

Lemma E_SQ_pow (k : nat) : 0 <= Geo.E_SQ ^ k <= (67 / 10000) ^ k.
Proof.
  pose proof E_SQ_range as He. split.
  - apply pow_le. lra.
  - apply pow_incr. lra.
Qed.

Lemma t_over_Sb (t : R) : 0 <= t -> t / Sb t <= / (1 - Geo.E_SQ).
Proof.
  intros Ht. pose proof E_SQ_range as He. pose proof (Sb_ge_1 t) as Ha.
  pose proof (Sb_sqr t) as Ha2.
  assert (Hb : (1 - Geo.E_SQ) * t <= Sb t).
  { apply Rsqr_incr_0_var; [ | lra ]. unfold Rsqr. rewrite Ha2.
    assert (0 <= t * t) by nra.
    assert ((1 - Geo.E_SQ) * (1 - Geo.E_SQ) * (t * t)
            <= (1 - Geo.E_SQ) * (t * t)).
    { rewrite <- (Rmult_1_l ((1 - Geo.E_SQ) * (t * t))) at 1.
      replace ((1 - Geo.E_SQ) * (1 - Geo.E_SQ) * (t * t))
        with ((1 - Geo.E_SQ) * ((1 - Geo.E_SQ) * (t * t))) by ring.
      apply Rmult_le_compat_r; [ | lra ].
      apply Rmult_le_pos; lra. }
    replace ((1 - Geo.E_SQ) * t * ((1 - Geo.E_SQ) * t))
      with ((1 - Geo.E_SQ) * (1 - Geo.E_SQ) * (t * t)) by ring.
    lra. }
  apply Rmult_le_reg_r with (Sb t * (1 - Geo.E_SQ)).
  - apply Rmult_lt_0_compat; lra.
  - replace (t / Sb t * (Sb t * (1 - Geo.E_SQ))) with ((1 - Geo.E_SQ) * t)
      by (field; lra).
    replace (/ (1 - Geo.E_SQ) * (Sb t * (1 - Geo.E_SQ))) with (Sb t)
      by (field; lra).
    exact Hb.
Qed.

Lemma t_sqr_over_Sb4 (t : R) :
  t * t / (Sb t * Sb t * Sb t * Sb t) <= / (4 * (1 - Geo.E_SQ)).
Proof.
  pose proof E_SQ_range as He. pose proof (Sb_ge_1 t) as Ha.
  pose proof (Sb_sqr t) as Ha2.
  set (b := 1 - Geo.E_SQ) in *. set (w := t * t) in *.
  assert (Hb : 0 < b <= 1) by (unfold b; lra).
  assert (Hw : 0 <= w) by (unfold w; nra).
  assert (H4 : Sb t * Sb t * Sb t * Sb t = (1 + b * w) * (1 + b * w)).
  { transitivity (Sb t * Sb t * (Sb t * Sb t)); [ ring | ].
    rewrite Ha2. reflexivity. }
  rewrite H4.
  assert (Hbw : 0 <= b * w) by (apply Rmult_le_pos; lra).
  assert (Hpos : 0 < (1 + b * w) * (1 + b * w)).
  { apply Rmult_lt_0_compat; lra. }
  apply Rmult_le_reg_r with ((1 + b * w) * (1 + b * w) * (4 * b)).
  - apply Rmult_lt_0_compat; lra.
  - replace (w / ((1 + b * w) * (1 + b * w))
             * ((1 + b * w) * (1 + b * w) * (4 * b)))
      with (4 * b * w) by (field; lra).
    replace (/ (4 * b) * ((1 + b * w) * (1 + b * w) * (4 * b)))
      with ((1 + b * w) * (1 + b * w)) by (field; lra).
    assert (0 <= (1 - b * w) * (1 - b * w)) by (apply Rle_0_sqr).
    lra.
Qed.

(** After five passes from the initial guess, above a non-negative
    tangent and altitude: the latitude is off by less than [1e-12] radians
    and the altitude by less than a tenth of a millimetre. *)
Lemma refinement_error_above (t h : R) :
  0 <= t -> 0 <= h ->
  let p := p_of t h in
  let z := z_of t h in
  let u0 := u0_of t h in
  0 <= atan (tan_iter 5 p z u0) - atan t <= 1e-12
  /\ - 1e-6 <= alt_of p (tan_iter 4 p z u0) - h <= 1e-4.
Proof.
  intros Ht Hh p z u0.
  pose proof E_SQ_range as He. pose proof A_value as HA.
  pose proof (Sb_ge_1 t) as Ha. pose proof (Phi_ge_1 t) as HF.
  set (b := 1 - Geo.E_SQ) in *.
  assert (Hb : 9933 / 10000 <= b <= 1) by (unfold b; lra).
  destruct (u0_above t h Ht Hh) as (H0 & H0').
  fold u0 b in H0, H0'.
  assert (Hd0 : u0 - t <= Geo.E_SQ * t / b) by exact H0'.
  assert (Het : 0 <= Geo.E_SQ * t / b).
  { apply div_nonneg; [ apply Rmult_le_pos; lra | lra ]. }
  split.
  - (* latitude *)
    destruct (tan_iter_contracts t h Ht Hh 5 u0 H0) as (H5 & H5').
    fold p z in H5, H5'.
    destruct (atan_increment t (tan_iter 5 p z u0) (conj Ht H5))
      as (Hlo & Hhi).
    split; [ exact Hlo | ].
    apply Rle_trans with ((tan_iter 5 p z u0 - t) / (1 + t * t));
      [ exact Hhi | ].
    destruct (E_SQ_pow 5) as (Hp0 & Hp1).
    assert (Hd5 : tan_iter 5 p z u0 - t
                  <= (67 / 10000) ^ 5 * (67 / 10000 * t / b)).
    { apply Rle_trans with (Geo.E_SQ ^ 5 * (u0 - t)); [ exact H5' | ].
      apply Rle_trans with (Geo.E_SQ ^ 5 * (Geo.E_SQ * t / b)).
      - apply Rmult_le_compat_l; lra.
      - apply Rmult_le_compat; try lra.
        unfold Rdiv. apply Rmult_le_compat_r.
        + apply Rlt_le, Rinv_0_lt_compat. lra.
        + apply Rmult_le_compat_r; lra. }
    assert (Htt : t / (1 + t * t) <= / 2).
    { apply Rmult_le_reg_r with (2 * (1 + t * t)); [ nra | ].
      replace (t / (1 + t * t) * (2 * (1 + t * t))) with (2 * t)
        by (field; nra).
      replace (/ 2 * (2 * (1 + t * t))) with (1 + t * t) by field.
      assert (0 <= (1 - t) * (1 - t)) by apply Rle_0_sqr. lra. }
    assert (Hinvb : / b <= 10000 / 9933).
    { replace (10000 / 9933) with (/ (9933 / 10000)) by field.
      apply Rinv_le_contravar; lra. }
    apply Rle_trans
      with ((67 / 10000) ^ 5 * (67 / 10000) * (/ b * (t / (1 + t * t)))).
    + unfold Rdiv in *.
      replace ((67 * / 10000) ^ 5 * (67 * / 10000)
               * (/ b * (t * / (1 + t * t))))
        with ((67 * / 10000) ^ 5 * (67 * / 10000 * t * / b)
              * / (1 + t * t)) by ring.
      apply Rmult_le_compat_r; [ | exact Hd5 ].
      apply Rlt_le, Rinv_0_lt_compat. nra.
    + assert (Hq : 0 <= t / (1 + t * t)).
      { apply div_nonneg; [ exact Ht | nra ]. }
      assert (Hib : 0 <= / b) by (apply Rlt_le, Rinv_0_lt_compat; lra).
      assert (Hprod : / b * (t / (1 + t * t)) <= 10000 / 9933 * / 2).
      { apply Rmult_le_compat; lra. }
      apply Rle_trans
        with ((67 / 10000) ^ 5 * (67 / 10000) * (10000 / 9933 * / 2)).
      * apply Rmult_le_compat_l; [ | exact Hprod ].
        apply Rmult_le_pos; [ apply pow_le; lra | lra ].
      * lra.
  - (* altitude *)
    destruct (tan_step_contracts t h Ht Hh u0 H0) as (H1 & _ & H1f).
    fold p z in H1, H1f.
    destruct (tan_iter_contracts t h Ht Hh 3 _ H1) as (H4 & H4').
    fold p z in H4, H4'.
    change (tan_iter 3 p z (tan_step p z u0)) with (tan_iter 4 p z u0)
      in H4, H4'.
    destruct (tan_iter_contracts t h Ht Hh 4 u0 H0) as (_ & H4c).
    fold p z in H4c.
    set (u4 := tan_iter 4 p z u0) in *.
    pose proof (p_pos t h Hh) as Hp. fold p in Hp.
    destruct (Phi_increment t u4 (conj Ht H4)) as (HP0 & HP1).
    destruct (Psi_increment t u4 (conj Ht H4)) as (HS0 & HS1).
    assert (Hsplit : alt_of p u4 - h
                     = p * (Phi u4 - Phi t)
                       - Geo.A * (Phi u4 / Sb u4 - Phi t / Sb t)).
    { rewrite <- (alt_of_fixed t h) at 1. fold p.
      unfold alt_of. ring. }
    rewrite Hsplit.
    destruct (E_SQ_pow 3) as (Hq0 & Hq1).
    destruct (E_SQ_pow 4) as (Hr0 & Hr1).
    assert (Hinvb : / b <= 10000 / 9933).
    { replace (10000 / 9933) with (/ (9933 / 10000)) by field.
      apply Rinv_le_contravar; lra. }
    assert (Hib : 0 <= / b) by (apply Rlt_le, Rinv_0_lt_compat; lra).
    split.
    + (* from below: the second term is small *)
      assert (Hterm1 : 0 <= p * (Phi u4 - Phi t)).
      { apply Rmult_le_pos; lra. }
      assert (Hd4 : u4 - t <= (67 / 10000) ^ 4 * (67 / 10000) * / b * t).
      { apply Rle_trans with (Geo.E_SQ ^ 4 * (u0 - t)); [ exact H4c | ].
        apply Rle_trans with (Geo.E_SQ ^ 4 * (Geo.E_SQ * t / b)).
        - apply Rmult_le_compat_l; lra.
        - replace ((67 / 10000) ^ 4 * (67 / 10000) * / b * t)
            with ((67 / 10000) ^ 4 * (67 / 10000 * t / b)) by (field; lra).
          apply Rmult_le_compat; try lra.
          unfold Rdiv. apply Rmult_le_compat_r; [ exact Hib | ].
          apply Rmult_le_compat_r; lra. }
      set (rho := (67 / 10000) ^ 4 * (67 / 10000) * / b) in *.
      assert (Hrho : 0 <= rho <= 1).
      { unfold rho. split.
        - apply Rmult_le_pos; [ | exact Hib ].
          apply Rmult_le_pos; [ apply pow_le; lra | lra ].
        - apply Rle_trans
            with ((67 / 10000) ^ 4 * (67 / 10000) * (10000 / 9933)).
          + apply Rmult_le_compat_l; [ | exact Hinvb ].
            apply Rmult_le_pos; [ apply pow_le; lra | lra ].
          + lra. }
      assert (Hprod : (u4 - t) * (u4 + t) <= 3 * rho * (t * t)).
      { apply Rle_trans with (rho * t * (3 * t)).
        - apply Rmult_le_compat; try lra. nra.
        - right. ring. }
      assert (Hnum : 0 <= (u4 - t) * (u4 + t)).
      { apply Rmult_le_pos; lra. }
      assert (Ha4 : 0 < Sb t * Sb t * Sb t * Sb t).
      { repeat apply Rmult_lt_0_compat; lra. }
      assert (Hpsi : Phi u4 / Sb u4 - Phi t / Sb t
                     <= Geo.E_SQ * (3 * rho) * / 2 * / (4 * b)).
      { apply Rle_trans
          with (Geo.E_SQ * ((u4 - t) * (u4 + t))
                / (2 * (Sb t * Sb t * Sb t * Sb t))); [ exact HS1 | ].
        apply Rle_trans
          with (Geo.E_SQ * (3 * rho * (t * t))
                / (2 * (Sb t * Sb t * Sb t * Sb t))).
        - unfold Rdiv. apply Rmult_le_compat_r.
          + apply Rlt_le, Rinv_0_lt_compat. lra.
          + apply Rmult_le_compat_l; lra.
        - replace (Geo.E_SQ * (3 * rho * (t * t))
                   / (2 * (Sb t * Sb t * Sb t * Sb t)))
            with (Geo.E_SQ * (3 * rho) * / 2
                  * (t * t / (Sb t * Sb t * Sb t * Sb t)))
            by (field; lra).
          apply Rmult_le_compat_l.
          + apply Rmult_le_pos; [ | lra ].
            apply Rmult_le_pos; lra.
          + apply t_sqr_over_Sb4. }
      assert (Hbound : Geo.A * (Phi u4 / Sb u4 - Phi t / Sb t) <= 1e-6).
      { apply Rle_trans
          with (Geo.A * (Geo.E_SQ * (3 * rho) * / 2 * / (4 * b))).
        - apply Rmult_le_compat_l; lra.
        - rewrite HA.
          assert (H4b : / (4 * b) <= 10000 / (4 * 9933)).
          { replace (10000 / (4 * 9933)) with (/ (4 * (9933 / 10000)))
              by field.
            apply Rinv_le_contravar; lra. }
          assert (H4b0 : 0 <= / (4 * b)).
          { apply Rlt_le, Rinv_0_lt_compat. lra. }
          assert (Hrho' : rho
                          <= (67 / 10000) ^ 4 * (67 / 10000)
                             * (10000 / 9933)).
          { unfold rho. apply Rmult_le_compat_l; [ | exact Hinvb ].
            apply Rmult_le_pos; [ apply pow_le; lra | lra ]. }
          assert (Hx : Geo.E_SQ * (3 * rho) * / 2
                       <= 67 / 10000
                          * (3 * ((67 / 10000) ^ 4 * (67 / 10000)
                                  * (10000 / 9933))) * / 2).
          { apply Rmult_le_compat_r; [ lra | ].
            apply Rmult_le_compat; lra. }
          assert (Hx0 : 0 <= Geo.E_SQ * (3 * rho) * / 2).
          { apply Rmult_le_pos; [ | lra ]. apply Rmult_le_pos; lra. }
          apply Rle_trans
            with (6378137
                  * (67 / 10000
                     * (3 * ((67 / 10000) ^ 4 * (67 / 10000)
                             * (10000 / 9933))) * / 2
                     * (10000 / (4 * 9933)))).
          + apply Rmult_le_compat_l; [ lra | ].
            apply Rmult_le_compat; lra.
          + lra. }
      lra.
    + (* from above: the first term, measured against [p] *)
      assert (Hterm2 : 0 <= Geo.A * (Phi u4 / Sb u4 - Phi t / Sb t)).
      { apply Rmult_le_pos; lra. }
      assert (Hp1 : p * (Phi u4 - Phi t) <= p * (u4 - t)).
      { apply Rmult_le_compat_l; lra. }
      assert (Hp4 : p * (u4 - t)
                    <= Geo.E_SQ ^ 3 * (p * (tan_step p z u0 - t))).
      { replace (Geo.E_SQ ^ 3 * (p * (tan_step p z u0 - t)))
          with (p * (Geo.E_SQ ^ 3 * (tan_step p z u0 - t))) by ring.
        apply Rmult_le_compat_l; lra. }
      assert (Hal : 0 < Geo.A / Sb t) by (apply alpha_pos).
      assert (Hf : p * (tan_step p z u0 - t)
                   <= Geo.E_SQ * (Geo.A / Sb t) * (Geo.E_SQ * t / b)).
      { apply Rle_trans with (Geo.E_SQ * (Geo.A / Sb t) * (u0 - t));
          [ exact H1f | ].
        apply Rmult_le_compat_l; [ | exact Hd0 ].
        apply Rmult_le_pos; lra. }
      assert (Hts : t / Sb t <= / b) by (apply t_over_Sb; exact Ht).
      assert (Hts0 : 0 <= t / Sb t) by (apply div_nonneg; lra).
      assert (Hf' : Geo.E_SQ * (Geo.A / Sb t) * (Geo.E_SQ * t / b)
                    <= 67 / 10000 * (67 / 10000) * 6378137
                       * (10000 / 9933 * (10000 / 9933))).
      { replace (Geo.E_SQ * (Geo.A / Sb t) * (Geo.E_SQ * t / b))
          with (Geo.E_SQ * Geo.E_SQ * Geo.A * (/ b * (t / Sb t)))
          by (field; lra).
        rewrite HA.
        apply Rmult_le_compat.
        - apply Rmult_le_pos; [ apply Rmult_le_pos | ]; lra.
        - apply Rmult_le_pos; lra.
        - apply Rmult_le_compat_r; [ lra | ].
          apply Rmult_le_compat; lra.
        - apply Rmult_le_compat; lra. }
      assert (Hchain : p * (Phi u4 - Phi t)
                       <= (67 / 10000) ^ 3
                          * (67 / 10000 * (67 / 10000) * 6378137
                             * (10000 / 9933 * (10000 / 9933)))).
      { apply Rle_trans with (p * (u4 - t)); [ exact Hp1 | ].
        apply Rle_trans
          with (Geo.E_SQ ^ 3 * (p * (tan_step p z u0 - t))); [ exact Hp4 | ].
        apply Rmult_le_compat; try lra.
        apply Rmult_le_pos; lra. }
      lra.
Qed.

(** After five passes from the initial guess, for a non-negative tangent
    and an altitude down to 1000 km below the ellipsoid. *)
Lemma refinement_error_below (t h : R) :
  0 <= t -> -1000000 <= h <= 0 ->
  let p := p_of t h in
  let z := z_of t h in
  let u0 := u0_of t h in
  - 1e-12 <= atan (tan_iter 5 p z u0) - atan t <= 0
  /\ - 1e-4 <= alt_of p (tan_iter 4 p z u0) - h <= 1e-6.
Proof.
  intros Ht Hh p z u0.
  pose proof E_SQ_range as He. pose proof A_value as HA.
  pose proof (Sb_ge_1 t) as Ha. pose proof (Phi_ge_1 t) as HF.
  set (b := 1 - Geo.E_SQ) in *.
  assert (Hb : 9933 / 10000 <= b <= 1) by (unfold b; lra).
  pose proof (u0_below t h Ht Hh) as H0. fold u0 in H0.
  assert (Hd0 : 0 <= t - u0 <= 13 / 10000 * t) by lra.
  assert (Hinvb : / b <= 10000 / 9933).
  { replace (10000 / 9933) with (/ (9933 / 10000)) by field.
    apply Rinv_le_contravar; lra. }
  assert (Hib : 0 <= / b) by (apply Rlt_le, Rinv_0_lt_compat; lra).
  split.
  - (* latitude *)
    destruct (tan_iter_contracts_below t h Ht Hh 5 u0 H0) as (H5 & H5').
    fold p z in H5, H5'.
    set (u5 := tan_iter 5 p z u0) in *.
    assert (Hu5 : 0 <= u5) by nra.
    destruct (atan_increment u5 t (conj Hu5 (proj2 H5))) as (Hlo & Hhi).
    split; [ | lra ].
    assert (Hk : 0 <= (/ 125) ^ 5) by (apply pow_le; lra).
    assert (Hnum : t - u5 <= (/ 125) ^ 5 * (13 / 10000) * t).
    { apply Rle_trans with ((/ 125) ^ 5 * (t - u0)); [ exact H5' | ].
      rewrite Rmult_assoc. apply Rmult_le_compat_l; lra. }
    assert (Hden : t <= 1 + u5 * u5).
    { assert (Hsq : (1 - 13 / 10000) * t * ((1 - 13 / 10000) * t)
                    <= u5 * u5).
      { apply Rmult_le_compat; nra. }
      assert (0 <= (1 - (1 - 13 / 10000) * t) * (1 - (1 - 13 / 10000) * t))
        by apply Rle_0_sqr.
      nra. }
    assert (Hfrac : (t - u5) / (1 + u5 * u5)
                    <= (/ 125) ^ 5 * (13 / 10000)).
    { apply Rmult_le_reg_r with (1 + u5 * u5); [ nra | ].
      replace ((t - u5) / (1 + u5 * u5) * (1 + u5 * u5)) with (t - u5)
        by (field; nra).
      apply Rle_trans with ((/ 125) ^ 5 * (13 / 10000) * t);
        [ exact Hnum | ].
      apply Rmult_le_compat_l; [ | exact Hden ].
      apply Rmult_le_pos; lra. }
    lra.
  - (* altitude *)
    destruct (tan_iter_contracts_below t h Ht Hh 4 u0 H0) as (H4 & H4').
    fold p z in H4, H4'.
    set (u4 := tan_iter 4 p z u0) in *.
    assert (Hu4 : 0 <= u4) by nra.
    pose proof (p_pos_below t h Hh) as Hp. fold p in Hp.
    pose proof (p_below t h Hh) as Hpb. fold p in Hpb.
    pose proof (alpha_pos t) as Hal.
    destruct (Phi_increment u4 t (conj Hu4 (proj2 H4))) as (HP0 & HP1).
    destruct (Psi_increment u4 t (conj Hu4 (proj2 H4))) as (HS0 & HS1).
    assert (Hsplit : alt_of p u4 - h
                     = Geo.A * (Phi t / Sb t - Phi u4 / Sb u4)
                       - p * (Phi t - Phi u4)).
    { rewrite <- (alt_of_fixed t h) at 1. fold p. unfold alt_of. ring. }
    rewrite Hsplit.
    assert (Hk : 0 <= (/ 125) ^ 4) by (apply pow_le; lra).
    assert (Hd4 : t - u4 <= (/ 125) ^ 4 * (13 / 10000) * t).
    { apply Rle_trans with ((/ 125) ^ 4 * (t - u0)); [ exact H4' | ].
      rewrite Rmult_assoc. apply Rmult_le_compat_l; lra. }
    set (rho := (/ 125) ^ 4 * (13 / 10000)) in *.
    assert (Hrho : 0 <= rho) by (unfold rho; apply Rmult_le_pos; lra).
    assert (Hrho' : rho <= 6 / 1000000000000) by (unfold rho; lra).
    (* the first term *)
    assert (Hterm1 : 0 <= p * (Phi t - Phi u4) <= 1e-4).
    { split; [ apply Rmult_le_pos; lra | ].
      assert (Hts : t / Sb t <= / b) by (apply t_over_Sb; exact Ht).
      assert (Hts0 : 0 <= t / Sb t) by (apply div_nonneg; lra).
      apply Rle_trans with (Geo.A / Sb t * (rho * t)).
      - apply Rmult_le_compat; lra.
      - replace (Geo.A / Sb t * (rho * t))
          with (Geo.A * rho * (t / Sb t)) by (field; lra).
        rewrite HA.
        apply Rle_trans
          with (6378137 * (6 / 1000000000000) * (10000 / 9933)); [ | lra ].
        apply Rmult_le_compat; try lra;
          try (apply Rmult_le_pos; lra);
          try (apply Rmult_le_compat_l; lra). }
    (* the second term *)
    assert (Hterm2 : 0 <= Geo.A * (Phi t / Sb t - Phi u4 / Sb u4) <= 1e-6).
    { split; [ apply Rmult_le_pos; lra | ].
      pose proof (Sb_ge_1 u4) as Hc4.
      assert (Ha4 : 0 < Sb u4 * Sb u4 * Sb u4 * Sb u4).
      { repeat apply Rmult_lt_0_compat; lra. }
      assert (Hprod : (t - u4) * (t + u4) <= 6 * rho * (u4 * u4)).
      { assert (Ht2 : t <= 2 * u4) by lra.
        apply Rle_trans with (rho * (2 * u4) * (3 * u4)).
        - apply Rmult_le_compat; try lra.
          apply Rle_trans with (rho * t); [ lra | ].
          apply Rmult_le_compat_l; lra.
        - right. ring. }
      assert (Hpsi : Phi t / Sb t - Phi u4 / Sb u4
                     <= Geo.E_SQ * (6 * rho) * / 2 * / (4 * b)).
      { apply Rle_trans
          with (Geo.E_SQ * ((t - u4) * (t + u4))
                / (2 * (Sb u4 * Sb u4 * Sb u4 * Sb u4))); [ exact HS1 | ].
        apply Rle_trans
          with (Geo.E_SQ * (6 * rho * (u4 * u4))
                / (2 * (Sb u4 * Sb u4 * Sb u4 * Sb u4))).
        - unfold Rdiv. apply Rmult_le_compat_r.
          + apply Rlt_le, Rinv_0_lt_compat. lra.
          + apply Rmult_le_compat_l; lra.
        - replace (Geo.E_SQ * (6 * rho * (u4 * u4))
                   / (2 * (Sb u4 * Sb u4 * Sb u4 * Sb u4)))
            with (Geo.E_SQ * (6 * rho) * / 2
                  * (u4 * u4 / (Sb u4 * Sb u4 * Sb u4 * Sb u4)))
            by (field; lra).
          apply Rmult_le_compat_l.
          + apply Rmult_le_pos; [ | lra ]. apply Rmult_le_pos; lra.
          + apply t_sqr_over_Sb4. }
      apply Rle_trans
        with (Geo.A * (Geo.E_SQ * (6 * rho) * / 2 * / (4 * b))).
      - apply Rmult_le_compat_l; lra.
      - rewrite HA.
        assert (H4b : 0 <= / (4 * b) <= 10000 / (4 * 9933)).
        { split.
          - apply Rlt_le, Rinv_0_lt_compat. lra.
          - replace (10000 / (4 * 9933)) with (/ (4 * (9933 / 10000)))
              by field.
            apply Rinv_le_contravar; lra. }
        assert (Hx : 0 <= Geo.E_SQ * (6 * rho) * / 2
                       <= 67 / 10000 * (6 * (6 / 1000000000000)) * / 2).
        { split.
          - apply Rmult_le_pos; [ | lra ]. apply Rmult_le_pos; lra.
          - apply Rmult_le_compat_r; [ lra | ].
            apply Rmult_le_compat; lra. }
        apply Rle_trans
          with (6378137
                * (67 / 10000 * (6 * (6 / 1000000000000)) * / 2
                   * (10000 / (4 * 9933)))); [ | lra ].
        apply Rmult_le_compat_l; [ lra | ].
        apply Rmult_le_compat; lra. }
    lra.
Qed.

(** *** Either sign of the tangent *)

Lemma p_of_opp (t h : R) : p_of (- t) h = p_of t h.
Proof. unfold p_of. rewrite Sb_opp, Phi_opp. reflexivity. Qed.

Lemma z_of_opp (t h : R) : z_of (- t) h = - z_of t h.
Proof. unfold z_of. rewrite Sb_opp, Phi_opp. ring. Qed.

Lemma p_pos_any (t h : R) : -1000000 <= h -> 0 < p_of t h.
Proof.
  intros Hh. destruct (Rle_dec 0 h) as [ Hpos | Hneg ].
  - apply p_pos. exact Hpos.
  - apply p_pos_below. lra.
Qed.

Lemma u0_of_opp (t h : R) :
  -1000000 <= h -> u0_of (- t) h = - u0_of t h.
Proof.
  intros Hh. unfold u0_of. rewrite p_of_opp, z_of_opp.
  pose proof (p_pos_any t h Hh). pose proof E_SQ_range. field. lra.
Qed.

Lemma tan_step_opp (p z u : R) :
  p <> 0 -> tan_step p (- z) (- u) = - tan_step p z u.
Proof.
  intros Hp. unfold tan_step. rewrite Sb_opp.
  pose proof (Sb_ge_1 u). field. lra.
Qed.

Lemma alt_of_opp (p u : R) : alt_of p (- u) = alt_of p u.
Proof. unfold alt_of. rewrite Sb_opp, Phi_opp. reflexivity. Qed.

Lemma tan_iter_opp (k : nat) (p z : R) :
  p <> 0 -> forall u : R, tan_iter k p (- z) (- u) = - tan_iter k p z u.
Proof.
  intros Hp. induction k as [ | k IH ]; intros u; simpl.
  - reflexivity.
  - rewrite tan_step_opp by exact Hp. apply IH.
Qed.

(** Five passes from the initial guess, above a non-negative tangent. *)
Lemma refinement_error_nonneg (t h : R) :
  0 <= t -> -1000000 <= h ->
  let p := p_of t h in
  let z := z_of t h in
  let u0 := u0_of t h in
  Rabs (atan (tan_iter 5 p z u0) - atan t) <= 1e-12
  /\ Rabs (alt_of p (tan_iter 4 p z u0) - h) <= 1e-4.
Proof.
  intros Ht Hh p z u0.
  destruct (Rle_dec 0 h) as [ Hpos | Hneg ].
  - destruct (refinement_error_above t h Ht Hpos) as (Hlat & Halt).
    fold p z u0 in Hlat, Halt.
    split; apply Rabs_le; lra.
  - assert (Hh' : -1000000 <= h <= 0) by lra.
    destruct (refinement_error_below t h Ht Hh') as (Hlat & Halt).
    fold p z u0 in Hlat, Halt.
    split; apply Rabs_le; lra.
Qed.

(** Five passes from the initial guess, at any latitude short of the
    poles and any altitude from 1000 km below the ellipsoid upwards. *)
Lemma refinement_error (t h : R) :
  -1000000 <= h ->
  let p := p_of t h in
  let z := z_of t h in
  let u0 := u0_of t h in
  Rabs (atan (tan_iter 5 p z u0) - atan t) <= 1e-12
  /\ Rabs (alt_of p (tan_iter 4 p z u0) - h) <= 1e-4.
Proof.
  intros Hh p z u0.
  destruct (Rle_dec 0 t) as [ Ht | Ht ].
  - exact (refinement_error_nonneg t h Ht Hh).
  - assert (Ht' : 0 <= - t) by lra.
    destruct (refinement_error_nonneg (- t) h Ht' Hh) as (Hlat & Halt).
    cbv zeta in Hlat, Halt.
    pose proof (p_pos_any t h Hh) as Hp. fold p in Hp.
    rewrite p_of_opp, z_of_opp, (u0_of_opp t h Hh) in Hlat, Halt.
    fold p z u0 in Hlat, Halt.
    rewrite tan_iter_opp in Hlat, Halt by lra.
    rewrite atan_opp in Hlat. rewrite alt_of_opp in Halt.
    split; [ | exact Halt ].
    replace (atan (tan_iter 5 p z u0) - atan t)
      with (- (- atan (tan_iter 5 p z u0) - atan (- t)))
      by (rewrite atan_opp; ring).
    rewrite Rabs_Ropp. exact Hlat.
Qed.

(** *** The code, in the tangent of the latitude *)

(** The factor [sqrt (1 - E_SQ sin^2)] for a latitude of tangent [u]. *)
Lemma W_of_tan (u : R) :
  sqrt (1 - Geo.E_SQ * (u / Phi u) ^ 2) = Sb u / Phi u.
Proof.
  pose proof (Phi_ge_1 u) as HF. pose proof (Sb_ge_1 u) as Ha.
  pose proof (Phi_sqr u) as HF2. pose proof (Sb_sqr u) as Ha2.
  replace (1 - Geo.E_SQ * (u / Phi u) ^ 2)
    with (Sb u / Phi u * (Sb u / Phi u)).
  - apply sqrt_square. apply div_nonneg; lra.
  - transitivity (Sb u * Sb u / (Phi u * Phi u)); [ field; lra | ].
    rewrite Ha2.
    transitivity ((Phi u * Phi u - Geo.E_SQ * (u * u)) / (Phi u * Phi u)).
    + rewrite HF2. f_equal. ring.
    + field. lra.
Qed.

Lemma sin_atan_Phi (u : R) : sin (atan u) = u / Phi u.
Proof. rewrite sin_atan. reflexivity. Qed.

Lemma cos_atan_Phi (u : R) : cos (atan u) = 1 / Phi u.
Proof. rewrite cos_atan. reflexivity. Qed.

(** One pass of the loop on an estimate of tangent [u]. *)
Lemma refine_step_atan (p z u alt : R) :
  0 < p ->
  Geo.refine_step p z (atan u, alt) = (atan (tan_step p z u), alt_of p u).
Proof.
  intros Hp. unfold Geo.refine_step. cbn [fst].
  pose proof (Phi_ge_1 u) as HF. pose proof (Sb_ge_1 u) as Ha.
  rewrite sin_atan_Phi, cos_atan_Phi, W_of_tan.
  rewrite atan2_pos by exact Hp.
  f_equal.
  - f_equal. unfold tan_step. field. repeat split; lra.
  - unfold alt_of. field. repeat split; lra.
Qed.

Lemma refine_atan (k : nat) (p z : R) :
  0 < p ->
  forall u alt : R,
    Geo.refine (S k) p z (atan u, alt)
    = (atan (tan_iter (S k) p z u), alt_of p (tan_iter k p z u)).
Proof.
  intros Hp. induction k as [ | k IH ]; intros u alt.
  - simpl. apply refine_step_atan. exact Hp.
  - change (Geo.refine (S (S k)) p z (atan u, alt))
      with (Geo.refine (S k) p z (Geo.refine_step p z (atan u, alt))).
    rewrite refine_step_atan by exact Hp.
    rewrite IH. reflexivity.
Qed.

(** *** Longitude: [atan2] on polar coordinates *)

Lemma tan_shift (x : R) : cos x <> 0 -> tan (x + PI) = tan x.
Proof.
  intros Hc. unfold tan. rewrite neg_sin, neg_cos. field. exact Hc.
Qed.

Lemma atan2_polar (r lambda : R) :
  0 < r -> - PI < lambda <= PI ->
  atan2 (r * sin lambda) (r * cos lambda) = lambda.
Proof.
  intros Hr [Hlo Hhi]. pose proof PI_RGT_0 as Hpi.
  assert (Hq : forall c : R, c <> 0 ->
                 r * sin lambda / (r * c) = sin lambda / c).
  { intros c Hc. field. split; lra. }
  unfold atan2.
  destruct (Rlt_dec 0 (r * cos lambda)) as [ Hx | Hx ].
  - (* the right half plane *)
    assert (Hc : 0 < cos lambda) by nra.
    assert (Hin : - (PI / 2) < lambda < PI / 2).
    { split.
      - destruct (Rlt_dec (- (PI / 2)) lambda) as [ | Hn ]; [ assumption | ].
        exfalso.
        assert (Hle : cos (- lambda) <= 0)
          by (apply cos_le_0; lra).
        rewrite cos_neg in Hle. lra.
      - destruct (Rlt_dec lambda (PI / 2)) as [ | Hn ]; [ assumption | ].
        exfalso.
        assert (Hle : cos lambda <= 0) by (apply cos_le_0; lra).
        lra. }
    rewrite Hq by lra. fold (tan lambda). apply atan_tan. exact Hin.
  - destruct (Rlt_dec (r * cos lambda) 0) as [ Hx' | Hx' ].
    + (* the left half plane *)
      assert (Hc : cos lambda < 0) by nra.
      rewrite Hq by lra. fold (tan lambda).
      destruct (Rle_dec 0 (r * sin lambda)) as [ Hy | Hy ].
      * assert (Hs : 0 <= sin lambda) by nra.
        assert (Hin : PI / 2 < lambda).
        { destruct (Rlt_dec (PI / 2) lambda) as [ | Hn ]; [ assumption | ].
          exfalso.
          destruct (Rle_dec (- (PI / 2)) lambda) as [ Hge | Hlt ].
          - assert (0 <= cos lambda) by (apply cos_ge_0; lra). lra.
          - assert (sin lambda < 0) by (apply sin_lt_0_var; lra). lra. }
        replace lambda with (lambda - PI + PI) at 1 by ring.
        rewrite tan_shift.
        -- rewrite atan_tan; [ ring | lra ].
        -- assert (E : cos lambda = - cos (lambda - PI)).
           { rewrite <- neg_cos. f_equal. ring. }
           lra.
      * assert (Hs : sin lambda < 0) by nra.
        assert (Hin : lambda < - (PI / 2)).
        { destruct (Rlt_dec lambda (- (PI / 2))) as [ | Hn ];
            [ assumption | ].
          exfalso.
          destruct (Rle_dec lambda (PI / 2)) as [ Hle | Hgt ].
          - assert (0 <= cos lambda) by (apply cos_ge_0; lra). lra.
          - assert (0 <= sin lambda) by (apply sin_ge_0; lra). lra. }
        rewrite <- (tan_shift lambda) by lra.
        rewrite atan_tan; [ ring | lra ].
    + (* on the axis *)
      assert (Hc : cos lambda = 0) by nra.
      destruct (Rlt_dec 0 (r * sin lambda)) as [ Hy | Hy ].
      * assert (Hs : 0 < sin lambda) by nra.
        assert (H0 : 0 <= lambda).
        { destruct (Rle_dec 0 lambda) as [ | Hn ]; [ assumption | ].
          exfalso.
          assert (sin lambda < 0) by (apply sin_lt_0_var; lra). lra. }
        symmetry. apply cos_inj; [ lra | lra | ].
        rewrite cos_PI2. exact Hc.
      * destruct (Rlt_dec (r * sin lambda) 0) as [ Hy' | Hy' ].
        -- assert (Hs : sin lambda < 0) by nra.
           assert (H0 : lambda <= 0).
           { destruct (Rle_dec lambda 0) as [ | Hn ]; [ assumption | ].
             exfalso.
             assert (0 <= sin lambda) by (apply sin_ge_0; lra). lra. }
           assert (E : - lambda = PI / 2).
           { apply cos_inj; [ lra | lra | ].
             rewrite cos_neg, cos_PI2. exact Hc. }
           lra.
        -- exfalso.
           assert (Hs : sin lambda = 0) by nra.
           pose proof (sin2_cos2 lambda) as H1. unfold Rsqr in H1.
           rewrite Hs, Hc in H1. lra.
Qed.

(** *** ECEF coordinates in the tangent of the latitude *)

Lemma trig_of_tan (phi : R) :
  - (PI / 2) < phi < PI / 2 ->
  cos phi = 1 / Phi (tan phi) /\ sin phi = tan phi / Phi (tan phi).
Proof.
  intros [Hlo Hhi].
  assert (Hc : 0 < cos phi) by (apply cos_gt_0; lra).
  split.
  - rewrite (Rtrigo_facts.cos_tan phi Hc) at 1. reflexivity.
  - rewrite (Rtrigo_facts.sin_tan phi Hc) at 1. reflexivity.
Qed.

Lemma geodetic_to_ecef_tan (lat lon alt : R) :
  - (PI / 2) < radians lat < PI / 2 ->
  let t := tan (radians lat) in
  Geo.geodetic_to_ecef lat lon alt
  = (p_of t alt * cos (radians lon), p_of t alt * sin (radians lon),
     z_of t alt).
Proof.
  intros Hphi t. unfold Geo.geodetic_to_ecef. cbv zeta.
  destruct (trig_of_tan _ Hphi) as (Hc & Hs). fold t in Hc, Hs.
  rewrite Hs, Hc, W_of_tan.
  pose proof (Phi_ge_1 t) as HF. pose proof (Sb_ge_1 t) as Ha.
  unfold p_of, z_of.
  f_equal; [ f_equal | ]; field; split; lra.
Qed.

Lemma degrees_radians (x : R) : degrees (radians x) = x.
Proof. unfold degrees, radians. pose proof PI_RGT_0. field. lra. Qed.

(** The ECEF round trip, for a latitude short of the poles, a longitude in
    [(-180, 180]] and an altitude from 1000 km below the ellipsoid
    upwards. *)
Lemma ecef_round_trip (lat lon alt : R) :
  -90 < lat < 90 -> -180 < lon <= 180 -> -1000000 <= alt ->
  let '(x, y, z) := Geo.geodetic_to_ecef lat lon alt in
  let '(lat', lon', alt') := Geo.ecef_to_geodetic x y z in
  Rabs (lat' - lat) <= 6e-11 /\ lon' = lon /\ Rabs (alt' - alt) <= 1e-4.
Proof.
  intros Hlat Hlon Halt. pose proof PI_RGT_0 as Hpi.
  assert (Hphi : - (PI / 2) < radians lat < PI / 2).
  { unfold radians. split; nra. }
  assert (Hlam : - PI < radians lon <= PI).
  { unfold radians. split; nra. }
  rewrite (geodetic_to_ecef_tan lat lon alt Hphi). cbv zeta.
  set (t := tan (radians lat)). set (p := p_of t alt). set (z := z_of t alt).
  pose proof (p_pos_any t alt Halt) as Hp. fold p in Hp.
  pose proof E_SQ_range as He.
  unfold Geo.ecef_to_geodetic. cbv zeta.
  assert (Hsqrt : sqrt (p * cos (radians lon) * (p * cos (radians lon))
                        + p * sin (radians lon) * (p * sin (radians lon)))
                  = p).
  { replace (p * cos (radians lon) * (p * cos (radians lon))
             + p * sin (radians lon) * (p * sin (radians lon)))
      with (p * p * ((sin (radians lon))² + (cos (radians lon))²))
      by (unfold Rsqr; ring).
    rewrite sin2_cos2, Rmult_1_r. apply sqrt_square. lra. }
  rewrite Hsqrt.
  rewrite (atan2_pos z (p * (1 - Geo.E_SQ))) by nra.
  change (z / (p * (1 - Geo.E_SQ))) with (u0_of t alt).
  rewrite (refine_atan 4 p z Hp). cbn [fst snd].
  rewrite (atan2_polar p (radians lon) Hp Hlam).
  destruct (refinement_error t alt Halt) as (Herr_lat & Herr_alt).
  fold p z in Herr_lat, Herr_alt.
  split; [ | split ].
  - set (u5 := tan_iter 5 p z (u0_of t alt)) in *.
    assert (Elat : atan t * (180 / PI) = lat).
    { unfold t. rewrite atan_tan by exact Hphi. apply degrees_radians. }
    assert (Ediff : degrees (atan u5) - lat
                    = (atan u5 - atan t) * (180 / PI)).
    { unfold degrees. rewrite Rmult_minus_distr_r, Elat. reflexivity. }
    rewrite Ediff, Rabs_mult.
    assert (H180 : 0 <= 180 / PI <= 60).
    { split.
      - apply div_nonneg; lra.
      - apply Rmult_le_reg_r with PI; [ lra | ].
        replace (180 / PI * PI) with 180 by (field; lra).
        pose proof PI2_3_2. lra. }
    rewrite (Rabs_pos_eq (180 / PI)) by lra.
    apply Rle_trans with (1e-12 * 60); [ | lra ].
    apply Rmult_le_compat; try lra. apply Rabs_pos.
  - apply degrees_radians.
  - exact Herr_alt.
Qed.

(** *** The round trip through NED *)



Lemma atan2_right_half (y x : R) :
  0 <= x -> - (PI / 2) <= atan2 y x <= PI / 2.
Proof.
  intros Hx. unfold atan2. pose proof PI_RGT_0 as Hpi.
  pose proof (atan_bound (y / x)) as Hb.
  destruct (Rlt_dec 0 x); [ lra | ].
  destruct (Rlt_dec x 0); [ lra | ].
  destruct (Rlt_dec 0 y); [ lra | ].
  destruct (Rlt_dec y 0); lra.
Qed.

Lemma refine_latitude_bound (k : nat) (p z : R) :
  0 <= p ->
  forall la : R * R,
    - (PI / 2) <= fst (Geo.refine (S k) p z la) <= PI / 2.
Proof.
  intros Hp. induction k as [ | k IH ]; intros la.
  - simpl. apply atan2_right_half. exact Hp.
  - change (Geo.refine (S (S k)) p z la)
      with (Geo.refine (S k) p z (Geo.refine_step p z la)).
    apply IH.
Qed.

Lemma degrees_le (x y : R) : x <= y -> degrees x <= degrees y.
Proof.
  intros H. unfold degrees. pose proof PI_RGT_0.
  apply Rmult_le_compat_r; [ apply div_nonneg; lra | exact H ].
Qed.

Lemma degrees_PI : degrees PI = 180.
Proof. unfold degrees. pose proof PI_RGT_0. field. lra. Qed.


(* ================================================================== *)
(** * Part III: further properties of the programs *)
(* ================================================================== *)

From Stdlib Require Import RNsatz.

(** ** Trigonometric preliminaries *)

Lemma sin_cos_sqr (x : R) : sin x * sin x + cos x * cos x = 1.
Proof. pose proof (sin2_cos2 x) as H. unfold Rsqr in H. exact H. Qed.

Lemma sin_half_sqr (x : R) : sin (x / 2) ^ 2 = (1 - cos x) / 2.
Proof.
  replace x with (2 * (x / 2)) at 2 by field.
  rewrite cos_2a_sin. field.
Qed.

Lemma radians_minus (x y : R) : radians (x - y) = radians x - radians y.
Proof. unfold radians. ring. Qed.

Lemma radians_degrees (x : R) : radians (degrees x) = x.
Proof.
  unfold radians, degrees. pose proof PI_RGT_0. field. lra.
Qed.

Lemma radians_bound (x : R) :
  -90 <= x <= 90 -> - (PI / 2) <= radians x <= PI / 2.
Proof.
  intros [H1 H2]. unfold radians. pose proof PI_RGT_0 as Hpi.
  split; nra.
Qed.

(** Every point of the unit circle has an argument in (-pi, pi]. *)
Lemma polar_form (x y : R) :
  x * x + y * y = 1 ->
  exists lambda : R, - PI < lambda <= PI /\ cos lambda = x /\ sin lambda = y.
Proof.
  intros Hxy. pose proof PI_RGT_0 as Hpi.
  assert (Hx : -1 <= x <= 1) by (split; nra).
  assert (Hs : sqrt (1 - x²) = Rabs y).
  { rewrite <- sqrt_Rsqr_abs. f_equal. unfold Rsqr. lra. }
  destruct (Rle_dec 0 y) as [ Hy | Hy ].
  - exists (acos x). pose proof (acos_bound x) as Hb.
    split; [ lra | ]. split; [ apply cos_acos; exact Hx | ].
    rewrite sin_acos by exact Hx. rewrite Hs. apply Rabs_pos_eq. exact Hy.
  - assert (Hx' : -1 < x < 1) by (split; nra).
    exists (- acos x). pose proof (acos_bound_lt x Hx') as Hb.
    split; [ lra | ]. rewrite cos_neg, sin_neg.
    split; [ apply cos_acos; exact Hx | ].
    rewrite sin_acos by exact Hx. rewrite Hs.
    rewrite Rabs_left by lra. ring.
Qed.

(** [atan2] returns the argument of the point [(x, y)]. *)
Lemma cos_sin_atan2 (y x r : R) :
  0 <= r -> x * x + y * y = r * r ->
  r * cos (atan2 y x) = x /\ r * sin (atan2 y x) = y.
Proof.
  intros Hr Hxy.
  destruct (Req_dec r 0) as [ Hz | Hnz ].
  - subst r. assert (Hx : x = 0) by nra. assert (Hy : y = 0) by nra.
    subst x y. split; ring.
  - assert (Hpos : 0 < r) by lra.
    destruct (polar_form (x / r) (y / r)) as (lambda & Hl & Hc & Hsn).
    { transitivity ((x * x + y * y) / (r * r)); [ field; lra | ].
      rewrite Hxy. field. lra. }
    assert (Ex : x = r * cos lambda) by (rewrite Hc; field; lra).
    assert (Ey : y = r * sin lambda) by (rewrite Hsn; field; lra).
    assert (Hat : atan2 y x = lambda).
    { rewrite Ex, Ey. apply atan2_polar; assumption. }
    rewrite Hat. split; symmetry; assumption.
Qed.

(** The angle recovered from its haversine. *)
Lemma central_angle (delta : R) :
  0 <= delta <= PI ->
  2 * atan2 (sqrt ((1 - cos delta) / 2)) (sqrt (1 - (1 - cos delta) / 2))
  = delta.
Proof.
  intros [H0 H1]. pose proof PI_RGT_0 as Hpi.
  set (th := delta / 2).
  assert (Hth : 0 <= th <= PI / 2) by (unfold th; lra).
  assert (Hs : (1 - cos delta) / 2 = sin th * sin th).
  { rewrite <- sin_half_sqr. fold th. ring. }
  assert (Hc : 1 - (1 - cos delta) / 2 = cos th * cos th).
  { rewrite Hs. pose proof (sin_cos_sqr th). lra. }
  rewrite Hc, Hs.
  rewrite (sqrt_square (sin th)) by (apply sin_ge_0; lra).
  rewrite (sqrt_square (cos th)) by (apply cos_ge_0; lra).
  replace (sin th) with (1 * sin th) by ring.
  replace (cos th) with (1 * cos th) by ring.
  rewrite atan2_polar; [ unfold th; field | lra | lra ].
Qed.

Lemma central_cosine_bound (lat1 lon1 lat2 lon2 : R) :
  -1 <= central_cosine lat1 lon1 lat2 lon2 <= 1.
Proof.
  unfold central_cosine.
  set (p1 := radians lat1). set (p2 := radians lat2).
  set (dl := radians lon2 - radians lon1).
  pose proof (COS_bound (p1 - p2)) as [Ha1 Ha2].
  pose proof (COS_bound (p1 + p2)) as [Hb1 Hb2].
  pose proof (COS_bound dl) as [Ht1 Ht2].
  rewrite cos_minus in Ha1, Ha2. rewrite cos_plus in Hb1, Hb2.
  set (s1 := sin p1) in *. set (c1 := cos p1) in *.
  set (s2 := sin p2) in *. set (c2 := cos p2) in *.
  set (t := cos dl) in *.
  replace (s1 * s2 + c1 * c2 * t)
    with ((1 + t) / 2 * (c1 * c2 + s1 * s2)
          - (1 - t) / 2 * (c1 * c2 - s1 * s2)) by field.
  split; nra.
Qed.

(** The haversine formula computes the great-circle angle. *)
Lemma haversine_angle (lat1 lon1 lat2 lon2 : R) :
  let a := sin ((radians lat2 - radians lat1) / 2) ^ 2
           + cos (radians lat1) * cos (radians lat2)
             * sin ((radians lon2 - radians lon1) / 2) ^ 2 in
  2 * atan2 (sqrt a) (sqrt (1 - a)) = great_circle_angle lat1 lon1 lat2 lon2.
Proof.
  intros a. unfold great_circle_angle.
  pose proof (central_cosine_bound lat1 lon1 lat2 lon2) as HC.
  set (C := central_cosine lat1 lon1 lat2 lon2) in *.
  assert (Ha : a = (1 - cos (acos C)) / 2).
  { rewrite cos_acos by exact HC. unfold a, C, central_cosine.
    rewrite !sin_half_sqr. rewrite cos_minus. field. }
  rewrite Ha. apply central_angle. apply acos_bound.
Qed.

Lemma great_circle_angle_sym (lat1 lon1 lat2 lon2 : R) :
  great_circle_angle lat1 lon1 lat2 lon2
  = great_circle_angle lat2 lon2 lat1 lon1.
Proof.
  unfold great_circle_angle, central_cosine. f_equal.
  replace (radians lon1 - radians lon2)
    with (- (radians lon2 - radians lon1)) by ring.
  rewrite cos_neg. ring.
Qed.

Lemma great_circle_angle_refl (lat lon : R) :
  great_circle_angle lat lon lat lon = 0.
Proof.
  unfold great_circle_angle, central_cosine.
  replace (radians lon - radians lon) with 0 by ring. rewrite cos_0.
  replace (sin (radians lat) * sin (radians lat)
           + cos (radians lat) * cos (radians lat) * 1) with 1
    by (pose proof (sin_cos_sqr (radians lat)); lra).
  apply acos_1.
Qed.

Lemma acos_cos_abs (x : R) : Rabs x <= PI -> acos (cos x) = Rabs x.
Proof.
  intros Hx. destruct (Rle_dec 0 x) as [ H0 | H0 ].
  - rewrite Rabs_pos_eq in * by exact H0. apply acos_cos. lra.
  - rewrite Rabs_left in * by lra. rewrite <- cos_neg. apply acos_cos. lra.
Qed.

(** On a meridian the angle is the difference of the latitudes. *)
Lemma great_circle_angle_meridian (lat1 lat2 lon : R) :
  Rabs (lat2 - lat1) <= 180 ->
  great_circle_angle lat1 lon lat2 lon = Rabs (radians (lat2 - lat1)).
Proof.
  intros H. unfold great_circle_angle, central_cosine.
  replace (radians lon - radians lon) with 0 by ring. rewrite cos_0.
  replace (sin (radians lat1) * sin (radians lat2)
           + cos (radians lat1) * cos (radians lat2) * 1)
    with (cos (radians (lat2 - lat1)))
    by (rewrite radians_minus, cos_minus; ring).
  apply acos_cos_abs. unfold radians. rewrite Rabs_mult.
  pose proof PI_RGT_0 as Hpi.
  rewrite (Rabs_pos_eq (PI / 180)) by lra.
  pose proof (Rabs_pos (lat2 - lat1)). nra.
Qed.

(** ** utils.py: the rotation between ECEF and NED *)

(** X1: [ecef_to_ned] and [ned_to_ecef] for the same reference are inverse
    to each other, in both orders, and neither changes the length of the
    vector it is given. *)
Theorem ecef_ned_rotation_inverse_isometry :
  forall (a b c ref_lat ref_lon : R),
    (let '(north, east, down) := Geo.ecef_to_ned a b c ref_lat ref_lon in
     Geo.ned_to_ecef north east down ref_lat ref_lon = (a, b, c)
     /\ north * north + east * east + down * down = a * a + b * b + c * c)
    /\ (let '(dx, dy, dz) := Geo.ned_to_ecef a b c ref_lat ref_lon in
        Geo.ecef_to_ned dx dy dz ref_lat ref_lon = (a, b, c)
        /\ dx * dx + dy * dy + dz * dz = a * a + b * b + c * c).
Proof.
  intros a b c ref_lat ref_lon.
  unfold Geo.ecef_to_ned, Geo.ned_to_ecef. cbv zeta.
  pose proof (sin_cos_sqr (radians ref_lat)) as Hl.
  pose proof (sin_cos_sqr (radians ref_lon)) as Ho.
  set (sl := sin (radians ref_lat)) in *.
  set (cl := cos (radians ref_lat)) in *.
  set (so := sin (radians ref_lon)) in *.
  set (co := cos (radians ref_lon)) in *.
  split; split.
  - f_equal; [ f_equal | ]; nsatz.
  - nsatz.
  - f_equal; [ f_equal | ]; nsatz.
  - nsatz.
Qed.

(** ** utils.py: [geodetic_to_ecef] *)

Lemma prime_vertical_pos (s : R) :
  -1 <= s <= 1 -> 0 < sqrt (1 - Geo.E_SQ * s ^ 2).
Proof.
  intros Hs. pose proof E_SQ_range as He.
  apply sqrt_lt_R0. nra.
Qed.

Lemma prime_vertical_sqr (s : R) :
  -1 <= s <= 1 ->
  sqrt (1 - Geo.E_SQ * s ^ 2) * sqrt (1 - Geo.E_SQ * s ^ 2)
  = 1 - Geo.E_SQ * s ^ 2.
Proof.
  intros Hs. pose proof E_SQ_range as He.
  apply sqrt_sqrt. nra.
Qed.

(** X2: the position computed for altitude zero lies on the WGS84
    ellipsoid, and the position for altitude [alt] is that point moved by
    [alt] along the unit normal of the geodetic latitude and longitude. *)
Theorem geodetic_to_ecef_ellipsoid_normal :
  forall lat lon alt : R,
    let '(x0, y0, z0) := Geo.geodetic_to_ecef lat lon 0 in
    let '(nx, ny, nz) := unit_normal lat lon in
    (x0 * x0 + y0 * y0) / (Geo.A * Geo.A)
    + z0 * z0 / (Geo.A * Geo.A * (1 - Geo.E_SQ)) = 1
    /\ Geo.geodetic_to_ecef lat lon alt
       = (x0 + alt * nx, y0 + alt * ny, z0 + alt * nz)
    /\ nx * nx + ny * ny + nz * nz = 1.
Proof.
  intros lat lon alt.
  unfold Geo.geodetic_to_ecef, unit_normal. cbv zeta.
  pose proof (sin_cos_sqr (radians lat)) as Hl.
  pose proof (sin_cos_sqr (radians lon)) as Ho.
  pose proof (SIN_bound (radians lat)) as Hs.
  pose proof (prime_vertical_pos _ Hs) as Hw.
  pose proof (prime_vertical_sqr _ Hs) as Hww.
  pose proof E_SQ_range as He.
  assert (HA : 0 < Geo.A) by (rewrite A_value; lra).
  set (s := sin (radians lat)) in *. set (c := cos (radians lat)) in *.
  set (so := sin (radians lon)) in *. set (co := cos (radians lon)) in *.
  set (w := sqrt (1 - Geo.E_SQ * s ^ 2)) in *.
  split; [ | split ].
  - transitivity ((c * c * (so * so + co * co) + (1 - Geo.E_SQ) * (s * s))
                  / (w * w)); [ field; lra | ].
    rewrite Ho, Hww. replace (c * c) with (1 - s * s) by lra.
    field. nra.
  - f_equal; [ f_equal | ]; ring.
  - nsatz.
Qed.

(** ** utils.py: [lla_to_ned] and [euclidean_distance_lla] *)

Lemma lla_to_ned_vertical (lat lon alt h : R) :
  Geo.lla_to_ned lat lon (alt + h) lat lon alt = (0, 0, - h).
Proof.
  unfold Geo.lla_to_ned, Geo.geodetic_to_ecef, Geo.ecef_to_ned. cbv zeta.
  pose proof (sin_cos_sqr (radians lat)) as Hl.
  pose proof (sin_cos_sqr (radians lon)) as Ho.
  set (s := sin (radians lat)) in *. set (c := cos (radians lat)) in *.
  set (so := sin (radians lon)) in *. set (co := cos (radians lon)) in *.
  set (N := Geo.A / sqrt (1 - Geo.E_SQ * s ^ 2)).
  f_equal; [ f_equal | ]; nsatz.
Qed.

Lemma lla_to_ned_self (lat lon alt : R) :
  Geo.lla_to_ned lat lon alt lat lon alt = (0, 0, 0).
Proof.
  replace alt with (alt + 0) at 1 by ring.
  rewrite lla_to_ned_vertical. f_equal. ring.
Qed.

(** X3: a target that stands [h] metres above the reference, on the same
    latitude and longitude, has the NED coordinates [(0, 0, -h)], and the
    reference itself is the origin; [process_single_point] prints these
    coordinates and writes them, after the target, as the one row of its
    output file. *)
Theorem lla_to_ned_above_reference :
  forall (lat lon alt h : R) (output_file : string),
    Geo.lla_to_ned lat lon (alt + h) lat lon alt = (0, 0, - h)
    /\ Geo.lla_to_ned lat lon alt lat lon alt = (0, 0, 0)
    /\ process_single_point lat lon (alt + h) lat lon alt (Some output_file)
       = ((0, 0, - h),
          Some (output_file,
                mkDataFrame ["lat"; "lon"; "alt"; "north"; "east"; "down"]
                  [[Num lat; Num lon; Num (alt + h);
                    Num 0; Num 0; Num (- h)]])).
Proof.
  intros lat lon alt h output_file.
  split; [ apply lla_to_ned_vertical | ].
  split; [ apply lla_to_ned_self | ].
  unfold process_single_point. rewrite lla_to_ned_vertical. reflexivity.
Qed.

Lemma ecef_to_ned_norm (a b c ref_lat ref_lon : R) :
  norm3 (Geo.ecef_to_ned a b c ref_lat ref_lon) = norm3 (a, b, c).
Proof.
  unfold Geo.ecef_to_ned, norm3. cbv zeta.
  pose proof (sin_cos_sqr (radians ref_lat)) as Hl.
  pose proof (sin_cos_sqr (radians ref_lon)) as Ho.
  set (sl := sin (radians ref_lat)) in *.
  set (cl := cos (radians ref_lat)) in *.
  set (so := sin (radians ref_lon)) in *.
  set (co := cos (radians ref_lon)) in *.
  f_equal. nsatz.
Qed.

Lemma lla_to_ned_norm (lat1 lon1 alt1 lat2 lon2 alt2 : R) :
  Geo.euclidean_distance_lla lat1 lon1 alt1 lat2 lon2 alt2
  = norm3 (Geo.lla_to_ned lat2 lon2 alt2 lat1 lon1 alt1).
Proof.
  unfold Geo.euclidean_distance_lla, Geo.lla_to_ned.
  destruct (Geo.geodetic_to_ecef lat1 lon1 alt1) as [[x1 y1] z1].
  destruct (Geo.geodetic_to_ecef lat2 lon2 alt2) as [[x2 y2] z2].
  rewrite ecef_to_ned_norm. unfold norm3. f_equal. ring.
Qed.

(** X4: the straight-line distance between two positions does not depend
    on their order, is the difference of the altitudes for two positions
    on one vertical, and is the length of the NED vector that [lla_to_ned]
    gives for one position seen from the other. *)
Theorem euclidean_distance_lla_properties :
  forall lat1 lon1 alt1 lat2 lon2 alt2 : R,
    Geo.euclidean_distance_lla lat1 lon1 alt1 lat2 lon2 alt2
    = Geo.euclidean_distance_lla lat2 lon2 alt2 lat1 lon1 alt1
    /\ Geo.euclidean_distance_lla lat1 lon1 alt1 lat1 lon1 alt2
       = Rabs (alt2 - alt1)
    /\ Geo.euclidean_distance_lla lat1 lon1 alt1 lat2 lon2 alt2
       = norm3 (Geo.lla_to_ned lat2 lon2 alt2 lat1 lon1 alt1).
Proof.
  intros lat1 lon1 alt1 lat2 lon2 alt2.
  split; [ | split ].
  - unfold Geo.euclidean_distance_lla.
    destruct (Geo.geodetic_to_ecef lat1 lon1 alt1) as [[x1 y1] z1].
    destruct (Geo.geodetic_to_ecef lat2 lon2 alt2) as [[x2 y2] z2].
    f_equal. ring.
  - rewrite lla_to_ned_norm.
    replace alt2 with (alt1 + (alt2 - alt1)) at 1 by ring.
    assert (E : Geo.lla_to_ned lat1 lon1 (alt1 + (alt2 - alt1))
                  lat1 lon1 alt1 = (0, 0, - (alt2 - alt1)))
      by apply lla_to_ned_vertical.
    rewrite E. unfold norm3.
    replace (0 * 0 + 0 * 0 + - (alt2 - alt1) * - (alt2 - alt1))
      with ((alt2 - alt1)²) by (unfold Rsqr; ring).
    apply sqrt_Rsqr_abs.
  - apply lla_to_ned_norm.
Qed.

(** ** utils.py: [haversine_distance] *)

Lemma haversine_distance_arc (lat1 lon1 lat2 lon2 : R) :
  Geo.haversine_distance lat1 lon1 lat2 lon2
  = Geo.A * great_circle_angle lat1 lon1 lat2 lon2.
Proof.
  unfold Geo.haversine_distance. cbv zeta.
  rewrite (haversine_angle lat1 lon1 lat2 lon2). reflexivity.
Qed.


(** ** utils.py: [ecef_to_geodetic] *)

(** X6: whatever the ECEF position, the centre of the Earth and the polar
    axis included, the latitude returned lies in [[-90, 90]] and the
    longitude in [[-180, 180]]. *)
Theorem ecef_to_geodetic_angles_in_range :
  forall x y z : R,
    let '(lat, lon, alt) := Geo.ecef_to_geodetic x y z in
    -90 <= lat <= 90 /\ -180 <= lon <= 180.
Proof.
  intros x y z. unfold Geo.ecef_to_geodetic. cbv zeta.
  pose proof PI_RGT_0 as Hpi.
  set (p := sqrt (x * x + y * y)).
  pose proof (refine_latitude_bound 4 p z (sqrt_pos _)
                (atan2 z (p * (1 - Geo.E_SQ)), 0)) as [Hl1 Hl2].
  pose proof (atan2_bound y x) as [Ho1 Ho2].
  assert (E90 : degrees (PI / 2) = 90) by (unfold degrees; field; lra).
  assert (Eopp : forall v : R, degrees (- v) = - degrees v)
    by (intros v; unfold degrees; ring).
  split; split.
  - apply degrees_le in Hl1. rewrite Eopp, E90 in Hl1. exact Hl1.
  - apply degrees_le in Hl2. rewrite E90 in Hl2. exact Hl2.
  - apply degrees_le in Ho1. rewrite Eopp, degrees_PI in Ho1. exact Ho1.
  - apply degrees_le in Ho2. rewrite degrees_PI in Ho2. exact Ho2.
Qed.

(** ** Bearings: [compute_bearing] and [bearing_between_points] *)

Lemma atan2_zero_pos (x : R) : 0 < x -> atan2 0 x = 0.
Proof.
  intros Hx. rewrite atan2_pos by exact Hx.
  replace (0 / x) with 0 by (field; lra). apply atan_0.
Qed.

Lemma atan2_zero_neg (x : R) : x < 0 -> atan2 0 x = PI.
Proof.
  intros Hx. unfold atan2.
  destruct (Rlt_dec 0 x); [ lra | ].
  destruct (Rlt_dec x 0); [ | lra ].
  destruct (Rle_dec 0 0); [ | lra ].
  replace (0 / x) with 0 by (field; lra). rewrite atan_0. ring.
Qed.

Lemma atan2_pos_zero (y : R) : 0 < y -> atan2 y 0 = PI / 2.
Proof.
  intros Hy. unfold atan2.
  destruct (Rlt_dec 0 0); [ lra | ].
  destruct (Rlt_dec 0 y); [ reflexivity | lra ].
Qed.

Lemma atan2_neg_zero (y : R) : y < 0 -> atan2 y 0 = - (PI / 2).
Proof.
  intros Hy. unfold atan2.
  destruct (Rlt_dec 0 0); [ lra | ].
  destruct (Rlt_dec 0 y); [ lra | ].
  destruct (Rlt_dec y 0); [ reflexivity | lra ].
Qed.

Lemma compute_bearing_range (lat1 lon1 lat2 lon2 : R) :
  0 <= OwnshipRelativeTrackGenerator.compute_bearing lat1 lon1 lat2 lon2
  < 2 * PI.
Proof.
  unfold OwnshipRelativeTrackGenerator.compute_bearing. cbv zeta.
  pose proof PI_RGT_0 as Hpi.
  match goal with
  | |- context [ atan2 ?a ?b ] =>
      pose proof (atan2_bound a b) as [Hb1 Hb2]; set (t := atan2 a b) in *
  end.
  destruct (Rlt_dec t 0); lra.
Qed.

(** X7: the bearing that the relative generator computes lies in
    [[0, 2 pi)]; it is 0 towards a point due north on the same meridian,
    pi towards a point due south, pi/2 towards a point further east on the
    equator and 3 pi/2 towards one further west, and 0 from a point to
    itself. *)
Theorem compute_bearing_range_and_cardinal_directions :
  (forall lat1 lon1 lat2 lon2 : R,
      0 <= OwnshipRelativeTrackGenerator.compute_bearing lat1 lon1 lat2 lon2
      < 2 * PI)
  /\ (forall lat1 lat2 lon : R,
         0 < lat2 - lat1 < 180 ->
         OwnshipRelativeTrackGenerator.compute_bearing lat1 lon lat2 lon = 0
         /\ OwnshipRelativeTrackGenerator.compute_bearing lat2 lon lat1 lon
            = PI)
  /\ (forall lon1 lon2 : R,
         0 < lon2 - lon1 < 180 ->
         OwnshipRelativeTrackGenerator.compute_bearing 0 lon1 0 lon2 = PI / 2
         /\ OwnshipRelativeTrackGenerator.compute_bearing 0 lon2 0 lon1
            = 3 * PI / 2)
  /\ (forall lat lon : R,
         OwnshipRelativeTrackGenerator.compute_bearing lat lon lat lon = 0).
Proof.
  pose proof PI_RGT_0 as Hpi.
  split; [ exact compute_bearing_range | ].
  split; [ | split ].
  - intros lat1 lat2 lon Hd.
    assert (Hr : 0 < radians lat2 - radians lat1 < PI).
    { rewrite <- radians_minus. unfold radians. split; nra. }
    unfold OwnshipRelativeTrackGenerator.compute_bearing. cbv zeta.
    replace (radians lon - radians lon) with 0 by ring.
    rewrite sin_0, cos_0, !Rmult_0_l.
    split.
    + replace (cos (radians lat1) * sin (radians lat2)
               - sin (radians lat1) * cos (radians lat2) * 1)
        with (sin (radians lat2 - radians lat1))
        by (rewrite sin_minus; ring).
      rewrite atan2_zero_pos by (apply sin_gt_0; lra).
      destruct (Rlt_dec 0 0); [ lra | reflexivity ].
    + replace (cos (radians lat2) * sin (radians lat1)
               - sin (radians lat2) * cos (radians lat1) * 1)
        with (- sin (radians lat2 - radians lat1))
        by (rewrite sin_minus; ring).
      rewrite atan2_zero_neg
        by (assert (0 < sin (radians lat2 - radians lat1))
              by (apply sin_gt_0; lra); lra).
      destruct (Rlt_dec PI 0); [ lra | reflexivity ].
  - intros lon1 lon2 Hd.
    assert (Hr : 0 < radians lon2 - radians lon1 < PI).
    { rewrite <- radians_minus. unfold radians. split; nra. }
    assert (Hs : 0 < sin (radians lon2 - radians lon1))
      by (apply sin_gt_0; lra).
    unfold OwnshipRelativeTrackGenerator.compute_bearing. cbv zeta.
    assert (E0 : radians 0 = 0) by (unfold radians; ring).
    rewrite E0, sin_0, cos_0.
    split.
    + replace (1 * 0 - 0 * 1 * cos (radians lon2 - radians lon1)) with 0
        by ring.
      rewrite Rmult_1_r, atan2_pos_zero by exact Hs.
      destruct (Rlt_dec (PI / 2) 0); [ lra | reflexivity ].
    + replace (1 * 0 - 0 * 1 * cos (radians lon1 - radians lon2)) with 0
        by ring.
      replace (radians lon1 - radians lon2)
        with (- (radians lon2 - radians lon1)) by ring.
      rewrite sin_neg, Rmult_1_r, atan2_neg_zero by lra.
      destruct (Rlt_dec (- (PI / 2)) 0); [ field | lra ].
  - intros lat lon.
    unfold OwnshipRelativeTrackGenerator.compute_bearing. cbv zeta.
    replace (radians lon - radians lon) with 0 by ring.
    rewrite sin_0, cos_0, Rmult_0_l.
    replace (cos (radians lat) * sin (radians lat)
             - sin (radians lat) * cos (radians lat) * 1) with 0 by ring.
    assert (E : atan2 0 0 = 0).
    { unfold atan2. destruct (Rlt_dec 0 0); [ lra | reflexivity ]. }
    rewrite E. destruct (Rlt_dec 0 0); [ lra | reflexivity ].
Qed.

Lemma fmod_small (x y : R) : 0 <= x < y -> fmod x y = x.
Proof.
  intros [H0 H1]. unfold fmod.
  assert (E : Int_part (x / y) = 0%Z).
  { symmetry. apply Int_part_spec. simpl.
    assert (0 <= x / y < 1).
    { split; [ apply div_nonneg; lra | ].
      apply Rmult_lt_reg_r with y; [ lra | ].
      replace (x / y * y) with x by (field; lra). lra. }
    lra. }
  rewrite E. simpl. ring.
Qed.

Lemma fmod_once (x y : R) : y <= x < 2 * y -> 0 < y -> fmod x y = x - y.
Proof.
  intros [H0 H1] Hy. unfold fmod.
  assert (E : Int_part (x / y) = 1%Z).
  { symmetry. apply Int_part_spec. simpl.
    assert (1 <= x / y < 2).
    { split.
      - apply Rmult_le_reg_r with y; [ lra | ].
        replace (x / y * y) with x by (field; lra). lra.
      - apply Rmult_lt_reg_r with y; [ lra | ].
        replace (x / y * y) with x by (field; lra). lra. }
    lra. }
  rewrite E. simpl. ring.
Qed.

(** X8: [bearing_between_points] lies in [[0, 360)] and is, in degrees,
    the bearing that [compute_bearing] gives in radians for the same two
    points. *)
Theorem bearing_between_points_is_compute_bearing_in_degrees :
  forall lat1 lon1 lat2 lon2 : R,
    0 <= Geo.bearing_between_points lat1 lon1 lat2 lon2 < 360
    /\ Geo.bearing_between_points lat1 lon1 lat2 lon2
       = degrees (OwnshipRelativeTrackGenerator.compute_bearing
                    lat1 lon1 lat2 lon2).
Proof.
  intros lat1 lon1 lat2 lon2.
  pose proof PI_RGT_0 as Hpi.
  assert (Hdeg : forall v : R, degrees v = v * (180 / PI))
    by (intros; reflexivity).
  assert (H180 : 0 < 180 / PI) by (apply Rdiv_lt_0_compat; lra).
  assert (Hmain : Geo.bearing_between_points lat1 lon1 lat2 lon2
                  = degrees (OwnshipRelativeTrackGenerator.compute_bearing
                               lat1 lon1 lat2 lon2)).
  { unfold Geo.bearing_between_points,
      OwnshipRelativeTrackGenerator.compute_bearing. cbv zeta.
    match goal with
    | |- context [ atan2 ?a ?b ] =>
        pose proof (atan2_bound a b) as [Hb1 Hb2]; set (t := atan2 a b) in *
    end.
    assert (Hlo : -180 <= degrees t).
    { apply degrees_le in Hb1.
      replace (degrees (- PI)) with (- degrees PI) in Hb1
        by (unfold degrees; ring).
      rewrite degrees_PI in Hb1. exact Hb1. }
    assert (Hhi : degrees t <= 180).
    { apply degrees_le in Hb2. rewrite degrees_PI in Hb2. exact Hb2. }
    assert (E2 : degrees (t + 2 * PI) = degrees t + 360)
      by (unfold degrees; field; lra).
    destruct (Rlt_dec t 0) as [ Hneg | Hpos ].
    - assert (degrees t < 0) by (rewrite Hdeg; nra).
      rewrite fmod_small by lra. symmetry. exact E2.
    - assert (0 <= degrees t) by (rewrite Hdeg; nra).
      rewrite fmod_once by lra. ring. }
  split; [ | exact Hmain ].
  rewrite Hmain.
  pose proof (compute_bearing_range lat1 lon1 lat2 lon2) as [Hc1 Hc2].
  rewrite Hdeg. split; [ nra | ].
  replace 360 with (2 * PI * (180 / PI)) by (field; lra).
  apply Rmult_lt_compat_r; assumption.
Qed.

(** ** artificial_tracks.py: [haversine] *)

Lemma haversine_arc (lon1 lat1 lon2 lat2 : R) :
  haversine lon1 lat1 lon2 lat2
  = 6371000 * great_circle_angle lat1 lon1 lat2 lon2.
Proof.
  unfold haversine. cbv zeta. rewrite !radians_minus.
  rewrite (haversine_angle lat1 lon1 lat2 lon2). reflexivity.
Qed.


(** ** artificial_tracks.py: [destination_point] *)

Lemma atan2_zero_nonneg (x : R) : 0 <= x -> atan2 0 x = 0.
Proof.
  intros [ Hx | Hx ].
  - apply atan2_zero_pos. exact Hx.
  - subst x. unfold atan2. destruct (Rlt_dec 0 0); [ lra | reflexivity ].
Qed.

(** The argument of [asin] in [destination_point] is a sine. *)
Lemma destination_sine_bound (s c D S T : R) :
  s * s + c * c = 1 -> D * D + S * S = 1 -> -1 <= T <= 1 ->
  -1 <= s * D + c * S * T <= 1.
Proof.
  intros Hl Hd HT.
  assert (E : (s * D + c * S * T) * (s * D + c * S * T)
              = D * D + S * S * (T * T) - (s * S * T - c * D) * (s * S * T - c * D)).
  { nsatz. }
  assert (HT2 : T * T <= 1) by nra.
  assert (HS : 0 <= S * S) by apply Rle_0_sqr.
  assert (Hq : 0 <= (s * S * T - c * D) * (s * S * T - c * D))
    by apply Rle_0_sqr.
  assert (Hp : 0 <= S * S * (1 - T * T)) by (apply Rmult_le_pos; lra).
  assert (Hsq : (s * D + c * S * T) * (s * D + c * S * T) <= 1).
  { rewrite E.
    replace (S * S * (T * T)) with (S * S - S * S * (1 - T * T)) by ring.
    lra. }
  set (v := s * D + c * S * T) in *.
  split; nra.
Qed.

(** The point returned subtends the angle [distance / R] at the centre. *)
Lemma destination_point_cosine (lat lon bearing distance : R) :
  -90 <= lat <= 90 ->
  central_cosine lat lon
    (fst (OwnshipRelativeTrackGenerator.destination_point
            lat lon bearing distance))
    (snd (OwnshipRelativeTrackGenerator.destination_point
            lat lon bearing distance))
  = cos (distance / 6371000).
Proof.
  intros Hlat.
  unfold OwnshipRelativeTrackGenerator.destination_point, central_cosine.
  cbv zeta. cbn [fst snd]. rewrite !radians_degrees.
  pose proof (radians_bound lat Hlat) as Hphi.
  pose proof (sin_cos_sqr (radians lat)) as Hl.
  pose proof (sin_cos_sqr (distance / 6371000)) as Hd.
  pose proof (sin_cos_sqr bearing) as Hb.
  pose proof (COS_bound bearing) as HT.
  assert (Hc : 0 <= cos (radians lat)) by (apply cos_ge_0; lra).
  set (s := sin (radians lat)) in *. set (c := cos (radians lat)) in *.
  set (D := cos (distance / 6371000)) in *.
  set (S := sin (distance / 6371000)) in *.
  set (T := cos bearing) in *. set (U := sin bearing) in *.
  assert (Hs2 : -1 <= s * D + c * S * T <= 1).
  { apply destination_sine_bound; [ exact Hl | lra | exact HT ]. }
  set (s2 := s * D + c * S * T) in *.
  rewrite sin_asin by exact Hs2. rewrite cos_asin by exact Hs2.
  assert (Hrad : 0 <= 1 - s2²) by (unfold Rsqr; nra).
  set (c2 := sqrt (1 - s2²)).
  assert (Hc2 : 0 <= c2) by apply sqrt_pos.
  assert (Hc2s : c2 * c2 = 1 - s2 * s2).
  { unfold c2. rewrite sqrt_sqrt by exact Hrad. reflexivity. }
  replace (radians lon + atan2 (U * S * c) (D - s * s2) - radians lon)
    with (atan2 (U * S * c) (D - s * s2)) by ring.
  destruct (cos_sin_atan2 (U * S * c) (D - s * s2) (c * c2)) as [Hx _].
  - apply Rmult_le_pos; assumption.
  - unfold s2 in *. nsatz.
  - rewrite Rmult_assoc in Hx.
    replace (c * c2 * cos (atan2 (U * S * c) (D - s * s2)))
      with (c * (c2 * cos (atan2 (U * S * c) (D - s * s2)))) by ring.
    rewrite Hx. ring.
Qed.

Lemma destination_point_start_and_north :
  forall lat lon bearing distance : R,
    -90 <= lat <= 90 ->
    OwnshipRelativeTrackGenerator.destination_point lat lon bearing 0
    = (lat, lon)
    /\ (-90 <= lat + degrees (distance / 6371000) <= 90 ->
        OwnshipRelativeTrackGenerator.destination_point lat lon 0 distance
        = (lat + degrees (distance / 6371000), lon)).
Proof.
  intros lat lon bearing distance Hlat.
  pose proof (radians_bound lat Hlat) as Hphi.
  pose proof PI_RGT_0 as Hpi.
  pose proof (sin_cos_sqr (radians lat)) as Hl.
  split.
  - unfold OwnshipRelativeTrackGenerator.destination_point. cbv zeta.
    replace (0 / 6371000) with 0 by field.
    rewrite sin_0, cos_0.
    replace (sin (radians lat) * 1 + cos (radians lat) * 0 * cos bearing)
      with (sin (radians lat)) by ring.
    rewrite asin_sin by exact Hphi.
    replace (sin bearing * 0 * cos (radians lat)) with 0 by ring.
    rewrite atan2_zero_nonneg by nra.
    rewrite Rplus_0_r, !degrees_radians. reflexivity.
  - intros Hn.
    assert (Hsum : - (PI / 2) <= radians lat + distance / 6371000 <= PI / 2).
    { pose proof (radians_bound _ Hn) as Hr.
      unfold radians, degrees in Hr.
      replace ((lat + distance / 6371000 * (180 / PI)) * (PI / 180))
        with (radians lat + distance / 6371000) in Hr
        by (unfold radians; field; lra).
      exact Hr. }
    unfold OwnshipRelativeTrackGenerator.destination_point. cbv zeta.
    rewrite sin_0, cos_0.
    set (phi := radians lat) in *. set (delta := distance / 6371000) in *.
    replace (sin phi * cos delta + cos phi * sin delta * 1)
      with (sin (phi + delta)) by (rewrite sin_plus; ring).
    rewrite asin_sin by exact Hsum.
    replace (0 * sin delta * cos phi) with 0 by ring.
    assert (Hx : cos delta - sin phi * sin (phi + delta)
                 = cos phi * cos (phi + delta)).
    { rewrite sin_plus, cos_plus. nsatz. }
    rewrite Hx.
    rewrite atan2_zero_nonneg
      by (apply Rmult_le_pos; apply cos_ge_0; lra).
    rewrite Rplus_0_r. unfold phi. rewrite degrees_radians.
    f_equal. unfold degrees, radians. field. lra.
Qed.



(** ** artificial_tracks.py: the ownship-relative generator *)

Lemma offset_of_distance (direction : string) (bearing separation : R) :
  Rabs (snd (OwnshipRelativeTrackGenerator.offset_of direction bearing
               separation))
  = Rabs separation.
Proof.
  unfold OwnshipRelativeTrackGenerator.offset_of.
  destruct (direction =? "ahead"); [ reflexivity | ].
  destruct (direction =? "behind"); [ apply Rabs_Ropp | ].
  destruct (direction =? "opposite"); reflexivity.
Qed.



Lemma lift_Raise_bind {A B} (e : exn) (k : A -> M B) (g : RNG) :
  bind (lift (Raise e)) k g = Raise e.
Proof. reflexivity. Qed.

Lemma well_formed_dec (pt : RefSample) : {well_formed pt} + {~ well_formed pt}.
Proof.
  unfold well_formed.
  destruct (get2 (rs_lat pt) (rs_latitude pt));
    [ | right; intros (H & _); apply H; reflexivity ].
  destruct (get2 (rs_lon pt) (rs_longitude pt));
    [ | right; intros (_ & H & _); apply H; reflexivity ].
  destruct (get2 (rs_alt pt) (rs_altitude pt));
    [ | right; intros (_ & _ & H); apply H; reflexivity ].
  left. repeat split; discriminate.
Qed.

(** The loop of [generate] entered at index [k]: a sample without a
    coordinate among those still to do stops it. *)
Lemma generate_from_TypeError (self : OwnshipRelativeTrackGenerator.t) :
  let ownship := OwnshipRelativeTrackGenerator.ownship_track self in
  forall (rest : list RefSample) (k : nat) (prev : option R) (g : RNG),
    skipn k ownship = rest ->
    ~ Forall well_formed rest ->
    OwnshipRelativeTrackGenerator.generate_from self
      (Z.of_nat (List.length ownship))
      (combine (map Z.of_nat (seq k (List.length rest))) rest) prev g
    = Raise TypeError.
Proof.
  intros ownship rest.
  induction rest as [ | pt rest IH ]; intros k prev g Hskip Hbad.
  - contradiction Hbad. constructor.
  - destruct (skipn_cons_nth ownship k pt rest Hskip) as (Hnth & Hskip' & Hlen).
    cbn [List.length seq map combine
           OwnshipRelativeTrackGenerator.generate_from].
    destruct (get2 (rs_lat pt) (rs_latitude pt)) as [ lat | ] eqn:Elat;
      [ | reflexivity ].
    cbn [as_float]. rewrite (lift_Ok_bind _ _ _ _ eq_refl).
    destruct (get2 (rs_lon pt) (rs_longitude pt)) as [ lon | ] eqn:Elon;
      [ | reflexivity ].
    cbn [as_float]. rewrite (lift_Ok_bind _ _ _ _ eq_refl).
    destruct (get2 (rs_alt pt) (rs_altitude pt)) as [ alt | ] eqn:Ealt;
      [ | reflexivity ].
    cbn [as_float]. rewrite (lift_Ok_bind _ _ _ _ eq_refl).
    assert (Hrest : ~ Forall well_formed rest).
    { intros F. apply Hbad. constructor; [ | exact F ].
      unfold well_formed. rewrite Elat, Elon, Ealt.
      repeat split; discriminate. }
    destruct rest as [ | nx rest' ]; [ contradiction Hrest; constructor | ].
    destruct (skipn_cons_nth ownship (S k) nx rest' Hskip') as (Hnx & _ & _).
    destruct (Z.ltb_spec (Z.of_nat k) (Z.of_nat (List.length ownship) - 1))
      as [ _ | Hc ]; [ | simpl in Hlen; lia ].
    unfold OwnshipRelativeTrackGenerator.item.
    replace (Z.to_nat (Z.of_nat k + 1)) with (S k) by lia.
    fold ownship. rewrite Hnx. cbv iota.
    rewrite bind_assoc. rewrite (lift_Ok_bind _ _ _ _ eq_refl).
    rewrite bind_assoc.
    destruct (get2 (rs_lat nx) (rs_latitude nx)) as [ lat2 | ];
      [ | reflexivity ].
    cbn [as_float]. rewrite (lift_Ok_bind _ _ _ _ eq_refl).
    rewrite bind_assoc.
    destruct (get2 (rs_lon nx) (rs_longitude nx)) as [ lon2 | ];
      [ | reflexivity ].
    cbn [as_float]. rewrite (lift_Ok_bind _ _ _ _ eq_refl).
    rewrite ret_bind. cbn [fst snd].
    match goal with
    | |- context [ _create_track_point ?b ?lo ?la ?al ?td ] =>
        destruct (create_track_point_Ok b lo la al td g) as (p & Hp & _)
    end.
    rewrite (bind_step _ _ _ _ _ Hp).
    apply bind_Raise.
    exact (IH (S k) _ (advance g) Hskip' Hrest).
Qed.


Lemma bind_ext {A B} (c : M A) (k1 k2 : A -> M B) (g : RNG) :
  (forall (a : A) (g1 : RNG), k1 a g1 = k2 a g1) ->
  bind c k1 g = bind c k2 g.
Proof.
  intros H. unfold bind. destruct (c g) as [ [a g1] | e ]; [ apply H | ].
  reflexivity.
Qed.

(** The loop reads the direction only through [offset_of]. *)
Lemma generate_from_direction (self1 self2 : OwnshipRelativeTrackGenerator.t) :
  OwnshipRelativeTrackGenerator.base self1
  = OwnshipRelativeTrackGenerator.base self2 ->
  OwnshipRelativeTrackGenerator.ownship_track self1
  = OwnshipRelativeTrackGenerator.ownship_track self2 ->
  OwnshipRelativeTrackGenerator.separation_distance self1
  = OwnshipRelativeTrackGenerator.separation_distance self2 ->
  OwnshipRelativeTrackGenerator.alt_offset self1
  = OwnshipRelativeTrackGenerator.alt_offset self2 ->
  (forall b s : R,
      OwnshipRelativeTrackGenerator.offset_of
        (OwnshipRelativeTrackGenerator.relative_direction self1) b s
      = OwnshipRelativeTrackGenerator.offset_of
          (OwnshipRelativeTrackGenerator.relative_direction self2) b s) ->
  forall (n : Z) (pts : list (Z * RefSample)) (prev : option R) (g : RNG),
    OwnshipRelativeTrackGenerator.generate_from self1 n pts prev g
    = OwnshipRelativeTrackGenerator.generate_from self2 n pts prev g.
Proof.
  intros Hb Ho Hs Ha Hoff n pts.
  induction pts as [ | [i pt] rest IH ]; intros prev g.
  - reflexivity.
  - cbn [OwnshipRelativeTrackGenerator.generate_from].
    rewrite Hb, Ho, Hs, Ha.
    apply bind_ext; intros lat g1.
    apply bind_ext; intros lon g2.
    apply bind_ext; intros alt g3.
    apply bind_ext; intros bp g4.
    rewrite Hoff.
    apply bind_ext; intros p g5.
    unfold bind. rewrite IH. reflexivity.
Qed.

Lemma lower_ascii_idem (c : ascii) : lower_ascii (lower_ascii c) = lower_ascii c.
Proof.
  destruct c as [[] [] [] [] [] [] [] []]; reflexivity.
Qed.

Lemma lower_idem (s : string) : lower (lower s) = lower s.
Proof.
  induction s as [ | c s IH ]; [ reflexivity | ].
  simpl. rewrite lower_ascii_idem, IH. reflexivity.
Qed.

(** X13: the constructor lowers the relative direction, so its case does
    not matter; and every direction other than "behind" and "opposite",
    known or not, gives the track of "ahead". *)
Theorem relative_direction_falls_back_to_ahead :
  forall (now : R) (ownship : list RefSample) (separation : R)
    (direction : string) (alt_offset : R) (kw : kwargs) (g : RNG),
    OwnshipRelativeTrackGenerator.generate
      (OwnshipRelativeTrackGenerator.init now ownship separation direction
         alt_offset kw) g
    = OwnshipRelativeTrackGenerator.generate
        (OwnshipRelativeTrackGenerator.init now ownship separation
           (lower direction) alt_offset kw) g
    /\ (lower direction <> "behind" -> lower direction <> "opposite" ->
        OwnshipRelativeTrackGenerator.generate
          (OwnshipRelativeTrackGenerator.init now ownship separation
             direction alt_offset kw) g
        = OwnshipRelativeTrackGenerator.generate
            (OwnshipRelativeTrackGenerator.init now ownship separation
               "ahead" alt_offset kw) g).
Proof.
  intros now ownship separation direction alt_offset kw g.
  split.
  - unfold OwnshipRelativeTrackGenerator.init. rewrite lower_idem.
    reflexivity.
  - intros Hb Ho.
    unfold OwnshipRelativeTrackGenerator.generate.
    cbn [OwnshipRelativeTrackGenerator.init
           OwnshipRelativeTrackGenerator.ownship_track].
    apply generate_from_direction; try reflexivity.
    intros b s. unfold OwnshipRelativeTrackGenerator.init.
    cbn [OwnshipRelativeTrackGenerator.relative_direction].
    unfold OwnshipRelativeTrackGenerator.offset_of.
    rewrite (eqb_false_of_neq _ _ Hb), (eqb_false_of_neq _ _ Ho).
    change (lower "ahead") with "ahead". rewrite String.eqb_refl.
    destruct (lower direction =? "ahead"); reflexivity.
Qed.

(** ** artificial_tracks.py: the shapes of the maneuvers *)

Lemma Forall2_Forall_r {A B} (P : B -> Prop) (l : list A) (ys : list B) :
  Forall2 (fun _ y => P y) l ys -> Forall P ys.
Proof.
  induction 1; constructor; assumption.
Qed.

Lemma nth_error_of_length {A} (l : list A) (i : nat) :
  (i < List.length l)%nat -> exists x : A, nth_error l i = Some x.
Proof.
  intros Hi. destruct (nth_error l i) as [ x | ] eqn:E.
  - exists x. reflexivity.
  - apply nth_error_None in E. lia.
Qed.


Lemma elliptical_generate_positions (self : EllipticalTrackGenerator.t)
  (n : Z) (iv : R) (g g' : RNG) (pts : list TrackPoint) :
  EllipticalTrackGenerator.generate self n iv g = Ok (pts, g') ->
  forall (j : nat) (p : TrackPoint),
    nth_error pts j = Some p ->
    let angle := 2 * PI / IZR n * IZR (Z.of_nat j) in
    latitude p
    = center_lat (EllipticalTrackGenerator.base self)
      + EllipticalTrackGenerator.radius_y self * sin angle
    /\ longitude p
       = center_lon (EllipticalTrackGenerator.base self)
         + EllipticalTrackGenerator.radius_x self * cos angle.
Proof.
  unfold EllipticalTrackGenerator.generate. intros H j p Hp.
  refine (Forall2_range_nth
            (fun i q =>
               latitude q
               = center_lat (EllipticalTrackGenerator.base self)
                 + EllipticalTrackGenerator.radius_y self
                   * sin (2 * PI / IZR n * IZR i)
               /\ longitude q
                  = center_lon (EllipticalTrackGenerator.base self)
                    + EllipticalTrackGenerator.radius_x self
                      * cos (2 * PI / IZR n * IZR i)) _ _ _ j p Hp).
  refine (mapM_Forall2 _ _ _ _ _ _ _ H).
  clear. intros i g0 y g1 _ Hbody.
  apply lift_bind_Ok in Hbody. destruct Hbody as (w & Hw & Hbody).
  apply truediv_inv in Hw. destruct Hw as (_ & ->).
  apply tail_inv in Hbody. destruct Hbody as (Hlon & Hlat & _).
  split; assumption.
Qed.

(** X15: for [num_points >= 1] the elliptical maneuver returns
    [num_points] points; point [i] lies at
    [(center_lat + radius_y * sin theta_i, center_lon + radius_x * cos theta_i)]
    with [theta_i = (2 pi / num_points) * i], hence on the ellipse with
    half-axis [radius_x] in longitude and [radius_y] in latitude; the track
    starts at the point of the ellipse due east of the center. *)
Theorem elliptical_generate_on_ellipse :
  forall (self : EllipticalTrackGenerator.t) (num_points : Z)
    (interval_seconds : R) (g : RNG),
    (1 <= num_points)%Z ->
    let c_lat := center_lat (EllipticalTrackGenerator.base self) in
    let c_lon := center_lon (EllipticalTrackGenerator.base self) in
    let rx := EllipticalTrackGenerator.radius_x self in
    let ry := EllipticalTrackGenerator.radius_y self in
    let theta (i : Z) := 2 * PI / IZR num_points * IZR i in
    exists (pts : list TrackPoint) (g' : RNG),
      EllipticalTrackGenerator.generate self num_points interval_seconds g
      = Ok (pts, g')
      /\ Z.of_nat (List.length pts) = num_points
      /\ (forall i : Z,
             (0 <= i < num_points)%Z ->
             exists p : TrackPoint,
               nth_error pts (Z.to_nat i) = Some p
               /\ latitude p = c_lat + ry * sin (theta i)
               /\ longitude p = c_lon + rx * cos (theta i)
               /\ (rx * (latitude p - c_lat)) ^ 2
                  + (ry * (longitude p - c_lon)) ^ 2
                  = (rx * ry) ^ 2)
      /\ (exists p : TrackPoint,
             nth_error pts 0 = Some p
             /\ latitude p = c_lat /\ longitude p = c_lon + rx).
Proof.
  intros self n iv g Hn c_lat c_lon rx ry theta.
  destruct (elliptical_generate_total self n iv g) as (pts & g' & H & Hlen).
  exists pts, g'. split; [ exact H | ]. split; [ lia | ].
  assert (Hpt : forall i : Z,
             (0 <= i < n)%Z ->
             exists p : TrackPoint,
               nth_error pts (Z.to_nat i) = Some p
               /\ latitude p = c_lat + ry * sin (theta i)
               /\ longitude p = c_lon + rx * cos (theta i)).
  { intros i Hi.
    destruct (nth_error_of_length pts (Z.to_nat i) ltac:(lia)) as (p & Ep).
    exists p. split; [ exact Ep | ].
    destruct (elliptical_generate_positions _ _ _ _ _ _ H _ _ Ep)
      as (Hlat & Hlon).
    rewrite Z2Nat.id in Hlat, Hlon by lia.
    split; assumption. }
  split.
  - intros i Hi. destruct (Hpt i Hi) as (p & Ep & Hlat & Hlon).
    exists p. repeat split; try assumption.
    rewrite Hlat, Hlon.
    pose proof (sin_cos_sqr (theta i)) as Hsc.
    replace ((rx * (c_lat + ry * sin (theta i) - c_lat)) ^ 2
             + (ry * (c_lon + rx * cos (theta i) - c_lon)) ^ 2)
      with ((rx * ry) ^ 2
            * (sin (theta i) * sin (theta i)
               + cos (theta i) * cos (theta i))) by ring.
    rewrite Hsc. ring.
  - destruct (Hpt 0%Z ltac:(lia)) as (p & Ep & Hlat & Hlon).
    exists p. split; [ exact Ep | ].
    unfold theta in Hlat, Hlon. rewrite Rmult_0_r, sin_0 in Hlat.
    rewrite Rmult_0_r, cos_0 in Hlon.
    split; [ rewrite Hlat; ring | rewrite Hlon; ring ].
Qed.

Lemma elliptical_generate_on_ellipse_witness :
  exists (pts : list TrackPoint) (g' : RNG),
    EllipticalTrackGenerator.generate
      (EllipticalTrackGenerator.init 0 33.75 (-118.25) 1000 0.01 0.005
         default_kwargs)
      20 10 Samples.rng0 = Ok (pts, g')
    /\ Z.of_nat (List.length pts) = 20%Z.
Proof.
  destruct (elliptical_generate_on_ellipse
              (EllipticalTrackGenerator.init 0 33.75 (-118.25) 1000 0.01
                 0.005 default_kwargs)
              20 10 Samples.rng0 ltac:(lia))
    as (pts & g' & H & Hlen & _).
  exists pts, g'. split; [ exact H | exact Hlen ].
Defined.

Lemma flyby_generate_positions (self : FlybyTrackGenerator.t)
  (n : Z) (iv : R) (g g' : RNG) (pts : list TrackPoint) :
  FlybyTrackGenerator.generate self n iv g = Ok (pts, g') ->
  forall (j : nat) (p : TrackPoint),
    nth_error pts j = Some p ->
    let offset :=
      - FlybyTrackGenerator.approach_distance self
      + (FlybyTrackGenerator.approach_distance self
         + FlybyTrackGenerator.exit_distance self)
        * (IZR (Z.of_nat j) / IZR (n - 1)) in
    latitude p
    = center_lat (FlybyTrackGenerator.base self)
      + offset * cos (FlybyTrackGenerator.bearing self)
    /\ longitude p
       = center_lon (FlybyTrackGenerator.base self)
         + offset * sin (FlybyTrackGenerator.bearing self).
Proof.
  unfold FlybyTrackGenerator.generate. cbv zeta. intros H j p Hp.
  refine (Forall2_range_nth
            (fun i q =>
               latitude q
               = center_lat (FlybyTrackGenerator.base self)
                 + (- FlybyTrackGenerator.approach_distance self
                    + (FlybyTrackGenerator.approach_distance self
                       + FlybyTrackGenerator.exit_distance self)
                      * (IZR i / IZR (n - 1)))
                   * cos (FlybyTrackGenerator.bearing self)
               /\ longitude q
                  = center_lon (FlybyTrackGenerator.base self)
                    + (- FlybyTrackGenerator.approach_distance self
                       + (FlybyTrackGenerator.approach_distance self
                          + FlybyTrackGenerator.exit_distance self)
                         * (IZR i / IZR (n - 1)))
                      * sin (FlybyTrackGenerator.bearing self)) _ _ _ j p Hp).
  refine (mapM_Forall2 _ _ _ _ _ _ _ H).
  clear. intros i g0 y g1 _ Hbody.
  apply lift_bind_Ok in Hbody. destruct Hbody as (w & Hw & Hbody).
  apply truediv_inv in Hw. destruct Hw as (_ & ->).
  apply tail_inv in Hbody. destruct Hbody as (Hlon & Hlat & _).
  split; assumption.
Qed.

(** X16: for [num_points >= 2] the fly-by returns [num_points] points on
    the straight line through the center along the bearing (measured from
    north, towards east): point [i] lies at the signed offset
    [-approach_distance + (approach_distance + exit_distance) * i / (num_points - 1)]
    from the center, so the first point is [approach_distance] before the
    center, the last one [exit_distance] beyond it, and consecutive points
    are equally spaced. *)
Theorem flyby_generate_on_line :
  forall (self : FlybyTrackGenerator.t) (num_points : Z)
    (interval_seconds : R) (g : RNG),
    (2 <= num_points)%Z ->
    let c_lat := center_lat (FlybyTrackGenerator.base self) in
    let c_lon := center_lon (FlybyTrackGenerator.base self) in
    let approach := FlybyTrackGenerator.approach_distance self in
    let exit := FlybyTrackGenerator.exit_distance self in
    let b := FlybyTrackGenerator.bearing self in
    let offset (i : Z) :=
      - approach + (approach + exit) * (IZR i / IZR (num_points - 1)) in
    exists (pts : list TrackPoint) (g' : RNG),
      FlybyTrackGenerator.generate self num_points interval_seconds g
      = Ok (pts, g')
      /\ Z.of_nat (List.length pts) = num_points
      /\ (forall i : Z,
             (0 <= i < num_points)%Z ->
             exists p : TrackPoint,
               nth_error pts (Z.to_nat i) = Some p
               /\ latitude p = c_lat + offset i * cos b
               /\ longitude p = c_lon + offset i * sin b
               /\ offset (i + 1)%Z - offset i
                  = (approach + exit) / IZR (num_points - 1))
      /\ offset 0%Z = - approach
      /\ offset (num_points - 1)%Z = exit.
Proof.
  intros self n iv g Hn c_lat c_lon approach exit b offset.
  assert (Hn1 : IZR (n - 1) <> 0) by (apply not_0_IZR; lia).
  destruct (flyby_generate_total self n iv g ltac:(lia))
    as (pts & g' & H & Hlen).
  exists pts, g'. split; [ exact H | ]. split; [ lia | ].
  split; [ | split ].
  - intros i Hi.
    destruct (nth_error_of_length pts (Z.to_nat i) ltac:(lia)) as (p & Ep).
    exists p. split; [ exact Ep | ].
    destruct (flyby_generate_positions _ _ _ _ _ _ H _ _ Ep)
      as (Hlat & Hlon).
    rewrite Z2Nat.id in Hlat, Hlon by lia.
    split; [ exact Hlat | ]. split; [ exact Hlon | ].
    unfold offset. rewrite plus_IZR. field. exact Hn1.
  - unfold offset. field. exact Hn1.
  - unfold offset. field. exact Hn1.
Qed.

Lemma flyby_generate_on_line_witness :
  exists (pts : list TrackPoint) (g' : RNG),
    FlybyTrackGenerator.generate Samples.flyby_gen 10 10 Samples.rng0
    = Ok (pts, g')
    /\ Z.of_nat (List.length pts) = 10%Z.
Proof.
  destruct (flyby_generate_on_line Samples.flyby_gen 10 10 Samples.rng0
              ltac:(lia)) as (pts & g' & H & Hlen & _).
  exists pts, g'. split; [ exact H | exact Hlen ].
Defined.

Lemma spiral_generate_positions (self : SpiralTrackGenerator.t)
  (n : Z) (iv : R) (g g' : RNG) (pts : list TrackPoint) :
  SpiralTrackGenerator.generate self n iv g = Ok (pts, g') ->
  forall (j : nat) (p : TrackPoint),
    nth_error pts j = Some p ->
    let angle :=
      2 * PI * SpiralTrackGenerator.rotations self
      * (IZR (Z.of_nat j) / IZR n) in
    let radius :=
      SpiralTrackGenerator.initial_radius self
      + SpiralTrackGenerator.radius_increment self * IZR (Z.of_nat j) in
    latitude p
    = center_lat (SpiralTrackGenerator.base self) + radius * cos angle
    /\ longitude p
       = center_lon (SpiralTrackGenerator.base self) + radius * sin angle.
Proof.
  unfold SpiralTrackGenerator.generate. intros H j p Hp. cbv zeta.
  refine (Forall2_range_nth
            (fun i q =>
               latitude q
               = center_lat (SpiralTrackGenerator.base self)
                 + (SpiralTrackGenerator.initial_radius self
                    + SpiralTrackGenerator.radius_increment self * IZR i)
                   * cos (2 * PI * SpiralTrackGenerator.rotations self
                          * (IZR i / IZR n))
               /\ longitude q
                  = center_lon (SpiralTrackGenerator.base self)
                    + (SpiralTrackGenerator.initial_radius self
                       + SpiralTrackGenerator.radius_increment self * IZR i)
                      * sin (2 * PI * SpiralTrackGenerator.rotations self
                             * (IZR i / IZR n))) _ _ _ j p Hp).
  refine (mapM_Forall2 _ _ _ _ _ _ _ H).
  clear. intros i g0 y g1 _ Hbody.
  apply lift_bind_Ok in Hbody. destruct Hbody as (w & Hw & Hbody).
  apply truediv_inv in Hw. destruct Hw as (_ & ->).
  apply tail_inv in Hbody. destruct Hbody as (Hlon & Hlat & _).
  split; assumption.
Qed.

(** X17: for [num_points >= 1] the spiral returns [num_points] points;
    point [i] lies at the angle [2 pi * rotations * i / num_points] and at
    the distance [|initial_radius + radius_increment * i|] from the center
    (in degree coordinates): the radius grows by [radius_increment] from
    each point to the next, and the first point is [initial_radius] due
    north of the center. *)
Theorem spiral_generate_radius_grows :
  forall (self : SpiralTrackGenerator.t) (num_points : Z)
    (interval_seconds : R) (g : RNG),
    (1 <= num_points)%Z ->
    let c_lat := center_lat (SpiralTrackGenerator.base self) in
    let c_lon := center_lon (SpiralTrackGenerator.base self) in
    let radius (i : Z) :=
      SpiralTrackGenerator.initial_radius self
      + SpiralTrackGenerator.radius_increment self * IZR i in
    let angle (i : Z) :=
      2 * PI * SpiralTrackGenerator.rotations self
      * (IZR i / IZR num_points) in
    exists (pts : list TrackPoint) (g' : RNG),
      SpiralTrackGenerator.generate self num_points interval_seconds g
      = Ok (pts, g')
      /\ Z.of_nat (List.length pts) = num_points
      /\ (forall i : Z,
             (0 <= i < num_points)%Z ->
             exists p : TrackPoint,
               nth_error pts (Z.to_nat i) = Some p
               /\ latitude p = c_lat + radius i * cos (angle i)
               /\ longitude p = c_lon + radius i * sin (angle i)
               /\ sqrt ((latitude p - c_lat) ^ 2 + (longitude p - c_lon) ^ 2)
                  = Rabs (radius i)
               /\ radius (i + 1)%Z - radius i
                  = SpiralTrackGenerator.radius_increment self)
      /\ (exists p : TrackPoint,
             nth_error pts 0 = Some p
             /\ latitude p
                = c_lat + SpiralTrackGenerator.initial_radius self
             /\ longitude p = c_lon).
Proof.
  intros self n iv g Hn c_lat c_lon radius angle.
  destruct (spiral_generate_total self n iv g) as (pts & g' & H & Hlen).
  exists pts, g'. split; [ exact H | ]. split; [ lia | ].
  assert (Hpt : forall i : Z,
             (0 <= i < n)%Z ->
             exists p : TrackPoint,
               nth_error pts (Z.to_nat i) = Some p
               /\ latitude p = c_lat + radius i * cos (angle i)
               /\ longitude p = c_lon + radius i * sin (angle i)).
  { intros i Hi.
    destruct (nth_error_of_length pts (Z.to_nat i) ltac:(lia)) as (p & Ep).
    exists p. split; [ exact Ep | ].
    destruct (spiral_generate_positions _ _ _ _ _ _ H _ _ Ep)
      as (Hlat & Hlon).
    rewrite Z2Nat.id in Hlat, Hlon by lia.
    split; assumption. }
  split.
  - intros i Hi. destruct (Hpt i Hi) as (p & Ep & Hlat & Hlon).
    exists p. split; [ exact Ep | ]. split; [ exact Hlat | ].
    split; [ exact Hlon | ]. split.
    + rewrite Hlat, Hlon.
      pose proof (sin_cos_sqr (angle i)) as Hsc.
      replace ((c_lat + radius i * cos (angle i) - c_lat) ^ 2
               + (c_lon + radius i * sin (angle i) - c_lon) ^ 2)
        with ((radius i)² * (sin (angle i) * sin (angle i)
                             + cos (angle i) * cos (angle i)))
        by (unfold Rsqr; ring).
      rewrite Hsc, Rmult_1_r. apply sqrt_Rsqr_abs.
    + unfold radius. rewrite plus_IZR. ring.
  - destruct (Hpt 0%Z ltac:(lia)) as (p & Ep & Hlat & Hlon).
    exists p. split; [ exact Ep | ].
    unfold angle, radius in Hlat, Hlon.
    replace (0 / IZR n) with 0 in Hlat, Hlon by (unfold Rdiv; ring).
    rewrite !Rmult_0_r, Rplus_0_r in Hlat, Hlon.
    rewrite cos_0 in Hlat. rewrite sin_0 in Hlon.
    split; [ rewrite Hlat; ring | rewrite Hlon; ring ].
Qed.

Lemma spiral_generate_radius_grows_witness :
  exists (pts : list TrackPoint) (g' : RNG),
    SpiralTrackGenerator.generate
      (SpiralTrackGenerator.init 0 33.75 (-118.25) 1000 0.002 0.001 3
         default_kwargs)
      10 10 Samples.rng0 = Ok (pts, g')
    /\ Z.of_nat (List.length pts) = 10%Z.
Proof.
  destruct (spiral_generate_radius_grows
              (SpiralTrackGenerator.init 0 33.75 (-118.25) 1000 0.002 0.001
                 3 default_kwargs)
              10 10 Samples.rng0 ltac:(lia))
    as (pts & g' & H & Hlen & _).
  exists pts, g'. split; [ exact H | exact Hlen ].
Defined.

Lemma zigzag_generate_positions (self : ZigzagTrackGenerator.t)
  (n : Z) (iv : R) (g g' : RNG) (pts : list TrackPoint) :
  ZigzagTrackGenerator.generate self n iv g = Ok (pts, g') ->
  forall (j : nat) (p : TrackPoint),
    nth_error pts j = Some p ->
    let fraction := zigzag_fraction n (Z.of_nat j) in
    let main := 0.01 * fraction in
    let lateral :=
      ZigzagTrackGenerator.amplitude self
      * sin (2 * PI * ZigzagTrackGenerator.frequency self * fraction) in
    let d := ZigzagTrackGenerator.direction self in
    latitude p
    = center_lat (ZigzagTrackGenerator.base self)
      + main * cos d + lateral * cos (d + PI / 2)
    /\ longitude p
       = center_lon (ZigzagTrackGenerator.base self)
         + main * sin d + lateral * sin (d + PI / 2).
Proof.
  unfold ZigzagTrackGenerator.generate. intros H j p Hp. cbv zeta.
  refine (Forall2_range_nth
            (fun i q =>
               latitude q
               = center_lat (ZigzagTrackGenerator.base self)
                 + 0.01 * zigzag_fraction n i
                   * cos (ZigzagTrackGenerator.direction self)
                 + ZigzagTrackGenerator.amplitude self
                   * sin (2 * PI * ZigzagTrackGenerator.frequency self
                          * zigzag_fraction n i)
                   * cos (ZigzagTrackGenerator.direction self + PI / 2)
               /\ longitude q
                  = center_lon (ZigzagTrackGenerator.base self)
                    + 0.01 * zigzag_fraction n i
                      * sin (ZigzagTrackGenerator.direction self)
                    + ZigzagTrackGenerator.amplitude self
                      * sin (2 * PI * ZigzagTrackGenerator.frequency self
                             * zigzag_fraction n i)
                      * sin (ZigzagTrackGenerator.direction self + PI / 2))
            _ _ _ j p Hp).
  refine (mapM_Forall2 _ _ _ _ _ _ _ H).
  clear. intros i g0 y g1 _ Hbody. cbv zeta in Hbody.
  unfold zigzag_fraction.
  destruct (1 <? n)%Z.
  - apply lift_bind_Ok in Hbody. destruct Hbody as (w & Hw & Hbody).
    apply truediv_inv in Hw. destruct Hw as (_ & ->).
    apply tail_inv in Hbody. destruct Hbody as (Hlon & Hlat & _).
    split; assumption.
  - rewrite ret_bind in Hbody.
    apply tail_inv in Hbody. destruct Hbody as (Hlon & Hlat & _).
    split; assumption.
Qed.

Lemma zigzag_fraction_unit (n i : Z) :
  (0 <= i < n)%Z -> 0 <= zigzag_fraction n i <= 1.
Proof.
  intros Hi. unfold zigzag_fraction.
  destruct (Z.ltb_spec 1 n) as [ Hn | Hn ]; [ | lra ].
  assert (H1 : 0 < IZR (n - 1)) by (apply IZR_lt; lia).
  assert (H2 : 0 <= IZR i) by (apply IZR_le; lia).
  assert (H3 : IZR i <= IZR (n - 1)) by (apply IZR_le; lia).
  split.
  - apply div_nonneg; assumption.
  - apply Rmult_le_reg_r with (IZR (n - 1)); [ exact H1 | ].
    replace (IZR i / IZR (n - 1) * IZR (n - 1)) with (IZR i)
      by (field; lra).
    lra.
Qed.

(** X18: for [num_points >= 1] the zigzag returns [num_points] points.
    Resolved along the heading and across it, point [i] has made the
    progress [0.01 * f_i] along the heading, with [f_i = i / (num_points - 1)]
    (and 0 for a single point), and stands
    [amplitude * sin (2 pi * frequency * f_i)] to the side; so the progress
    stays within [[0, 0.01]] degrees and the deviation within the
    amplitude, and the track starts at the center. *)
Theorem zigzag_generate_along_and_across :
  forall (self : ZigzagTrackGenerator.t) (num_points : Z)
    (interval_seconds : R) (g : RNG),
    (1 <= num_points)%Z ->
    let c_lat := center_lat (ZigzagTrackGenerator.base self) in
    let c_lon := center_lon (ZigzagTrackGenerator.base self) in
    let d := ZigzagTrackGenerator.direction self in
    let amplitude := ZigzagTrackGenerator.amplitude self in
    let along (p : TrackPoint) :=
      (latitude p - c_lat) * cos d + (longitude p - c_lon) * sin d in
    let across (p : TrackPoint) :=
      (longitude p - c_lon) * cos d - (latitude p - c_lat) * sin d in
    exists (pts : list TrackPoint) (g' : RNG),
      ZigzagTrackGenerator.generate self num_points interval_seconds g
      = Ok (pts, g')
      /\ Z.of_nat (List.length pts) = num_points
      /\ (forall i : Z,
             (0 <= i < num_points)%Z ->
             exists p : TrackPoint,
               nth_error pts (Z.to_nat i) = Some p
               /\ along p = 0.01 * zigzag_fraction num_points i
               /\ across p
                  = amplitude
                    * sin (2 * PI * ZigzagTrackGenerator.frequency self
                           * zigzag_fraction num_points i)
               /\ 0 <= along p <= 0.01
               /\ Rabs (across p) <= Rabs amplitude)
      /\ (exists p : TrackPoint,
             nth_error pts 0 = Some p
             /\ latitude p = c_lat /\ longitude p = c_lon).
Proof.
  intros self n iv g Hn c_lat c_lon d amplitude along across.
  destruct (zigzag_generate_total self n iv g) as (pts & g' & H & Hlen).
  exists pts, g'. split; [ exact H | ]. split; [ lia | ].
  assert (Hpt : forall i : Z,
             (0 <= i < n)%Z ->
             exists p : TrackPoint,
               nth_error pts (Z.to_nat i) = Some p
               /\ latitude p
                  = c_lat + 0.01 * zigzag_fraction n i * cos d
                    + amplitude
                      * sin (2 * PI * ZigzagTrackGenerator.frequency self
                             * zigzag_fraction n i) * - sin d
               /\ longitude p
                  = c_lon + 0.01 * zigzag_fraction n i * sin d
                    + amplitude
                      * sin (2 * PI * ZigzagTrackGenerator.frequency self
                             * zigzag_fraction n i) * cos d).
  { intros i Hi.
    destruct (nth_error_of_length pts (Z.to_nat i) ltac:(lia)) as (p & Ep).
    exists p. split; [ exact Ep | ].
    destruct (zigzag_generate_positions _ _ _ _ _ _ H _ _ Ep)
      as (Hlat & Hlon).
    rewrite Z2Nat.id in Hlat, Hlon by lia.
    fold d in Hlat, Hlon.
    rewrite cos_plus, cos_PI2, sin_PI2 in Hlat.
    rewrite sin_plus, cos_PI2, sin_PI2 in Hlon.
    split.
    - rewrite Hlat. fold c_lat amplitude. ring.
    - rewrite Hlon. fold c_lon amplitude. ring. }
  split.
  - intros i Hi. destruct (Hpt i Hi) as (p & Ep & Hlat & Hlon).
    exists p. split; [ exact Ep | ].
    pose proof (sin_cos_sqr d) as Hsc.
    pose proof (zigzag_fraction_unit n i Hi) as Hf.
    set (f := zigzag_fraction n i) in *.
    set (w := sin (2 * PI * ZigzagTrackGenerator.frequency self * f)) in *.
    assert (Ealong : along p = 0.01 * f).
    { unfold along. rewrite Hlat, Hlon.
      transitivity (0.01 * f * (sin d * sin d + cos d * cos d)); [ ring | ].
      rewrite Hsc. ring. }
    assert (Eacross : across p = amplitude * w).
    { unfold across. rewrite Hlat, Hlon.
      transitivity (amplitude * w * (sin d * sin d + cos d * cos d));
        [ ring | ].
      rewrite Hsc. ring. }
    split; [ exact Ealong | ]. split; [ exact Eacross | ].
    split; [ rewrite Ealong; lra | ].
    rewrite Eacross, Rabs_mult.
    pose proof (SIN_bound (2 * PI * ZigzagTrackGenerator.frequency self * f))
      as Hw. fold w in Hw.
    assert (Rabs w <= 1) by (apply Rabs_le; lra).
    pose proof (Rabs_pos amplitude). nra.
  - destruct (Hpt 0%Z ltac:(lia)) as (p & Ep & Hlat & Hlon).
    exists p. split; [ exact Ep | ].
    assert (E0 : zigzag_fraction n 0 = 0).
    { unfold zigzag_fraction. destruct (1 <? n)%Z; [ | reflexivity ].
      unfold Rdiv. ring. }
    rewrite E0 in Hlat, Hlon.
    rewrite !Rmult_0_r, sin_0 in Hlat, Hlon.
    split; [ rewrite Hlat; ring | rewrite Hlon; ring ].
Qed.

Lemma zigzag_generate_along_and_across_witness :
  exists (pts : list TrackPoint) (g' : RNG),
    ZigzagTrackGenerator.generate Samples.zigzag_gen 10 10 Samples.rng0
    = Ok (pts, g')
    /\ Z.of_nat (List.length pts) = 10%Z.
Proof.
  destruct (zigzag_generate_along_and_across Samples.zigzag_gen 10 10
              Samples.rng0 ltac:(lia)) as (pts & g' & H & Hlen & _).
  exists pts, g'. split; [ exact H | exact Hlen ].
Defined.

(** *** The square and the rectangle *)

Lemma every_nth_In {A} (l : list A) :
  forall (skip step : nat) (x : A), In x (every_nth skip step l) -> In x l.
Proof.
  induction l as [ | a l IH ]; intros skip step x H; [ exact H | ].
  destruct skip as [ | k ]; simpl in H.
  - destruct H as [ -> | H ]; [ left; reflexivity | ].
    right. exact (IH _ _ _ H).
  - right. exact (IH _ _ _ H).
Qed.

Lemma every_nth_all {A} (l : list A) : every_nth 0 1 l = l.
Proof.
  induction l as [ | a l IH ]; [ reflexivity | ].
  simpl. rewrite IH. reflexivity.
Qed.

Lemma enumerate_cons {A} (x : A) (l : list A) :
  exists rest : list (Z * A), enumerate (x :: l) = (0%Z, x) :: rest.
Proof.
  unfold enumerate, range. rewrite Nat2Z.id. simpl.
  eexists. reflexivity.
Qed.

Lemma Forall2_Forall_In {A B} (Q : A -> B -> Prop) (P : B -> Prop)
  (l : list A) (ys : list B) :
  Forall2 Q l ys ->
  (forall (x : A) (y : B), In x l -> Q x y -> P y) ->
  Forall P ys.
Proof.
  induction 1 as [ | x y l ys Hq F IH ]; intros HP; constructor.
  - apply (HP x y); [ left; reflexivity | exact Hq ].
  - apply IH. intros x' y' Hin. apply HP. right. exact Hin.
Qed.

(** The sampling loop visits positions of the path, the first one first. *)
Lemma sample_path_positions (self : BaseTrackGenerator.t)
  (path : list (R * R)) (n : Z) (iv : R) (g g' : RNG)
  (pts : list TrackPoint) :
  sample_path self path n iv g = Ok (pts, g') ->
  Forall (fun p => In (latitude p, longitude p) path) pts
  /\ (forall (x : R * R) (rest : list (R * R)),
         path = x :: rest ->
         exists (p : TrackPoint) (tl : list TrackPoint),
           pts = p :: tl /\ (latitude p, longitude p) = x).
Proof.
  unfold sample_path. intros H.
  apply lift_bind_Ok in H. destruct H as (q & _ & H).
  assert (F : Forall2 (fun (ip : Z * (R * R)) y =>
                         (latitude y, longitude y) = snd ip)
                (enumerate (slice_step path (Z.max 1 q))) pts).
  { refine (mapM_Forall2 _ _ _ _ _ _ _ H).
    clear. intros [i [lat lon]] g0 y g1 _ Hbody.
    apply tail_inv in Hbody. destruct Hbody as (Hlon & Hlat & _).
    cbn [snd]. rewrite Hlon, Hlat. reflexivity. }
  split.
  - refine (Forall2_Forall_In _ _ _ _ F _).
    intros [i x] y Hin Hq. cbn [snd] in Hq. rewrite Hq.
    unfold enumerate in Hin. apply in_combine_r in Hin.
    unfold slice_step in Hin. exact (every_nth_In _ _ _ _ Hin).
  - intros x rest ->.
    unfold slice_step in F. cbn [every_nth] in F.
    destruct (enumerate_cons x
                (every_nth (Z.to_nat (Z.max 1 q) - 1)
                   (Z.to_nat (Z.max 1 q)) rest)) as (tl0 & E).
    rewrite E in F. inversion F as [ | a p l tl Hq F' ]; subst.
    exists p, tl. split; [ reflexivity | exact Hq ].
Qed.

Lemma perimeter_count_of_stride (n : Z) :
  n <> 0%Z ->
  List.length (every_nth 0 (Z.to_nat (Z.max 1 (8 / n))) (repeat tt 8))
  = perimeter_count n.
Proof.
  intros Hn. unfold perimeter_count.
  destruct (Z.ltb_spec n 0) as [ Hneg | Hpos ].
  - assert (Hq : (8 / n < 0)%Z).
    { pose proof (Z.div_mod 8 n Hn) as Hdm.
      pose proof (Z.mod_neg_bound 8 n Hneg) as Hm. nia. }
    replace (Z.max 1 (8 / n)) with 1%Z by lia. reflexivity.
  - destruct (stride_cases n ltac:(lia))
      as [ [-> E] | [ [-> E] | [ [[-> | ->] E] | [H5 E] ] ] ];
      unfold stride in E; rewrite E; try reflexivity.
    destruct (Z.eqb_spec n 1); [ lia | ].
    destruct (Z.eqb_spec n 2); [ lia | ].
    destruct (Z.leb_spec n 4); [ lia | ]. reflexivity.
Qed.

(** X19: the square and the rectangle raise [ZeroDivisionError] for a
    request of zero points; for every other request they return a track,
    of 1, 2, 4, 4 points for a request of 1, 2, 3, 4 and of all 8 points
    of the perimeter path for a request of 5 or more, and also for a
    negative request. *)
Theorem square_rectangle_point_count :
  forall (sq : SquareTrackGenerator.t) (rc : RectangleTrackGenerator.t)
    (num_points : Z) (interval_seconds : R) (g : RNG),
    (num_points = 0%Z ->
     SquareTrackGenerator.generate sq num_points interval_seconds g
     = Raise ZeroDivisionError
     /\ RectangleTrackGenerator.generate rc num_points interval_seconds g
        = Raise ZeroDivisionError)
    /\ (num_points <> 0%Z ->
        exists (pts1 pts2 : list TrackPoint) (g1 g2 : RNG),
          SquareTrackGenerator.generate sq num_points interval_seconds g
          = Ok (pts1, g1)
          /\ RectangleTrackGenerator.generate rc num_points interval_seconds g
             = Ok (pts2, g2)
          /\ List.length pts1 = perimeter_count num_points
          /\ List.length pts2 = perimeter_count num_points).
Proof.
  intros sq rc n iv g. split.
  - intros ->. split; reflexivity.
  - intros Hn.
    destruct (@sample_path_Ok (SquareTrackGenerator.base sq)
                (perimeter_path (SquareTrackGenerator.corners sq))
                n iv g Hn) as (pts1 & g1 & H1 & Hlen1).
    destruct (@sample_path_Ok (RectangleTrackGenerator.base rc)
                (perimeter_path (RectangleTrackGenerator.corners rc))
                n iv g Hn) as (pts2 & g2 & H2 & Hlen2).
    exists pts1, pts2, g1, g2.
    split; [ exact H1 | ]. split; [ exact H2 | ].
    unfold slice_step in Hlen1, Hlen2.
    rewrite every_nth_length in Hlen1, Hlen2.
    rewrite square_path_length in Hlen1.
    rewrite rectangle_path_length in Hlen2.
    change (Z.of_nat 8) with 8%Z in Hlen1, Hlen2.
    rewrite perimeter_count_of_stride in Hlen1, Hlen2 by exact Hn.
    split; assumption.
Qed.

Ltac rabs_of_shift :=
  match goal with
  | |- Rabs ?e = Rabs ?h =>
      first [ replace e with h by field; reflexivity
            | replace e with (- h) by field; apply Rabs_Ropp ]
  | |- Rabs ?e <= Rabs ?h =>
      first [ replace e with h by field; apply Rle_refl
            | replace e with (- h) by field; rewrite Rabs_Ropp;
              apply Rle_refl
            | replace e with 0 by field; rewrite Rabs_R0; apply Rabs_pos ]
  end.

Lemma perimeter_on_rectangle (c_lat c_lon half_lat half_lon : R)
  (pos : R * R) :
  In pos
    (perimeter_path
       [ (c_lat - half_lat, c_lon - half_lon);
         (c_lat - half_lat, c_lon + half_lon);
         (c_lat + half_lat, c_lon + half_lon);
         (c_lat + half_lat, c_lon - half_lon) ]) ->
  on_rectangle c_lat c_lon half_lat half_lon pos.
Proof.
  intros H. unfold perimeter_path in H. cbn in H.
  unfold on_rectangle.
  destruct H as [ <- | [ <- | [ <- | [ <- | [ <- | [ <- | [ <- | [ <- | [] ]
    ] ] ] ] ] ] ]; cbn [fst snd];
    first [ left; split; rabs_of_shift | right; split; rabs_of_shift ].
Qed.

(** X20: for a request other than zero, every point of the square lies on
    the boundary of the square of side [side_length] around the center,
    every point of the rectangle on the boundary of the rectangle with
    [height] in latitude and [width] in longitude, and both tracks start
    at the corner [(center_lat - half, center_lon - half)]. *)
Theorem square_rectangle_points_on_perimeter :
  forall (sq : SquareTrackGenerator.t) (rc : RectangleTrackGenerator.t)
    (num_points : Z) (interval_seconds : R) (g : RNG),
    num_points <> 0%Z ->
    (exists (p : TrackPoint) (tl : list TrackPoint) (g' : RNG),
        SquareTrackGenerator.generate sq num_points interval_seconds g
        = Ok (p :: tl, g')
        /\ latitude p
           = center_lat (SquareTrackGenerator.base sq)
             - SquareTrackGenerator.side_length sq / 2
        /\ longitude p
           = center_lon (SquareTrackGenerator.base sq)
             - SquareTrackGenerator.side_length sq / 2
        /\ Forall (fun q =>
                     on_rectangle
                       (center_lat (SquareTrackGenerator.base sq))
                       (center_lon (SquareTrackGenerator.base sq))
                       (SquareTrackGenerator.side_length sq / 2)
                       (SquareTrackGenerator.side_length sq / 2)
                       (latitude q, longitude q)) (p :: tl))
    /\ (exists (p : TrackPoint) (tl : list TrackPoint) (g' : RNG),
           RectangleTrackGenerator.generate rc num_points interval_seconds g
           = Ok (p :: tl, g')
           /\ latitude p
              = center_lat (RectangleTrackGenerator.base rc)
                - RectangleTrackGenerator.height rc / 2
           /\ longitude p
              = center_lon (RectangleTrackGenerator.base rc)
                - RectangleTrackGenerator.width rc / 2
           /\ Forall (fun q =>
                        on_rectangle
                          (center_lat (RectangleTrackGenerator.base rc))
                          (center_lon (RectangleTrackGenerator.base rc))
                          (RectangleTrackGenerator.height rc / 2)
                          (RectangleTrackGenerator.width rc / 2)
                          (latitude q, longitude q)) (p :: tl)).
Proof.
  intros sq rc n iv g Hn. split.
  - destruct (@sample_path_Ok (SquareTrackGenerator.base sq)
                (perimeter_path (SquareTrackGenerator.corners sq))
                n iv g Hn) as (pts & g' & H & _).
    destruct (sample_path_positions _ _ _ _ _ _ _ H) as (Hall & Hhead).
    destruct (Hhead _ _ eq_refl) as (p & tl & -> & Hp).
    injection Hp as Hlat Hlon.
    exists p, tl, g'. split; [ exact H | ].
    split; [ exact Hlat | ]. split; [ exact Hlon | ].
    revert Hall. apply Forall_impl. intros q Hq.
    apply perimeter_on_rectangle. exact Hq.
  - destruct (@sample_path_Ok (RectangleTrackGenerator.base rc)
                (perimeter_path (RectangleTrackGenerator.corners rc))
                n iv g Hn) as (pts & g' & H & _).
    destruct (sample_path_positions _ _ _ _ _ _ _ H) as (Hall & Hhead).
    destruct (Hhead _ _ eq_refl) as (p & tl & -> & Hp).
    injection Hp as Hlat Hlon.
    exists p, tl, g'. split; [ exact H | ].
    split; [ exact Hlat | ]. split; [ exact Hlon | ].
    revert Hall. apply Forall_impl. intros q Hq.
    apply perimeter_on_rectangle. exact Hq.
Qed.

Lemma square_rectangle_points_on_perimeter_witness :
  exists (p : TrackPoint) (tl : list TrackPoint) (g' : RNG),
    SquareTrackGenerator.generate
      (SquareTrackGenerator.init 0 33.75 (-118.25) 1000 0.02 default_kwargs)
      12 10 Samples.rng0 = Ok (p :: tl, g')
    /\ latitude p = 33.75 - 0.02 / 2.
Proof.
  destruct (square_rectangle_points_on_perimeter
              (SquareTrackGenerator.init 0 33.75 (-118.25) 1000 0.02
                 default_kwargs)
              (RectangleTrackGenerator.init 0 33.75 (-118.25) 1000 0.03 0.01
                 default_kwargs)
              12 10 Samples.rng0 ltac:(lia))
    as ((p & tl & g' & H & Hlat & _) & _).
  exists p, tl, g'. split; [ exact H | exact Hlat ].
Defined.

(** ** artificial_tracks.py: fly-along mode *)

Lemma range_from_length (a b : Z) :
  List.length (range_from a b) = Z.to_nat (b - a).
Proof. unfold range_from. rewrite length_map, length_seq. reflexivity. Qed.

Lemma range_from_nth_error (a b : Z) (j : nat) :
  (j < Z.to_nat (b - a))%nat ->
  nth_error (range_from a b) j = Some (a + Z.of_nat j)%Z.
Proof.
  intros Hj. unfold range_from.
  rewrite nth_error_map, nth_error_seq.
  destruct (Nat.ltb_spec j (Z.to_nat (b - a))); [ reflexivity | lia ].
Qed.

Lemma well_formed_sample_of_point (p : TrackPoint) :
  well_formed (sample_of_point p).
Proof. repeat split; discriminate. Qed.

Lemma reference_samples_generated (pts : list TrackPoint) :
  Forall well_formed (reference_samples (Generated pts)).
Proof.
  simpl. apply Forall_forall. intros pt Hin.
  apply in_map_iff in Hin. destruct Hin as (p & <- & _).
  apply well_formed_sample_of_point.
Qed.

(** The loop over the relative tracks, for a reference whose samples all
    carry their coordinates. *)
Lemma fly_along_others (self : ArtificialTrackGenerator.t) (now : R)
  (ownship_track : Track) (g : RNG) :
  Forall well_formed (reference_samples ownship_track) ->
  exists (others : list Track) (g' : RNG),
    mapM (fun i : Z =>
      let track_start_time :=
        now + IZR i * ArtificialTrackGenerator.time_delay self in
      let relative_generator :=
        OwnshipRelativeTrackGenerator.init now
          (reference_samples ownship_track)
          (ArtificialTrackGenerator.separation_distance self * 111000)
          "ahead" 0
          (mkKwargs None None
             (ArtificialTrackGenerator.initial_track_id self + i)
             "ARTIFICIAL" "Surveillance" "MSL") in
      let relative_generator :=
        OwnshipRelativeTrackGenerator.mk
          (set_start_time
             (OwnshipRelativeTrackGenerator.base relative_generator)
             track_start_time)
          (OwnshipRelativeTrackGenerator.ownship_track relative_generator)
          (OwnshipRelativeTrackGenerator.separation_distance
             relative_generator)
          (OwnshipRelativeTrackGenerator.relative_direction
             relative_generator)
          (OwnshipRelativeTrackGenerator.alt_offset relative_generator) in
      points <- OwnshipRelativeTrackGenerator.generate relative_generator ;;
      ret (Generated points))
      (range_from 1 (ArtificialTrackGenerator.num_tracks self)) g
    = Ok (others, g')
    /\ relative_tracks_follow (reference_samples ownship_track)
         (ArtificialTrackGenerator.separation_distance self)
         (ArtificialTrackGenerator.time_delay self) now
         (ArtificialTrackGenerator.initial_track_id self)
         (ArtificialTrackGenerator.num_tracks self) others.
Proof.
  intros Hwf.
  set (samples := reference_samples ownship_track) in *.
  set (nt := ArtificialTrackGenerator.num_tracks self).
  match goal with
  | |- exists others g', mapM ?f ?l g = _ /\ _ => set (body := f)
  end.
  assert (Hbody : forall (i : Z) (g0 : RNG),
             exists (pts : list TrackPoint) (g1 : RNG),
               body i g0 = Ok (Generated pts, g1)
               /\ List.length pts = List.length samples
               /\ forall (j : nat) (pt : RefSample),
                   nth_error samples j = Some pt ->
                   exists p : TrackPoint,
                     nth_error pts j = Some p
                     /\ follows samples
                          (ArtificialTrackGenerator.separation_distance self)
                          (ArtificialTrackGenerator.time_delay self) now
                          (ArtificialTrackGenerator.initial_track_id self)
                          i j pt p).
  { intros i g0. unfold body. cbv zeta.
    match goal with
    | |- context [ OwnshipRelativeTrackGenerator.generate ?rg ] =>
        destruct (ownship_relative_generate_points rg g0 Hwf)
          as (pts & g1 & Hgen & Hlen & Hpts)
    end.
    exists pts, g1. split; [ | split; [ exact Hlen | ] ].
    - rewrite (bind_step _ _ _ _ _ Hgen). reflexivity.
    - intros j pt Hj. destruct (Hpts j pt Hj) as (p & Hp & [Hpos Halt Hts Hid]).
      exists p. split; [ exact Hp | ].
      cbn in Hpos, Halt, Hts, Hid.
      unfold follows. split; [ exact Hid | ].
      split; [ rewrite Halt; ring | ].
      split; [ rewrite Hts; ring | ].
      exact Hpos. }
  destruct (mapM_total body (range_from 1 nt)) with (g := g)
    as (others & g' & Hloop).
  { intros i g0 _. destruct (Hbody i g0) as (pts & g1 & H & _).
    exists (Generated pts), g1. exact H. }
  exists others, g'. split; [ exact Hloop | ].
  pose proof (mapM_length _ _ _ _ _ Hloop) as Hlen.
  rewrite range_from_length in Hlen.
  split; [ exact Hlen | ].
  intros k Hk.
  assert (F : Forall2
                (fun (i : Z) (tr : Track) =>
                   exists g0 g1 : RNG, body i g0 = Ok (tr, g1))
                (range_from 1 nt) others).
  { refine (mapM_Forall2 _ _ _ _ _ _ _ Hloop).
    intros i g0 tr g1 _ Hb. exists g0, g1. exact Hb. }
  destruct (nth_error_of_length others (Z.to_nat (k - 1)) ltac:(lia))
    as (tr & Etr).
  pose proof (range_from_nth_error 1 nt (Z.to_nat (k - 1)) ltac:(lia)) as Ek.
  replace (1 + Z.of_nat (Z.to_nat (k - 1)))%Z with k in Ek by lia.
  destruct (Forall2_nth_error _ _ _ F _ _ _ Ek Etr) as (g0 & g1 & Hb).
  destruct (Hbody k g0) as (pts & g2 & Hb' & Hlen' & Hpts).
  rewrite Hb' in Hb. injection Hb as <- _.
  exists pts. split; [ exact Etr | ]. split; [ exact Hlen' | exact Hpts ].
Qed.

(** The same loop stops at its first track when a sample lacks a
    coordinate. *)
Lemma fly_along_others_TypeError (self : ArtificialTrackGenerator.t)
  (now : R) (ownship_track : Track) (g : RNG) :
  ~ Forall well_formed (reference_samples ownship_track) ->
  (2 <= ArtificialTrackGenerator.num_tracks self)%Z ->
  mapM (fun i : Z =>
    let track_start_time :=
      now + IZR i * ArtificialTrackGenerator.time_delay self in
    let relative_generator :=
      OwnshipRelativeTrackGenerator.init now
        (reference_samples ownship_track)
        (ArtificialTrackGenerator.separation_distance self * 111000)
        "ahead" 0
        (mkKwargs None None
           (ArtificialTrackGenerator.initial_track_id self + i)
           "ARTIFICIAL" "Surveillance" "MSL") in
    let relative_generator :=
      OwnshipRelativeTrackGenerator.mk
        (set_start_time
           (OwnshipRelativeTrackGenerator.base relative_generator)
           track_start_time)
        (OwnshipRelativeTrackGenerator.ownship_track relative_generator)
        (OwnshipRelativeTrackGenerator.separation_distance
           relative_generator)
        (OwnshipRelativeTrackGenerator.relative_direction
           relative_generator)
        (OwnshipRelativeTrackGenerator.alt_offset relative_generator) in
    points <- OwnshipRelativeTrackGenerator.generate relative_generator ;;
    ret (Generated points))
    (range_from 1 (ArtificialTrackGenerator.num_tracks self)) g
  = Raise TypeError.
Proof.
  intros Hbad Hnt. unfold range_from.
  destruct (Z.to_nat (ArtificialTrackGenerator.num_tracks self - 1))
    as [ | m ] eqn:Em; [ lia | ].
  cbn [seq map]. apply mapM_Raise_head. cbv zeta.
  apply bind_Raise.
  unfold OwnshipRelativeTrackGenerator.generate, enumerate, range.
  rewrite Nat2Z.id.
  match goal with
  | |- OwnshipRelativeTrackGenerator.generate_from ?rg _ _ _ _ = _ =>
      exact (generate_from_TypeError rg _ 0 None g eq_refl Hbad)
  end.
Qed.





(** ** artificial_tracks.py: the CSV reader of [load_ownship_trajectory] *)

Lemma csv_row_cases (env : Env) (i : nat) (row : list string) :
  csv_row env (Z.of_nat i) row
  = match csv_cells env row with
    | None => Ok None
    | Some (lat, lon, alt) =>
        match nth_error row 3 with
        | Some c3 =>
            match float_of_string env c3 with
            | Some time => Ok (Some (csv_sample time lat lon alt))
            | None =>
                Raise (ValueError
                         ("could not convert string to float: " ++ c3))
            end
        | None => Ok (Some (csv_sample (IZR (Z.of_nat i)) lat lon alt))
        end
    end.
Proof.
  unfold csv_row, csv_cells, float.
  destruct (nth_error row 0) as [ c0 | ]; [ | reflexivity ].
  destruct (nth_error row 1) as [ c1 | ]; [ | reflexivity ].
  destruct (nth_error row 2) as [ c2 | ]; [ | reflexivity ].
  destruct (float_of_string env c0) as [ lat | ]; [ | reflexivity ].
  destruct (float_of_string env c1) as [ lon | ];
    [ | destruct (float_of_string env c2); reflexivity ].
  destruct (float_of_string env c2) as [ alt | ]; [ | reflexivity ].
  destruct (nth_error row 3) as [ c3 | ]; [ | reflexivity ].
  destruct (float_of_string env c3); reflexivity.
Qed.

(** The loop over the rows from index [k] of the file on. *)
Lemma csv_rows_from (env : Env) (rows : list (list string)) :
  forall k : nat,
    ((exists (j : nat) (row : list string) (cells : R * R * R),
         nth_error rows j = Some row /\ csv_cells env row = Some cells
         /\ csv_time env (k + j) row = None) ->
     exists msg : string,
       csv_rows env (combine (map Z.of_nat (seq k (List.length rows))) rows)
       = Raise (ValueError msg))
    /\ ((forall (j : nat) (row : list string) (cells : R * R * R),
            nth_error rows j = Some row -> csv_cells env row = Some cells ->
            csv_time env (k + j) row <> None) ->
        exists samples : list RefSample,
          csv_rows env
            (combine (map Z.of_nat (seq k (List.length rows))) rows)
          = Ok samples
          /\ (List.length samples <= List.length rows)%nat
          /\ forall pt : RefSample,
              In pt samples <->
              exists (j : nat) (row : list string) (lat lon alt time : R),
                nth_error rows j = Some row
                /\ csv_cells env row = Some (lat, lon, alt)
                /\ csv_time env (k + j) row = Some time
                /\ pt = csv_sample time lat lon alt).
Proof.
  induction rows as [ | row rows IH ]; intros k.
  - split.
    + intros (j & r & c & Hj & _). destruct j; discriminate Hj.
    + intros _. exists []. split; [ reflexivity | ].
      split; [ simpl; lia | ].
      intros pt. split; [ intros [] | ].
      intros (j & r & _ & _ & _ & _ & Hj & _). destruct j; discriminate Hj.
  - destruct (IH (S k)) as (IHbad & IHok). clear IH.
    cbn [List.length seq map combine csv_rows].
    rewrite csv_row_cases.
    split.
    + intros (j & r & c & Hj & Hc & Ht).
      destruct j as [ | j ].
      * injection Hj as <-. rewrite Hc. destruct c as [[lat lon] alt].
        unfold csv_time in Ht. rewrite Nat.add_0_r in Ht.
        destruct (nth_error row 3) as [ c3 | ]; [ | discriminate Ht ].
        rewrite Ht. eexists. reflexivity.
      * assert (Hrest : exists msg : string,
                  csv_rows env
                    (combine (map Z.of_nat (seq (S k) (List.length rows)))
                       rows) = Raise (ValueError msg)).
        { apply IHbad. exists j, r, c. split; [ exact Hj | ].
          split; [ exact Hc | ].
          replace (S k + j)%nat with (k + S j)%nat by lia. exact Ht. }
        destruct Hrest as (msg & Hrest).
        destruct (csv_cells env row) as [ [[lat lon] alt] | ].
        -- destruct (nth_error row 3) as [ c3 | ].
           ++ destruct (float_of_string env c3).
              ** cbn [rbind]. rewrite Hrest. exists msg. reflexivity.
              ** eexists. reflexivity.
           ++ cbn [rbind]. rewrite Hrest. exists msg. reflexivity.
        -- cbn [rbind]. rewrite Hrest. exists msg. reflexivity.
    + intros Hall.
      destruct IHok as (samples & Hrest & Hlen & Hin).
      { intros j r c Hj Hc.
        replace (S k + j)%nat with (k + S j)%nat by lia.
        exact (Hall (S j) r c Hj Hc). }
      rewrite Hrest.
      destruct (csv_cells env row) as [ [[lat lon] alt] | ] eqn:Ecells.
      * pose proof (Hall 0%nat row _ eq_refl Ecells) as Ht.
        rewrite Nat.add_0_r in Ht. unfold csv_time in Ht.
        assert (Et : exists time : R,
                  csv_time env k row = Some time
                  /\ match nth_error row 3 with
                     | Some c3 =>
                         match float_of_string env c3 with
                         | Some time0 =>
                             Ok (Some (csv_sample time0 lat lon alt))
                         | None =>
                             Raise (ValueError
                                      ("could not convert string to float: "
                                       ++ c3))
                         end
                     | None =>
                         Ok (Some (csv_sample (IZR (Z.of_nat k)) lat lon alt))
                     end = Ok (Some (csv_sample time lat lon alt))).
        { unfold csv_time.
          destruct (nth_error row 3) as [ c3 | ].
          - destruct (float_of_string env c3) as [ t | ];
              [ | contradiction Ht; reflexivity ].
            exists t. split; reflexivity.
          - exists (IZR (Z.of_nat k)). split; reflexivity. }
        destruct Et as (time & Etime & ->). cbn [rbind].
        exists (csv_sample time lat lon alt :: samples).
        split; [ reflexivity | ]. split; [ simpl; lia | ].
        intros pt. split.
        -- intros [ <- | Hpt ].
           ++ exists 0%nat, row, lat, lon, alt, time.
              rewrite Nat.add_0_r. repeat split; assumption.
           ++ apply Hin in Hpt.
              destruct Hpt as (j & r & la & lo & al & t & Hj & Hc & Ht' & E).
              exists (S j), r, la, lo, al, t.
              replace (k + S j)%nat with (S k + j)%nat by lia.
              repeat split; assumption.
        -- intros (j & r & la & lo & al & t & Hj & Hc & Ht' & E).
           destruct j as [ | j ].
           ++ injection Hj as <-. rewrite Nat.add_0_r in Ht'.
              rewrite Ecells in Hc. injection Hc as <- <- <-.
              rewrite Etime in Ht'. injection Ht' as <-.
              left. symmetry. exact E.
           ++ right. apply Hin. exists j, r, la, lo, al, t.
              replace (S k + j)%nat with (k + S j)%nat by lia.
              repeat split; assumption.
      * cbn [rbind]. exists samples.
        split; [ reflexivity | ]. split; [ simpl; lia | ].
        intros pt. split.
        -- intros Hpt. apply Hin in Hpt.
           destruct Hpt as (j & r & la & lo & al & t & Hj & Hc & Ht' & E).
           exists (S j), r, la, lo, al, t.
           replace (k + S j)%nat with (S k + j)%nat by lia.
           repeat split; assumption.
        -- intros (j & r & la & lo & al & t & Hj & Hc & Ht' & E).
           destruct j as [ | j ].
           ++ injection Hj as <-. rewrite Ecells in Hc. discriminate Hc.
           ++ apply Hin. exists j, r, la, lo, al, t.
              replace (S k + j)%nat with (k + S j)%nat by lia.
              repeat split; assumption.
Qed.



(** ** artificial_tracks.py: [save_to_csv] *)

Lemma generate_sets_tracks (env : Env) (self self' : ArtificialTrackGenerator.t)
  (now : R) (g g' : RNG) (tracks : list Track) :
  ArtificialTrackGenerator.generate env self now g = Ok ((self', tracks), g') ->
  ArtificialTrackGenerator.tracks self' = tracks.
Proof.
  unfold ArtificialTrackGenerator.generate. intros H.
  apply bind_Ok in H. destruct H as (trs & g1 & _ & Hret).
  unfold ret in Hret. injection Hret as <- <- _. reflexivity.
Qed.

Lemma write_rows_generated (tracks : list Track) :
  Forall is_generated tracks ->
  forall written : list CsvRow,
    write_rows (flat_map track_dicts tracks) written
    = ((written ++ map PointRow (generated_points tracks))%list, Ok tt).
Proof.
  induction 1 as [ | tr tracks (pts & ->) _ IH ]; intros written.
  - simpl. rewrite app_nil_r. reflexivity.
  - cbn [flat_map track_dicts generated_points].
    fold (generated_points tracks).
    revert written. induction pts as [ | p pts IHp ]; intros written.
    + simpl. apply IH.
    + cbn [map app write_rows writerow]. rewrite IHp.
      rewrite <- app_assoc. reflexivity.
Qed.

(** X24: saving after [generate].  Without tracks no file is written.
    When every track was generated, the file holds the header and one row
    per point, track after track in the order of the points.  When the
    first track is a loaded ownship whose first sample has one of the keys
    "time", "lat", "lon" or "alt", as every sample read from a CSV file
    has, [save_to_csv] raises [ValueError] and leaves a file with the
    header only. *)
Theorem save_to_csv_after_generate :
  forall (env : Env) (self self' : ArtificialTrackGenerator.t) (now : R)
    (g g' : RNG) (tracks : list Track) (filepath : string),
    ArtificialTrackGenerator.generate env self now g
    = Ok ((self', tracks), g') ->
    (tracks = [] -> save_to_csv self' filepath = (None, Ok tt))
    /\ (tracks <> [] -> Forall is_generated tracks ->
        save_to_csv self' filepath
        = (Some (filepath,
                 mkCsvFile fieldnames
                   (map PointRow (generated_points tracks))),
           Ok tt))
    /\ (forall (pt : RefSample) (rest : list RefSample)
          (others : list Track),
           tracks = Loaded (pt :: rest) :: others ->
           wrong_fields pt <> [] ->
           exists msg : string,
             save_to_csv self' filepath
             = (Some (filepath, mkCsvFile fieldnames []),
                Raise (ValueError msg)))
    /\ (forall time lat lon alt : R,
           wrong_fields (csv_sample time lat lon alt)
           = ["time"; "lat"; "lon"; "alt"]).
Proof.
  intros env self self' now g g' tracks filepath H.
  apply generate_sets_tracks in H.
  split; [ | split; [ | split ] ].
  - intros ->. unfold save_to_csv. rewrite H. reflexivity.
  - intros Hne Hall. unfold save_to_csv. rewrite H.
    destruct tracks as [ | tr trs ]; [ contradiction Hne; reflexivity | ].
    rewrite (write_rows_generated _ Hall []). reflexivity.
  - intros pt rest others -> Hw. unfold save_to_csv. rewrite H.
    cbn [flat_map track_dicts map app write_rows writerow].
    destruct (wrong_fields pt) as [ | f fs ];
      [ contradiction Hw; reflexivity | ].
    eexists. reflexivity.
  - reflexivity.
Qed.

Lemma save_to_csv_after_generate_witness :
  exists (self' : ArtificialTrackGenerator.t) (p : TrackPoint) (g' : RNG),
    save_to_csv self' "output.csv"
    = (Some ("output.csv", mkCsvFile fieldnames [PointRow p]), Ok tt).
Proof.
  assert (H : exists (self' : ArtificialTrackGenerator.t) (p : TrackPoint)
                (g' : RNG),
             ArtificialTrackGenerator.generate Samples.env0
               (ArtificialTrackGenerator.init 1 "random" 33.75 (-118.25) 1000
                  0.005 30 None None false None "json" 1 10)
               0 Samples.rng0
             = Ok ((self', [Generated [p]]), g')).
  { eexists. eexists. eexists.
    unfold ArtificialTrackGenerator.generate,
      ArtificialTrackGenerator.generate_track,
      ArtificialTrackGenerator._select_generator.
    cbn [ArtificialTrackGenerator.init ArtificialTrackGenerator.fly_along
           ArtificialTrackGenerator.num_tracks
           ArtificialTrackGenerator.track_generator_class
           ArtificialTrackGenerator.num_points
           ArtificialTrackGenerator.interval_seconds lower lower_ascii].
    reflexivity. }
  destruct H as (self' & p & g' & H).
  exists self', p, g'.
  apply (proj1 (proj2 (save_to_csv_after_generate _ _ _ _ _ _ _
                         "output.csv" H))).
  - discriminate.
  - repeat constructor. exists [p]. reflexivity.
Defined.

(** ** utils.py: [process_trajectory] *)

Lemma prefix_app (s1 s2 s : string) :
  String.prefix (s1 ++ s2) s = true -> String.prefix s1 s = true.
Proof.
  revert s. induction s1 as [ | a s1 IH ]; intros s.
  - intros _. destruct s; reflexivity.
  - destruct s as [ | b s ]; simpl; [ discriminate | ].
    destruct (Ascii.ascii_dec a b); [ apply IH | discriminate ].
Qed.

Lemma prefix_long_lon (s : string) :
  String.prefix "long" s = true -> String.prefix "lon" s = true.
Proof. exact (prefix_app "lon" "g" s). Qed.

Lemma contains_long_lon (s : string) :
  contains "long" s = true -> contains "lon" s = true.
Proof.
  induction s as [ | c s IH ].
  - simpl. discriminate.
  - cbn [contains]. intros H. apply orb_true_iff in H.
    apply orb_true_iff. destruct H as [ H | H ].
    + left. apply prefix_long_lon. exact H.
    + right. apply IH. exact H.
Qed.

Lemma fold_detect_from (cols : list string) (a b c : nat) :
  a <> b -> a <> c -> b <> c ->
  forall (rest : list string) (k : nat),
    skipn k cols = rest ->
    (forall (j : nat) (col : string),
        nth_error cols j = Some col ->
        (contains "lat" col = true <-> j = a)
        /\ (contains "lon" col = true <-> j = b)
        /\ (contains "alt" col = true <-> j = c)) ->
    fold_left detect_step
      (combine (map Z.of_nat (seq k (List.length rest))) rest)
      (found_before a k, found_before b k, found_before c k)
    = (found_before a (k + List.length rest),
       found_before b (k + List.length rest),
       found_before c (k + List.length rest)).
Proof.
  intros Hab Hac Hbc rest.
  induction rest as [ | col rest IH ]; intros k Hskip Hcols.
  - simpl. rewrite Nat.add_0_r. reflexivity.
  - destruct (skipn_cons_nth cols k col rest Hskip) as (Hnth & Hskip' & _).
    cbn [List.length seq map combine fold_left].
    replace (k + S (List.length rest))%nat
      with (S k + List.length rest)%nat by lia.
    rewrite <- (IH (S k) Hskip' Hcols). f_equal.
    destruct (Hcols k col Hnth) as (Hlat & Hlon & Halt).
    unfold detect_step, found_before.
    assert (Hlong : contains "long" col = true -> contains "lon" col = true)
      by apply contains_long_lon.
    destruct (Nat.eq_dec k a) as [ -> | Hka ].
    + rewrite (proj2 Hlat eq_refl).
      rewrite Nat.ltb_irrefl. cbn [is_none andb].
      destruct (Nat.ltb_spec a (S a)); [ | lia ].
      destruct (Nat.ltb_spec b a), (Nat.ltb_spec b (S a)); try lia;
        destruct (Nat.ltb_spec c a), (Nat.ltb_spec c (S a)); try lia;
        reflexivity.
    + assert (E1 : contains "lat" col = false).
      { destruct (contains "lat" col); [ | reflexivity ].
        contradiction Hka. apply Hlat. reflexivity. }
      rewrite E1. cbn [andb].
      destruct (Nat.eq_dec k b) as [ -> | Hkb ].
      * rewrite (proj2 Hlon eq_refl). cbn [orb].
        rewrite Nat.ltb_irrefl. cbn [is_none andb].
        destruct (Nat.ltb_spec b (S b)); [ | lia ].
        destruct (Nat.ltb_spec a b), (Nat.ltb_spec a (S b)); try lia;
          destruct (Nat.ltb_spec c b), (Nat.ltb_spec c (S b)); try lia;
          reflexivity.
      * assert (E2 : contains "lon" col = false).
        { destruct (contains "lon" col); [ | reflexivity ].
          contradiction Hkb. apply Hlon. reflexivity. }
        assert (E3 : contains "long" col = false).
        { destruct (contains "long" col); [ | reflexivity ].
          rewrite Hlong in E2 by reflexivity. discriminate E2. }
        rewrite E2, E3. cbn [orb andb].
        destruct (Nat.eq_dec k c) as [ -> | Hkc ].
        -- rewrite (proj2 Halt eq_refl).
           rewrite Nat.ltb_irrefl. cbn [is_none andb].
           destruct (Nat.ltb_spec c (S c)); [ | lia ].
           destruct (Nat.ltb_spec a c), (Nat.ltb_spec a (S c)); try lia;
             destruct (Nat.ltb_spec b c), (Nat.ltb_spec b (S c)); try lia;
             reflexivity.
        -- assert (E4 : contains "alt" col = false).
           { destruct (contains "alt" col); [ | reflexivity ].
             contradiction Hkc. apply Halt. reflexivity. }
           rewrite E4. cbn [andb].
           destruct (Nat.ltb_spec a k), (Nat.ltb_spec a (S k)); try lia;
             destruct (Nat.ltb_spec b k), (Nat.ltb_spec b (S k)); try lia;
             destruct (Nat.ltb_spec c k), (Nat.ltb_spec c (S k)); try lia;
             reflexivity.
Qed.

(** A name that no label contains is not found. *)
Lemma fold_detect_none (cols : list (Z * string))
  (st : option Z * option Z * option Z) :
  (Forall (fun ic => contains "lat" (snd ic) = false) cols ->
   fst (fst st) = None ->
   fst (fst (fold_left detect_step cols st)) = None)
  /\ (Forall (fun ic => contains "lon" (snd ic) = false
                        /\ contains "long" (snd ic) = false) cols ->
      snd (fst st) = None ->
      snd (fst (fold_left detect_step cols st)) = None)
  /\ (Forall (fun ic => contains "alt" (snd ic) = false) cols ->
      snd st = None ->
      snd (fold_left detect_step cols st) = None).
Proof.
  revert st. induction cols as [ | [i col] cols IH ]; intros st.
  - simpl. repeat split; intros _ H; exact H.
  - cbn [fold_left].
    destruct (IH (detect_step st (i, col))) as (IH1 & IH2 & IH3).
    destruct st as [[la lo] al].
    split; [ | split ].
    + intros F H. inversion F as [ | x l Hc F' ]; subst.
      cbn [fst snd] in *. subst la. apply IH1; [ exact F' | ].
      unfold detect_step. rewrite Hc. cbn [andb].
      destruct ((contains "lon" col || contains "long" col) && is_none lo);
        [ reflexivity | ].
      destruct (contains "alt" col && is_none al); reflexivity.
    + intros F H. inversion F as [ | x l (Hc1 & Hc2) F' ]; subst.
      cbn [fst snd] in *. subst lo. apply IH2; [ exact F' | ].
      unfold detect_step. rewrite Hc1, Hc2. cbn [orb andb].
      destruct (contains "lat" col && is_none la); [ reflexivity | ].
      destruct (contains "alt" col && is_none al); reflexivity.
    + intros F H. inversion F as [ | x l Hc F' ]; subst.
      cbn [fst snd] in *. subst al. apply IH3; [ exact F' | ].
      unfold detect_step. rewrite Hc. cbn [andb].
      destruct (contains "lat" col && is_none la); [ reflexivity | ].
      destruct ((contains "lon" col || contains "long" col) && is_none lo);
        reflexivity.
Qed.

Lemma enumerate_as_combine {A} (l : list A) :
  enumerate l = combine (map Z.of_nat (seq 0 (List.length l))) l.
Proof. unfold enumerate, range. rewrite Nat2Z.id. reflexivity. Qed.

(** X25: how [process_trajectory] finds its three columns.  When, of the
    labels stripped and lowered, exactly one contains "lat", exactly one
    contains "lon" and exactly one contains "alt", and these are three
    different columns, the series are those columns, in whatever order
    they stand.  When no label contains "lat", or none contains "lon", or
    none contains "alt", the series are the first three columns of the
    frame in this order, whatever their labels; with fewer than three
    columns that raises [IndexError]. *)
Theorem select_series_by_label_or_position :
  forall df : DataFrame,
    let labels := map (fun col => lower (strip col)) (df_columns df) in
    (forall a b c : nat,
        a <> b -> a <> c -> b <> c ->
        (a < List.length labels)%nat -> (b < List.length labels)%nat ->
        (c < List.length labels)%nat ->
        (forall (j : nat) (col : string),
            nth_error labels j = Some col ->
            (contains "lat" col = true <-> j = a)
            /\ (contains "lon" col = true <-> j = b)
            /\ (contains "alt" col = true <-> j = c)) ->
        select_series df
        = Ok (map (fun row => nth a row (Text "")) (df_rows df),
              map (fun row => nth b row (Text "")) (df_rows df),
              map (fun row => nth c row (Text "")) (df_rows df)))
    /\ (Forall (fun col => contains "lat" col = false) labels
        \/ Forall (fun col => contains "lon" col = false) labels
        \/ Forall (fun col => contains "alt" col = false) labels ->
        ((3 <= List.length (df_columns df))%nat ->
         select_series df
         = Ok (map (fun row => nth 0 row (Text "")) (df_rows df),
               map (fun row => nth 1 row (Text "")) (df_rows df),
               map (fun row => nth 2 row (Text "")) (df_rows df)))
        /\ ((List.length (df_columns df) < 3)%nat ->
            select_series df = Raise IndexError)).
Proof.
  intros df labels.
  assert (Hlen : List.length labels = List.length (df_columns df))
    by apply length_map.
  assert (Hcol : forall j : nat,
             (j < List.length (df_columns df))%nat ->
             column df (Z.of_nat j)
             = Ok (map (fun row => nth j row (Text "")) (df_rows df))).
  { intros j Hj. unfold column. rewrite Nat2Z.id.
    destruct (nth_error_of_length (df_columns df) j Hj) as (l & ->).
    reflexivity. }
  split.
  - intros a b c Hab Hac Hbc Ha Hb Hc Hcols.
    unfold select_series. fold labels. cbv zeta.
    assert (Hdet : detect_columns labels
                   = (Some (Z.of_nat a), Some (Z.of_nat b),
                      Some (Z.of_nat c))).
    { unfold detect_columns. rewrite enumerate_as_combine.
      pose proof (fold_detect_from labels a b c Hab Hac Hbc labels 0
                    eq_refl Hcols) as H.
      change (found_before a 0, found_before b 0, found_before c 0)
        with (@None Z, @None Z, @None Z) in H.
      cbn [Nat.add] in H. rewrite H. unfold found_before.
      destruct (Nat.ltb_spec a (List.length labels)); [ | lia ].
      destruct (Nat.ltb_spec b (List.length labels)); [ | lia ].
      destruct (Nat.ltb_spec c (List.length labels)); [ | lia ].
      reflexivity. }
    rewrite Hdet.
    rewrite !Hcol by lia. reflexivity.
  - intros Hnone.
    assert (Hdet : exists la lo al,
               detect_columns labels = (la, lo, al)
               /\ (la = None \/ lo = None \/ al = None)).
    { unfold detect_columns.
      destruct (fold_detect_none (enumerate labels) (None, None, None))
        as (H1 & H2 & H3).
      destruct (fold_left detect_step (enumerate labels)
                  (None, None, None)) as [[la lo] al].
      exists la, lo, al. split; [ reflexivity | ].
      cbn [fst snd] in H1, H2, H3.
      assert (Hin : forall (P : string -> Prop),
                 Forall P labels ->
                 Forall (fun ic : Z * string => P (snd ic))
                   (enumerate labels)).
      { intros P F. apply Forall_forall. intros [i col] Hi.
        unfold enumerate in Hi. apply in_combine_r in Hi.
        rewrite Forall_forall in F. apply F. exact Hi. }
      destruct Hnone as [ F | [ F | F ] ].
      - left. apply H1; [ | reflexivity ].
        exact (Hin (fun col => contains "lat" col = false) F).
      - right. left. apply H2; [ | reflexivity ].
        apply (Hin (fun col => contains "lon" col = false
                               /\ contains "long" col = false)).
        revert F. apply Forall_impl. intros col Hc.
        split; [ exact Hc | ].
        destruct (contains "long" col) eqn:E; [ | reflexivity ].
        rewrite (contains_long_lon _ E) in Hc. discriminate Hc.
      - right. right. apply H3; [ | reflexivity ].
        exact (Hin (fun col => contains "alt" col = false) F). }
    destruct Hdet as (la & lo & al & Hdet & Hmiss).
    assert (Hsel : select_series df
                   = rbind (column df 0) (fun lat_series =>
                     rbind (column df 1) (fun lon_series =>
                     rbind (column df 2) (fun alt_series =>
                     Ok (lat_series, lon_series, alt_series))))).
    { unfold select_series. fold labels. cbv zeta. rewrite Hdet.
      destruct la, lo, al; try reflexivity.
      destruct Hmiss as [ H | [ H | H ] ]; discriminate H. }
    rewrite Hsel. split.
    + intros H3.
      pose proof (Hcol 0%nat ltac:(lia)) as H0.
      pose proof (Hcol 1%nat ltac:(lia)) as H1.
      pose proof (Hcol 2%nat ltac:(lia)) as H2.
      change (Z.of_nat 0) with 0%Z in H0.
      change (Z.of_nat 1) with 1%Z in H1.
      change (Z.of_nat 2) with 2%Z in H2.
      rewrite H0, H1, H2. reflexivity.
    + intros H3. unfold column.
      destruct (df_columns df) as [ | l0 [ | l1 [ | l2 ls ] ] ];
        try reflexivity.
      simpl in H3. lia.
Qed.

Lemma index_of_absent (name : string) (labels : list string) :
  ~ In name labels -> index_of name labels = None.
Proof.
  induction labels as [ | l labels IH ]; intros Hn; [ reflexivity | ].
  simpl. destruct (String.eqb_spec l name) as [ E | _ ].
  - contradiction Hn. left. exact E.
  - rewrite IH; [ reflexivity | ]. intros Hin. apply Hn. right. exact Hin.
Qed.

Lemma ned_rows_numeric (rlat rlon ralt : R) (lats : list R) :
  forall (lons alts : list R) (rx ry rz : R),
    Geo.geodetic_to_ecef rlat rlon ralt = (rx, ry, rz) ->
    ned_rows rx ry rz rlat rlon
      (combine (combine (map Num lats) (map Num lons)) (map Num alts))
    = Ok (map (fun w : R * R * R =>
                 let '(lat, lon, alt) := w in
                 Geo.lla_to_ned lat lon alt rlat rlon ralt)
            (combine (combine lats lons) alts)).
Proof.
  induction lats as [ | la lats IH ]; intros lons alts rx ry rz Href.
  - reflexivity.
  - destruct lons as [ | lo lons ]; [ reflexivity | ].
    destruct alts as [ | al alts ]; [ reflexivity | ].
    cbn [map combine ned_rows number rbind].
    rewrite (IH lons alts rx ry rz Href).
    unfold Geo.lla_to_ned at 2. rewrite Href.
    destruct (Geo.geodetic_to_ecef la lo al) as [[x y] z].
    reflexivity.
Qed.

Lemma set_ned_columns (df : DataFrame) (rlat rlon ralt : R)
  (ways : list (R * R * R)) :
  ~ In "north" (df_columns df) -> ~ In "east" (df_columns df) ->
  ~ In "down" (df_columns df) ->
  let ned := map (fun w : R * R * R =>
                    let '(lat, lon, alt) := w in
                    Geo.lla_to_ned lat lon alt rlat rlon ralt) ways in
  set_column
    (set_column
       (set_column df "north" (map (fun v => fst (fst v)) ned))
       "east" (map (fun v => snd (fst v)) ned))
    "down" (map (fun v => snd v) ned)
  = mkDataFrame (df_columns df ++ ["north"; "east"; "down"])
      (map (with_ned rlat rlon ralt) (combine (df_rows df) ways)).
Proof.
  intros Hn He Hd ned.
  unfold set_column at 3. rewrite (index_of_absent _ _ Hn).
  unfold set_column at 2. cbn [df_columns df_rows].
  rewrite index_of_absent.
  2:{ intros Hin. apply in_app_or in Hin. destruct Hin as [ Hin | Hin ].
      - exact (He Hin).
      - destruct Hin as [ E | [] ]. discriminate E. }
  unfold set_column. cbn [df_columns df_rows].
  rewrite index_of_absent.
  2:{ intros Hin. apply in_app_or in Hin. destruct Hin as [ Hin | Hin ].
      - apply in_app_or in Hin. destruct Hin as [ Hin | Hin ].
        + exact (Hd Hin).
        + destruct Hin as [ E | [] ]. discriminate E.
      - destruct Hin as [ E | [] ]. discriminate E. }
  f_equal.
  - rewrite <- !app_assoc. reflexivity.
  - unfold ned. clear. generalize (df_rows df) as rows.
    induction ways as [ | [[la lo] al] ways IH ]; intros rows.
    + destruct rows; reflexivity.
    + destruct rows as [ | row rows ]; [ reflexivity | ].
      cbn [map combine fst snd with_ned].
      rewrite IH.
      destruct (Geo.lla_to_ned la lo al rlat rlon ralt) as [[n e] d].
      cbn [fst snd]. rewrite <- !app_assoc. reflexivity.
Qed.

(** X26: [process_trajectory] on a frame whose three series are numbers
    and which has no column "north", "east" or "down".  The reference is
    the point given, or the first waypoint when one of the three values
    is missing.  The file written has the frame's columns followed by
    "north", "east" and "down", and each row followed by the coordinates
    that [lla_to_ned] gives for its waypoint; the output file defaults to
    "ned_output.csv".  When the reference is the first waypoint, the first
    row gets the coordinates 0, 0, 0. *)
Theorem process_trajectory_appends_ned :
  forall (pd : Pandas) (input_file : string) (output_file : option string)
    (ref_lat ref_lon ref_alt : option R) (df : DataFrame)
    (lats lons alts : list R) (rlat rlon ralt : R),
    read_csv_frame pd input_file = Some df ->
    select_series df = Ok (map Num lats, map Num lons, map Num alts) ->
    ~ In "north" (df_columns df) -> ~ In "east" (df_columns df) ->
    ~ In "down" (df_columns df) ->
    reference_point ref_lat ref_lon ref_alt lats lons alts
    = Some (rlat, rlon, ralt) ->
    process_trajectory pd input_file output_file ref_lat ref_lon ref_alt
    = Ok (Some (match output_file with
                | Some f => f
                | None => "ned_output.csv"
                end,
                mkDataFrame (df_columns df ++ ["north"; "east"; "down"])
                  (map (with_ned rlat rlon ralt)
                     (combine (df_rows df)
                        (combine (combine lats lons) alts)))))
    /\ (reference_point ref_lat ref_lon ref_alt lats lons alts
        = reference_point None None None lats lons alts ->
        forall (row : list cell) (rows : list (list cell)),
          df_rows df = row :: rows ->
          with_ned rlat rlon ralt
            (row, (nth 0 lats 0, nth 0 lons 0, nth 0 alts 0))
          = (row ++ [Num 0; Num 0; Num 0])%list).
Proof.
  intros pd input_file output_file ref_lat ref_lon ref_alt df lats lons alts
    rlat rlon ralt Hread Hsel Hn He Hd Href.
  split.
  - unfold process_trajectory. rewrite Hread, Hsel. cbn [rbind].
    assert (Hr : select_reference ref_lat ref_lon ref_alt
                   (map Num lats) (map Num lons) (map Num alts)
                 = Ok (Num rlat, Num rlon, Num ralt)).
    { unfold select_reference, reference_point in *.
      destruct ref_lat as [ a | ], ref_lon as [ b | ], ref_alt as [ c | ];
        try (injection Href as <- <- <-; reflexivity);
        destruct lats as [ | la lats' ], lons as [ | lo lons' ],
                 alts as [ | al alts' ];
        try discriminate Href;
        injection Href as <- <- <-; reflexivity. }
    rewrite Hr. cbn [rbind number].
    destruct (Geo.geodetic_to_ecef rlat rlon ralt) as [[rx ry] rz] eqn:Eref.
    rewrite (ned_rows_numeric rlat rlon ralt lats lons alts rx ry rz Eref).
    cbn [rbind].
    rewrite (set_ned_columns df rlat rlon ralt _ Hn He Hd).
    reflexivity.
  - intros Hfirst row rows Hrows.
    rewrite Hfirst in Href. unfold reference_point in Href.
    destruct lats as [ | la lats' ], lons as [ | lo lons' ],
             alts as [ | al alts' ]; try discriminate Href.
    injection Href as <- <- <-. cbn [nth with_ned].
    rewrite lla_to_ned_self. reflexivity.
Qed.

Lemma process_trajectory_appends_ned_witness :
  process_trajectory Fixtures.pandas_lla "waypoints.csv" None None None None
  = Ok (Some ("ned_output.csv",
              mkDataFrame
                ["Latitude"; "Longitude"; "Altitude (m)"; "north"; "east";
                 "down"]
                (map (with_ned 34 (-118) 100)
                   [ ([Num 34; Num (-118); Num 100], (34, -118, 100));
                     ([Num 34; Num (-118); Num 150], (34, -118, 150)) ]))).
Proof.
  apply (proj1 (process_trajectory_appends_ned Fixtures.pandas_lla
                  "waypoints.csv" None None None None Fixtures.frame_lla
                  [34; 34] [-118; -118] [100; 150] 34 (-118) 100
                  eq_refl eq_refl
                  ltac:(cbn; intuition discriminate)
                  ltac:(cbn; intuition discriminate)
                  ltac:(cbn; intuition discriminate)
                  eq_refl)).
Defined.

(** X27: the edges of [process_trajectory].  An input that cannot be read
    writes nothing.  A reference of which one value is missing is ignored
    as a whole: the result is that of no reference at all.  Without a
    complete reference an empty frame raises [IndexError]; with a complete
    reference, a text in a row of the latitude series raises
    [TypeError]. *)
Theorem process_trajectory_edges :
  forall (pd : Pandas) (input_file : string) (output_file : option string)
    (ref_lat ref_lon ref_alt : option R),
    (read_csv_frame pd input_file = None ->
     process_trajectory pd input_file output_file ref_lat ref_lon ref_alt
     = Ok None)
    /\ (ref_lat = None \/ ref_lon = None \/ ref_alt = None ->
        process_trajectory pd input_file output_file ref_lat ref_lon ref_alt
        = process_trajectory pd input_file output_file None None None)
    /\ (forall (df : DataFrame) (lat_s lon_s alt_s : list cell),
           read_csv_frame pd input_file = Some df ->
           select_series df = Ok (lat_s, lon_s, alt_s) ->
           (df_rows df = [] ->
            process_trajectory pd input_file output_file None None None
            = Raise IndexError)
           /\ (forall (a b c : R),
                  ref_lat = Some a -> ref_lon = Some b -> ref_alt = Some c ->
                  (exists (i : nat) (s : string),
                      nth_error lat_s i = Some (Text s)
                      /\ (i < List.length lon_s)%nat
                      /\ (i < List.length alt_s)%nat) ->
                  process_trajectory pd input_file output_file
                    ref_lat ref_lon ref_alt = Raise TypeError)).
Proof.
  intros pd input_file output_file ref_lat ref_lon ref_alt.
  split; [ | split ].
  - intros H. unfold process_trajectory. rewrite H. reflexivity.
  - intros Hmiss. unfold process_trajectory.
    destruct (read_csv_frame pd input_file) as [ df | ]; [ | reflexivity ].
    destruct (select_series df) as [ [[lat_s lon_s] alt_s] | e ];
      [ | reflexivity ].
    cbn [rbind].
    assert (E : select_reference ref_lat ref_lon ref_alt lat_s lon_s alt_s
                = select_reference None None None lat_s lon_s alt_s).
    { unfold select_reference.
      destruct ref_lat, ref_lon, ref_alt; try reflexivity.
      destruct Hmiss as [ H | [ H | H ] ]; discriminate H. }
    rewrite E. reflexivity.
  - intros df lat_s lon_s alt_s Hread Hsel. split.
    + intros Hrows. unfold process_trajectory. rewrite Hread, Hsel.
      cbn [rbind].
      assert (Hl : lat_s = []).
      { unfold select_series in Hsel. cbv zeta in Hsel.
        destruct (detect_columns _) as [[la lo] al].
        assert (Hc : forall j series,
                   column df j = Ok series -> series = []).
        { intros j series Hj. unfold column in Hj. rewrite Hrows in Hj.
          destruct (nth_error (df_columns df) (Z.to_nat j));
            [ | discriminate Hj ].
          injection Hj as <-. reflexivity. }
        destruct la as [ a | ], lo as [ b | ], al as [ c | ];
          match type of Hsel with
          | rbind (column df ?j) _ = _ =>
              destruct (column df j) as [ s1 | ] eqn:E1;
                [ | discriminate Hsel ];
                cbn [rbind] in Hsel;
                match type of Hsel with
                | rbind (column df ?j2) _ = _ =>
                    destruct (column df j2) as [ s2 | ];
                      [ | discriminate Hsel ];
                      cbn [rbind] in Hsel;
                      match type of Hsel with
                      | rbind (column df ?j3) _ = _ =>
                          destruct (column df j3) as [ s3 | ];
                            [ | discriminate Hsel ];
                            cbn [rbind] in Hsel
                      end
                end
          end;
          injection Hsel as <- _ _; exact (Hc _ _ E1). }
      rewrite Hl. reflexivity.
    + intros a b c -> -> -> (i & s & Hi & Hlo & Hal).
      unfold process_trajectory. rewrite Hread, Hsel.
      cbn [rbind select_reference number].
      destruct (Geo.geodetic_to_ecef a b c) as [[rx ry] rz].
      assert (Hrows : ned_rows rx ry rz a b
                        (combine (combine lat_s lon_s) alt_s)
                      = Raise TypeError).
      { clear Hsel Hread. revert lat_s lon_s alt_s Hi Hlo Hal.
        induction i as [ | i IH ]; intros lat_s lon_s alt_s Hi Hlo Hal.
        - destruct lat_s as [ | c0 lat_s ]; [ discriminate Hi | ].
          injection Hi as ->.
          destruct lon_s as [ | c1 lon_s ]; [ simpl in Hlo; lia | ].
          destruct alt_s as [ | c2 alt_s ]; [ simpl in Hal; lia | ].
          reflexivity.
        - destruct lat_s as [ | c0 lat_s ]; [ discriminate Hi | ].
          destruct lon_s as [ | c1 lon_s ]; [ simpl in Hlo; lia | ].
          destruct alt_s as [ | c2 alt_s ]; [ simpl in Hal; lia | ].
          cbn [combine ned_rows].
          simpl in Hi, Hlo, Hal.
          rewrite (IH lat_s lon_s alt_s Hi ltac:(lia) ltac:(lia)).
          destruct c0 as [ x0 | ]; [ | reflexivity ].
          destruct c1 as [ x1 | ]; [ | reflexivity ].
          destruct c2 as [ x2 | ]; [ | reflexivity ].
          cbn [number rbind].
          destruct (Geo.geodetic_to_ecef x0 x1 x2) as [[x y] z].
          reflexivity. }
      rewrite Hrows. reflexivity.
Qed.

(** ** scenario_generator.py: the assembled document *)

(** One iteration that returns: the list of vehicles after it, and what
    it has appended. *)
Lemma step_appends (folder : Scenario.Folder)
  (trajectories_folder fmu_path : string)
  (sensor_configs : list Scenario.SensorConfig)
  (sc sc' : Scenario.ScenarioDoc) (L L' : list string) (it : Z * string) :
  Scenario.step folder trajectories_folder fmu_path sensor_configs (sc, L) it
  = Ok (sc', L') ->
  let live := filter (fun it => has_waypoints folder (snd it)) [it] in
  L' = (if (fst it =? 1)%Z && has_waypoints folder (snd it)
           && match L with [] => true | _ => false end
        then [actor_of (snd it)] else L)
  /\ map Scenario.actor_name (Scenario.actors sc')
     = (map Scenario.actor_name (Scenario.actors sc)
        ++ map (fun it => actor_of (snd it)) live)%list
  /\ Scenario.sync_topics sc'
     = (Scenario.sync_topics sc ++ map sync_of live)%list
  /\ map Scenario.fmu_id (Scenario.fmu_models sc')
     = (map Scenario.fmu_id (Scenario.fmu_models sc)
        ++ flat_map fmu_ids_of live)%list
  /\ Scenario.sensors sc'
     = (Scenario.sensors sc
        ++ flat_map (sensors_of sensor_configs L') live)%list
  /\ Scenario.renderers sc' = Scenario.renderers sc
  /\ Scenario.weather_preset sc' = Scenario.weather_preset sc
  /\ Scenario.description sc' = Scenario.description sc.
Proof.
  destruct it as [idx f]. unfold Scenario.step, has_waypoints.
  cbn [fst snd filter].
  destruct (Scenario.load folder f) as [ | w ws ].
  - intros H. injection H as <- <-. cbn [map flat_map].
    rewrite andb_false_r, !app_nil_r. cbn [andb].
    repeat split; reflexivity.
  - match goal with
    | |- rbind ?o _ = _ -> _ => destruct o as [ new_origin | e ]
    end; [ | discriminate ].
    cbn [rbind map flat_map].
    unfold sensors_of, fmu_ids_of, sync_of, actor_of. cbn [fst snd].
    remember ("actor" ++ Scenario.before_underscore f) as actor eqn:Ea.
    remember ("trajectory_follower_" ++ Scenario.before_underscore f)
      as follower eqn:Ef.
    intros H. injection H as <- <-.
    rewrite andb_true_r.
    cbn [Scenario.actors Scenario.sync_topics Scenario.fmu_models
           Scenario.sensors Scenario.renderers Scenario.weather_preset
           Scenario.description map flat_map].
    rewrite !map_app, !app_nil_r.
    cbn [map Scenario.actor_name Scenario.fmu_id].
    split; [ destruct (idx =? 1)%Z; destruct L; reflexivity | ].
    split; [ reflexivity | ].
    split; [ reflexivity | ].
    split; [ destruct (idx =? 1)%Z; reflexivity | ].
    split; [ | repeat split; reflexivity ].
    match goal with
    | |- (if ?c then _ else _) = _ => destruct c; rewrite ?app_nil_r;
                                      reflexivity
    end.
Qed.

(** The iterations after the first never fail and keep the vehicles. *)
Lemma run_appends (folder : Scenario.Folder)
  (trajectories_folder fmu_path : string)
  (sensor_configs : list Scenario.SensorConfig) (L : list string)
  (items : list (Z * string)) :
  Forall (fun it => fst it <> 1%Z) items ->
  forall sc : Scenario.ScenarioDoc,
    exists sc' : Scenario.ScenarioDoc,
      Scenario.run folder trajectories_folder fmu_path sensor_configs
        (sc, L) items = Ok (sc', L)
      /\ let live := filter (fun it => has_waypoints folder (snd it)) items in
         map Scenario.actor_name (Scenario.actors sc')
         = (map Scenario.actor_name (Scenario.actors sc)
            ++ map (fun it => actor_of (snd it)) live)%list
         /\ Scenario.sync_topics sc'
            = (Scenario.sync_topics sc ++ map sync_of live)%list
         /\ map Scenario.fmu_id (Scenario.fmu_models sc')
            = (map Scenario.fmu_id (Scenario.fmu_models sc)
               ++ flat_map fmu_ids_of live)%list
         /\ Scenario.sensors sc'
            = (Scenario.sensors sc
               ++ flat_map (sensors_of sensor_configs L) live)%list
         /\ Scenario.renderers sc' = Scenario.renderers sc
         /\ Scenario.weather_preset sc' = Scenario.weather_preset sc
         /\ Scenario.description sc' = Scenario.description sc
         /\ Scenario.origin sc' = Scenario.origin sc.
Proof.
  induction 1 as [ | [idx f] items Hidx _ IH ]; intros sc.
  - exists sc. split; [ reflexivity | ]. cbn [filter map flat_map].
    rewrite !app_nil_r. repeat split; reflexivity.
  - cbn [fst] in Hidx. cbn [Scenario.run].
    assert (Hstep : exists sc1 : Scenario.ScenarioDoc,
               Scenario.step folder trajectories_folder fmu_path
                 sensor_configs (sc, L) (idx, f) = Ok (sc1, L)).
    { unfold Scenario.step.
      destruct (Scenario.load folder f) as [ | w ws ].
      - exists sc. reflexivity.
      - destruct (Z.eqb_spec idx 1) as [ E | _ ]; [ contradiction | ].
        cbn [rbind andb]. eexists. reflexivity. }
    destruct Hstep as (sc1 & Hstep). rewrite Hstep. cbn [rbind].
    destruct (IH sc1) as (sc' & Hrun & Ha & Hs & Hf & Hse & Hr & Hw & Hd & Ho).
    exists sc'. split; [ exact Hrun | ].
    pose proof (step_origin_later _ _ _ _ _ _ _ _ Hidx Hstep) as Ho1.
    cbn [fst] in Ho1.
    destruct (step_appends _ _ _ _ _ _ _ _ _ Hstep)
      as (HL & Ha1 & Hs1 & Hf1 & Hse1 & Hr1 & Hw1 & Hd1).
    cbn [fst snd filter] in *.
    destruct (has_waypoints folder f);
      cbn [map flat_map] in *;
      rewrite ?app_nil_r in *;
      rewrite Ha, Hs, Hf, Hse, Hr, Hw, Hd, Ho,
        Ha1, Hs1, Hf1, Hse1, Hr1, Hw1, Hd1, Ho1;
      rewrite <- ?app_assoc; repeat split; reflexivity.
Qed.

Lemma enumerate_from_1_later {A} (l : list A) :
  Forall (fun it : Z * A => fst it <> 1%Z)
    (combine (map (fun k => Z.of_nat (S k)) (seq 1 (List.length l))) l).
Proof. apply later_indices. lia. Qed.

(** X28: when [generate_scenario_json] returns, the document holds, for
    each trajectory file with waypoints and in the sorted order of the file
    names, one actor [actor<id>], one sync topic [aerosim.actor<id>.vehicle_state]
    at 20 ms and one FMU [trajectory_follower_<id>]; the three sensor FMUs
    follow the follower of the first sorted file only, and only if that file
    holds waypoints.  The sensor configurations are attached, with the actor
    as parent, to the actors that the caller names, or, when the caller
    names none, to the actor of the first sorted file alone; the renderer
    lists the sensor names and the weather is the one given. *)
Theorem scenario_document_contents (folder : Scenario.Folder)
  (trajectories_folder fmu_path : string)
  (sensor_configs : option (list Scenario.SensorConfig))
  (add_sensors_to_vehicles : option (list string)) (weather : string)
  (doc : Scenario.ScenarioDoc) :
  Scenario.generate_scenario_json folder trajectories_folder fmu_path
    sensor_configs add_sensors_to_vehicles weather = Ok doc ->
  let live := live_files folder in
  let configs :=
    match sensor_configs with
    | Some l => l
    | None => Scenario.default_sensor_configs
    end in
  map Scenario.actor_name (Scenario.actors doc)
  = map (fun it => actor_of (snd it)) live
  /\ Scenario.sync_topics doc = map sync_of live
  /\ map Scenario.fmu_id (Scenario.fmu_models doc)
     = flat_map fmu_ids_of live
  /\ Scenario.sensors doc
     = flat_map
         (sensors_of configs (sensor_vehicles folder add_sensors_to_vehicles))
         live
  /\ Scenario.renderers doc
     = [Scenario.mkRenderer "0" "primary" (map Scenario.sensor_name configs)]
  /\ Scenario.weather_preset doc = weather.
Proof.
  unfold Scenario.generate_scenario_json, live_files, sensor_vehicles.
  cbv zeta.
  set (configs := match sensor_configs with
                  | Some l => l
                  | None => Scenario.default_sensor_configs
                  end).
  set (L := match add_sensors_to_vehicles with
            | Some l => l
            | None => []
            end).
  destruct (Scenario.trajectory_files folder) as [ | f files ].
  - cbn [Scenario.enumerate_from_1 List.length seq map combine Scenario.run
           rbind fst filter flat_map].
    intros H. injection H as <-.
    destruct add_sensors_to_vehicles as [ [ | v vs ] | ];
      repeat split; reflexivity.
  - rewrite enumerate_from_1_tail. cbn [Scenario.run].
    match goal with
    | |- context [ Scenario.step ?a ?b ?c ?d ?st (1%Z, f) ] =>
        destruct (Scenario.step a b c d st (1%Z, f)) as [ [sc1 L1] | e ]
          eqn:E
    end; [ | discriminate ].
    cbn [rbind].
    destruct (run_appends folder trajectories_folder fmu_path configs L1 _
                (enumerate_from_1_later files) sc1)
      as (sc' & Hrun & Ha & Hs & Hf & Hse & Hr & Hw & Hd & Ho).
    rewrite Hrun. cbn [rbind fst]. intros H. injection H as <-.
    destruct (step_appends _ _ _ _ _ _ _ _ _ E)
      as (HL & Ha1 & Hs1 & Hf1 & Hse1 & Hr1 & Hw1 & Hd1).
    cbn [fst snd Scenario.actors Scenario.sync_topics Scenario.fmu_models
           Scenario.sensors Scenario.renderers Scenario.weather_preset
           map app] in *.
    rewrite Z.eqb_refl in HL. cbn [andb] in HL.
    assert (EL : L1 = match add_sensors_to_vehicles with
                      | Some (v :: vs) => v :: vs
                      | _ => if has_waypoints folder f then [actor_of f]
                             else []
                      end).
    { rewrite HL. unfold L.
      destruct add_sensors_to_vehicles as [ [ | v vs ] | ];
        destruct (has_waypoints folder f); reflexivity. }
    rewrite <- EL.
    cbn [filter snd] in Ha1, Hs1, Hf1, Hse1 |- *.
    rewrite Ha, Hs, Hf, Hse, Hr, Hw, Ha1, Hs1, Hf1, Hse1, Hr1, Hw1.
    destruct (has_waypoints folder f); cbn [filter map flat_map app];
      rewrite ?app_nil_r; repeat split; reflexivity.
Qed.

Lemma scenario_document_contents_witness :
  exists doc : Scenario.ScenarioDoc,
    map Scenario.actor_name (Scenario.actors doc)
    = ["actor10001"; "actor20002"]
    /\ map Scenario.fmu_id (Scenario.fmu_models doc)
       = ["trajectory_follower_10001"; "gnss_publisher"; "adsb_publisher";
          "imu_publisher"; "trajectory_follower_20002"]
    /\ map Scenario.sensor_parent (Scenario.sensors doc)
       = [Some "actor10001"].
Proof.
  assert (H : exists doc : Scenario.ScenarioDoc,
             Scenario.generate_scenario_json Fixtures.folder_two
               "trajectories" "trajectory_follower.fmu" None None "Cloudy"
             = Ok doc).
  { eexists. vm_compute. reflexivity. }
  destruct H as (doc & H). exists doc.
  destruct (scenario_document_contents _ _ _ _ _ _ _ H)
    as (Ha & _ & Hf & Hs & _).
  rewrite Ha, Hf, Hs. repeat split; vm_compute; reflexivity.
Defined.

(** ** scenario_generator.py: failures and the listing order *)

(** The first iteration fails exactly on a first waypoint without latitude
    or longitude. *)
Lemma step_first (folder : Scenario.Folder)
  (trajectories_folder fmu_path : string)
  (sensor_configs : list Scenario.SensorConfig) (st : Scenario.state)
  (f : string) :
  let out :=
    Scenario.step folder trajectories_folder fmu_path sensor_configs st
      (1%Z, f) in
  match Scenario.load folder f with
  | w :: _ =>
      match Scenario.wp_lat w, Scenario.wp_lon w with
      | None, _ => out = Raise (KeyError "lat")
      | Some _, None => out = Raise (KeyError "lon")
      | Some _, Some _ => exists st' : Scenario.state, out = Ok st'
      end
  | [] => out = Ok st
  end.
Proof.
  destruct st as [sc L]. unfold Scenario.step.
  destruct (Scenario.load folder f) as [ | w ws ]; [ reflexivity | ].
  cbn [Z.eqb Pos.eqb].
  destruct (Scenario.wp_lat w) as [ lat | ]; [ | reflexivity ].
  destruct (Scenario.wp_lon w) as [ lon | ]; [ | reflexivity ].
  cbn [Scenario.field rbind]. eexists. reflexivity.
Qed.


(** Two sorted lists with the same elements are equal. *)
Lemma sorted_permutation_eq (l l' : list string) :
  StronglySorted (fun a b => is_true (String.leb a b)) l ->
  StronglySorted (fun a b => is_true (String.leb a b)) l' ->
  Permutation l l' -> l = l'.
Proof.
  intros Hl. revert l'.
  induction Hl as [ | a l Hl IH Ha ]; intros l' Hl' Hp.
  - apply Permutation_nil in Hp. symmetry. exact Hp.
  - destruct Hl' as [ | b l' Hl' Hb ].
    + apply Permutation_sym, Permutation_nil in Hp. discriminate Hp.
    + assert (E : a = b).
      { assert (Hab : In a (b :: l'))
          by (apply (Permutation_in _ Hp); left; reflexivity).
        assert (Hba : In b (a :: l))
          by (apply (Permutation_in _ (Permutation_sym Hp)); left;
              reflexivity).
        destruct Hab as [ E | Hab ]; [ symmetry; exact E | ].
        destruct Hba as [ E | Hba ]; [ exact E | ].
        rewrite Forall_forall in Ha, Hb.
        apply String.leb_antisym; [ exact (Ha _ Hba) | exact (Hb _ Hab) ]. }
      subst b. f_equal. apply IH; [ exact Hl' | ].
      exact (Permutation_cons_inv Hp).
Qed.

Lemma filter_listing {A} (p : A -> bool) (l l' : list A) :
  Permutation l l' -> Permutation (filter p l) (filter p l').
Proof.
  induction 1 as [ | x l l' _ IH | x y l | l l' l'' _ IH1 _ IH2 ];
    cbn [filter].
  - constructor.
  - destruct (p x); [ constructor | ]; exact IH.
  - destruct (p x), (p y); try apply Permutation_refl. apply perm_swap.
  - exact (Permutation_trans IH1 IH2).
Qed.

Lemma trajectory_files_listing (folder folder' : Scenario.Folder) :
  Permutation folder folder' ->
  Scenario.trajectory_files folder = Scenario.trajectory_files folder'.
Proof.
  intros Hp.
  apply sorted_permutation_eq; try apply trajectory_files_sorted.
  eapply Permutation_trans;
    [ apply Permutation_sym, trajectory_files_permutation | ].
  eapply Permutation_trans; [ | apply trajectory_files_permutation ].
  apply filter_listing, Permutation_map. exact Hp.
Qed.

Lemma load_In (folder : Scenario.Folder) (name : string)
  (waypoints : list Scenario.Waypoint) :
  NoDup (map fst folder) -> In (name, waypoints) folder ->
  Scenario.load folder name = waypoints.
Proof.
  induction folder as [ | [f ws] folder IH ]; intros Hnd Hin.
  - contradiction.
  - cbn [map fst] in Hnd. inversion Hnd as [ | ? ? Hf Hnd' ]; subst.
    cbn [Scenario.load].
    destruct Hin as [ E | Hin ].
    + injection E as -> ->. rewrite String.eqb_refl. reflexivity.
    + destruct (String.eqb_spec f name) as [ -> | _ ].
      * contradiction Hf. apply (in_map fst) in Hin. exact Hin.
      * exact (IH Hnd' Hin).
Qed.

Lemma load_absent (folder : Scenario.Folder) (name : string) :
  ~ In name (map fst folder) -> Scenario.load folder name = [].
Proof.
  induction folder as [ | [f ws] folder IH ]; intros Hn.
  - reflexivity.
  - cbn [Scenario.load]. cbn [map fst In] in Hn.
    destruct (String.eqb_spec f name) as [ E | _ ].
    + contradiction Hn. left. exact E.
    + apply IH. intros H. apply Hn. right. exact H.
Qed.

Lemma load_listing (folder folder' : Scenario.Folder) (name : string) :
  NoDup (map fst folder) -> Permutation folder folder' ->
  Scenario.load folder name = Scenario.load folder' name.
Proof.
  intros Hnd Hp.
  assert (Hnd' : NoDup (map fst folder'))
    by (apply (Permutation_NoDup (Permutation_map fst Hp)); exact Hnd).
  destruct (in_dec string_dec name (map fst folder)) as [ Hin | Hn ].
  - apply in_map_iff in Hin. destruct Hin as ([f ws] & E & Hin).
    cbn [fst] in E. subst f.
    rewrite (load_In _ _ _ Hnd Hin).
    symmetry. apply (load_In _ _ _ Hnd').
    exact (Permutation_in _ Hp Hin).
  - rewrite (load_absent _ _ Hn). symmetry. apply load_absent.
    intros H. apply Hn.
    exact (Permutation_in _ (Permutation_sym (Permutation_map fst Hp)) H).
Qed.

Lemma run_listing (folder folder' : Scenario.Folder)
  (trajectories_folder fmu_path : string)
  (sensor_configs : list Scenario.SensorConfig)
  (items : list (Z * string)) :
  (forall name : string,
      Scenario.load folder name = Scenario.load folder' name) ->
  forall st : Scenario.state,
    Scenario.run folder trajectories_folder fmu_path sensor_configs st items
    = Scenario.run folder' trajectories_folder fmu_path sensor_configs st
        items.
Proof.
  intros Hload. induction items as [ | [idx f] items IH ]; intros st.
  - reflexivity.
  - cbn [Scenario.run].
    assert (E : Scenario.step folder trajectories_folder fmu_path
                  sensor_configs st (idx, f)
                = Scenario.step folder' trajectories_folder fmu_path
                    sensor_configs st (idx, f)).
    { unfold Scenario.step. rewrite (Hload f). reflexivity. }
    rewrite E.
    destruct (Scenario.step folder' trajectories_folder fmu_path
                sensor_configs st (idx, f)) as [ st1 | e ];
      [ cbn [rbind]; apply IH | reflexivity ].
Qed.

(** X30: the result of [generate_scenario_json] does not depend on the
    order in which the directory lists its files: two listings of the same
    files, the names distinct, give the same document or the same error. *)
Theorem generate_scenario_json_listing_order
  (folder folder' : Scenario.Folder)
  (trajectories_folder fmu_path : string)
  (sensor_configs : option (list Scenario.SensorConfig))
  (add_sensors_to_vehicles : option (list string)) (weather : string) :
  NoDup (map fst folder) ->
  Permutation folder folder' ->
  Scenario.generate_scenario_json folder trajectories_folder fmu_path
    sensor_configs add_sensors_to_vehicles weather
  = Scenario.generate_scenario_json folder' trajectories_folder fmu_path
      sensor_configs add_sensors_to_vehicles weather.
Proof.
  intros Hnd Hp. unfold Scenario.generate_scenario_json. cbv zeta.
  rewrite (trajectory_files_listing _ _ Hp).
  rewrite (run_listing folder folder' _ _ _ _
             (fun name => load_listing _ _ name Hnd Hp)).
  reflexivity.
Qed.

Lemma generate_scenario_json_listing_order_witness :
  Scenario.generate_scenario_json Fixtures.folder_two "trajectories"
    "trajectory_follower.fmu" None None "Cloudy"
  = Scenario.generate_scenario_json Fixtures.folder_two_listed_again
      "trajectories" "trajectory_follower.fmu" None None "Cloudy".
Proof.
  apply generate_scenario_json_listing_order.
  - cbn [Fixtures.folder_two map fst].
    repeat constructor; cbn [In]; intros H;
      repeat (destruct H as [ H | H ]; [ discriminate H | ]); exact H.
  - unfold Fixtures.folder_two_listed_again, Fixtures.folder_two.
    cbn [nth].
    eapply perm_trans; [ | apply perm_swap ].
    apply perm_skip. apply perm_swap.
Defined.
